(* ===== verification/_CoqProject ===== *)
-Q . S2P
Prelude.v
JsCore.v
Bytes.v
Base58.v
Crc32.v
Wordlist.v
Mnemonic.v
Wallet.v
Words.v
Grade.v
Number.v
Json.v
JsonText.v
Http.v
Effects.v
Wordmine.v
WordmineServices.v
WordmineSafety.v
WordmineLedger.v
WordmineGame.v
Payout.v
PayoutSafety.v
Page.v
PageLogic.v
PageInv.v
PageSafety.v
PageSecrets.v
PageGame.v
Pool.v
Rpc.v
RpcSafety.v
Python.v
PoolState.v
PoolShares.v
PoolMoney.v
PoolHttp.v
PoolLocks.v
PoolSections.v
PoolRun.v
PoolInv.v
PoolSettle.v
PoolPay.v
PoolRaces.v
PoolFund.v
Lattice.v
LatticeSafety.v
LatticeHash.v
Miner.v
MinerShare.v
NodeInt.v
NodeWork.v
NodeCodec.v
NodeTree.v
NodeBlock.v
NodeChain.v
NodeChainSafety.v
NodeReward.v
PeerCache.v
PeerCacheText.v
PeerCacheSafety.v
NodeWords.v
NodeWordsSafety.v
MinerData.v
Faucet.v
