(* ===== verification/Prelude.v ===== *)
(** * Glaciem: a verification library for the wallet, the game, the mining pool, the proof of work and the node's chain

    Glaciem is a Monero-derived coin.  Its own code beside the C++ node is a set of JavaScript services and a page, servers in
    Python, and a proof of work with miners in C; those are what this library models, with the part of the node that decides which
    blocks are accepted:

    - the browser wallet (wordmine/public/lib/wallet.js with wordlist-en.js), which makes keys, seeds and addresses in the page;
    - Wordmine, a word game that pays small amounts: an edge worker over a key-value store (wordmine/src/worker.js and words.js),
      the page players use (wordmine/public/game.js in index.html), the daemon that pays claims
      (wordmine/payout/payout_daemon.py), and the script that splits its balance (faucet_split.py);
    - the mining pool: its server (pool/server/pool-server.py), a process of many threads that hands out jobs, verifies and counts
      shares, submits blocks, credits rewards and pays them out; the share verifier it loads (pool_verify.c); the script that sets up
      a growth fund (fund_sponsorship.py); and the edge worker before it (pool/cloudflare/pool-worker.js), a caching proxy;
    - the proof of work Lattice (pow/lattice_ref.c) and the miner that searches nonces (android/app/src/main/cpp/lattice_jni.c and
      the nonce offset of MinerEngine.kt);
    - the peer cache of the miner apps (pow/wallet/peer_cache.c), which remembers the endpoints they try;
    - the RPC proxy (cloudflare/glaciem-rpc-worker.js), a caching and failing-over proxy before the daemon nodes;
    - of the node (under src/): the proof-of-work test and the difficulty (cryptonote_basic/difficulty.cpp), the tree hash
      (crypto/tree-hash.c), the blob that is hashed and the seed of the dataset (cryptonote_format_utils.cpp, rx-slow-hash.c), the main chain, its
      alternatives and the switch between them, with this coin's cap on reorganisations and launch time (cryptonote_core/blockchain.cpp),
      the block reward (cryptonote_basic_impl.cpp), and the seed words (mnemonics/electrum-words.cpp).

    The parts meet at these places.  Seeds and addresses written by the wallet must be read by the node, so the decoders
    of the node (src/common/base58.cpp, src/common/varint.h, the arithmetic of src/mnemonics/electrum-words.cpp) are modelled beside the
    encoders, in Modules named [Cpp]; the node's own encoders must write the same, and its whole reader of seeds must read them.  Addresses written by the wallet must be accepted by the game's claim handler.  Records the game
    worker stores are read back by later requests, by concurrent requests and by the daemon.  The page's requests are answered
    by the worker.  Shares a miner finds are checked by the pool with the same hash, and blocks by the node.  And the threads of the pool server share memory
    and ledger files.

    ** Files

    - Prelude: results with a thrown error, automation, bits, positional notation, counting in maps.
    - JsCore: 32-bit operators, characters, regular expressions, numerals and UTF-8 of JavaScript.  Number: IEEE binary64 numbers
      (the Standard Library's executable [SpecFloat]) and a theory of rounding below an integer bound.  Json and
      JsonText: JSON values, conversions, [JSON.stringify] and [JSON.parse].  Http: headers and responses.  Python: the values and
      conversions of Python the pool server uses, with exact bounds for its division of integers.
    - Effects: programs as trees of awaited calls, their runs, all their paths, and their interleavings.
    - Bytes, Base58, Crc32, Wordlist, Mnemonic, Wallet: the browser wallet, bottom up, with the node's decoders.
    - Words, Grade: the game's word list and scoring.  Wordmine: the whole worker.  WordmineServices: the class of the
      services behind it, with a concrete instance.  WordmineSafety, WordmineLedger, WordmineGame: its theorems.
    - Payout: a round of the payout daemon.  PayoutSafety: the daemon and the worker on one store.
    - Page: the page's script, its document and its event loop.  PageLogic: a calculus for its callbacks, with the class [Frame] of
      relations that the parts outside the game preserve.  PageInv: the invariant of the reachable states.  PageSafety: its
      consequences, with liveness and termination.  PageSecrets: non-interference of the seed.  PageGame: the page with the worker.
    - Pool: the pool's edge worker and its theorems.  Rpc, RpcSafety: the RPC proxy and its theorems.
    - PoolState: data, globals, locks and calls of the pool server.  PoolShares: jobs, shares, blocks and settlement.  PoolMoney:
      balances, payouts, the cold sweep, maturity and reconciliation.  PoolHttp: handlers, background threads, start-up.
    - PoolLocks: the interleavings of the server's threads, and a calculus of the locks a thread holds.  PoolSections: the statements under
      the state lock as functions on what it protects.  PoolRun: an executable scheduler whose runs are interleavings.  PoolInv: the
      invariant of the globals, and a calculus for threads that change them under the lock only.  PoolSettle: settlement of a block.  PoolPay: balances,
      payouts and reconciliation.  PoolRaces: schedules that go wrong.  PoolFund: the growth fund.
    - Lattice: the hash.  LatticeSafety: memory safety, and the inverse of its permutation.  LatticeHash: the sponge construction
      and the properties of the whole hash.  Miner: the miner's search and the pool's check.  MinerShare: their agreement.
    - NodeInt, NodeWork: wide arithmetic, the node's test of a hash and its difficulty.  NodeCodec: the node's encoders.  NodeTree: the tree
      hash and its proofs of inclusion.  NodeBlock: the hashed blob, the seed heights and the check of a block's work.  NodeChain: the chain, its
      alternatives and the switch.  NodeChainSafety: the invariant of the reachable chains and its consequences.  NodeReward: the reward and the
      coinbase.
    - NodeWords: the node's languages and its seeds, written and read.  NodeWordsSafety: they are the browser's.  MinerData: the dataset in the
      miner and in the pool.  Faucet: the script that splits the faucet's balance.
    - PeerCache: the endpoints of the miner apps and their JSON.  PeerCacheText: what is written and read back.  PeerCacheSafety: the theorems.

    ** How code becomes definitions

    A function of the source is a definition of the same name.  Pure functions are functions; a function that can throw returns
    [res]; a loop is a [Fixpoint] named with the suffix [_loop] whose first argument counts the rounds the source makes, or fuel where
    the source has a [while].  An asynchronous handler is a [prog] over the services it awaits, in the source's order, with
    every early return and every [try]; a call's continuation receives the answer or the rejection.  A thread of the pool server is such a
    program too: its calls are the points where threads interleave, taking and releasing locks among them.  A callback of the page is an action on
    the page's state that may throw and keeps what it changed before; an asynchronous callback is cut at its [await] into the callback itself and
    a definition with the suffix [_answer].  C code is a function on arrays that has no result when it reads or writes outside of
    one, and memory that is not cleared holds whatever an argument says.  Code outside the repository is
    a class or an argument: the noble curve and hash packages ([Noble], with [NobleLaws]), the key-value store and the other services
    ([Services], [ServicesLaws], [StoreLaws]), SHA-256 ([Digest]), the order in which Python iterates over a set ([SetOrder]).  Each class
    with laws has a concrete instance.  The node and the wallet may answer the pool server anything; [PoolPay.never_overpaid] assumes only that
    fees are not negative, and counts the transfers that were made without an answer.  Theorems about the proxies
    hold for every behaviour of the services and assume nothing of them.

    Each read and each write of the pool server's counters, jobs and miners' records is a call of its own, so [x += 1] is two of them and a thread can be
    interrupted anywhere; a snapshot of the wallet's maturity, and the answer to a request about one miner or the statistics, are taken by
    one read for each object.

    Strings are strings of code units below 256.  Integers are [Z]; where the source computes with 32-bit or 64-bit
    operators the wrap-around is written out, and rewards and scaled payouts are binary64 numbers.  A stored JSON text is represented by the record it
    denotes; bodies of game and pool requests are values, bodies of the proxies are bytes.

    ** What the theorems show

    - Wallet: every 32-byte secret is written as 25 words that restore exactly it; exactly which word lists are accepted; the
      table-driven checksum is CRC-32; varints, base58 strings and whole addresses written by the browser are decoded by the
      node's code to what went in; addresses match the game's claim pattern; generated and restored wallets are
      usable and canonical.
    - Game: the two-pass scoring is the rule of the game; under any interleaving, with stale reads, failures and other writers, stored
      sessions are well typed and claims are for at most one coin; served one at a time, claims never exceed started games;
      a played game refines the abstract six-guess game; answers reveal only marks; the hourly slot is kept; every response
      has the security headers.
    - Payouts of the game: when requests and rounds of the daemon come one after another and its writes succeed, the payments the daemon
      orders, the claims still pending and the games still open to a claim never exceed the games started, and the daemon's writes keep the layout the worker relies on.  The
      split script sends at most once, to five addresses it was given, when enough was unlocked.
    - Page: in every state reachable by any order of clicks, keys, timers and answers, graded rows show their marks once turned and
      the keyboard the best mark of each letter; only five-letter guesses and well-formed addresses are sent; rows finish turning, the
      cooldown and the polling end; requests and storage do not depend on a generated seed; and page and worker together refine the abstract game, whose guesses and
      marks are what the board shows in the end.
    - Proxies: which calls one request can cause (blocked paths reach no node, only listed reads touch the cache, POSTs reach the
      origin), CORS headers on every answer, failover order, cache hits carry the caller's id, and cache keys of
      different requests stay apart.
    - Pool server: in every schedule of its threads there is no deadlock, and whenever the state lock is free the counters agree and no height is
      settled twice.  Of threads that run alone: a settlement never credits more than there is to distribute; pending balances are what the
      ledgers say; a round of payouts stays within the balance, and a wallet is overpaid only by transfers whose answer was lost; a
      reconciliation that writes at all makes the credits of a block add up to what arrived; a growth fund with a positive bonus pays
      out exactly what was put into it.
    - Proof of work: the permutation is a bijection, the sponge is the sponge construction, the hash is memory safe, total and independent of
      uncleared memory, and encodes its input injectively.  A batch of the miner finds all winning nonces; the pool
      accepts every one of them if both put the nonce at the same place, and exactly for which headers they do is shown too;
      for a seed both use the same dataset.
    - Node: the test of a hash is exact in both widths and is the miner's; the difficulty is the rounded work over time of the middle
      of the sorted window and its 64-bit version never wraps; blocks the miners find are accepted, on the main chain and on alternatives that fork
      anywhere, but at height 202612; tree proofs lead to the root; the encoders
      write what the browser writes; the kept difficulty is that of the chain; on every reachable chain a new block is handled to the end,
      replaces at most sixty blocks, only for more work, and a failed switch restores the chain; no block is dated before the launch;
      rewards and coinbases are exact; the node writes the seeds the browser writes and restores the key from them.
    - Peer cache, for plain hosts and bounded latencies: no call overflows or writes out of bounds, endpoints are distinct and at most 64, seeds
      stay in order, what is saved is read back, the order of attempts is the promised one for seeds that were not discovered before, and a
      discovered endpoint is dropped at its fifth failure.
    - Flaws found on the way are theorems too: two claims in flight pay one game twice, guesses in flight together are all graded, a
      null body throws, seeds beyond 32 bits are accepted, administrative paths are forwarded, inherited names are cacheable, three
      words are listed twice, a failed write makes the daemon pay twice, a failed read makes it drop a claim, a failed payout cannot be
      retried, the page overstates the reward while outputs are locked, and a confirmed seed stays on the copy button.  In the pool server
      copies of one share in flight are all credited, a share counted during a settlement makes it exceed the reward, a dataset is
      used after it is freed, ledger files written by two threads lose credits and payments, an unreadable payment log is paid again,
      a transfer whose answer is lost too, an address with a line break blocks all payouts, reconciliation erases bonuses and does not save
      single credits it corrects, and a previous block's hash that ends in zero
      misplaces the nonce.  In the node the work of the block at height 202612 does not count, two switches dig deeper than the cap, and seeds
      of twelve words are never restored; the peer cache loses endpoints with brackets and saves text without an end.

    ** Bounds and fuel

    [encodeVarint] has fuel 6, enough for every integer after the first shift brings it below 2^32 ([encodeVarint_total]).
    Decimal printing has fuel of the binary length of the number.  Shortest decimals of binary64 numbers need at most 17 digits.
    [JsonText.parse] has twice the length of the text.  The countdown of the cooldown is exact up to an hour, the longest the worker
    sends.  The loops of the sponge have the number of words as fuel, and [LatticeHash.lattice_hash_defined] shows that it is enough.  The loops of the pool
    server's background threads run for any number of rounds; dropping old jobs has the number of jobs as fuel
    ([PoolSections.push_section]).  The scheduler of PoolRun gives a turn at most 400 calls; a schedule
    that needs more has no result, and the theorems with schedules exhibit their results.  Amounts of the pool are exact in binary64 below 2^53 atomic units (9007 coins for one wallet), and theorems about scaled or
    divided amounts name such bounds; the hash of an input has the bound 2^31 bytes of the source's [int].  The loops of the
    tree hash have the count as fuel, those of the chain its length or the height of the block, and two nested calls of [handle_alternative_block] are
    enough ([NodeChainSafety.reorg_capped] shows it); the scanner of the peer cache has the length of the text ([PeerCacheText.read_peers_fuel]).
    The wait of the split script
    runs for any number of rounds.  All other loops make the number of rounds the source makes.

    ** Not modelled

    The pool server's socket layer, its answer to OPTIONS and the printing of the fund script; the
    game daemon's HTTP helper and start-up; the self-tests and benchmarks of the proof of work and its copy in the node
    (src/crypto/lattice.c, the same algorithm, for which the theorems about blocks use the definitions of Lattice); the miners' threads, network
    code and user interfaces; of the C++ node and wallets the transactions, the cryptography, the weights of blocks and versions of hard forks, which
    are arguments of the chain's definitions and functions of the chain and the block alone (the pool of unconfirmed transactions, in which a block
    that is put back after a failed switch finds its transactions again, is not modelled), the database, the network and the wallets; the word lists of the node's
    other languages, which are arguments; checkpoints, of which there are none; the generated wallet.bundle.js, the captcha widget's script, and static sites and translations.  Code units above 255, the text of
    log messages, layout and visibility on the page beyond the hidden flag, and time as a bound on anything are outside the model: expiry in
    the store may happen at any moment, timers of the page may fire in any order, and the clock of the pool server may answer anything. *)

From stdpp Require Export base gmap strings list.
From Stdlib Require Export ZArith Lia Ascii.

Open Scope Z_scope.
Open Scope list_scope.

(** ** Automation *)

Create HintDb glaciem.
Create Rewrite HintDb glaciem.

(** Split every conjunction of the context and every boolean conjunction. *)
Ltac split_hyps :=
  repeat match goal with
         | H : _ /\ _ |- _ => destruct H
         | H : (_ && _)%bool = true |- _ => apply andb_prop in H; destruct H
         | H : exists _, _ |- _ => destruct H
         end.

(** Replace the boolean comparisons of [Z] by the propositions they decide. *)
Ltac bool_to_prop :=
  repeat match goal with
         | H : (_ <? _)%Z = true |- _ => apply Z.ltb_lt in H
         | H : (_ <? _)%Z = false |- _ => apply Z.ltb_ge in H
         | H : (_ <=? _)%Z = true |- _ => apply Z.leb_le in H
         | H : (_ <=? _)%Z = false |- _ => apply Z.leb_gt in H
         | H : (_ =? _)%Z = true |- _ => apply Z.eqb_eq in H
         | H : (_ =? _)%Z = false |- _ => apply Z.eqb_neq in H
         end.

(** Case analysis on the first boolean test of the goal. *)
Ltac case_test :=
  match goal with
  | |- context [if ?b then _ else _] => destruct b eqn:?
  | |- context [match ?b with _ => _ end] => destruct b eqn:?
  end; bool_to_prop.

(** ** Fallible code: a value or a thrown [Error] with its message *)

Inductive res (A : Type) : Type :=
| Ok (a : A)
| Err (msg : string).
Arguments Ok {A} a.
Arguments Err {A} msg.

Definition res_bind {A B} (r : res A) (f : A -> res B) : res B :=
  match r with Ok a => f a | Err e => Err e end.

Declare Scope glaciem_scope.
Delimit Scope glaciem_scope with glaciem.
Notation "'let*' x := r 'in' k" := (res_bind r (fun x => k))
  (at level 10, x pattern, r at level 100, k at level 200) : glaciem_scope.

(** ** Lists *)

Lemma mjoin_cons {A} (l : list A) ls : mjoin (l :: ls) = l ++ mjoin ls.
Proof. reflexivity. Qed.

(** ** Counting the entries of a map *)

Section CountIf.
Context {V : Type} (P : V -> bool).

Definition count_if (m : gmap string V) : nat := size (filter (fun kv => P kv.2 = true) m).

Lemma count_if_empty : count_if ∅ = 0%nat.
Proof. unfold count_if. by rewrite map_filter_empty, map_size_empty. Qed.

Lemma count_if_mono c m : c ⊆ m -> (count_if c <= count_if m)%nat.
Proof. intros H. apply map_subseteq_size. by apply map_filter_subseteq_mono. Qed.

(** Storing an entry that does not count adds none; storing any entry adds at most one. *)
Lemma count_if_insert m k v : P v = false -> (count_if (<[k := v]> m) <= count_if m)%nat.
Proof.
  intros Hv. unfold count_if. rewrite map_filter_insert_False by (cbn; by rewrite Hv).
  apply map_subseteq_size, map_filter_subseteq_mono, delete_subseteq.
Qed.

Lemma count_if_insert_any m k v : (count_if (<[k := v]> m) <= count_if m + 1)%nat.
Proof.
  destruct (P v) eqn:Hv; [|pose proof (count_if_insert m k v Hv); lia].
  unfold count_if. rewrite map_filter_insert_True by done. rewrite map_size_insert. case_match; unfold id; lia.
Qed.

(** Replacing an entry that counts: by another such entry it adds none, by any other entry it takes one away. *)
Lemma count_if_replace c m k v old :
  c ⊆ m -> m !! k = Some old -> P old = true ->
  (count_if (<[k := v]> c) + (if P v then 0 else 1) <= count_if m)%nat.
Proof.
  intros Hc Hk Ho.
  assert (count_if m = S (count_if (delete k m))) as Hm.
  { unfold count_if. rewrite <- (insert_delete_id m k old Hk) at 1.
    rewrite map_filter_insert_True by done. rewrite map_size_insert.
    rewrite map_lookup_filter. by rewrite lookup_delete_eq. }
  assert (<[k := v]> c ⊆ <[k := v]> (delete k m)) as Hsub.
  { rewrite insert_delete_eq. by apply insert_mono. }
  pose proof (count_if_mono _ _ Hsub). destruct (P v) eqn:Hv.
  - pose proof (count_if_insert_any (delete k m) k v). lia.
  - pose proof (count_if_insert (delete k m) k v Hv). lia.
Qed.
End CountIf.

(** ** Bits *)

(** Or-ing a number below [2^k] into a multiple of [2^k] adds it. *)
Lemma lor_low n k x : 0 <= k -> 0 <= x < 2 ^ k -> Z.lor (n * 2 ^ k) x = n * 2 ^ k + x.
Proof.
  intros Hk Hx. symmetry. apply Z.add_nocarry_lor.
  apply Z.bits_inj'. intros i Hi. rewrite Z.land_spec, Z.bits_0.
  destruct (Z.lt_ge_cases i k).
  - by rewrite Z.mul_pow2_bits_low.
  - rewrite <- (Z.mod_small x (2 ^ k)) by lia. by rewrite Z.mod_pow2_bits_high, andb_false_r by lia.
Qed.

Lemma land_low n k : 0 <= k -> Z.land n (2 ^ k - 1) = n mod 2 ^ k.
Proof. intros H. rewrite <- Z.land_ones by done. f_equal. rewrite Z.ones_equiv. lia. Qed.

(** ** Positional notation

    [from_be b ds] is the number whose big-endian digits in base [b] are [ds];
    [to_be b k n] are the [k] low digits of [n], most significant first.
    Base58 blocks, big-endian byte blocks and seed-word triples are instances. *)

Definition from_be (b : Z) (ds : list Z) : Z :=
  fold_left (fun acc d => acc * b + d) ds 0.

Fixpoint to_be (b : Z) (k : nat) (n : Z) : list Z :=
  match k with
  | O => []
  | S k' => to_be b k' (n / b) ++ [n mod b]
  end.

Definition digits_ok (b : Z) (ds : list Z) : Prop := Forall (fun d => 0 <= d < b) ds.

Section Positional.
Variable b : Z.
Hypothesis b_pos : 1 < b.

Lemma from_be_snoc ds d : from_be b (ds ++ [d]) = from_be b ds * b + d.
Proof. unfold from_be. by rewrite fold_left_app. Qed.

Lemma length_to_be k : forall n, length (to_be b k n) = k.
Proof. induction k as [|k IH]; intros n; simpl; [done|]. rewrite length_app, IH. simpl. lia. Qed.

Lemma to_be_digits k : forall n, digits_ok b (to_be b k n).
Proof.
  induction k as [|k IH]; intros n; simpl; [constructor|].
  apply Forall_app. split; [apply IH|]. repeat constructor; apply Z.mod_pos_bound; lia.
Qed.

Lemma from_to_be k : forall n, from_be b (to_be b k n) = n mod b ^ Z.of_nat k.
Proof.
  induction k as [|k IH]; intros n.
  - simpl. by rewrite Z.mod_1_r.
  - cbn [to_be]. rewrite from_be_snoc, IH, Nat2Z.inj_succ, Z.pow_succ_r by lia.
    rewrite (Z.rem_mul_r n b (b ^ Z.of_nat k)) by (try apply Z.pow_pos_nonneg; lia). ring.
Qed.

Lemma from_be_bound ds : digits_ok b ds -> 0 <= from_be b ds < b ^ Z.of_nat (length ds).
Proof.
  induction ds as [|d ds IH] using rev_ind; intros H.
  - cbn. lia.
  - apply Forall_app in H as [H Hd]. apply Forall_cons in Hd as [Hd _].
    specialize (IH H). rewrite from_be_snoc, length_app. cbn [length].
    rewrite Nat2Z.inj_add, Z.pow_add_r by lia. change (Z.of_nat 1) with 1. rewrite Z.pow_1_r. nia.
Qed.

Lemma to_from_be ds : digits_ok b ds -> to_be b (length ds) (from_be b ds) = ds.
Proof.
  induction ds as [|d ds IH] using rev_ind; intros H; [done|].
  apply Forall_app in H as [H Hd]. apply Forall_cons in Hd as [Hd _].
  rewrite from_be_snoc, length_app, Nat.add_comm. cbn [length Nat.add to_be].
  replace ((from_be b ds * b + d) / b) with (from_be b ds).
  - rewrite IH by done. f_equal. f_equal. rewrite Z.add_comm, Z.mod_add by lia. by apply Z.mod_small.
  - rewrite Z.div_add_l, Z.div_small by lia. lia.
Qed.

Lemma to_be_0 k : to_be b k 0 = replicate k 0.
Proof.
  induction k as [|k IH]; [done|]. cbn [to_be]. rewrite Z.div_0_l, Z.mod_0_l, IH by lia.
  change [0] with (replicate 1 0). rewrite <- replicate_add. f_equal. lia.
Qed.

Lemma from_be_app ds es :
  from_be b (ds ++ es) = from_be b ds * b ^ Z.of_nat (length es) + from_be b es.
Proof.
  induction es as [|e es IH] using rev_ind.
  - rewrite app_nil_r. cbn. lia.
  - rewrite app_assoc, !from_be_snoc, IH, length_app. cbn [length].
    rewrite Nat2Z.inj_add, Z.pow_add_r by lia. change (Z.of_nat 1) with 1. rewrite Z.pow_1_r. ring.
Qed.

Lemma from_be_cons d ds :
  from_be b (d :: ds) = d * b ^ Z.of_nat (length ds) + from_be b ds.
Proof. change (d :: ds) with ([d] ++ ds). rewrite from_be_app. unfold from_be at 1. simpl. ring. Qed.

Lemma from_be_inj ds es :
  digits_ok b ds -> digits_ok b es -> length ds = length es ->
  from_be b ds = from_be b es -> ds = es.
Proof.
  intros Hd He Hl Heq. rewrite <- (to_from_be ds), <- (to_from_be es) by done. by rewrite Heq, Hl.
Qed.
End Positional.

#[export] Hint Resolve to_be_digits : glaciem.
