(* ===== verification/JsCore.v ===== *)
(** * JsCore: the part of the JavaScript language and its standard library the
    sources use on integers and strings.

    Integers are [Z] (every integer the sources compute with is below 2^53 or a
    BigInt, so a JavaScript number and a [Z] agree); the 32-bit operators go
    through ToInt32 and ToUint32 as ECMA-262 defines them.  A JavaScript string
    is a [string] whose characters are its UTF-16 code units; only code units
    below 256 are in the model, which is every code unit the sources produce. *)

From S2P Require Import Prelude.

(** ** 32-bit integers *)

Definition to_uint32 (n : Z) : Z := n mod 2 ^ 32.
Definition to_int32 (n : Z) : Z :=
  let u := n mod 2 ^ 32 in if u <? 2 ^ 31 then u else u - 2 ^ 32.

(** [a & b], [a | b], [a ^ b] and [a >>> k]. *)
Definition js_and (a b : Z) : Z := Z.land (to_int32 a) (to_int32 b).
Definition js_or (a b : Z) : Z := Z.lor (to_int32 a) (to_int32 b).
Definition js_xor (a b : Z) : Z := Z.lxor (to_int32 a) (to_int32 b).
Definition js_shru (a k : Z) : Z := Z.shiftr (to_uint32 a) (Z.land (to_uint32 k) 31).

(** A store into a [Uint8Array]. *)
Definition to_uint8 (n : Z) : Z := n mod 256.

(** ** Characters *)

Definition code (c : ascii) : Z := Z.of_N (N_of_ascii c).
Definition chr (n : Z) : ascii := ascii_of_N (Z.to_N n).
Definition chars (s : string) : list ascii := String.list_ascii_of_string s.
Definition of_chars (l : list ascii) : string := String.string_of_list_ascii l.

Definition in_range (lo hi : ascii) (c : ascii) : bool := (code lo <=? code c) && (code c <=? code hi).

(** [/^[A-Z]{5}$/] *)
Definition is_upper (c : ascii) : bool := in_range "A" "Z" c.
Definition is_lower (c : ascii) : bool := in_range "a" "z" c.
Definition is_digit (c : ascii) : bool := in_range "0" "9" c.

Definition re_five_letters (s : string) : bool :=
  (Z.of_nat (length (chars s)) =? 5) && forallb is_upper (chars s).

(** The class [[1-9A-HJ-NP-Za-km-z]] and the pattern [/^R[...]{96}$/]. *)
Definition is_base58 (c : ascii) : bool :=
  in_range "1" "9" c || in_range "A" "H" c || in_range "J" "N" c || in_range "P" "Z" c
  || in_range "a" "k" c || in_range "m" "z" c.

Definition re_address_chars (l : list ascii) : bool :=
  match l with
  | c :: rest => (code c =? code "R") && (Z.of_nat (length rest) =? 96) && forallb is_base58 rest
  | [] => false
  end.

Definition re_address (s : string) : bool := re_address_chars (chars s).

(** [String.prototype.trim]: the white space and line terminators below U+0100. *)
Definition is_space (c : ascii) : bool :=
  let n := code c in ((9 <=? n) && (n <=? 13)) || (n =? 32) || (n =? 160).

Fixpoint trim_start (l : list ascii) : list ascii :=
  match l with
  | c :: l' => if is_space c then trim_start l' else l
  | [] => []
  end.

Definition trim (s : string) : string :=
  of_chars (rev (trim_start (rev (trim_start (chars s))))).

(** [String.prototype.toUpperCase].  A code unit whose upper case holds a unit
    other than A-Z is left as it is: both fail every pattern the sources test.
    U+00DF (sharp s) is the one unit below U+0100 outside a-z whose upper case
    is made of A-Z. *)
Definition upper_char (c : ascii) : list ascii :=
  if is_lower c then [chr (code c - 32)]
  else if code c =? 223 then ["S"%char; "S"%char]
  else [c].

Definition to_upper (s : string) : string := of_chars (mjoin (map upper_char (chars s))).

(** [String.prototype.slice (0, n)]. *)
Definition slice_to (n : nat) (s : string) : string := of_chars (take n (chars s)).

(** ** Numerals *)

Definition hex_chars : list ascii := chars "0123456789abcdef".
Definition hex_digit (d : Z) : ascii := nth (Z.to_nat d) hex_chars "0"%char.

(** [x.toString(16).padStart(2, '0')] for a byte [x]. *)
Definition byte_to_string16 (x : Z) : list ascii :=
  if x <? 16 then [hex_digit x] else [hex_digit (x / 16); hex_digit (x mod 16)].

Definition pad_start (n : nat) (c : ascii) (l : list ascii) : list ascii :=
  replicate (n - length l) c ++ l.

Definition hex_byte (x : Z) : list ascii := pad_start 2 "0"%char (byte_to_string16 x).

(** The value of a digit in a radix of at most 36. *)
Definition digit_value (radix : Z) (c : ascii) : option Z :=
  let v := if is_digit c then code c - 48
           else if is_upper c then code c - 55
           else if is_lower c then code c - 87
           else 36 in
  if v <? radix then Some v else None.

Fixpoint digit_prefix (radix : Z) (l : list ascii) : list Z :=
  match l with
  | c :: l' => match digit_value radix c with
               | Some v => v :: digit_prefix radix l'
               | None => []
               end
  | [] => []
  end.

Definition strip_0x (radix : Z) (l : list ascii) : list ascii :=
  match l with
  | c :: x :: l' =>
      if (radix =? 16) && (code c =? 48) && ((code x =? 120) || (code x =? 88)) then l' else l
  | _ => l
  end.

(** [parseInt(s, radix)]; [None] is NaN. *)
Definition parse_int (radix : Z) (l : list ascii) : option Z :=
  let l := trim_start l in
  let '(sign, l) := match l with
                    | c :: l' => if code c =? 45 then (-1, l') else if code c =? 43 then (1, l') else (1, l)
                    | [] => (1, [])
                    end in
  match digit_prefix radix (strip_0x radix l) with
  | [] => None
  | ds => Some (sign * from_be radix ds)
  end.

(** [String(n)] for a natural number: its decimal digits. *)
Fixpoint dec_digits (fuel : nat) (n : Z) : list ascii :=
  match fuel with
  | O => []
  | S f => (if n <? 10 then [] else dec_digits f (n / 10)) ++ [chr (48 + n mod 10)]
  end.

Definition string_of_Z (n : Z) : string :=
  of_chars (if n <? 0 then "-"%char :: dec_digits (S (Z.to_nat (Z.log2 (- n)))) (- n)
            else dec_digits (S (Z.to_nat (Z.log2 n))) n).

(** ** Facts *)

Lemma to_int32_range n : - 2 ^ 31 <= to_int32 n < 2 ^ 31.
Proof.
  unfold to_int32. pose proof (Z.mod_pos_bound n (2 ^ 32)). case_test; lia.
Qed.

Lemma to_int32_mod n : to_int32 n mod 2 ^ 32 = n mod 2 ^ 32.
Proof.
  unfold to_int32. case_test.
  - apply Z.mod_mod. lia.
  - replace (n mod 2 ^ 32 - 2 ^ 32) with (n mod 2 ^ 32 + (-1) * 2 ^ 32) by lia.
    rewrite Z.mod_add by lia. apply Z.mod_mod. lia.
Qed.

Lemma to_uint32_int32 n : to_uint32 (to_int32 n) = to_uint32 n.
Proof. apply to_int32_mod. Qed.

Lemma to_int32_small n : 0 <= n < 2 ^ 31 -> to_int32 n = n.
Proof. intros H. unfold to_int32. rewrite Z.mod_small by lia. case_test; lia. Qed.

Lemma code_range c : 0 <= code c < 256.
Proof.
  unfold code. pose proof (N_ascii_bounded c). change 256 with (Z.of_N 256). lia.
Qed.

Lemma chr_code c : chr (code c) = c.
Proof. unfold chr, code. rewrite N2Z.id. apply ascii_N_embedding. Qed.

Lemma code_chr n : 0 <= n < 256 -> code (chr n) = n.
Proof.
  intros H. unfold chr, code. rewrite N_ascii_embedding; [lia|].
  change 256%N with (Z.to_N 256). lia.
Qed.

Lemma code_inj c d : code c = code d -> c = d.
Proof. intros H. by rewrite <- (chr_code c), <- (chr_code d), H. Qed.

Lemma chars_of_chars l : chars (of_chars l) = l.
Proof. apply String.list_ascii_of_string_of_list_ascii. Qed.

Lemma of_chars_chars s : of_chars (chars s) = s.
Proof. apply String.string_of_list_ascii_of_string. Qed.

Lemma chars_inj s t : chars s = chars t -> s = t.
Proof. intros H. by rewrite <- (of_chars_chars s), <- (of_chars_chars t), H. Qed.

Lemma chars_app s t : chars (String.append s t) = chars s ++ chars t.
Proof. induction s as [|c s IH]; simpl; [done|]. unfold chars in *. simpl. by rewrite IH. Qed.

(** A character all 256 of whose values satisfy a test satisfies it. *)
Lemma ascii_forall (P : ascii -> bool) :
  forallb (fun n => P (ascii_of_nat n)) (seq 0 256) = true -> forall c, P c = true.
Proof.
  intros H c. rewrite forallb_forall in H. rewrite <- (ascii_nat_embedding c).
  apply H. apply in_seq. pose proof (nat_ascii_bounded c). lia.
Qed.

#[export] Hint Rewrite chars_of_chars of_chars_chars : glaciem.

(** ** Decimal numerals read back *)

Definition dec_char (d : Z) : ascii := chr (48 + d).

Lemma dec_char_value d : 0 <= d < 10 -> digit_value 10 (dec_char d) = Some d.
Proof.
  intros H. unfold digit_value, dec_char, is_digit, in_range. rewrite code_chr by lia.
  change (code "0") with 48. change (code "9") with 57.
  replace ((48 <=? 48 + d) && (48 + d <=? 57)) with true by (symmetry; apply andb_true_iff; lia).
  replace (48 + d - 48) with d by lia. by rewrite (proj2 (Z.ltb_lt d 10)) by lia.
Qed.

Lemma digit_prefix_dec ds : digits_ok 10 ds -> digit_prefix 10 (map dec_char ds) = ds.
Proof.
  induction ds as [|d ds IH]; intros H; [done|]. apply Forall_cons in H as [Hd H].
  cbn [map digit_prefix]. rewrite dec_char_value by done. by rewrite IH.
Qed.

Lemma dec_digits_spec fuel : forall n,
  0 <= n < 2 ^ Z.of_nat fuel -> (0 < fuel)%nat ->
  exists d ds, digits_ok 10 (d :: ds) /\ dec_digits fuel n = map dec_char (d :: ds) /\ from_be 10 (d :: ds) = n.
Proof.
  induction fuel as [|f IH]; intros n Hn Hf; [lia|]. cbn [dec_digits].
  pose proof (Z.mod_pos_bound n 10 ltac:(lia)) as Hm. case_test.
  - exists n, []. rewrite Z.mod_small by lia. split_and!; [by repeat constructor; lia|done|done].
  - rewrite Nat2Z.inj_succ, Z.pow_succ_r in Hn by lia.
    assert (n / 10 < 2 ^ Z.of_nat f) by (apply Z.div_lt_upper_bound; lia).
    assert (1 <= n / 10) by (apply Z.div_le_lower_bound; lia).
    destruct (IH (n / 10)) as (d & ds & Hok & Hdec & Hval); [lia|destruct f; cbn in *; lia|].
    exists d, (ds ++ [n mod 10]). rewrite Hdec. split_and!.
    + change (digits_ok 10 ((d :: ds) ++ [n mod 10])). apply Forall_app. split; [done|]. by repeat constructor; lia.
    + change (d :: ds ++ [n mod 10]) with ((d :: ds) ++ [n mod 10]). by rewrite map_app.
    + change (d :: ds ++ [n mod 10]) with ((d :: ds) ++ [n mod 10]). rewrite from_be_snoc, Hval by lia.
      rewrite (Z.div_mod n 10) at 3 by lia. lia.
Qed.

(** [parseInt(String(n), 10)] is [n], and the text is not empty. *)
Lemma parse_int_of_Z n :
  0 <= n -> parse_int 10 (chars (string_of_Z n)) = Some n /\ String.eqb (string_of_Z n) "" = false.
Proof.
  intros Hn. unfold string_of_Z. rewrite (proj2 (Z.ltb_ge n 0)) by lia. rewrite chars_of_chars.
  destruct (dec_digits_spec (S (Z.to_nat (Z.log2 n))) n) as (d & ds & Hok & -> & Hval); [|lia|].
  { rewrite Nat2Z.inj_succ, Z2Nat.id by apply Z.log2_nonneg. split; [lia|].
    destruct (Z.eq_dec n 0) as [->|]; [done|]. apply Z.log2_spec. lia. }
  split; [|done]. pose proof (proj1 (Forall_cons _ _ _) Hok) as [Hd _].
  unfold parse_int. cbn [map trim_start].
  assert (code (dec_char d) = 48 + d) as Hc by (unfold dec_char; apply code_chr; lia).
  unfold is_space. rewrite Hc. case_test; [exfalso; rewrite !orb_true_iff, andb_true_iff in *; lia|].
  rewrite Hc. rewrite (proj2 (Z.eqb_neq (48 + d) 45)), (proj2 (Z.eqb_neq (48 + d) 43)) by lia.
  change (dec_char d :: map dec_char ds) with (map dec_char (d :: ds)).
  replace (strip_0x 10 (map dec_char (d :: ds))) with (map dec_char (d :: ds)) by (by destruct ds).
  rewrite digit_prefix_dec by done. f_equal. lia.
Qed.

(** ** UTF-8 *)

(** [new TextEncoder().encode(s)], which is also how a string becomes the body of a response. *)
Definition utf8_char (c : ascii) : list ascii :=
  let n := code c in if n <? 128 then [c] else [chr (192 + n / 64); chr (128 + n mod 64)].
Definition utf8 (s : string) : string := of_chars (mjoin (map utf8_char (chars s))).

(** [new TextDecoder().decode(b)] and [text()].  A sequence for a code unit above 255, which the model's
    strings do not have, or an invalid one reads as a question mark. *)
Fixpoint utf8_decode_list (l : list ascii) : list ascii :=
  match l with
  | [] => []
  | c :: l' =>
      let n := code c in
      if n <? 128 then c :: utf8_decode_list l'
      else match l' with
           | d :: l'' => if ((n =? 194) || (n =? 195)) && (128 <=? code d) && (code d <? 192)
                         then chr ((n - 192) * 64 + (code d - 128)) :: utf8_decode_list l''
                         else "?"%char :: utf8_decode_list l'
           | [] => ["?"%char]
           end
  end.
Definition utf8_decode (b : string) : string := of_chars (utf8_decode_list (chars b)).

Lemma utf8_decode_char c l : utf8_decode_list (utf8_char c ++ l) = c :: utf8_decode_list l.
Proof.
  pose proof (code_range c) as Hc. unfold utf8_char. destruct (Z.ltb_spec (code c) 128) as [Hlt|Hge].
  - cbn [app utf8_decode_list]. by rewrite (proj2 (Z.ltb_lt _ _) Hlt).
  - pose proof (Z.mod_pos_bound (code c) 64 ltac:(lia)). assert (2 <= code c / 64 <= 3).
    { split; [apply Z.div_le_lower_bound; lia|]. apply Z.lt_succ_r. apply Z.div_lt_upper_bound; lia. }
    cbn [app utf8_decode_list]. rewrite !code_chr by lia.
    rewrite (proj2 (Z.ltb_ge (192 + code c / 64) 128)) by lia.
    assert ((192 + code c / 64 =? 194) || (192 + code c / 64 =? 195) = true) as -> by (apply orb_true_iff; lia).
    rewrite (proj2 (Z.leb_le 128 (128 + code c mod 64))), (proj2 (Z.ltb_lt (128 + code c mod 64) 192)) by lia.
    cbn [andb]. f_equal. rewrite <- (chr_code c) at 3. f_equal. rewrite (Z.div_mod (code c) 64) at 3 by lia. lia.
Qed.

(** A text that is sent is the text that is read. *)
Lemma utf8_roundtrip s : utf8_decode (utf8 s) = s.
Proof.
  unfold utf8_decode, utf8. rewrite chars_of_chars. rewrite <- (of_chars_chars s) at 2. f_equal.
  induction (chars s) as [|c l IH]; [done|]. cbn [map]. by rewrite mjoin_cons, utf8_decode_char, IH.
Qed.
