(* ===== verification/Bytes.v ===== *)
(** * Bytes: the low-level helpers of wordmine/public/lib/wallet.js

    Byte arrays ([Uint8Array]) are lists of [Z]; [bytes_ok] is the range
    invariant a typed array maintains.  The theorems say that the conversions
    between byte arrays and BigInts are mutually inverse, that hex printing and
    parsing round trip, that [concatBytes] is concatenation, and that
    [scReduce32] is reduction modulo the group order on 32-byte inputs. *)

From S2P Require Import Prelude JsCore.
Local Open Scope glaciem_scope.

Abbreviation bytes := (list Z).
Definition bytes_ok (b : bytes) : Prop := Forall (fun x => 0 <= x < 256) b.

#[export] Instance bytes_ok_dec b : Decision (bytes_ok b).
Proof. unfold bytes_ok. apply Forall_dec. intros x. apply _. Defined.

(** ed25519 group order *)
Definition L : Z := 2 ^ 252 + 27742317777372353535851937790883648493.

(** [for (i = b.length - 1; i >= 0; i--) n = (n << 8n) | BigInt(b[i])] *)
Definition bytesToBigIntLE (b : bytes) : Z :=
  fold_right (fun x n => Z.lor (Z.shiftl n 8) x) 0 b.

Fixpoint bigIntToBytesLE (n : Z) (len : nat) : bytes :=
  match len with
  | O => []
  | S k => to_uint8 (Z.land n 255) :: bigIntToBytesLE (Z.shiftr n 8) k
  end.

Definition bytesToHex (b : bytes) : string := of_chars (mjoin (map hex_byte b)).

(** The loop of [hexToBytes]: [b[i] = parseInt(h.slice(i * 2, i * 2 + 2), 16)];
    storing NaN in a [Uint8Array] stores 0. *)
Fixpoint hexToBytes_loop (n i : nat) (h : list ascii) : bytes :=
  match n with
  | O => []
  | S n' =>
      to_uint8 (default 0 (parse_int 16 (take 2 (drop (i * 2) h)))) :: hexToBytes_loop n' (S i) h
  end.

Definition hexToBytes (h : string) : res bytes :=
  let h := chars h in
  if Nat.odd (length h) then Err "hex length must be even"
  else Ok (hexToBytes_loop (length h / 2) 0 h).

(** [out.set(a, off)], which throws when [a] does not fit. *)
Definition typed_array_set (out : bytes) (off : nat) (a : bytes) : res bytes :=
  if (length out <? off + length a)%nat then Err "offset is out of bounds"
  else Ok (take off out ++ a ++ drop (off + length a) out).

Fixpoint concatBytes_loop (arrs : list bytes) (out : bytes) (off : nat) : res bytes :=
  match arrs with
  | [] => Ok out
  | a :: rest =>
      let* out := typed_array_set out off a in
      concatBytes_loop rest out (off + length a)
  end.

Definition concatBytes (arrs : list bytes) : res bytes :=
  let total := fold_left (fun s a => s + length a)%nat arrs 0%nat in
  concatBytes_loop arrs (replicate total 0) 0.

Definition scReduce32 (b : bytes) : res bytes :=
  if negb (length b =? 32)%nat then Err "sc_reduce32 expects 32 bytes"
  else Ok (bigIntToBytesLE (bytesToBigIntLE b mod L) 32).

(** ** Little-endian integers *)

Lemma bytes_ok_rev b : bytes_ok b -> bytes_ok (rev b).
Proof. apply List.Forall_rev. Qed.

(** A shifted number or'ed with a byte is the number's next base-256 step. *)
Lemma lor_shift_byte n x : 0 <= x < 256 -> Z.lor (Z.shiftl n 8) x = n * 256 + x.
Proof.
  intros Hx. rewrite Z.shiftl_mul_pow2 by lia. by rewrite lor_low by lia.
Qed.

Lemma bytesToBigIntLE_from_be b :
  bytes_ok b -> bytesToBigIntLE b = from_be 256 (rev b).
Proof.
  induction b as [|x b IH]; intros H; [done|]. apply Forall_cons in H as [Hx H].
  cbn [rev]. rewrite from_be_snoc. change (bytesToBigIntLE (x :: b)) with (Z.lor (Z.shiftl (bytesToBigIntLE b) 8) x).
  rewrite lor_shift_byte, IH by done. done.
Qed.

Lemma bigIntToBytesLE_to_be len : forall n, bigIntToBytesLE n len = rev (to_be 256 len n).
Proof.
  induction len as [|len IH]; intros n; [done|]. cbn [bigIntToBytesLE to_be].
  rewrite rev_app_distr. simpl. rewrite IH, Z.shiftr_div_pow2 by lia. f_equal.
  unfold to_uint8. change 255 with (Z.ones 8). rewrite Z.land_ones by lia.
  apply Z.mod_mod. lia.
Qed.

Lemma length_bigIntToBytesLE n len : length (bigIntToBytesLE n len) = len.
Proof. rewrite bigIntToBytesLE_to_be, length_rev. apply length_to_be. Qed.

Lemma bigIntToBytesLE_ok n len : bytes_ok (bigIntToBytesLE n len).
Proof. rewrite bigIntToBytesLE_to_be. apply bytes_ok_rev. apply to_be_digits. lia. Qed.

Lemma bytesToBigIntLE_bound b :
  bytes_ok b -> 0 <= bytesToBigIntLE b < 256 ^ Z.of_nat (length b).
Proof.
  intros H. rewrite bytesToBigIntLE_from_be by done. rewrite <- length_rev.
  apply from_be_bound; [lia|]. by apply bytes_ok_rev.
Qed.

Lemma bytes_of_bigint_of_bytes b :
  bytes_ok b -> bigIntToBytesLE (bytesToBigIntLE b) (length b) = b.
Proof.
  intros H. rewrite bigIntToBytesLE_to_be, bytesToBigIntLE_from_be by done.
  rewrite <- (length_rev b), to_from_be; [by rewrite rev_involutive|lia|by apply bytes_ok_rev].
Qed.

Lemma bigint_of_bytes_of_bigint n len :
  bytesToBigIntLE (bigIntToBytesLE n len) = n mod 256 ^ Z.of_nat len.
Proof.
  rewrite bytesToBigIntLE_from_be by apply bigIntToBytesLE_ok.
  rewrite bigIntToBytesLE_to_be, rev_involutive. apply from_to_be. lia.
Qed.
#[export] Hint Resolve bigIntToBytesLE_ok : glaciem.

(** ** Concatenation *)

Lemma typed_array_set_fill done_ a rest :
  typed_array_set (done_ ++ replicate (length a + rest) 0) (length done_) a
  = Ok ((done_ ++ a) ++ replicate rest 0).
Proof.
  unfold typed_array_set. rewrite length_app, length_replicate.
  case_test; [apply Nat.ltb_lt in Heqb; lia|]. f_equal.
  rewrite take_app_length, drop_app_add, drop_replicate, <- app_assoc. do 3 f_equal. lia.
Qed.

Lemma concatBytes_loop_fill arrs : forall done_,
  concatBytes_loop arrs (done_ ++ replicate (sum_list (length <$> arrs)) 0) (length done_)
  = Ok (done_ ++ mjoin arrs).
Proof.
  induction arrs as [|a arrs IH]; intros done_; [done|].
  cbn [concatBytes_loop]. rewrite fmap_cons. cbn [sum_list].
  unfold id. rewrite typed_array_set_fill. cbn [res_bind]. rewrite <- length_app, IH, <- app_assoc. done.
Qed.

Lemma concatBytes_ok arrs : concatBytes arrs = Ok (mjoin arrs).
Proof.
  unfold concatBytes.
  assert (forall (l : list bytes) n, fold_left (fun s a => s + length a)%nat l n = (n + sum_list (length <$> l))%nat) as ->.
  { induction l as [|a l IH]; intros n; simpl; [lia|]. rewrite IH. unfold fmap. lia. }
  apply (concatBytes_loop_fill arrs []).
Qed.

(** ** Hex *)

Lemma hex_byte_pair x : 0 <= x < 256 -> hex_byte x = [hex_digit (x / 16); hex_digit (x mod 16)].
Proof.
  intros H. unfold hex_byte, byte_to_string16. case_test.
  - rewrite Z.div_small, Z.mod_small by lia. done.
  - done.
Qed.

Lemma length_hex b : bytes_ok b -> length (mjoin (map hex_byte b)) = (length b * 2)%nat.
Proof.
  induction 1 as [|y b Hy H IH]; [done|]. change (length (hex_byte y ++ mjoin (map hex_byte b)) = (length (y :: b) * 2)%nat).
  rewrite length_app, IH.
  rewrite hex_byte_pair by done. simpl. lia.
Qed.

Lemma parse_hex_byte x : 0 <= x < 256 -> parse_int 16 (hex_byte x) = Some x.
Proof.
  intros H. rewrite <- (Z2Nat.id x) by lia. assert (Z.to_nat x < 256)%nat as Hn by lia.
  revert Hn. generalize (Z.to_nat x). intros n Hn. clear x H.
  cut (forallb (fun n => bool_decide (parse_int 16 (hex_byte (Z.of_nat n)) = Some (Z.of_nat n))) (seq 0 256) = true).
  - rewrite forallb_forall. intros F. apply (bool_decide_unpack _), Is_true_true, F, in_seq. lia.
  - vm_compute. reflexivity.
Qed.

Lemma hexToBytes_loop_hex pre b :
  bytes_ok b -> forall h, h = mjoin (map hex_byte (pre ++ b)) -> bytes_ok pre ->
  hexToBytes_loop (length b) (length pre) h = b.
Proof.
  revert pre. induction b as [|x b IH]; intros pre Hb h Hh Hp; [done|].
  apply Forall_cons in Hb as [Hx Hb]. cbn [length hexToBytes_loop].
  pose proof (length_hex pre Hp) as Hlen.
  f_equal.
  - rewrite Hh, map_app, join_app, <- Hlen, drop_app_length. cbn. rewrite hex_byte_pair by done. cbn [app take].
    rewrite <- hex_byte_pair by done. rewrite parse_hex_byte by done. cbn. apply Z.mod_small. lia.
  - specialize (IH (pre ++ [x]) Hb h). rewrite length_app, Nat.add_comm in IH. cbn in IH.
    apply IH; [|apply Forall_app; split; [done|by apply Forall_singleton]].
    rewrite Hh, <- app_assoc. done.
Qed.

(** Different byte arrays print differently. *)
Lemma hex_inj a b : bytes_ok a -> bytes_ok b -> mjoin (map hex_byte a) = mjoin (map hex_byte b) -> a = b.
Proof.
  intros Ha Hb E. pose proof (length_hex a Ha) as La. pose proof (length_hex b Hb) as Lb.
  assert (length a = length b) as Hl by (rewrite E in La; lia).
  rewrite <- (hexToBytes_loop_hex [] a Ha _ eq_refl) by constructor.
  rewrite <- (hexToBytes_loop_hex [] b Hb _ eq_refl) by constructor. cbn [app length]. by rewrite E, Hl.
Qed.

(** Printing a byte array as hex and parsing it back gives the array: [hexToBytes] inverts
    [bytesToHex] on every [Uint8Array], and never throws on its output. *)
Theorem hex_roundtrip b : bytes_ok b -> hexToBytes (bytesToHex b) = Ok b.
Proof.
  intros H. unfold hexToBytes, bytesToHex. rewrite chars_of_chars.
  rewrite length_hex by done.
  rewrite Nat.odd_mul, andb_false_r, Nat.div_mul by lia. f_equal.
  apply (hexToBytes_loop_hex [] b H _ eq_refl). constructor.
Qed.

Lemma hex_roundtrip_witness :
  bytes_ok [0; 15; 144; 255] /\ hexToBytes (bytesToHex [0; 15; 144; 255]) = Ok [0; 15; 144; 255].
Proof.
  assert (bytes_ok [0; 15; 144; 255]) by (repeat constructor; lia).
  split; [done|]. apply hex_roundtrip. done.
Defined.

(** ** Scalars *)

Lemma L_bound : 0 < L < 256 ^ 32.
Proof. unfold L. split; vm_compute; done. Qed.

Lemma scReduce32_ok b :
  bytes_ok b -> length b = 32%nat ->
  exists r, scReduce32 b = Ok r /\ length r = 32%nat /\ bytes_ok r /\
            bytesToBigIntLE r = bytesToBigIntLE b mod L.
Proof.
  intros Hb Hlen. exists (bigIntToBytesLE (bytesToBigIntLE b mod L) 32).
  unfold scReduce32. rewrite Hlen. cbn [Nat.eqb negb].
  split_and!; [done|apply length_bigIntToBytesLE|apply bigIntToBytesLE_ok|].
  rewrite bigint_of_bytes_of_bigint. apply Z.mod_small.
  pose proof L_bound. pose proof (Z.mod_pos_bound (bytesToBigIntLE b) L).
  change (Z.of_nat 32) with 32. lia.
Qed.
