(* ===== verification/Base58.v ===== *)
(** * Base58: varints and block base58 in wordmine/public/lib/wallet.js, and the
    daemon's decoder for them.

    [encodeVarint], [encodeBlock] and [b58Encode] are the browser wallet's
    encoders.  Module [Cpp] holds the node's readers for the same formats
    (src/common/base58.cpp and src/common/varint.h), with its 64-bit arithmetic
    and its rejections.  The theorems connect the two: what the browser encodes,
    the node decodes to the same bytes. *)

From S2P Require Import Prelude JsCore Bytes.

(** ** The browser wallet *)

(** [while (n >= 0x80) { out.push((n & 0x7f) | 0x80); n = n >>> 7; } out.push(n & 0x7f)];
    [None] when the fuel runs out. *)
Fixpoint encodeVarint_loop (fuel : nat) (n : Z) (out : bytes) : option bytes :=
  match fuel with
  | O => None
  | S f =>
      if 128 <=? n then encodeVarint_loop f (js_shru n 7) (out ++ [js_or (js_and n 127) 128])
      else Some (out ++ [js_and n 127])
  end.

(** After one round [n] is below 2^25, so six rounds are enough for every [n]. *)
Definition encodeVarint (n : Z) : option bytes :=
  map to_uint8 <$> encodeVarint_loop 6 n [].

Definition B58_ALPHA : list ascii := chars "123456789ABCDEFGHJKLMNPQRSTUVWXYZabcdefghijkmnopqrstuvwxyz".
Definition B58_BLOCK_SIZES : list nat := [0; 2; 3; 5; 6; 7; 9; 10; 11]%nat.

Definition b58_char (d : Z) : ascii := nth (Z.to_nat d) B58_ALPHA "1"%char.

(** [for (i = chars - 1; i >= 0 && n > 0n; i--) { out[i] = B58_ALPHA[n % 58n]; n /= 58n; }] *)
Fixpoint encodeBlock_loop (k : nat) (n : Z) (out : list ascii) : list ascii :=
  match k with
  | O => out
  | S i => if 0 <? n then encodeBlock_loop i (n / 58) (<[i := b58_char (n mod 58)]> out) else out
  end.

Definition encodeBlock (b : bytes) (chars : nat) : list ascii :=
  let n := fold_left (fun n x => n * 256 + x) b 0 in
  encodeBlock_loop chars n (replicate chars (b58_char 0)).

(** The loop over the full blocks: [s += encodeBlock(data.slice(i * 8, i * 8 + 8), 11)]. *)
Fixpoint b58Encode_loop (blocks i : nat) (data : bytes) (s : list ascii) : list ascii :=
  match blocks with
  | O => s
  | S k => b58Encode_loop k (S i) data (s ++ encodeBlock (take 8 (drop (i * 8) data)) 11)
  end.

Definition b58Encode (data : bytes) : list ascii :=
  let fullBlocks := (length data / 8)%nat in
  let tail := (length data - fullBlocks * 8)%nat in
  let s := b58Encode_loop fullBlocks 0 data [] in
  if (0 <? tail)%nat
  then s ++ encodeBlock (drop (fullBlocks * 8) data) (nth tail B58_BLOCK_SIZES 0%nat)
  else s.

(** ** The node *)

Module Cpp.

Definition u64 (n : Z) : Z := n mod 2 ^ 64.

Definition full_block_size : nat := 8.
Definition full_encoded_block_size : nat := 11.
Definition alphabet : list ascii := chars "123456789ABCDEFGHJKLMNPQRSTUVWXYZabcdefghijkmnopqrstuvwxyz".
Definition encoded_block_sizes : list nat := [0; 2; 3; 5; 6; 7; 9; 10; 11]%nat.

(** The index of a letter in the alphabet, -1 when it is not there. *)
Fixpoint index_from (i : Z) (letters : list ascii) (letter : ascii) : Z :=
  match letters with
  | [] => -1
  | a :: rest => if code a =? code letter then i else index_from (i + 1) rest letter
  end.

Definition reverse_alphabet (letter : ascii) : Z := index_from 0 alphabet letter.

(** The number of bytes a block of the given number of letters decodes to, -1 when none. *)
Fixpoint size_index (i : Z) (sizes : list nat) (size : nat) : Z :=
  match sizes with
  | [] => -1
  | s :: rest => if (s =? size)%nat then i else size_index (i + 1) rest size
  end.

Definition decoded_block_sizes (size : nat) : Z := size_index 0 encoded_block_sizes size.

(** The loop of [decode_block], from the last letter to the first. *)
Fixpoint decode_block_loop (letters : list ascii) (res_num order : Z) : option Z :=
  match letters with
  | [] => Some res_num
  | letter :: rest =>
      let digit := reverse_alphabet letter in
      if digit <? 0 then None
      else
        let product_hi := order * digit / 2 ^ 64 in
        let tmp := u64 (res_num + u64 (order * digit)) in
        if (tmp <? res_num) || negb (product_hi =? 0) then None
        else decode_block_loop rest tmp (u64 (order * 58))
  end.

Definition decode_block (block : list ascii) : option bytes :=
  let res_size := decoded_block_sizes (length block) in
  if res_size <=? 0 then None
  else
    match decode_block_loop (rev block) 0 1 with
    | None => None
    | Some res_num =>
        if (res_size <? 8) && (2 ^ (8 * res_size) <=? res_num) then None
        else Some (to_be 256 (Z.to_nat res_size) res_num)
    end.

Fixpoint decode_loop (blocks i : nat) (enc : list ascii) (data : bytes) : option bytes :=
  match blocks with
  | O => Some data
  | S k =>
      match decode_block (take 11 (drop (i * 11) enc)) with
      | None => None
      | Some b => decode_loop k (S i) enc (data ++ b)
      end
  end.

Definition decode (enc : list ascii) : option bytes :=
  match enc with
  | [] => Some []
  | _ =>
      let full_block_count := (length enc / 11)%nat in
      let last_block_size := (length enc mod 11)%nat in
      if decoded_block_sizes last_block_size <? 0 then None
      else
        match decode_loop full_block_count 0 enc [] with
        | None => None
        | Some data =>
            if (0 <? last_block_size)%nat then
              match decode_block (drop (full_block_count * 11) enc) with
              | None => None
              | Some b => Some (data ++ b)
              end
            else Some data
        end
  end.

(** [read_varint<64>]: the number of bytes read, or a negative error code, and the value. *)
Fixpoint read_varint_from (l : bytes) (shift read write : Z) : Z * Z :=
  match l with
  | [] => (read, write)
  | byte :: rest =>
      if (64 <=? shift + 7) && (2 ^ (64 - shift) <=? byte) then (-1, write)
      else if (byte =? 0) && negb (shift =? 0) then (-2, write)
      else
        let write := Z.lor write (u64 (Z.shiftl (Z.land byte 127) shift)) in
        if Z.land byte 128 =? 0 then (read + 1, write)
        else read_varint_from rest (shift + 7) (read + 1) write
  end.

Definition read_varint (l : bytes) : Z * Z := read_varint_from l 0 0 0.

End Cpp.

(** ** Blocks *)

Lemma encodeBlock_loop_digits k : forall n out,
  0 <= n -> take k out = replicate k (b58_char 0) ->
  encodeBlock_loop k n out = map b58_char (to_be 58 k n) ++ drop k out.
Proof.
  induction k as [|i IH]; intros n out Hn Hout; [done|].
  assert (i < length out)%nat as Hi.
  { apply (f_equal length) in Hout. rewrite length_take, length_replicate in Hout. lia. }
  assert (take i out = replicate i (b58_char 0)) as Hi'.
  { apply (f_equal (take i)) in Hout. rewrite take_take, take_replicate in Hout.
    by rewrite !Nat.min_l in Hout by lia. }
  cbn [encodeBlock_loop to_be]. case_test.
  - rewrite IH; [|apply Z.div_pos; lia|by rewrite take_insert_ge].
    rewrite map_app, <- app_assoc. f_equal.
    rewrite (drop_S _ (b58_char (n mod 58)) i); [|by apply list_lookup_insert_eq].
    by rewrite drop_insert_lt by lia.
  - assert (n = 0) as -> by lia.
    rewrite <- (take_drop (S i) out) at 1. f_equal. rewrite Hout.
    change (to_be 58 i (0 / 58) ++ [0 mod 58]) with (to_be 58 (S i) 0).
    rewrite to_be_0 by lia. by rewrite (fmap_replicate b58_char).
Qed.

(** A block is the fixed-width base-58 numeral of its bytes. *)
Lemma encodeBlock_digits b k :
  bytes_ok b -> encodeBlock b k = map b58_char (to_be 58 k (from_be 256 b)).
Proof.
  intros Hb. unfold encodeBlock.
  pose proof (from_be_bound 256 ltac:(lia) b Hb) as [Hn _]. unfold from_be in *.
  rewrite encodeBlock_loop_digits; [|done|by rewrite take_replicate, Nat.min_id].
  by rewrite drop_replicate, Nat.sub_diag, app_nil_r.
Qed.

Lemma length_encodeBlock b k : bytes_ok b -> length (encodeBlock b k) = k.
Proof. intros. rewrite encodeBlock_digits by done. by rewrite length_map, length_to_be. Qed.

Lemma reverse_alphabet_b58_char d : 0 <= d < 58 -> Cpp.reverse_alphabet (b58_char d) = d.
Proof.
  intros H. rewrite <- (Z2Nat.id d) by lia. assert (Z.to_nat d < 58)%nat as Hn by lia.
  revert Hn. generalize (Z.to_nat d). intros n Hn.
  cut (forallb (fun n => Cpp.reverse_alphabet (b58_char (Z.of_nat n)) =? Z.of_nat n) (seq 0 58) = true).
  - rewrite forallb_forall. intros F. apply Z.eqb_eq, F, in_seq. lia.
  - vm_compute. reflexivity.
Qed.

Lemma pow58_bound k : (k <= 10)%nat -> 0 < 58 ^ Z.of_nat k < 2 ^ 64.
Proof.
  intros H. split; [apply Z.pow_pos_nonneg; lia|].
  apply Z.le_lt_trans with (58 ^ 10); [apply Z.pow_le_mono_r; lia|]. reflexivity.
Qed.

(** The node's digit loop, on the digits that precede an already read suffix. *)
Lemma decode_block_loop_digits ds : forall es,
  digits_ok 58 ds -> digits_ok 58 es -> (length (ds ++ es) <= 11)%nat ->
  from_be 58 (ds ++ es) < 2 ^ 64 ->
  Cpp.decode_block_loop (rev (map b58_char ds)) (from_be 58 es) (Cpp.u64 (58 ^ Z.of_nat (length es)))
  = Some (from_be 58 (ds ++ es)).
Proof.
  induction ds as [|d ds IH] using rev_ind; intros es Hd He Hlen Hmax; [done|].
  apply Forall_app in Hd as [Hd Hd1]. apply Forall_cons in Hd1 as [Hd1 _].
  rewrite <- app_assoc in *. cbn [app] in *.
  assert (digits_ok 58 (d :: es)) as Hde by by apply Forall_cons_2.
  rewrite length_app in Hlen. cbn [length] in Hlen.
  pose proof (pow58_bound (length es) ltac:(lia)) as Hpow.
  pose proof (from_be_bound 58 ltac:(lia) _ He) as Hbe.
  assert (from_be 58 (d :: es) < 2 ^ 64) as Hsmall.
  { pose proof (from_be_bound 58 ltac:(lia) _ Hd) as [Hds _].
    rewrite from_be_app in Hmax by lia.
    assert (0 < 58 ^ Z.of_nat (length (d :: es))) by (apply Z.pow_pos_nonneg; lia). nia. }
  rewrite from_be_cons in Hsmall by lia.
  rewrite map_app, rev_app_distr. cbn [map rev app Cpp.decode_block_loop].
  rewrite reverse_alphabet_b58_char by done.
  specialize (IH (d :: es)). cbn [length] in IH. rewrite Nat2Z.inj_succ, Z.pow_succ_r in IH by lia.
  rewrite from_be_cons in IH by lia. rewrite length_app in IH. cbn [length] in IH.
  assert (forall n, 0 <= n < 2 ^ 64 -> Cpp.u64 n = n) as Hu by (intros; by apply Z.mod_small).
  rewrite !(Hu (58 ^ Z.of_nat (length es))) by lia.
  revert Hpow Hbe Hsmall IH. generalize (58 ^ Z.of_nat (length es)). intros P Hpow Hbe Hsmall IH.
  rewrite (Z.div_small (P * d)), !(Hu (P * d)), !Hu by nia.
  case_test; [lia|]. case_test.
  - apply orb_prop in Heqb0 as [E|E]; [|done]. bool_to_prop. nia.
  - rewrite Z.add_comm, (Z.mul_comm P d), (Z.mul_comm P 58). apply IH; done.
Qed.

(** What the two block-size tables and the machine widths give for a block of [k] bytes. *)
Lemma block_size_facts k :
  (1 <= k <= 8)%nat ->
  let c := nth k B58_BLOCK_SIZES 0%nat in
  (1 <= c <= 11)%nat /\ Cpp.decoded_block_sizes c = Z.of_nat k /\
  256 ^ Z.of_nat k <= 58 ^ Z.of_nat c /\ 256 ^ Z.of_nat k <= 2 ^ 64 /\
  256 ^ Z.of_nat k = 2 ^ (8 * Z.of_nat k).
Proof.
  intros H. assert (k = 1 \/ k = 2 \/ k = 3 \/ k = 4 \/ k = 5 \/ k = 6 \/ k = 7 \/ k = 8)%nat as Hk by lia.
  repeat destruct Hk as [->|Hk]; try subst k; vm_compute; repeat split; done || lia.
Qed.

Lemma decode_encodeBlock b :
  bytes_ok b -> (1 <= length b <= 8)%nat ->
  Cpp.decode_block (encodeBlock b (nth (length b) B58_BLOCK_SIZES 0%nat)) = Some b.
Proof.
  intros Hb Hlen. destruct (block_size_facts _ Hlen) as (Hc & Hdec & Hle & H64 & Hpow).
  set (c := nth (length b) B58_BLOCK_SIZES 0%nat) in *.
  pose proof (from_be_bound 256 ltac:(lia) b Hb) as Hn.
  unfold Cpp.decode_block. rewrite length_encodeBlock, Hdec, encodeBlock_digits by done.
  case_test; [lia|].
  assert (from_be 58 (to_be 58 c (from_be 256 b)) = from_be 256 b) as Hfrom.
  { rewrite from_to_be by lia. apply Z.mod_small. lia. }
  pose proof (decode_block_loop_digits (to_be 58 c (from_be 256 b)) []) as Hloop.
  rewrite app_nil_r, length_to_be, Hfrom in Hloop. change (from_be 58 []) with 0 in Hloop.
  change (Cpp.u64 (58 ^ Z.of_nat (length []))) with 1 in Hloop.
  rewrite Hloop; [|apply to_be_digits; lia|constructor|lia|lia]. rewrite <- Hpow.
  case_test; [apply andb_prop in Heqb1 as [_ E]; bool_to_prop; lia|].
  rewrite Nat2Z.id. by rewrite to_from_be by (done || lia).
Qed.

(** ** Whole strings *)

Fixpoint enc_full (n : nat) (body : bytes) : list ascii :=
  match n with
  | O => []
  | S k => encodeBlock (take 8 body) 11 ++ enc_full k (drop 8 body)
  end.

Fixpoint dec_full (n : nat) (enc : list ascii) : option bytes :=
  match n with
  | O => Some []
  | S k => match Cpp.decode_block (take 11 enc) with
           | None => None
           | Some b => app b <$> dec_full k (drop 11 enc)
           end
  end.

Lemma b58Encode_loop_full n : forall i data s,
  b58Encode_loop n i data s = s ++ enc_full n (drop (i * 8) data).
Proof.
  induction n as [|n IH]; intros i data s; cbn [b58Encode_loop enc_full]; [by rewrite app_nil_r|].
  rewrite IH, <- app_assoc, drop_drop. by replace (i * 8 + 8)%nat with (S i * 8)%nat by lia.
Qed.

Lemma decode_loop_full n : forall i enc data,
  Cpp.decode_loop n i enc data = app data <$> dec_full n (drop (i * 11) enc).
Proof.
  induction n as [|n IH]; intros i enc data; cbn [Cpp.decode_loop dec_full].
  - cbn. by rewrite app_nil_r.
  - destruct (Cpp.decode_block _) as [b|]; [|done]. rewrite IH, drop_drop.
    replace (i * 11 + 11)%nat with (S i * 11)%nat by lia.
    destruct (dec_full n _); cbn; [by rewrite app_assoc|done].
Qed.

Lemma length_enc_full n : forall body,
  bytes_ok body -> (n * 8 <= length body)%nat -> length (enc_full n body) = (n * 11)%nat.
Proof.
  induction n as [|n IH]; intros body Hb Hlen; [done|]. cbn [enc_full].
  rewrite length_app, length_encodeBlock by by apply Forall_take.
  rewrite IH; [lia|by apply Forall_drop|rewrite length_drop; lia].
Qed.

Lemma dec_enc_full n : forall body rest,
  bytes_ok body -> (n * 8 <= length body)%nat ->
  dec_full n (enc_full n body ++ rest) = Some (take (n * 8) body).
Proof.
  induction n as [|n IH]; intros body rest Hb Hlen; [done|]. cbn [enc_full dec_full].
  assert (bytes_ok (take 8 body)) as Ht by by apply Forall_take.
  assert (length (take 8 body) = 8%nat) as H8 by (rewrite length_take; lia).
  pose proof (length_encodeBlock _ 11 Ht) as H11.
  pose proof (decode_encodeBlock _ Ht ltac:(lia)) as Hdec. rewrite H8 in Hdec. cbn [nth B58_BLOCK_SIZES] in Hdec.
  rewrite <- app_assoc. rewrite take_app_length' by done. rewrite drop_app_length' by done.
  rewrite Hdec, IH; [|by apply Forall_drop|rewrite length_drop; lia]. cbn.
  f_equal. by rewrite take_take_drop.
Qed.

Lemma b58Encode_split data :
  b58Encode data =
  let full := (length data / 8)%nat in
  enc_full full data ++
  match (length data mod 8)%nat with
  | O => []
  | tail => encodeBlock (drop (full * 8) data) (nth tail B58_BLOCK_SIZES 0%nat)
  end.
Proof.
  unfold b58Encode. rewrite b58Encode_loop_full, drop_0. cbn [app].
  replace (length data - length data / 8 * 8)%nat with (length data mod 8)%nat.
  - destruct (length data mod 8)%nat; cbn [Nat.ltb Nat.leb]; [by rewrite app_nil_r|done].
  - pose proof (Nat.div_mod_eq (length data) 8). lia.
Qed.

Lemma length_b58Encode data :
  bytes_ok data ->
  length (b58Encode data) = (length data / 8 * 11 + nth (length data mod 8) B58_BLOCK_SIZES 0)%nat.
Proof.
  intros Hb. rewrite b58Encode_split. cbv zeta. pose proof (Nat.div_mod_eq (length data) 8).
  rewrite length_app, length_enc_full by (done || lia). f_equal.
  destruct (length data mod 8)%nat; [done|]. apply length_encodeBlock. by apply Forall_drop.
Qed.

Lemma block_sizes_lt t : (t < 8)%nat ->
  (nth t B58_BLOCK_SIZES 0 < 11)%nat /\ Cpp.decoded_block_sizes (nth t B58_BLOCK_SIZES 0%nat) = Z.of_nat t /\
  ((0 <? nth t B58_BLOCK_SIZES 0) = (0 <? t))%nat.
Proof. intros H. do 8 (destruct t as [|t]; [vm_compute; repeat split; lia|]). lia. Qed.

(** The node's early return on the empty string agrees with its general case. *)
Lemma decode_eq enc :
  Cpp.decode enc =
  let full := (length enc / 11)%nat in
  let last := (length enc mod 11)%nat in
  if Cpp.decoded_block_sizes last <? 0 then None
  else match dec_full full enc with
       | None => None
       | Some data =>
           if (0 <? last)%nat then app data <$> Cpp.decode_block (drop (full * 11) enc) else Some data
       end.
Proof.
  destruct enc as [|c enc]; [done|]. unfold Cpp.decode. rewrite decode_loop_full, drop_0. cbv zeta.
  case_test; [done|]. destruct (dec_full _ _) as [data|]; cbn [fmap option_fmap option_map app]; [|done].
  case_test; [|done]. by destruct (Cpp.decode_block _).
Qed.

Lemma b58_decode_encode data : bytes_ok data -> Cpp.decode (b58Encode data) = Some data.
Proof.
  intros Hb.
  pose proof (Nat.div_mod_eq (length data) 8) as Hdiv.
  pose proof (Nat.mod_upper_bound (length data) 8 ltac:(lia)) as Hmod.
  destruct (block_sizes_lt _ Hmod) as (Hc & Hdec & H0).
  pose proof (length_b58Encode data Hb) as Hlen.
  assert (length (b58Encode data) / 11 = length data / 8)%nat as Hq.
  { rewrite Hlen, Nat.div_add_l, (Nat.div_small (nth _ _ _)) by lia. lia. }
  assert (length (b58Encode data) mod 11 = nth (length data mod 8) B58_BLOCK_SIZES 0)%nat as Hr.
  { rewrite Hlen, Nat.add_comm, Nat.Div0.mod_add. by apply Nat.mod_small. }
  rewrite decode_eq. cbv zeta. rewrite Hq, Hr, Hdec, H0.
  rewrite b58Encode_split. cbv zeta. rewrite dec_enc_full by (done || lia).
  case_test; [lia|].
  destruct (length data mod 8)%nat as [|t] eqn:Ht; cbn [Nat.ltb Nat.leb].
  - f_equal. apply take_ge. lia.
  - rewrite drop_app_length' by (symmetry; apply length_enc_full; done || lia).
    pose proof (decode_encodeBlock (drop (length data / 8 * 8) data)) as Hl. rewrite length_drop in Hl.
    replace (length data - length data / 8 * 8)%nat with (S t) in Hl by lia.
    rewrite Hl; [cbn; by rewrite take_drop|by apply Forall_drop|lia].
Qed.

Lemma length_decode_block block b :
  Cpp.decode_block block = Some b -> Z.of_nat (length b) = Cpp.decoded_block_sizes (length block).
Proof.
  unfold Cpp.decode_block. case_test; [done|]. destruct (Cpp.decode_block_loop _ _ _); [|done].
  case_test; [done|]. intros [= <-]. rewrite length_to_be. lia.
Qed.

Lemma length_dec_full n : forall enc data,
  (n * 11 <= length enc)%nat -> dec_full n enc = Some data -> length data = (n * 8)%nat.
Proof.
  induction n as [|n IH]; intros enc data Hlen; cbn [dec_full]; [by intros [= <-]|].
  destruct (Cpp.decode_block _) as [b|] eqn:Eb; [|done]. apply length_decode_block in Eb.
  rewrite length_take, Nat.min_l in Eb by lia. change (Cpp.decoded_block_sizes 11) with 8 in Eb.
  destruct (dec_full n _) as [d|] eqn:Ed; [|done]. intros [= <-].
  apply IH in Ed; [|rewrite length_drop; lia]. rewrite length_app. lia.
Qed.

(** The number of bytes the node decodes a string to depends only on the string's length. *)
Lemma length_decode enc data :
  Cpp.decode enc = Some data ->
  Z.of_nat (length data) = 8 * Z.of_nat (length enc / 11) + Cpp.decoded_block_sizes (length enc mod 11).
Proof.
  rewrite decode_eq. cbv zeta. pose proof (Nat.div_mod_eq (length enc) 11) as Hdm.
  pose proof (Nat.mod_upper_bound (length enc) 11 ltac:(lia)) as Hm.
  case_test; [done|]. destruct (dec_full _ enc) as [d|] eqn:Ed; [|done].
  apply length_dec_full in Ed; [|lia]. destruct (Nat.ltb_spec 0 (length enc mod 11)).
  - destruct (Cpp.decode_block _) as [b|] eqn:Eb; [|done]. intros [= <-]. apply length_decode_block in Eb.
    rewrite length_drop in Eb. replace (length enc - length enc / 11 * 11)%nat with (length enc mod 11)%nat in Eb by lia.
    rewrite length_app. lia.
  - intros [= <-]. replace (length enc mod 11)%nat with 0%nat by lia. change (Cpp.decoded_block_sizes 0) with 0. lia.
Qed.

(** ** Varints *)

(** The base-128 digits the varint of [n] is made of, continuation bits included. *)
Fixpoint vbytes (fuel : nat) (n : Z) : bytes :=
  match fuel with
  | O => []
  | S f => if 128 <=? n then (n mod 128 + 128) :: vbytes f (n / 128) else [n]
  end.

Lemma vbytes_S f n :
  vbytes (S f) n = if 128 <=? n then (n mod 128 + 128) :: vbytes f (n / 128) else [n].
Proof. done. Qed.

Lemma vbytes_pos f n : (0 < length (vbytes (S f) n))%nat.
Proof. rewrite vbytes_S. case_test; cbn; lia. Qed.

Lemma js_and_127 n : js_and n 127 = n mod 128.
Proof.
  unfold js_and. rewrite (to_int32_small 127) by lia. change 127 with (Z.ones 7).
  rewrite Z.land_ones by lia. change (2 ^ 7) with 128.
  rewrite <- (Z.mod_mod_divide (to_int32 n) (2 ^ 32) 128), to_int32_mod by by exists (2 ^ 25).
  apply Z.mod_mod_divide. by exists (2 ^ 25).
Qed.

Lemma js_or_128 x : 0 <= x < 128 -> js_or x 128 = x + 128.
Proof.
  intros H. unfold js_or. rewrite !to_int32_small by lia.
  rewrite Z.lor_comm. change 128 with (1 * 2 ^ 7) at 1. rewrite lor_low by lia. lia.
Qed.

Lemma js_shru_7 n : js_shru n 7 = n mod 2 ^ 32 / 128.
Proof. unfold js_shru. change (Z.land (to_uint32 7) 31) with 7. by rewrite Z.shiftr_div_pow2. Qed.

(** On 32-bit values the bit operations are division and remainder by 128. *)
Lemma encodeVarint_loop_S f n out :
  0 <= n < 2 ^ 32 ->
  encodeVarint_loop (S f) n out =
  if 128 <=? n then encodeVarint_loop f (n / 128) (out ++ [n mod 128 + 128]) else Some (out ++ [n]).
Proof.
  intros Hn. cbn [encodeVarint_loop]. rewrite js_and_127, js_shru_7, (Z.mod_small n (2 ^ 32)) by lia.
  case_test; [by rewrite js_or_128 by (apply Z.mod_pos_bound; lia)|by rewrite Z.mod_small by lia].
Qed.

Lemma encodeVarint_loop_vbytes f : forall n out,
  0 <= n < 2 ^ 32 -> n < 128 ^ Z.of_nat (S f) ->
  encodeVarint_loop (S f) n out = Some (out ++ vbytes (S f) n).
Proof.
  induction f as [|f IH]; intros n out Hn Hf; rewrite encodeVarint_loop_S by done.
  - change (128 ^ Z.of_nat 1) with 128 in Hf. cbn [vbytes]. by case_test; [lia|].
  - rewrite Nat2Z.inj_succ, Z.pow_succ_r in Hf by lia. rewrite (vbytes_S (S f)).
    case_test; [|done]. rewrite IH; [by rewrite <- app_assoc| |apply Z.div_lt_upper_bound; lia].
    split; [apply Z.div_pos; lia|]. apply Z.div_lt_upper_bound; lia.
Qed.

Lemma vbytes_ok f : forall n, 0 <= n -> bytes_ok (vbytes f n).
Proof.
  induction f as [|f IH]; intros n Hn; [constructor|]. cbn [vbytes]. case_test.
  - apply Forall_cons_2; [pose proof (Z.mod_pos_bound n 128); lia|]. apply IH. apply Z.div_pos; lia.
  - apply Forall_cons_2; [lia|constructor].
Qed.

Lemma map_to_uint8 b : bytes_ok b -> map to_uint8 b = b.
Proof.
  induction 1 as [|x b Hx Hb IH]; [done|]. cbn. rewrite IH. f_equal. by apply Z.mod_small.
Qed.

Lemma encodeVarint_vbytes n : 0 <= n < 2 ^ 32 -> encodeVarint n = Some (vbytes 6 n).
Proof.
  intros H. unfold encodeVarint. rewrite encodeVarint_loop_vbytes by (change (128 ^ Z.of_nat 6) with 4398046511104; lia).
  cbn [app fmap option_fmap option_map]. by rewrite map_to_uint8 by (apply vbytes_ok; lia).
Qed.

Lemma byte_bits x : 0 <= x < 128 ->
  Z.land x 127 = x /\ Z.land x 128 = 0 /\ Z.land (x + 128) 127 = x /\ (Z.land (x + 128) 128 =? 0) = false.
Proof.
  intros H. rewrite <- (Z2Nat.id x) by lia. assert (Z.to_nat x < 128)%nat as Hn by lia.
  revert Hn. generalize (Z.to_nat x). intros n Hn.
  cut (forallb (fun n => let x := Z.of_nat n in
    (Z.land x 127 =? x) && (Z.land x 128 =? 0) && (Z.land (x + 128) 127 =? x)
    && negb (Z.land (x + 128) 128 =? 0)) (seq 0 128) = true); [|vm_compute; reflexivity].
  rewrite forallb_forall. intros F. specialize (F n (proj2 (in_seq _ _ _) (conj (Nat.le_0_l n) Hn))).
  cbv zeta in F. split_hyps. bool_to_prop. split_and!; try done. by apply negb_true_iff.
Qed.

(** Placing the next seven bits above those already read. *)
Lemma varint_place write d shift :
  0 <= shift -> 0 <= write < 2 ^ shift -> 0 <= d -> d * 2 ^ shift < 2 ^ 64 ->
  Z.lor write (Cpp.u64 (Z.shiftl d shift)) = write + d * 2 ^ shift.
Proof.
  intros Hs Hw Hd Hm. unfold Cpp.u64. rewrite Z.shiftl_mul_pow2, Z.mod_small by nia.
  rewrite Z.lor_comm, lor_low by lia. lia.
Qed.

(** Neither rejection of the reader applies to a last byte in range. *)
Lemma varint_last_checks n shift :
  0 <= n -> 0 <= shift -> (shift = 0 \/ 0 < n) -> n * 2 ^ shift < 2 ^ 64 ->
  (64 <=? shift + 7) && (2 ^ (64 - shift) <=? n) = false /\ (n =? 0) && negb (shift =? 0) = false.
Proof.
  intros Hn Hs Hpos Hm. pose proof (Z.pow_pos_nonneg 2 shift ltac:(lia) Hs) as Hp.
  split; apply andb_false_iff.
  - destruct (Z.leb_spec 64 (shift + 7)); [right|by left]. apply Z.leb_gt.
    assert (shift < 64) by (destruct Hpos as [->|Hpos]; [lia|]; apply (Z.pow_lt_mono_r_iff 2); lia || nia).
    apply (Z.mul_lt_mono_pos_r (2 ^ shift)); [lia|]. rewrite <- Z.pow_add_r by lia.
    by replace (64 - shift + shift) with 64 by lia.
  - destruct Hpos as [->|Hpos]; [by right|left; apply Z.eqb_neq; lia].
Qed.

Lemma read_vbytes f : forall n shift read write rest,
  0 <= n < 128 ^ Z.of_nat (S f) -> 0 <= shift -> (shift = 0 \/ 0 < n) ->
  0 <= write < 2 ^ shift -> n * 2 ^ shift < 2 ^ 64 ->
  Cpp.read_varint_from (vbytes (S f) n ++ rest) shift read write
  = (read + Z.of_nat (length (vbytes (S f) n)), write + n * 2 ^ shift).
Proof.
  induction f as [|f IH]; intros n shift read write rest Hn Hs Hpos Hw Hm;
    rewrite vbytes_S;
    pose proof (Z.pow_pos_nonneg 2 shift ltac:(lia) Hs) as Hp; case_test.
  1: { change (128 ^ Z.of_nat 1) with 128 in Hn. lia. }
  2: { (* a continued byte *)
    assert (shift + 7 < 64) as H64.
    { apply (Z.pow_lt_mono_r_iff 2); [lia|lia|]. rewrite Z.pow_add_r by lia. lia. }
    pose proof (Z.mod_pos_bound n 128 ltac:(lia)) as Hmod. pose proof (Z.div_mod n 128 ltac:(lia)) as Hdm.
    destruct (byte_bits (n mod 128) Hmod) as (_ & _ & E127 & E128).
    rewrite Nat2Z.inj_succ, Z.pow_succ_r in Hn by lia.
    cbn [app Cpp.read_varint_from]. rewrite E127, E128, varint_place by nia.
    rewrite (proj2 (Z.leb_gt 64 (shift + 7))) by lia. cbn [andb].
    rewrite (proj2 (Z.eqb_neq (n mod 128 + 128) 0)) by lia. cbn [andb].
    rewrite IH; try (rewrite Z.pow_add_r by lia; nia); try lia.
    cbn [length]. f_equal; [lia|]. rewrite Z.pow_add_r by lia. nia. }
  all: destruct (byte_bits n ltac:(lia)) as (E127 & E128 & _).
  all: cbn [app Cpp.read_varint_from]; rewrite E127, E128, varint_place by nia; rewrite Z.eqb_refl.
  all: destruct (varint_last_checks n shift) as [-> ->]; done || lia.
Qed.

(** A varint the browser wallet writes is read back by the node: for every value below
    2^32 the encoder returns bytes from which [read_varint] recovers the value, consuming
    exactly those bytes whatever follows them. *)
Theorem varint_roundtrip n rest :
  0 <= n < 2 ^ 32 ->
  exists bs, encodeVarint n = Some bs /\ bytes_ok bs /\
             Cpp.read_varint (bs ++ rest) = (Z.of_nat (length bs), n).
Proof.
  intros H. exists (vbytes 6 n). split_and!.
  - by apply encodeVarint_vbytes.
  - apply vbytes_ok. lia.
  - unfold Cpp.read_varint. rewrite (read_vbytes 5); try (cbn; lia).
    rewrite Z.pow_0_r. f_equal; lia.
Qed.

Lemma varint_roundtrip_witness :
  0 <= 300 < 2 ^ 32 /\ (exists bs, encodeVarint 300 = Some bs /\ bytes_ok bs /\
     Cpp.read_varint (bs ++ [7]) = (Z.of_nat (length bs), 300)).
Proof. split; [lia|]. apply (varint_roundtrip 300 [7]). lia. Defined.

(** the varint loop always ends: six rounds are enough for every integer. *)
Theorem encodeVarint_total n : exists bs, encodeVarint n = Some bs.
Proof.
  unfold encodeVarint. cut (exists bs, encodeVarint_loop 6 n [] = Some bs).
  { intros [bs ->]. by eexists. }
  rewrite (eq_refl : encodeVarint_loop 6 n [] = if 128 <=? n then encodeVarint_loop 5 (js_shru n 7) _ else Some _).
  case_test; [|by eexists].
  rewrite encodeVarint_loop_vbytes; [by eexists| |].
  all: rewrite js_shru_7; pose proof (Z.mod_pos_bound n (2 ^ 32) ltac:(lia)).
  - split; [apply Z.div_pos; lia|]. apply Z.div_lt_upper_bound; lia.
  - apply Z.div_lt_upper_bound; [lia|]. change (128 ^ Z.of_nat 5) with 34359738368. lia.
Qed.

(** What the browser wallet encodes in base58, the node decodes to the same bytes, for byte
    strings of every length. *)
Theorem b58_roundtrip data : bytes_ok data -> Cpp.decode (b58Encode data) = Some data.
Proof. apply b58_decode_encode. Qed.

Lemma b58_roundtrip_witness :
  bytes_ok [144; 1; 255; 0; 7; 8; 9; 10; 11; 12] /\
  Cpp.decode (b58Encode [144; 1; 255; 0; 7; 8; 9; 10; 11; 12]) = Some [144; 1; 255; 0; 7; 8; 9; 10; 11; 12].
Proof.
  assert (bytes_ok [144; 1; 255; 0; 7; 8; 9; 10; 11; 12]) by (repeat constructor; lia).
  split; [done|]. apply b58_roundtrip. done.
Defined.
