(* ===== verification/Crc32.v ===== *)
(** * Crc32: the seed checksum of wordmine/public/lib/wallet.js

    [CRC32_TABLE] and [crc32String] are the table-driven code with JavaScript's
    signed 32-bit intermediate values.  [crc32_ref] is the bit-at-a-time
    definition of the reflected CRC-32 on unsigned words, which is what the
    node's seed checksum (boost's [crc_32_type]) is specified to compute.  The
    theorem is that the two agree on every string. *)

From S2P Require Import Prelude JsCore.
From Stdlib Require Import Btauto.

(** ** The code *)

(** [c = (c & 1) ? (0xedb88320 ^ (c >>> 1)) : (c >>> 1)], [k] times. *)
Fixpoint crc_entry (k : nat) (c : Z) : Z :=
  match k with
  | O => c
  | S k' => crc_entry k' (if js_and c 1 =? 0 then js_shru c 1 else js_xor 3988292384 (js_shru c 1))
  end.

Definition CRC32_TABLE : list Z := map (fun i => js_shru (crc_entry 8 (Z.of_nat i)) 0) (seq 0 256).

Fixpoint crc32_loop (table : list Z) (l : list ascii) (crc : Z) : Z :=
  match l with
  | [] => crc
  | c :: l' =>
      crc32_loop table l'
        (js_xor (js_shru crc 8) (nth (Z.to_nat (js_and (js_xor crc (code c)) 255)) table 0))
  end.

Definition crc32String (str : string) : Z :=
  js_shru (js_xor (crc32_loop CRC32_TABLE (chars str) 4294967295) 4294967295) 0.

(** ** The reference *)

Definition crc_bit (x : Z) : Z :=
  Z.lxor (Z.shiftr x 1) (if Z.odd x then 3988292384 else 0).

Fixpoint crc_bits (n : nat) (x : Z) : Z :=
  match n with
  | O => x
  | S k => crc_bits k (crc_bit x)
  end.

Definition crc_byte (crc : Z) (b : Z) : Z := crc_bits 8 (Z.lxor crc b).

Definition crc32_ref (l : list Z) : Z :=
  Z.lxor (fold_left crc_byte l 4294967295) 4294967295.

Lemma fold_left_cons {A B} (f : A -> B -> A) x l a : fold_left f (x :: l) a = fold_left f l (f a x).
Proof. reflexivity. Qed.

(** ** Linearity of the reference *)

Lemma crc_bit_lxor x y : crc_bit (Z.lxor x y) = Z.lxor (crc_bit x) (crc_bit y).
Proof.
  unfold crc_bit. rewrite Z.shiftr_lxor, <- !Z.bit0_odd, Z.lxor_spec.
  destruct (Z.testbit x 0), (Z.testbit y 0); cbn [xorb];
    apply Z.bits_inj'; intros i _; rewrite !Z.lxor_spec, ?Z.bits_0; btauto.
Qed.

Lemma crc_bits_lxor n : forall x y,
  crc_bits n (Z.lxor x y) = Z.lxor (crc_bits n x) (crc_bits n y).
Proof.
  induction n as [|n IH]; intros x y; [done|]. cbn [crc_bits]. by rewrite crc_bit_lxor, IH.
Qed.

Lemma crc_bit_double m : crc_bit (2 * m) = m.
Proof.
  unfold crc_bit. rewrite Z.odd_mul. cbn [Z.odd andb].
  rewrite Z.lxor_0_r, Z.shiftr_div_pow2, Z.mul_comm by lia. apply Z.div_mul. lia.
Qed.

Lemma crc_bits_shift n : forall m, crc_bits n (m * 2 ^ Z.of_nat n) = m.
Proof.
  induction n as [|n IH]; intros m; [cbn; lia|].
  cbn [crc_bits]. rewrite Nat2Z.inj_succ, Z.pow_succ_r by lia.
  replace (m * (2 * 2 ^ Z.of_nat n)) with (2 * (m * 2 ^ Z.of_nat n)) by ring.
  by rewrite crc_bit_double, IH.
Qed.

(** One byte step splits into a shift of the high bits and a table entry for the low ones. *)
Lemma crc_byte_split x :
  crc_bits 8 x = Z.lxor (Z.shiftr x 8) (crc_bits 8 (x mod 256)).
Proof.
  assert (x = Z.lxor (Z.shiftr x 8 * 2 ^ Z.of_nat 8) (x mod 256)) as Hx.
  { rewrite Z.lxor_lor.
    - change (Z.of_nat 8) with 8. rewrite lor_low by (try apply Z.mod_pos_bound; lia).
      rewrite Z.shiftr_div_pow2 by lia. change (2 ^ 8) with 256. pose proof (Z.div_mod x 256). lia.
    - apply Z.bits_inj'. intros i Hi. rewrite Z.land_spec, Z.bits_0. change 256 with (2 ^ 8).
      destruct (Z.lt_ge_cases i 8).
      + by rewrite Z.mul_pow2_bits_low.
      + by rewrite Z.mod_pow2_bits_high, andb_false_r by lia. }
  rewrite Hx at 1. by rewrite crc_bits_lxor, crc_bits_shift.
Qed.

(** ** The table and the signed arithmetic *)

Lemma table_entry i : 0 <= i < 256 -> nth (Z.to_nat i) CRC32_TABLE 0 = crc_bits 8 i.
Proof.
  intros H. rewrite <- (Z2Nat.id i) at 2 by lia. assert (Z.to_nat i < 256)%nat as Hn by lia.
  revert Hn. generalize (Z.to_nat i). intros n Hn.
  cut (forallb (fun n => nth n CRC32_TABLE 0 =? crc_bits 8 (Z.of_nat n)) (seq 0 256) = true).
  - rewrite forallb_forall. intros F. apply Z.eqb_eq, F, in_seq. lia.
  - vm_compute. reflexivity.
Qed.

Lemma mod_lxor a b k : 0 <= k -> (Z.lxor a b) mod 2 ^ k = Z.lxor (a mod 2 ^ k) (b mod 2 ^ k).
Proof.
  intros Hk. apply Z.bits_inj'. intros i Hi. rewrite Z.lxor_spec.
  destruct (Z.lt_ge_cases i k).
  - by rewrite !Z.mod_pow2_bits_low, Z.lxor_spec by lia.
  - by rewrite !Z.mod_pow2_bits_high by lia.
Qed.

Lemma to_uint32_xor a b : to_uint32 (js_xor a b) = Z.lxor (to_uint32 a) (to_uint32 b).
Proof. unfold to_uint32, js_xor. by rewrite mod_lxor, !to_int32_mod by lia. Qed.

Lemma js_shru_0 a : js_shru a 0 = to_uint32 a.
Proof. unfold js_shru. apply Z.shiftr_0_r. Qed.

Lemma js_shru_8 a : js_shru a 8 = Z.shiftr (to_uint32 a) 8.
Proof. done. Qed.

Lemma js_and_255 a : js_and a 255 = to_uint32 a mod 256.
Proof.
  unfold js_and, to_uint32. rewrite (to_int32_small 255) by lia. change 255 with (2 ^ 8 - 1).
  rewrite land_low by lia. change (2 ^ 8) with 256.
  rewrite <- (Z.mod_mod_divide (to_int32 a) (2 ^ 32) 256), to_int32_mod by by exists (2 ^ 24). done.
Qed.

Lemma shiftr_lxor_byte u b : 0 <= b < 256 -> Z.shiftr (Z.lxor u b) 8 = Z.shiftr u 8.
Proof.
  intros H. rewrite Z.shiftr_lxor, (Z.shiftr_div_pow2 b), Z.div_small by (cbn; lia). apply Z.lxor_0_r.
Qed.

Lemma table_range n : 0 <= nth n CRC32_TABLE 0 < 2 ^ 32.
Proof.
  destruct (nth_in_or_default n CRC32_TABLE 0) as [Hin| ->]; [|lia].
  apply in_map_iff in Hin as (j & <- & _). rewrite js_shru_0. apply Z.mod_pos_bound. lia.
Qed.

Lemma crc_round table crc b :
  (forall i, 0 <= i < 256 -> nth (Z.to_nat i) table 0 = crc_bits 8 i) ->
  (forall n, 0 <= nth n table 0 < 2 ^ 32) -> 0 <= b < 256 ->
  to_uint32 (js_xor (js_shru crc 8) (nth (Z.to_nat (js_and (js_xor crc b) 255)) table 0))
  = crc_byte (to_uint32 crc) b.
Proof.
  intros HT HR Hb. unfold crc_byte. rewrite crc_byte_split, shiftr_lxor_byte by done.
  rewrite to_uint32_xor, js_shru_8, js_and_255, to_uint32_xor.
  assert (to_uint32 b = b) as -> by (apply Z.mod_small; lia).
  rewrite <- HT by (apply Z.mod_pos_bound; lia).
  rewrite (Z.mod_small _ (2 ^ 32) (HR _) : to_uint32 (nth _ table 0) = _). f_equal.
  apply Z.mod_small. pose proof (Z.mod_pos_bound crc (2 ^ 32) ltac:(lia)). unfold to_uint32.
  rewrite Z.shiftr_div_pow2 by lia. split; [apply Z.div_pos; lia|]. apply Z.div_lt_upper_bound; lia.
Qed.

Lemma crc32_loop_ref table l : forall crc,
  (forall i, 0 <= i < 256 -> nth (Z.to_nat i) table 0 = crc_bits 8 i) ->
  (forall n, 0 <= nth n table 0 < 2 ^ 32) ->
  to_uint32 (crc32_loop table l crc) = fold_left crc_byte (map code l) (to_uint32 crc).
Proof.
  induction l as [|c l IH]; intros crc HT HR; [done|].
  rewrite map_cons, fold_left_cons, <- (crc_round table) by (done || apply code_range).
  rewrite <- IH by done. reflexivity.
Qed.

(** The table-driven checksum with signed 32-bit intermediates computes the reflected
    CRC-32 of the string's bytes, on every string. *)
Theorem crc32String_correct s : crc32String s = crc32_ref (map code (chars s)).
Proof.
  unfold crc32String, crc32_ref. rewrite js_shru_0, to_uint32_xor.
  by rewrite (crc32_loop_ref _ _ _ table_entry table_range).
Qed.

(** The check value every CRC-32 catalogue gives for the string 123456789. *)
Example crc32_check_value : crc32String "123456789" = 3421780262.
Proof. vm_compute. reflexivity. Qed.
