(* ===== verification/Mnemonic.v ===== *)
(** * Mnemonic: 25-word seeds in wordmine/public/lib/wallet.js

    [bytesToMnemonic] and [mnemonicToBytes] translate between 32 secret bytes
    and 24 dictionary words plus a checksum word.  Module [Cpp] is the word
    arithmetic of the node's restore code (src/mnemonics/electrum-words.cpp) on
    its 32-bit integers.  The theorems: the two browser functions are inverse,
    every seed the browser writes is one the node restores to the same bytes,
    and where the two decoders differ. *)

From S2P Require Import Prelude JsCore Bytes Crc32 Wordlist.
Local Open Scope glaciem_scope.

(** ** The browser wallet *)

(** [BigInt(b[i]) | (BigInt(b[i+1]) << 8n) | (BigInt(b[i+2]) << 16n) | (BigInt(b[i+3]) << 24n)] *)
Definition le32 (b : bytes) (i : nat) : Z :=
  Z.lor (Z.lor (Z.lor (nth i b 0) (Z.shiftl (nth (i + 1) b 0) 8)) (Z.shiftl (nth (i + 2) b 0) 16))
        (Z.shiftl (nth (i + 3) b 0) 24).

(** The three word indices of a 32-bit value. *)
Definition word_indices (n x : Z) : Z * Z * Z :=
  let w1 := x mod n in
  let w2 := (x / n + w1) mod n in
  let w3 := (x / n / n + w2) mod n in
  (w1, w2, w3).

Definition word_at (words : list string) (i : Z) : string := nth (Z.to_nat i) words ""%string.

(** [for (let i = 0; i < 32; i += 4)], from [i] on for [rounds] rounds. *)
Fixpoint bytesToMnemonic_loop (rounds i : nat) (b : bytes) (words : list string) (out : list string) : list string :=
  match rounds with
  | O => out
  | S r =>
      let '(w1, w2, w3) := word_indices (Z.of_nat (length words)) (le32 b i) in
      bytesToMnemonic_loop r (i + 4) b words (out ++ [word_at words w1; word_at words w2; word_at words w3])
  end.

(** [ws.map(w => w.slice(0, prefixLen)).join('')] and its checksum index. *)
Definition checksum_index (ws : list string) (prefixLen : nat) : Z :=
  let joined := of_chars (mjoin (map (fun w => chars (slice_to prefixLen w)) ws)) in
  crc32String joined mod Z.of_nat (length ws).

Definition bytesToMnemonic (b : bytes) (words : list string) (prefixLen : nat) : res (list string) :=
  if negb (length b =? 32)%nat then Err "mnemonic expects 32 bytes"
  else if (length words =? 0)%nat then Err "Division by zero"
  else
    let out := bytesToMnemonic_loop 8 0 b words [] in
    Ok (out ++ [nth (Z.to_nat (checksum_index out prefixLen)) out ""%string]).

(** [new Map(words.map((w, i) => [w, i]))]: the last index of a repeated word wins. *)
Fixpoint word_index_from (i : Z) (words : list string) (m : gmap string Z) : gmap string Z :=
  match words with
  | [] => m
  | w :: rest => word_index_from (i + 1) rest (<[w := i]> m)
  end.

Definition word_index (words : list string) : gmap string Z := word_index_from 0 words ∅.

(** The value of three word indices:
    [w1 + n * (((n - w1) + w2) % n) + n * n * (((n - w2) + w3) % n)]. *)
Definition indices_value (n w1 w2 w3 : Z) : Z :=
  w1 + n * ((n - w1 + w2) mod n) + n * n * ((n - w2 + w3) mod n).

Definition le32_bytes (x : Z) : bytes :=
  [Z.land x 255; Z.land (Z.shiftr x 8) 255; Z.land (Z.shiftr x 16) 255; Z.land (Z.shiftr x 24) 255].

Fixpoint mnemonicToBytes_loop (rounds i : nat) (index : gmap string Z) (n : Z) (w24 : list string) : bytes :=
  match rounds with
  | O => []
  | S r =>
      let w k := default 0 (index !! nth (i + k) w24 ""%string) in
      le32_bytes (indices_value n (w 0%nat) (w 1%nat) (w 2%nat))
      ++ mnemonicToBytes_loop r (i + 3) index n w24
  end.

Fixpoint check_words (index : gmap string Z) (ws : list string) : res unit :=
  match ws with
  | [] => Ok tt
  | w :: rest =>
      match index !! w with
      | None => Err (String.append "word not in dictionary: " w)
      | Some _ => check_words index rest
      end
  end.

Definition mnemonicToBytes (mnemonic : list string) (words : list string) (prefixLen : nat) : res bytes :=
  if negb (length mnemonic =? 25)%nat then Err "expected 25 words"
  else
    let index := word_index words in
    let* _ := check_words index mnemonic in
    let w24 := take 24 mnemonic in
    let expectedIdx := checksum_index w24 prefixLen in
    if negb (String.eqb (nth 24 mnemonic ""%string) (nth (Z.to_nat expectedIdx) w24 ""%string))
    then Err "seed checksum failed"
    else Ok (mnemonicToBytes_loop 8 0 index (Z.of_nat (length words)) w24).

(** ** The node *)

Module Cpp.

Definition u32 (n : Z) : Z := n mod 2 ^ 32.

(** The three words' value in [uint32_t] arithmetic and the range test that follows it;
    [None] is the return of [false]. *)
Definition words_value (n w1 w2 w3 : Z) : option Z :=
  let w0 := u32 (w1 + u32 (n * (u32 (u32 (n - w1) + w2) mod n))
                 + u32 (u32 (n * n) * (u32 (u32 (n - w2) + w3) mod n))) in
  if w0 mod n =? w1 then Some w0 else None.

End Cpp.

(** ** Word arithmetic *)

Lemma add_sub_mod n a c : 0 < n -> (n - a + (c + a) mod n) mod n = c mod n.
Proof.
  intros Hn. replace (n - a + (c + a) mod n) with ((c + a) mod n - a + 1 * n) by lia.
  rewrite Z.mod_add, Zminus_mod_idemp_l by lia. f_equal. lia.
Qed.

(** The word indices of a value below [n^3] give the value back. *)
Lemma indices_roundtrip n x : 0 < n -> 0 <= x < n ^ 3 ->
  let '(w1, w2, w3) := word_indices n x in
  indices_value n w1 w2 w3 = x /\ 0 <= w1 < n /\ 0 <= w2 < n /\ 0 <= w3 < n.
Proof.
  intros Hn Hx. unfold word_indices, indices_value.
  split; [|split_and!; apply Z.mod_pos_bound; lia].
  rewrite !add_sub_mod by lia.
  rewrite (Z.mod_small (x / n / n)).
  - pose proof (Z.div_mod x n ltac:(lia)). pose proof (Z.div_mod (x / n) n ltac:(lia)). nia.
  - split; [repeat apply Z.div_pos; lia|]. repeat (apply Z.div_lt_upper_bound; [lia|]). lia.
Qed.

(** ** Little-endian words of the secret *)

Lemma le32_bytesLE b i : 
  le32 b i = bytesToBigIntLE [nth i b 0; nth (i + 1) b 0; nth (i + 2) b 0; nth (i + 3) b 0].
Proof.
  unfold le32, bytesToBigIntLE. cbn [fold_right].
  rewrite Z.shiftl_0_l, Z.lor_0_l, !Z.shiftl_lor, !Z.shiftl_shiftl by lia.
  rewrite (Z.lor_comm _ (nth i b 0)), <- !Z.lor_assoc. f_equal.
  rewrite (Z.lor_comm (Z.shiftl (nth (i + 3) b 0) _)), !Z.lor_assoc. f_equal.
  apply Z.lor_comm.
Qed.

Lemma le32_bytes_split x : le32_bytes x = bigIntToBytesLE x 4.
Proof.
  cbn [bigIntToBytesLE]. rewrite !Z.shiftr_shiftr by lia. unfold le32_bytes.
  assert (forall y, to_uint8 (Z.land y 255) = Z.land y 255) as E.
  { intros y. change 255 with (2 ^ 8 - 1). rewrite land_low by lia. apply Z.mod_mod. lia. }
  by rewrite !E.
Qed.

Lemma nth_slice4 (b : bytes) i :
  (i + 4 <= length b)%nat ->
  [nth i b 0; nth (i + 1) b 0; nth (i + 2) b 0; nth (i + 3) b 0] = take 4 (drop i b).
Proof.
  intros H.
  rewrite <- (take_drop i b) in H |- * at 1 2 3 4.
  assert (length (take i b) = i) as Hl by (rewrite length_take; rewrite length_app, length_take, length_drop in H; lia).
  rewrite !app_nth2, Hl by lia. rewrite length_app, Hl in H.
  replace (i - i)%nat with 0%nat by lia. replace (i + 1 - i)%nat with 1%nat by lia.
  replace (i + 2 - i)%nat with 2%nat by lia. replace (i + 3 - i)%nat with 3%nat by lia.
  destruct (drop i b) as [|b0 [|b1 [|b2 [|b3 rest]]]]; cbn in H; try lia. done.
Qed.

Lemma le32_range b i : bytes_ok b -> (i + 4 <= length b)%nat -> 0 <= le32 b i < 2 ^ 32.
Proof.
  intros Hb Hi. rewrite le32_bytesLE, nth_slice4 by done.
  pose proof (bytesToBigIntLE_bound (take 4 (drop i b))) as H.
  rewrite length_take, length_drop, Nat.min_l in H by lia. apply H. by apply Forall_take, Forall_drop.
Qed.

Lemma le32_roundtrip b i :
  bytes_ok b -> (i + 4 <= length b)%nat -> le32_bytes (le32 b i) = take 4 (drop i b).
Proof.
  intros Hb Hi. rewrite le32_bytes_split, le32_bytesLE, nth_slice4 by done.
  rewrite <- (bytes_of_bigint_of_bytes (take 4 (drop i b))) at 2 by by apply Forall_take, Forall_drop.
  by rewrite length_take, length_drop, Nat.min_l by lia.
Qed.

(** ** The dictionary *)

Lemma word_index_from_notin words : forall i m w,
  ~ In w words -> word_index_from i words m !! w = m !! w.
Proof.
  induction words as [|v words IH]; intros i m w Hw; [done|]. cbn [word_index_from].
  rewrite IH by (intros ?; apply Hw; by right). apply lookup_insert_ne. intros ->. apply Hw. by left.
Qed.

Lemma word_index_from_nth words : forall i m k,
  List.NoDup words -> (k < length words)%nat ->
  word_index_from i words m !! nth k words ""%string = Some (i + Z.of_nat k).
Proof.
  induction words as [|v words IH]; intros i m k Hnd Hk; [cbn in Hk; lia|].
  inversion_clear Hnd as [|? ? Hv Hnd']. cbn [word_index_from]. destruct k as [|k]; cbn [nth].
  - rewrite word_index_from_notin by done. rewrite lookup_insert_eq. f_equal. lia.
  - cbn in Hk. rewrite IH by (done || lia). f_equal. lia.
Qed.

Lemma word_index_at words k :
  List.NoDup words -> 0 <= k < Z.of_nat (length words) ->
  word_index words !! word_at words k = Some k.
Proof.
  intros Hnd Hk. unfold word_index, word_at. rewrite word_index_from_nth by (done || lia). f_equal. lia.
Qed.

(** The three words of a value, and the loops over them. *)
Definition triple (words : list string) (x : Z) : list string :=
  let '(w1, w2, w3) := word_indices (Z.of_nat (length words)) x in
  [word_at words w1; word_at words w2; word_at words w3].

Fixpoint le32s (rounds i : nat) (b : bytes) : list Z :=
  match rounds with
  | O => []
  | S r => le32 b i :: le32s r (i + 4) b
  end.

Lemma bytesToMnemonic_loop_triples r : forall i b words out,
  bytesToMnemonic_loop r i b words out = out ++ mjoin (map (triple words) (le32s r i b)).
Proof.
  induction r as [|r IH]; intros i b words out; cbn [bytesToMnemonic_loop le32s map]; [by rewrite app_nil_r|].
  rewrite mjoin_cons, app_assoc, <- IH. unfold triple. by destruct (word_indices _ _) as [[w1 w2] w3].
Qed.

Lemma triple_shape words x :
  exists u v w, triple words x = [u; v; w].
Proof. unfold triple. destruct (word_indices _ _) as [[w1 w2] w3]. by eexists _, _, _. Qed.

Lemma length_triples words xs : length (mjoin (map (triple words) xs)) = (3 * length xs)%nat.
Proof.
  induction xs as [|x xs IH]; [done|]. cbn [map]. rewrite mjoin_cons, length_app, IH.
  destruct (triple_shape words x) as (u & v & w & ->). cbn [length]. lia.
Qed.

Lemma nth_pre {A} (pre : list A) l d k : nth (length pre + k) (pre ++ l) d = nth k l d.
Proof. rewrite app_nth2 by lia. f_equal. lia. Qed.

Section Seeds.
Context (words : list string) (Hnd : List.NoDup words).
Let n := Z.of_nat (length words).
Context (Hn : 2 ^ 32 <= n ^ 3).

Lemma words_pos : 0 < n.
Proof using Hn.
  assert (n <> 0) by (intros E; rewrite E in Hn; cbn in Hn; lia). unfold n in *. lia.
Qed.

Lemma mnemonicToBytes_loop_triples xs : forall pre,
  Forall (fun x => 0 <= x < 2 ^ 32) xs ->
  mnemonicToBytes_loop (length xs) (length pre) (word_index words) n (pre ++ mjoin (map (triple words) xs))
  = mjoin (map le32_bytes xs).
Proof using Hnd Hn.
  pose proof words_pos as Hpos.
  induction xs as [|x xs IH]; intros pre Hxs; [done|]. apply Forall_cons in Hxs as [Hx Hxs].
  cbn [length mnemonicToBytes_loop map]. rewrite !mjoin_cons.
  pose proof (indices_roundtrip n x Hpos ltac:(lia)) as Hr.
  destruct (word_indices n x) as [[w1 w2] w3] eqn:E. destruct Hr as (Hv & H1 & H2 & H3).
  assert (triple words x = [word_at words w1; word_at words w2; word_at words w3]) as Ht.
  { unfold triple. fold n. by rewrite E. }
  rewrite !nth_pre, Ht. cbn [app nth]. rewrite !word_index_at by done. cbn [default]. unfold id.
  rewrite Hv. f_equal. specialize (IH (pre ++ triple words x) Hxs).
  rewrite Ht, length_app, <- app_assoc in IH. apply IH.
Qed.

Lemma check_words_triples xs :
  Forall (fun x => 0 <= x < 2 ^ 32) xs ->
  Forall (fun w => is_Some (word_index words !! w)) (mjoin (map (triple words) xs)).
Proof using Hnd Hn.
  pose proof words_pos as Hpos.
  induction 1 as [|x xs Hx Hxs IH]; [constructor|]. cbn [map]. rewrite mjoin_cons.
  apply Forall_app. split; [|done]. pose proof (indices_roundtrip n x Hpos ltac:(lia)) as Hr.
  unfold triple. fold n. destruct (word_indices n x) as [[w1 w2] w3]. destruct Hr as (_ & H1 & H2 & H3).
  repeat constructor; rewrite word_index_at by done; by eexists.
Qed.
End Seeds.

Lemma check_words_ok index ws : Forall (fun w => is_Some (index !! w)) ws -> check_words index ws = Ok tt.
Proof. induction 1 as [|w ws [i Hi] Hws IH]; [done|]. cbn. by rewrite Hi. Qed.

Lemma le32s_spec r : forall i b,
  bytes_ok b -> (i + 4 * r <= length b)%nat ->
  length (le32s r i b) = r /\ Forall (fun x => 0 <= x < 2 ^ 32) (le32s r i b) /\
  mjoin (map le32_bytes (le32s r i b)) = take (4 * r) (drop i b).
Proof.
  induction r as [|r IH]; intros i b Hb Hi; [done|].
  destruct (IH (i + 4)%nat b Hb ltac:(lia)) as (Hl & Hf & Hj). cbn [le32s length map].
  rewrite Hl, mjoin_cons, Hj, le32_roundtrip by (done || lia). split_and!; [done| |].
  - apply Forall_cons_2; [|done]. apply le32_range; [done|lia].
  - rewrite <- drop_drop, take_take_drop. f_equal. lia.
Qed.

Lemma checksum_index_range ws p : ws <> [] -> 0 <= checksum_index ws p < Z.of_nat (length ws).
Proof. intros H. apply Z.mod_pos_bound. destruct ws; [done|]. cbn. lia. Qed.

(** Any dictionary without repeated words that is large enough for 32 bits. *)
Lemma seed_roundtrip_general b words p :
  List.NoDup words -> 2 ^ 32 <= Z.of_nat (length words) ^ 3 -> bytes_ok b -> length b = 32%nat ->
  exists m, bytesToMnemonic b words p = Ok m /\ length m = 25%nat /\ mnemonicToBytes m words p = Ok b.
Proof.
  intros Hnd Hn Hb Hlen. destruct (le32s_spec 8 0 b Hb ltac:(lia)) as (Hl & Hf & Hj).
  unfold bytesToMnemonic. rewrite Hlen. cbn [Nat.eqb negb].
  pose proof (words_pos words Hn) as Hpos.
  destruct (Nat.eqb_spec (length words) 0); [lia|].
  rewrite bytesToMnemonic_loop_triples. cbn [app].
  set (w24 := mjoin (map (triple words) (le32s 8 0 b))).
  assert (length w24 = 24%nat) as H24 by (unfold w24; rewrite length_triples, Hl; done).
  set (c := nth _ w24 _). exists (w24 ++ [c]). split_and!; [done|by rewrite length_app, H24|].
  assert (Forall (fun w => is_Some (word_index words !! w)) w24) as Hws by by apply check_words_triples.
  assert (0 <= checksum_index w24 p < Z.of_nat (length w24)) as Hci.
  { apply checksum_index_range. intros E. by rewrite E in H24. }
  assert (is_Some (word_index words !! c)) as Hc.
  { rewrite Forall_forall in Hws. apply Hws, list_elem_of_In, nth_In. lia. }
  unfold mnemonicToBytes. rewrite length_app, H24. cbn [length Nat.add Nat.eqb negb].
  rewrite check_words_ok by (apply Forall_app; split; [done|by repeat constructor]). cbn [res_bind].
  rewrite take_app_length' by done. rewrite app_nth2 by lia. rewrite H24. cbn [Nat.sub nth].
  fold c. rewrite String.eqb_refl. cbn [negb]. f_equal.
  pose proof (mnemonicToBytes_loop_triples words Hnd Hn (le32s 8 0 b) [] Hf) as Hdec.
  rewrite Hl in Hdec. cbn [length app] in Hdec. fold w24 in Hdec. rewrite Hdec, Hj, drop_0.
  apply take_ge. lia.
Qed.

Lemma mnemonicToBytes_loop_ok index n w24 r : forall i,
  bytes_ok (mnemonicToBytes_loop r i index n w24) /\ length (mnemonicToBytes_loop r i index n w24) = (4 * r)%nat.
Proof.
  induction r as [|r IH]; intros i; cbn [mnemonicToBytes_loop]; [by split; [constructor|]|].
  destruct (IH (i + 3)%nat) as [Hok Hlen]. rewrite length_app, Hlen, le32_bytes_split, length_bigIntToBytesLE.
  split; [apply Forall_app; split; [apply bigIntToBytesLE_ok|done]|lia].
Qed.

Lemma mnemonicToBytes_bytes m words p b :
  mnemonicToBytes m words p = Ok b -> bytes_ok b /\ length b = 32%nat.
Proof.
  unfold mnemonicToBytes. case_test; [done|]. destruct (check_words _ _); [|done]. cbn [res_bind].
  case_test; [done|]. intros E. apply (f_equal (fun r => match r with Ok x => x | Err _ => b end)) in E.
  rewrite <- E. apply (mnemonicToBytes_loop_ok _ _ _ 8).
Qed.

(** ** Seeds in the English dictionary *)

Lemma WORDS_EN_NoDup : List.NoDup WORDS_EN.
Proof. apply NoDup_ListNoDup, NoDup_WORDS_EN. Qed.

Lemma seed_english b :
  bytes_ok b -> length b = 32%nat ->
  exists m, bytesToMnemonic b WORDS_EN PREFIX_LEN_EN = Ok m /\ length m = 25%nat /\
            mnemonicToBytes m WORDS_EN PREFIX_LEN_EN = Ok b.
Proof.
  apply seed_roundtrip_general; [apply WORDS_EN_NoDup|]. rewrite length_WORDS_EN. vm_compute. discriminate.
Qed.

(** C24: a seed restores the secret it was made from: for every 32-byte secret the wallet writes 25
    words, and reading those words back succeeds and gives exactly the same 32 bytes. *)
Theorem seed_roundtrip b :
  bytes_ok b -> length b = 32%nat ->
  exists m, bytesToMnemonic b WORDS_EN PREFIX_LEN_EN = Ok m /\ length m = 25%nat /\
            mnemonicToBytes m WORDS_EN PREFIX_LEN_EN = Ok b.
Proof. apply seed_english. Qed.

Lemma seed_roundtrip_witness :
  bytes_ok (map Z.of_nat (seq 1 32)) /\
  exists m, bytesToMnemonic (map Z.of_nat (seq 1 32)) WORDS_EN PREFIX_LEN_EN = Ok m /\ length m = 25%nat /\
            mnemonicToBytes m WORDS_EN PREFIX_LEN_EN = Ok (map Z.of_nat (seq 1 32)).
Proof.
  assert (bytes_ok (map Z.of_nat (seq 1 32))) as H by (apply (bool_decide_unpack _); vm_compute; exact I).
  split; [exact H|]. exact (seed_roundtrip _ H eq_refl).
Defined.

Lemma word_index_in words w : is_Some (word_index words !! w) <-> In w words.
Proof.
  unfold word_index. cut (forall i m, is_Some (word_index_from i words m !! w) <-> In w words \/ is_Some (m !! w)).
  { intros H. rewrite H, lookup_empty. split; [intros [?|[? ?]]; done|by left]. }
  induction words as [|v words IH]; intros i m; cbn [word_index_from In]; [tauto|].
  rewrite IH, lookup_insert_is_Some'. tauto.
Qed.

Lemma check_words_iff words ws :
  (exists u, check_words (word_index words) ws = Ok u) <-> Forall (fun w => In w words) ws.
Proof.
  induction ws as [|w ws IH]; cbn [check_words]; [split; [by constructor|by eexists]|].
  rewrite Forall_cons, <- IH, <- word_index_in. destruct (word_index words !! w).
  - split; [intros H; split; [by eexists|done]|by intros [_ H]].
  - split; [intros [u [=]]|intros [[? [=]] _]].
Qed.

(** Exactly which word lists are accepted as a seed: those with 25 words, all in the dictionary,
    whose last word is the checksum word of the first 24; every other input is an error. *)
Theorem seed_accepted_iff m :
  (exists b, mnemonicToBytes m WORDS_EN PREFIX_LEN_EN = Ok b) <->
  length m = 25%nat /\ Forall (fun w => In w WORDS_EN) m /\
  nth 24 m ""%string = nth (Z.to_nat (checksum_index (take 24 m) PREFIX_LEN_EN)) (take 24 m) ""%string.
Proof.
  unfold mnemonicToBytes. rewrite <- check_words_iff.
  destruct (Nat.eqb_spec (length m) 25); cbn [negb];
    [|split; [intros [b [=]]|intros [? _]; contradiction]].
  destruct (check_words _ m) as [u|err]; cbn [res_bind];
    [|split; [intros [b [=]]|intros (_ & [u [=]] & _)]].
  destruct (String.eqb_spec (nth 24 m "") (nth (Z.to_nat (checksum_index (take 24 m) PREFIX_LEN_EN)) (take 24 m) ""));
    cbn [negb].
  - split; [intros _; split_and!; [done|by eexists|done]|intros _; by eexists].
  - split; [intros [b [=]]|intros (_ & _ & ?); contradiction].
Qed.

(** The node's restore arithmetic and the browser's agree on every triple of dictionary words whose
    value fits 32 bits, in particular on all the wallet writes; and the node refuses every other triple. *)
Theorem node_words_value w1 w2 w3 :
  0 <= w1 < 1626 -> 0 <= w2 < 1626 -> 0 <= w3 < 1626 ->
  Cpp.words_value 1626 w1 w2 w3 =
  let x := indices_value 1626 w1 w2 w3 in if x <? 2 ^ 32 then Some x else None.
Proof.
  intros H1 H2 H3. unfold Cpp.words_value, indices_value, Cpp.u32.
  rewrite !(Z.mod_small (1626 - _) (2 ^ 32)) by lia.
  rewrite !(Z.mod_small (_ - _ + _) (2 ^ 32)) by lia.
  pose proof (Z.mod_pos_bound (1626 - w1 + w2) 1626 ltac:(lia)) as Ha. revert Ha.
  pose proof (Z.mod_pos_bound (1626 - w2 + w3) 1626 ltac:(lia)) as Hb. revert Hb.
  generalize ((1626 - w1 + w2) mod 1626) ((1626 - w2 + w3) mod 1626). intros a b Hb Ha.
  change (1626 * 1626 mod 2 ^ 32) with 2643876.
  rewrite !(Z.mod_small (1626 * a)) by lia. rewrite Zplus_mod_idemp_r.
  change (1626 * 1626) with 2643876. set (x := w1 + 1626 * a + 2643876 * b).
  assert (x mod 1626 = w1) as Hx.
  { replace x with (w1 + (a + 1626 * b) * 1626) by lia. rewrite Z.mod_add by lia. apply Z.mod_small. lia. }
  cbv zeta. destruct (Z.ltb_spec x (2 ^ 32)).
  - rewrite (Z.mod_small x) by lia. by rewrite Hx, Z.eqb_refl.
  - assert (x mod 2 ^ 32 = x + (-1) * 2 ^ 32) as ->.
    { symmetry. apply Z.mod_unique_pos with 1; lia. }
    destruct (Z.eqb_spec ((x + -1 * 2 ^ 32) mod 1626) w1) as [E|]; [|done]. exfalso.
    rewrite <- Z.add_mod_idemp_l, Hx in E by lia.
    pose proof (Z.div_mod (w1 + -1 * 2 ^ 32) 1626 ltac:(lia)). lia.
Qed.

Lemma node_words_value_witness :
  Cpp.words_value 1626 5 6 7 = let x := indices_value 1626 5 6 7 in if x <? 2 ^ 32 then Some x else None.
Proof. apply (node_words_value 5 6 7); lia. Defined.

(** The seed of eight times the triple with the largest value, and its checksum word. *)
Definition overflow_seed : list string :=
  let w24 := mjoin (replicate 8 [word_at WORDS_EN 1625; word_at WORDS_EN 1624; word_at WORDS_EN 1623]) in
  w24 ++ [nth (Z.to_nat (checksum_index w24 PREFIX_LEN_EN)) w24 ""%string].

(** The browser accepts seeds the node rejects: this 25-word seed has a correct checksum and the
    browser turns it into a secret, while the node refuses its word triples because they exceed 32 bits. *)
Theorem seed_overflow_accepted :
  (exists b, mnemonicToBytes overflow_seed WORDS_EN PREFIX_LEN_EN = Ok b) /\
  Cpp.words_value 1626 1625 1624 1623 = None.
Proof. split; [eexists; vm_compute; reflexivity|vm_compute; reflexivity]. Qed.
