(* ===== verification/Wallet.v ===== *)
(** * Wallet: key generation, addresses and restore in wordmine/public/lib/wallet.js

    The audited packages the wallet imports are the parameters of the model:
    class [Noble] has Keccak-256 and multiplication of the ed25519 base point,
    and [NobleLaws] states what they document (32-byte outputs, and an exception
    for scalars outside 1..L-1).  [Cpp.decode_addr] is the node's address reader
    (src/common/base58.cpp).  The theorems say that a fresh wallet is always
    produced, that its address is one the faucet's claim handler and the node
    accept, and that its seed restores the same wallet. *)

From S2P Require Import Prelude JsCore Bytes Base58 Crc32 Wordlist Mnemonic.
Local Open Scope glaciem_scope.

(** ** The imported packages *)

Class Noble : Type := {
  keccak_256 : bytes -> bytes;
  (** [ed25519.ExtendedPoint.BASE.multiply(s).toRawBytes()] *)
  base_multiply : Z -> res bytes
}.

Class NobleLaws `{Noble} : Prop := {
  keccak_length : forall b, length (keccak_256 b) = 32%nat;
  keccak_bytes : forall b, bytes_ok (keccak_256 b);
  multiply_ok : forall s, 0 < s < L ->
    exists p, base_multiply s = Ok p /\ length p = 32%nat /\ bytes_ok p;
  multiply_range : forall s, ~ 0 < s < L -> exists e, base_multiply s = Err e
}.

(** ** The code *)

Definition PREFIX_STANDARD : Z := 144.

Record wallet : Type := mk_wallet {
  address : string;
  mnemonic : list string;
  spendKeyHex : string;
  viewKeyHex : string
}.

Section Code.
Context `{Noble}.

Definition scalarMultBase (scalarBytes : bytes) : res bytes :=
  let s := bytesToBigIntLE scalarBytes in
  if s =? 0 then Err "zero scalar" else base_multiply s.

Definition buildAddress (prefix : Z) (pubSpend pubView : bytes) : res string :=
  match encodeVarint prefix with
  | None => Err "unreachable"
  | Some v =>
      let* head := concatBytes [v; pubSpend; pubView] in
      let checksum := take 4 (keccak_256 head) in
      let* all := concatBytes [head; checksum] in
      Ok (of_chars (b58Encode all))
  end.

Definition walletFromSpendSecret (spendSecret : bytes) : res wallet :=
  let* viewSecret := scReduce32 (keccak_256 spendSecret) in
  let* pubSpend := scalarMultBase spendSecret in
  let* pubView := scalarMultBase viewSecret in
  let* address := buildAddress PREFIX_STANDARD pubSpend pubView in
  let* mnemonic := bytesToMnemonic spendSecret WORDS_EN PREFIX_LEN_EN in
  Ok (mk_wallet address mnemonic (bytesToHex spendSecret) (bytesToHex viewSecret)).

(** [r] is what [crypto.getRandomValues] filled the array with. *)
Definition generateWallet (r : bytes) : res wallet :=
  let* spendSecret := scReduce32 r in
  walletFromSpendSecret spendSecret.

Definition restoreFromMnemonic (words : list string) : res wallet :=
  let* spendSecret := mnemonicToBytes words WORDS_EN PREFIX_LEN_EN in
  walletFromSpendSecret spendSecret.

End Code.

(** ** The node *)

Module Cpp.

Definition addr_checksum_size : nat := 4.

(** [decode_addr]: the tag and the payload; [cn_fast_hash] is Keccak-256. *)
Definition decode_addr `{Noble} (addr : list ascii) : option (Z * bytes) :=
  match Base58.Cpp.decode addr with
  | None => None
  | Some addr_data =>
      if (length addr_data <=? addr_checksum_size)%nat then None
      else
        let n := (length addr_data - addr_checksum_size)%nat in
        let checksum := drop n addr_data in
        let addr_data := take n addr_data in
        let expected_checksum := take addr_checksum_size (keccak_256 addr_data) in
        if negb (bool_decide (expected_checksum = checksum)) then None
        else
          let '(read, tag) := Base58.Cpp.read_varint addr_data in
          if read <=? 0 then None else Some (tag, drop (Z.to_nat read) addr_data)
  end.

End Cpp.

(** A concrete instance of the packages' interface, on which the theorems below are evaluated. *)
Definition demo_noble : Noble := {|
  keccak_256 := fun b => replicate 32 1;
  base_multiply := fun s => if (0 <? s) && (s <? L) then Ok (bigIntToBytesLE s 32) else Err "out of range"
|}.

Lemma demo_noble_laws : @NobleLaws demo_noble.
Proof.
  split; cbn [keccak_256 base_multiply demo_noble].
  - done.
  - intros _. apply (bool_decide_unpack _). vm_compute. exact I.
  - intros s Hs. rewrite (proj2 (Z.ltb_lt 0 s)), (proj2 (Z.ltb_lt s L)) by lia.
    eexists. split_and!; [done|apply length_bigIntToBytesLE|apply bigIntToBytesLE_ok].
  - intros s Hs. destruct (Z.ltb_spec 0 s), (Z.ltb_spec s L); try (by eexists); tauto.
Qed.

(** ** Characters of an address *)

Lemma b58_char_base58 d : 0 <= d < 58 -> is_base58 (b58_char d) = true.
Proof.
  intros H. rewrite <- (Z2Nat.id d) by lia. assert (Z.to_nat d < 58)%nat as Hn by lia.
  revert Hn. generalize (Z.to_nat d). intros n Hn.
  cut (forallb (fun n => is_base58 (b58_char (Z.of_nat n))) (seq 0 58) = true); [|vm_compute; reflexivity].
  rewrite forallb_forall. intros F. apply F, in_seq. lia.
Qed.

Lemma encodeBlock_base58 b k : bytes_ok b -> Forall (fun c => is_base58 c = true) (encodeBlock b k).
Proof.
  intros H. rewrite encodeBlock_digits by done. apply Forall_forall. intros c Hc.
  apply list_elem_of_In, in_map_iff in Hc as (d & <- & Hd). apply b58_char_base58.
  pose proof (to_be_digits 58 ltac:(lia) k (from_be 256 b)) as F. unfold digits_ok in F.
  rewrite Forall_forall in F. apply F. by apply list_elem_of_In.
Qed.

Lemma enc_full_base58 n : forall body, bytes_ok body -> Forall (fun c => is_base58 c = true) (enc_full n body).
Proof.
  induction n as [|n IH]; intros body Hb; [constructor|]. cbn [enc_full]. apply Forall_app.
  split; [apply encodeBlock_base58; by apply Forall_take|apply IH; by apply Forall_drop].
Qed.

Lemma b58Encode_base58 data : bytes_ok data -> Forall (fun c => is_base58 c = true) (b58Encode data).
Proof.
  intros Hb. rewrite b58Encode_split. cbv zeta. apply Forall_app. split; [by apply enc_full_base58|].
  destruct (_ mod 8)%nat; [constructor|]. apply encodeBlock_base58. by apply Forall_drop.
Qed.

(** The most significant of [k + 1] digits. *)
Lemma to_be_head b k : 1 < b -> forall n, to_be b (S k) n = (n / b ^ Z.of_nat k) mod b :: to_be b k n.
Proof.
  intros Hb. induction k as [|k IH]; intros n; [cbn; by rewrite Z.div_1_r|].
  change (to_be b (S (S k)) n) with (to_be b (S k) (n / b) ++ [n mod b]). rewrite IH. cbn [app to_be].
  f_equal. rewrite Nat2Z.inj_succ, Z.pow_succ_r, Z.div_div by (try apply Z.pow_pos_nonneg; lia). done.
Qed.

(** The first block of an address that starts with the bytes 144 and 1..3 starts with the letter R. *)
Lemma first_block_R v1 rest :
  1 <= v1 <= 3 -> bytes_ok rest -> length rest = 6%nat ->
  exists tl, encodeBlock (144 :: v1 :: rest) 11 = "R"%char :: tl.
Proof.
  intros Hv Hr Hl. rewrite encodeBlock_digits by (repeat (apply Forall_cons_2; [lia|]); done).
  rewrite (to_be_head 58 10) by lia. cbn [map].
  rewrite !from_be_cons by lia. cbn [length]. rewrite Hl.
  pose proof (from_be_bound 256 ltac:(lia) rest Hr) as Hb. rewrite Hl in Hb.
  change (256 ^ Z.of_nat 6) with 281474976710656 in *. change (256 ^ Z.of_nat 7) with 72057594037927936.
  change (58 ^ Z.of_nat 10) with 430804206899405824.
  assert ((144 * 72057594037927936 + (v1 * 281474976710656 + from_be 256 rest)) / 430804206899405824 = 24) as ->.
  { symmetry. apply Z.div_unique_pos with (144 * 72057594037927936 + (v1 * 281474976710656 + from_be 256 rest) - 24 * 430804206899405824); lia. }
  by eexists.
Qed.

(** Every 70-byte payload with such a start is printed as something the claim pattern accepts. *)
Lemma address_matches v1 rest :
  1 <= v1 <= 3 -> bytes_ok rest -> length rest = 68%nat ->
  re_address_chars (b58Encode (144 :: v1 :: rest)) = true.
Proof.
  intros Hv Hr Hl. set (data := 144 :: v1 :: rest).
  assert (bytes_ok data) as Hb by (repeat (apply Forall_cons_2; [lia|]); done).
  assert (length data = 70%nat) as H70 by (cbn; lia).
  pose proof (b58Encode_base58 data Hb) as Hall. pose proof (length_b58Encode data Hb) as Hlen.
  rewrite H70 in Hlen. change (70 / 8 * 11 + nth (70 mod 8) B58_BLOCK_SIZES 0)%nat with 97%nat in Hlen.
  assert (exists tl, b58Encode data = "R"%char :: tl) as [tl Htl].
  { rewrite b58Encode_split. cbv zeta. rewrite H70. change (70 / 8)%nat with 8%nat. cbn [enc_full].
    destruct (first_block_R v1 (take 6 rest) Hv) as [tl0 E]; [by apply Forall_take|rewrite length_take; lia|].
    change (take 8 data) with (144 :: v1 :: take 6 rest). rewrite E. by eexists. }
  rewrite Htl in *. cbn in Hlen. apply Forall_cons in Hall as [_ Hall].
  unfold re_address_chars. replace (length tl) with 96%nat by lia. cbn [andb].
  apply forallb_forall. intros c Hc. rewrite Forall_forall in Hall. apply Hall. by apply list_elem_of_In.
Qed.

Section Laws.
Context `{HN : Noble} {HL : NobleLaws}.

Lemma buildAddress_eq prefix v pubSpend pubView :
  encodeVarint prefix = Some v ->
  let head := v ++ pubSpend ++ pubView in
  buildAddress prefix pubSpend pubView = Ok (of_chars (b58Encode (head ++ take 4 (keccak_256 head)))).
Proof.
  intros E. unfold buildAddress. rewrite E, !concatBytes_ok. cbn [res_bind]. rewrite concatBytes_ok.
  cbn [res_bind]. unfold mjoin, list_join. cbn. by rewrite !app_nil_r.
Qed.

Lemma checksum_ok b : bytes_ok (take 4 (keccak_256 b)) /\ length (take 4 (keccak_256 b)) = 4%nat.
Proof using HL.
  split; [apply Forall_take, keccak_bytes|]. by rewrite length_take, keccak_length.
Qed.

Lemma prefix_varints prefix : In prefix [144; 272; 400] ->
  exists v1, encodeVarint prefix = Some [144; v1] /\ 1 <= v1 <= 3.
Proof.
  cbn [In]. intros [<-|[<-|[<-|[]]]]; eexists; (split; [vm_compute; reflexivity|lia]).
Qed.

(** Both facts about a built address, for any prefix whose varint is two bytes from 144. *)
Lemma address_two_bytes prefix v1 pubSpend pubView :
  encodeVarint prefix = Some [144; v1] -> 1 <= v1 <= 3 ->
  bytes_ok pubSpend -> bytes_ok pubView -> (length pubSpend + length pubView = 64)%nat ->
  exists a, buildAddress prefix pubSpend pubView = Ok a /\ re_address a = true.
Proof using HL.
  intros E H1 Hs Hv Hlen. rewrite (buildAddress_eq _ _ _ _ E). eexists. split; [done|].
  unfold re_address. rewrite chars_of_chars.
  cbn [app]. destruct (checksum_ok (144 :: v1 :: pubSpend ++ pubView)) as [Hc Lc].
  apply address_matches; [done|repeat (apply Forall_app; split); done|].
  rewrite !length_app, Lc. lia.
Qed.

(** An address the wallet module builds from a mainnet prefix (144, 272 or 400) and
    two 32-byte public keys matches the pattern of the claim handler: it starts with R and
    has 97 base58 characters. *)
Theorem address_accepted prefix pubSpend pubView :
  In prefix [144; 272; 400] ->
  bytes_ok pubSpend -> bytes_ok pubView -> length pubSpend = 32%nat -> length pubView = 32%nat ->
  exists a, buildAddress prefix pubSpend pubView = Ok a /\ re_address a = true.
Proof using HL.
  intros Hp Hs Hv Ls Lv. destruct (prefix_varints prefix Hp) as (v1 & E & H1).
  apply (address_two_bytes _ v1); try done. lia.
Qed.

Lemma address_decodes prefix pubSpend pubView :
  0 <= prefix < 2 ^ 32 -> bytes_ok pubSpend -> bytes_ok pubView ->
  exists a, buildAddress prefix pubSpend pubView = Ok a /\
            Cpp.decode_addr (chars a) = Some (prefix, pubSpend ++ pubView).
Proof using HL.
  intros Hp Hs Hv. pose proof (encodeVarint_vbytes prefix Hp) as E.
  pose proof (vbytes_ok 6 prefix ltac:(lia)) as Hvb.
  rewrite (buildAddress_eq _ _ _ _ E). eexists. split; [done|]. rewrite chars_of_chars.
  set (head := vbytes 6 prefix ++ pubSpend ++ pubView).
  assert (bytes_ok head) as Hh by (repeat (apply Forall_app; split); done).
  destruct (checksum_ok head) as [Hc Lc]. set (cs := take 4 (keccak_256 head)) in *.
  unfold Cpp.decode_addr. rewrite b58_decode_encode by by apply Forall_app.
  pose proof (vbytes_pos 5 prefix) as Hpos.
  rewrite length_app, Lc. unfold Cpp.addr_checksum_size.
  destruct (Nat.leb_spec (length head + 4) 4) as [Hle|_]; [unfold head in Hle; rewrite length_app in Hle; lia|].
  replace (length head + 4 - 4)%nat with (length head) by lia.
  rewrite take_app_length, drop_app_length. fold cs. rewrite bool_decide_eq_true_2 by done. cbn [negb].
  unfold Base58.Cpp.read_varint, head. rewrite (read_vbytes 5); try lia.
  destruct (Z.leb_spec (0 + Z.of_nat (length (vbytes 6 prefix))) 0); [lia|].
  rewrite !Z.add_0_l, Nat2Z.id, drop_app_length, Z.pow_0_r, Z.mul_1_r. done.
Qed.

(** C27: the node reads the wallet's addresses: for every prefix below 2^32 and every two public keys,
    [decode_addr] accepts the checksum and recovers the prefix and the keys. *)
Theorem address_node_roundtrip prefix pubSpend pubView :
  0 <= prefix < 2 ^ 32 -> bytes_ok pubSpend -> bytes_ok pubView ->
  exists a, buildAddress prefix pubSpend pubView = Ok a /\
            Cpp.decode_addr (chars a) = Some (prefix, pubSpend ++ pubView).
Proof using HL. apply address_decodes. Qed.

Lemma address_standard ps pv :
  bytes_ok ps -> bytes_ok pv -> length ps = 32%nat -> length pv = 32%nat ->
  exists a, buildAddress PREFIX_STANDARD ps pv = Ok a /\ re_address a = true /\
            Cpp.decode_addr (chars a) = Some (PREFIX_STANDARD, ps ++ pv).
Proof using HL.
  intros Hs Hv Ls Lv.
  destruct (address_two_bytes PREFIX_STANDARD 1 ps pv) as (a & Ea & Hre); try done; try lia.
  destruct (address_decodes PREFIX_STANDARD ps pv) as (a' & Ea' & Hdec); try done.
  rewrite Ea in Ea'. injection Ea' as <-. by exists a.
Qed.

(** ** Wallets *)

(** A secret in range and a view secret in range give a wallet, whose parts are these. *)
Lemma walletFromSpendSecret_ok b :
  bytes_ok b -> length b = 32%nat -> 0 < bytesToBigIntLE b < L ->
  bytesToBigIntLE (keccak_256 b) mod L <> 0 ->
  exists w ps pv, walletFromSpendSecret b = Ok w /\
    base_multiply (bytesToBigIntLE b) = Ok ps /\
    base_multiply (bytesToBigIntLE (keccak_256 b) mod L) = Ok pv /\
    buildAddress PREFIX_STANDARD ps pv = Ok (address w) /\
    bytesToMnemonic b WORDS_EN PREFIX_LEN_EN = Ok (mnemonic w) /\
    length ps = 32%nat /\ bytes_ok ps /\ length pv = 32%nat /\ bytes_ok pv.
Proof using HL.
  intros Hb Hl Hs Hv. unfold walletFromSpendSecret.
  destruct (scReduce32_ok (keccak_256 b)) as (vs & -> & Lvs & Hvs & Evs); [apply keccak_bytes|apply keccak_length|].
  cbn [res_bind]. unfold scalarMultBase. rewrite (proj2 (Z.eqb_neq (bytesToBigIntLE b) 0)) by lia.
  destruct (multiply_ok (bytesToBigIntLE b) Hs) as (ps & Eps & Lps & Hps). rewrite Eps. cbn [res_bind].
  pose proof (Z.mod_pos_bound (bytesToBigIntLE (keccak_256 b)) L ltac:(pose proof L_bound; lia)) as Hmod.
  rewrite Evs, (proj2 (Z.eqb_neq _ 0)) by done.
  destruct (multiply_ok (bytesToBigIntLE (keccak_256 b) mod L)) as (pv & Epv & Lpv & Hpv); [lia|].
  rewrite Epv. cbn [res_bind].
  rewrite (buildAddress_eq PREFIX_STANDARD [144; 1] ps pv) by (vm_compute; reflexivity). cbn [res_bind].
  destruct (seed_english b Hb Hl) as (m & Em & _). rewrite Em. cbn [res_bind].
  eexists _, ps, pv. split_and!; try done. by apply (buildAddress_eq PREFIX_STANDARD [144; 1] ps pv).
Qed.

(** C10: generating a wallet from 32 random bytes succeeds whenever the two derived scalars are not zero, and
    the result is usable: the address passes the claim pattern, the node decodes it to the standard tag and the two public
    keys, and restoring from the wallet's own seed gives the same wallet. *)
Theorem wallet_roundtrip r :
  bytes_ok r -> length r = 32%nat ->
  let spend := bytesToBigIntLE r mod L in
  let view := bytesToBigIntLE (keccak_256 (bigIntToBytesLE spend 32)) mod L in
  spend <> 0 -> view <> 0 ->
  exists w ps pv, generateWallet r = Ok w /\
    base_multiply spend = Ok ps /\ base_multiply view = Ok pv /\
    re_address (address w) = true /\
    Cpp.decode_addr (chars (address w)) = Some (PREFIX_STANDARD, ps ++ pv) /\
    restoreFromMnemonic (mnemonic w) = Ok w.
Proof using HL.
  intros Hr Hl spend view Hspend Hview.
  unfold generateWallet, scReduce32. rewrite Hl. cbn [Nat.eqb negb res_bind]. fold spend.
  pose proof (Z.mod_pos_bound (bytesToBigIntLE r) L ltac:(pose proof L_bound; lia)) as Hmod. fold spend in Hmod.
  set (b := bigIntToBytesLE spend 32) in *.
  assert (bytes_ok b) as Hb by apply bigIntToBytesLE_ok.
  assert (length b = 32%nat) as Hlb by apply length_bigIntToBytesLE.
  assert (bytesToBigIntLE b = spend) as Eb.
  { unfold b. rewrite bigint_of_bytes_of_bigint. apply Z.mod_small. pose proof L_bound.
    change (Z.of_nat 32) with 32. lia. }
  destruct (walletFromSpendSecret_ok b Hb Hlb) as (w & ps & pv & Ew & Eps & Epv & Ea & Em & Lps & Hps & Lpv & Hpv);
    [lia|done|].
  rewrite Eb in Eps. exists w, ps, pv.
  destruct (address_standard ps pv) as (a & Ea' & Hre & Hdec); try done.
  rewrite Ea in Ea'. injection Ea' as <-.
  destruct (seed_english b Hb Hlb) as (m & Em' & _ & Er). rewrite Em in Em'. injection Em' as <-.
  unfold restoreFromMnemonic. rewrite Er. cbn [res_bind]. split_and!; done.
Qed.

(** A restored wallet always has a spend scalar in 1..L-1, and its displayed seed restores the same
    wallet again: [restoreFromMnemonic] never accepts a zero or unreduced secret. *)
Theorem restore_canonical m w :
  restoreFromMnemonic m = Ok w ->
  exists b, mnemonicToBytes m WORDS_EN PREFIX_LEN_EN = Ok b /\ 0 < bytesToBigIntLE b < L /\
            restoreFromMnemonic (mnemonic w) = Ok w.
Proof using HL.
  unfold restoreFromMnemonic. destruct (mnemonicToBytes m _ _) as [b|err] eqn:Em; [|done]. cbn [res_bind].
  intros Hw. exists b. destruct (mnemonicToBytes_bytes _ _ _ _ Em) as [Hb Hl].
  assert (0 < bytesToBigIntLE b < L) as Hrange.
  { revert Hw. unfold walletFromSpendSecret. destruct (scReduce32 _); [|done]. cbn [res_bind]. unfold scalarMultBase at 1.
    destruct (Z.eqb_spec (bytesToBigIntLE b) 0); [done|]. pose proof (bytesToBigIntLE_bound b Hb).
    destruct (decide (0 < bytesToBigIntLE b < L)) as [|Hn]; [done|]. by destruct (multiply_range _ Hn) as [e ->]. }
  split_and!; try done; try lia.
  destruct (seed_english b Hb Hl) as (m' & Em' & _ & Er).
  assert (mnemonic w = m') as ->; [|by rewrite Er].
  revert Hw. unfold walletFromSpendSecret. rewrite Em'.
  destruct (scReduce32 _); [|done]. cbn [res_bind]. destruct (scalarMultBase b); [|done]. cbn [res_bind].
  destruct (scalarMultBase _); [|done]. cbn [res_bind]. destruct (buildAddress _ _ _); [|done]. by intros [= <-].
Qed.

(** The claim pattern excludes integrated addresses: an address that matches it carries at most 65 payload
    bytes for the node, fewer than the 72 of two keys and a payment id. *)
Theorem integrated_rejected a tag data :
  re_address a = true -> Cpp.decode_addr (chars a) = Some (tag, data) -> (length data <= 65)%nat.
Proof using.
  unfold re_address, re_address_chars, Cpp.decode_addr. intros Hre.
  assert (length (chars a) = 97%nat) as Hlen.
  { destruct (chars a) as [|c tl]; [done|]. cbn [length]. split_hyps. bool_to_prop. lia. }
  destruct (Base58.Cpp.decode (chars a)) as [d|] eqn:Ed; [|done]. apply length_decode in Ed.
  rewrite Hlen in Ed. change (Base58.Cpp.decoded_block_sizes (97 mod 11)) with 6 in Ed.
  change (Z.of_nat (97 / 11)) with 8 in Ed.
  case_test; [done|]. unfold Cpp.addr_checksum_size in *. case_test; [done|].
  destruct (Base58.Cpp.read_varint _) as [read tag'] eqn:Er. case_test; [done|].
  intros [= -> <-]. rewrite length_drop, length_take. lia.
Qed.

End Laws.

Lemma address_accepted_witness :
  exists a, @buildAddress demo_noble 400 (replicate 32 5) (replicate 32 6) = Ok a /\ re_address a = true.
Proof.
  apply (@address_accepted demo_noble demo_noble_laws); try reflexivity; [by do 2 right; left|..];
    apply (bool_decide_unpack _); vm_compute; exact I.
Defined.

Lemma address_node_roundtrip_witness :
  exists a, @buildAddress demo_noble 272 (replicate 32 5) (replicate 32 6) = Ok a /\
            @Cpp.decode_addr demo_noble (chars a) = Some (272, replicate 32 5 ++ replicate 32 6).
Proof.
  apply (@address_node_roundtrip demo_noble demo_noble_laws); [lia|..];
    apply (bool_decide_unpack _); vm_compute; exact I.
Defined.

(** A seed and the wallet it restores in the concrete instance. *)
Definition demo_seed : list string :=
  match bytesToMnemonic (bigIntToBytesLE 7 32) WORDS_EN PREFIX_LEN_EN with Ok m => m | Err _ => [] end.

Definition demo_wallet : wallet :=
  match @restoreFromMnemonic demo_noble demo_seed with Ok w => w | Err _ => mk_wallet "" [] "" "" end.

Lemma restore_canonical_witness :
  exists b, mnemonicToBytes demo_seed WORDS_EN PREFIX_LEN_EN = Ok b /\ 0 < bytesToBigIntLE b < L /\
            @restoreFromMnemonic demo_noble (mnemonic demo_wallet) = Ok demo_wallet.
Proof. apply (@restore_canonical demo_noble demo_noble_laws). vm_compute. reflexivity. Defined.

Lemma integrated_rejected_witness :
  (length (replicate 32 1%Z ++ replicate 32 2%Z) <= 65)%nat.
Proof.
  apply (@integrated_rejected demo_noble
    (match @buildAddress demo_noble 144 (replicate 32 1) (replicate 32 2) with Ok a => a | Err _ => ""%string end) 144);
    vm_compute; reflexivity.
Defined.


Lemma wallet_roundtrip_witness :
  exists w ps pv, @generateWallet demo_noble (replicate 32 7) = Ok w /\
    @base_multiply demo_noble (bytesToBigIntLE (replicate 32 7) mod L) = Ok ps /\
    @base_multiply demo_noble (bytesToBigIntLE (replicate 32 1) mod L) = Ok pv /\
    re_address (address w) = true /\
    @Cpp.decode_addr demo_noble (chars (address w)) = Some (PREFIX_STANDARD, ps ++ pv) /\
    @restoreFromMnemonic demo_noble (mnemonic w) = Ok w.
Proof.
  apply (@wallet_roundtrip demo_noble demo_noble_laws (replicate 32 7)).
  - apply (bool_decide_unpack _). vm_compute. exact I.
  - reflexivity.
  - vm_compute. discriminate.
  - vm_compute. discriminate.
Defined.
