(* ===== verification/Words.v ===== *)
(** * Words: the solution list of wordmine/src/words.js

    [WORDS] is the list of the source, in its order, with its repetitions.  Every entry is
    a word the guess handler's pattern accepts, so every game can be won; three
    entries occur twice, so a uniform index is not a uniform word. *)

From S2P Require Import Prelude JsCore.

Definition WORDS : list string := [
  "ABOUT"; "ABOVE"; "ABUSE"; "ACTOR"; "ACUTE"; "ADMIT"; "ADOPT"; "ADULT"; "AFTER"; "AGAIN"; "AGENT";
  "AGREE"; "AHEAD"; "ALARM"; "ALBUM"; "ALERT"; "ALIKE"; "ALIVE"; "ALLOW"; "ALONE"; "ALONG"; "ALTER";
  "AMONG"; "ANGER"; "ANGLE"; "ANGRY"; "APART"; "APPLE"; "APPLY"; "ARENA"; "ARGUE"; "ARISE"; "ARRAY";
  "ASIDE"; "ASSET"; "AVOID"; "AWAKE"; "AWARD"; "AWARE"; "BADLY"; "BAKER"; "BASES"; "BASIC"; "BASIS";
  "BEACH"; "BEGAN"; "BEGIN"; "BEGUN"; "BEING"; "BELOW"; "BENCH"; "BIRTH"; "BLACK"; "BLAME"; "BLIND";
  "BLOCK"; "BLOOD"; "BOARD"; "BOAST"; "BOOST"; "BOOTH"; "BOUND"; "BRAIN"; "BRAND"; "BRASS"; "BRAVE";
  "BREAD"; "BREAK"; "BREED"; "BRIEF"; "BRING"; "BROAD"; "BROKE"; "BROWN"; "BUILD"; "BUILT"; "BUYER";
  "CABLE"; "CALIF"; "CARRY"; "CATCH"; "CAUSE"; "CHAIN"; "CHAIR"; "CHART"; "CHASE"; "CHEAP"; "CHECK";
  "CHEST"; "CHIEF"; "CHILD"; "CHINA"; "CHOSE"; "CIVIL"; "CLAIM"; "CLASS"; "CLEAN"; "CLEAR"; "CLICK";
  "CLIMB"; "CLOCK"; "CLOSE"; "COACH"; "COAST"; "COULD"; "COUNT"; "COURT"; "COVER"; "CRAFT"; "CRASH";
  "CREAM"; "CRIME"; "CROSS"; "CROWD"; "CROWN"; "CURVE"; "CYCLE"; "DAILY"; "DANCE"; "DATED"; "DEALT";
  "DEATH"; "DEBUT"; "DELAY"; "DEPTH"; "DOING"; "DOUBT"; "DOZEN"; "DRAFT"; "DRAMA"; "DRAWN"; "DREAM";
  "DRESS"; "DRILL"; "DRINK"; "DRIVE"; "DROVE"; "DYING"; "EAGER"; "EARLY"; "EARTH"; "EIGHT"; "ELITE";
  "EMPTY"; "ENEMY"; "ENJOY"; "ENTER"; "ENTRY"; "EQUAL"; "ERROR"; "EVENT"; "EVERY"; "EXACT"; "EXIST";
  "EXTRA"; "FAITH"; "FALSE"; "FAULT"; "FIBER"; "FIELD"; "FIFTH"; "FIFTY"; "FIGHT"; "FINAL"; "FIRST";
  "FIXED"; "FLASH"; "FLEET"; "FLOOR"; "FLUID"; "FOCUS"; "FORCE"; "FORTH"; "FORTY"; "FORUM"; "FOUND";
  "FRAME"; "FRANK"; "FRAUD"; "FRESH"; "FRONT"; "FROST"; "FRUIT"; "FULLY"; "FUNNY"; "GIANT"; "GIVEN";
  "GLASS"; "GLOBE"; "GOING"; "GRACE"; "GRADE"; "GRAND"; "GRANT"; "GRASS"; "GREAT"; "GREEN"; "GROSS";
  "GROUP"; "GROWN"; "GUARD"; "GUESS"; "GUEST"; "GUIDE"; "HAPPY"; "HARRY"; "HEART"; "HEAVY"; "HENCE";
  "HORSE"; "HOTEL"; "HOUSE"; "HUMAN"; "IDEAL"; "IMAGE"; "INDEX"; "INNER"; "INPUT"; "ISSUE"; "JAPAN";
  "JIMMY"; "JOINT"; "JONES"; "JUDGE"; "KNOWN"; "LABEL"; "LARGE"; "LASER"; "LATER"; "LAUGH"; "LAYER";
  "LEARN"; "LEASE"; "LEAST"; "LEAVE"; "LEGAL"; "LEVEL"; "LEWIS"; "LIGHT"; "LIMIT"; "LINKS"; "LIVES";
  "LOCAL"; "LOGIC"; "LOOSE"; "LOWER"; "LUCKY"; "LUNCH"; "LYING"; "MAGIC"; "MAJOR"; "MAKER"; "MARCH";
  "MARIA"; "MATCH"; "MAYBE"; "MAYOR"; "MEANT"; "MEDIA"; "METAL"; "MIGHT"; "MINOR"; "MINUS"; "MIXED";
  "MODEL"; "MONEY"; "MONTH"; "MORAL"; "MOTOR"; "MOUNT"; "MOUSE"; "MOUTH"; "MOVIE"; "MUSIC"; "NEEDS";
  "NEVER"; "NEWLY"; "NIGHT"; "NOISE"; "NORTH"; "NOTED"; "NOVEL"; "NURSE"; "OCCUR"; "OCEAN"; "OFFER";
  "OFTEN"; "ORDER"; "OTHER"; "OUGHT"; "PAINT"; "PANEL"; "PAPER"; "PARTY"; "PEACE"; "PETER"; "PHASE";
  "PHONE"; "PHOTO"; "PIECE"; "PILOT"; "PITCH"; "PLACE"; "PLAIN"; "PLANE"; "PLANT"; "PLATE"; "POINT";
  "POUND"; "POWER"; "PRESS"; "PRICE"; "PRIDE"; "PRIME"; "PRINT"; "PRIOR"; "PRIZE"; "PROOF"; "PROUD";
  "PROVE"; "QUEEN"; "QUICK"; "QUIET"; "QUITE"; "RADIO"; "RAISE"; "RANGE"; "RAPID"; "RATIO"; "REACH";
  "READY"; "REFER"; "RIGHT"; "RIVAL"; "RIVER"; "ROBIN"; "ROGER"; "ROMAN"; "ROUGH"; "ROUND"; "ROUTE";
  "ROYAL"; "RURAL"; "SCALE"; "SCENE"; "SCOPE"; "SCORE"; "SENSE"; "SERVE"; "SEVEN"; "SHALL"; "SHAPE";
  "SHARE"; "SHARP"; "SHEET"; "SHELF"; "SHELL"; "SHIFT"; "SHIRT"; "SHOCK"; "SHOOT"; "SHORT"; "SHOWN";
  "SIGHT"; "SINCE"; "SIXTH"; "SIXTY"; "SIZED"; "SKILL"; "SLEEP"; "SLIDE"; "SMALL"; "SMART"; "SMILE";
  "SMITH"; "SMOKE"; "SOLID"; "SOLVE"; "SORRY"; "SOUND"; "SOUTH"; "SPACE"; "SPARE"; "SPEAK"; "SPEED";
  "SPEND"; "SPENT"; "SPLIT"; "SPOKE"; "SPORT"; "STAFF"; "STAGE"; "STAKE"; "STAND"; "START"; "STATE";
  "STEAM"; "STEEL"; "STICK"; "STILL"; "STOCK"; "STONE"; "STOOD"; "STORE"; "STORM"; "STORY"; "STRIP";
  "STUCK"; "STUDY"; "STUFF"; "STYLE"; "SUGAR"; "SUITE"; "SUPER"; "SWEET"; "TABLE"; "TAKEN"; "TASTE";
  "TAXES"; "TEACH"; "TEETH"; "TERRY"; "TEXAS"; "THANK"; "THEFT"; "THEIR"; "THEME"; "THERE"; "THESE";
  "THICK"; "THING"; "THINK"; "THIRD"; "THOSE"; "THREE"; "THREW"; "THROW"; "TIGHT"; "TIMES"; "TIRED";
  "TITLE"; "TODAY"; "TOPIC"; "TOTAL"; "TOUCH"; "TOUGH"; "TOWER"; "TRACK"; "TRADE"; "TRAIN"; "TREAT";
  "TREND"; "TRIAL"; "TRIED"; "TRIES"; "TRUCK"; "TRULY"; "TRUST"; "TRUTH"; "TWICE"; "UNCLE"; "UNDER";
  "UNDUE"; "UNION"; "UNITY"; "UNTIL"; "UPPER"; "UPSET"; "URBAN"; "USAGE"; "USUAL"; "VALID"; "VALUE";
  "VIDEO"; "VIRUS"; "VISIT"; "VITAL"; "VOCAL"; "VOICE"; "WASTE"; "WATCH"; "WATER"; "WHEEL"; "WHERE";
  "WHICH"; "WHILE"; "WHITE"; "WHOLE"; "WHOSE"; "WOMAN"; "WOMEN"; "WORLD"; "WORRY"; "WORSE"; "WORST";
  "WORTH"; "WOULD"; "WOUND"; "WRITE"; "WRONG"; "WROTE"; "YIELD"; "YOUNG"; "YOUTH"; "ZEBRA"; "ZESTY";
  "ZONAL"; "FROST"; "BLOCK"; "CHAIN"; "MINER"; "NONCE"; "CHILL"; "SNOWY"; "ICILY"; "GLINT"
]%string.

(** ** Facts *)

Lemma length_WORDS : length WORDS = 516%nat.
Proof. vm_compute. reflexivity. Qed.

Lemma WORDS_five w : In w WORDS -> re_five_letters w = true.
Proof.
  intros H. cut (forallb re_five_letters WORDS = true); [|vm_compute; reflexivity].
  rewrite forallb_forall. intros F. by apply F.
Qed.

(** The solution list repeats FROST, BLOCK and CHAIN, each at two indices, and no other
    word is repeated: an index drawn uniformly does not give a uniform word. *)
Theorem WORDS_not_uniform :
  forall w, (1 < List.count_occ String.string_dec WORDS w)%nat <-> In w ["FROST"; "BLOCK"; "CHAIN"]%string.
Proof.
  intros w. split.
  - intros H.
    assert (In w WORDS) as Hin by (apply (List.count_occ_In String.string_dec); lia).
    revert H. cut (forallb (fun w => (List.count_occ String.string_dec WORDS w <=? 1)%nat
      || bool_decide (w = "FROST") || bool_decide (w = "BLOCK") || bool_decide (w = "CHAIN"))%string WORDS = true).
    + rewrite forallb_forall. intros F. specialize (F w Hin). intros H.
      rewrite !orb_true_iff, !bool_decide_eq_true, Nat.leb_le in F. cbn [In].
      destruct F as [[[F|F]|F]|F]; [lia|auto..].
    + vm_compute. reflexivity.
  - cbn [In]. intros [<-|[<-|[<-|[]]]]; vm_compute; lia.
Qed.
