(* ===== verification/Grade.v ===== *)
(** * Grade: scoring a guess in wordmine/src/worker.js

    [grade] is the two-pass code, with the [marks] array and the [counts] object
    as explicit state.  [spec_mark] is the rule of the game, position by
    position: green for the right letter in its place, yellow while unmatched
    copies of the letter remain, scanning from the left, gray otherwise.  The
    theorems show that the code computes the rule, and what follows for the
    player. *)

From S2P Require Import Prelude JsCore.

Inductive mark := Green | Yellow | Gray.

#[export] Instance mark_eq_dec : EqDecision mark.
Proof. solve_decision. Defined.

(** ** The code *)

(** [s[i]]: the code unit, or undefined past the end. *)
Definition char_at (s : list ascii) (i : nat) : option ascii := s !! i.

(** An object used as a counter; an absent key reads as undefined, which [|| 0] makes 0. *)
Definition count_of (counts : gmap (option ascii) Z) (c : option ascii) : Z := default 0 (counts !! c).

(** First pass from index [i], [k] rounds. *)
Fixpoint grade_pass1 (k i : nat) (guess answer : list ascii) (marks : list mark)
    (counts : gmap (option ascii) Z) : list mark * gmap (option ascii) Z :=
  match k with
  | O => (marks, counts)
  | S k' =>
      if decide (char_at guess i = char_at answer i)
      then grade_pass1 k' (S i) guess answer (<[i := Green]> marks) counts
      else grade_pass1 k' (S i) guess answer marks
             (<[char_at answer i := count_of counts (char_at answer i) + 1]> counts)
  end.

(** Second pass. *)
Fixpoint grade_pass2 (k i : nat) (guess : list ascii) (marks : list mark)
    (counts : gmap (option ascii) Z) : list mark :=
  match k with
  | O => marks
  | S k' =>
      if decide (marks !! i = Some Green) then grade_pass2 k' (S i) guess marks counts
      else if count_of counts (char_at guess i) =? 0 then grade_pass2 k' (S i) guess marks counts
      else grade_pass2 k' (S i) guess (<[i := Yellow]> marks)
             (<[char_at guess i := count_of counts (char_at guess i) - 1]> counts)
  end.

Definition grade_chars (guess answer : list ascii) : list mark :=
  let '(marks, counts) := grade_pass1 5 0 guess answer [Gray; Gray; Gray; Gray; Gray] ∅ in
  grade_pass2 5 0 guess marks counts.

Definition grade (guess answer : string) : list mark := grade_chars (chars guess) (chars answer).

(** ** The rule *)

(** The number of indices in [i, i + k) that satisfy a test. *)
Fixpoint count_idx (f : nat -> bool) (i k : nat) : Z :=
  match k with
  | O => 0
  | S k' => (if f i then 1 else 0) + count_idx f (S i) k'
  end.

Section Rule.
Context (g a : list ascii).

Definition is_green (i : nat) : bool := bool_decide (char_at g i = char_at a i).

(** Unmatched copies of [c] in the answer, and those the guess used before index [i]. *)
Definition available (c : option ascii) : Z :=
  count_idx (fun j => negb (is_green j) && bool_decide (char_at a j = c)) 0 5.
Definition used_before (c : option ascii) (i : nat) : Z :=
  count_idx (fun j => negb (is_green j) && bool_decide (char_at g j = c)) 0 i.

Definition spec_mark (i : nat) : mark :=
  if is_green i then Green
  else if used_before (char_at g i) i <? available (char_at g i) then Yellow
  else Gray.
End Rule.

(** ** The passes *)

Lemma count_idx_nonneg f : forall k i, 0 <= count_idx f i k.
Proof. induction k as [|k IH]; intros i; cbn; [lia|]. specialize (IH (S i)). destruct (f i); lia. Qed.

Lemma available_nonneg g a c : 0 <= available g a c.
Proof. apply count_idx_nonneg. Qed.

Lemma count_idx_snoc f k : forall i, count_idx f i (S k) = count_idx f i k + (if f (i + k)%nat then 1 else 0).
Proof.
  induction k as [|k IH]; intros i; [cbn; rewrite Nat.add_0_r; lia|].
  cbn [count_idx] in *. rewrite IH. replace (S i + k)%nat with (i + S k)%nat by lia. lia.
Qed.

Lemma count_of_insert m c v d : count_of (<[c := v]> m) d = if decide (c = d) then v else count_of m d.
Proof. unfold count_of. rewrite lookup_insert. by case_decide. Qed.

Lemma pass1_spec g a k : forall i marks counts,
  (i + k = 5)%nat -> length marks = 5%nat ->
  let '(marks', counts') := grade_pass1 k i g a marks counts in
  length marks' = 5%nat /\
  (forall j, marks' !! j = if bool_decide (i <= j < 5)%nat && is_green g a j then Some Green else marks !! j) /\
  (forall c, count_of counts' c = count_of counts c
     + count_idx (fun j => negb (is_green g a j) && bool_decide (char_at a j = c)) i k).
Proof.
  induction k as [|k IH]; intros i marks counts Hi Hm; cbn [grade_pass1].
  - split_and!; [done| |intros c; cbn; lia]. intros j. by rewrite bool_decide_eq_false_2 by lia.
  - case_decide as Hg.
    + specialize (IH (S i) (<[i := Green]> marks) counts ltac:(lia) ltac:(by rewrite length_insert)).
      destruct (grade_pass1 _ _ _ _ _ _) as [marks' counts']. destruct IH as (Hl & Hmk & Hc).
      assert (is_green g a i = true) as Egreen by by apply bool_decide_eq_true_2.
      split_and!; [done| |].
      * intros j. rewrite Hmk. destruct (decide (j = i)) as [->|Hne].
        -- rewrite (bool_decide_eq_false_2 (S i <= i < 5)%nat), bool_decide_eq_true_2, Egreen by lia.
           cbn. apply list_lookup_insert_eq. lia.
        -- rewrite list_lookup_insert_ne by done. 
           by rewrite (bool_decide_ext (S i <= j < 5)%nat (i <= j < 5)%nat) by lia.
      * intros c. rewrite Hc. cbn [count_idx]. rewrite Egreen. cbn. lia.
    + specialize (IH (S i) marks (<[char_at a i := count_of counts (char_at a i) + 1]> counts) ltac:(lia) Hm).
      destruct (grade_pass1 _ _ _ _ _ _) as [marks' counts']. destruct IH as (Hl & Hmk & Hc).
      assert (is_green g a i = false) as Egreen by by apply bool_decide_eq_false_2.
      split_and!; [done| |].
      * intros j. rewrite Hmk. destruct (decide (j = i)) as [->|Hne].
        -- by rewrite Egreen, !andb_false_r.
        -- by rewrite (bool_decide_ext (S i <= j < 5)%nat (i <= j < 5)%nat) by lia.
      * intros c. rewrite Hc, count_of_insert. cbn [count_idx]. rewrite Egreen. cbn [negb andb].
        case_decide as Hd; [rewrite Hd, bool_decide_eq_true_2 by done|rewrite bool_decide_eq_false_2 by done]; lia.
Qed.

Lemma used_before_S g a c i :
  used_before g a c (S i) = used_before g a c i
    + (if negb (is_green g a i) && bool_decide (char_at g i = c) then 1 else 0).
Proof. unfold used_before. by rewrite count_idx_snoc. Qed.

Lemma pass2_spec g a k : forall i marks counts,
  (i + k = 5)%nat -> length marks = 5%nat ->
  (forall j, (i <= j < 5)%nat -> marks !! j = Some (if is_green g a j then Green else Gray)) ->
  (forall c, count_of counts c = Z.max 0 (available g a c - used_before g a c i)) ->
  forall j, grade_pass2 k i g marks counts !! j =
            if bool_decide (i <= j < 5)%nat then Some (spec_mark g a j) else marks !! j.
Proof.
  induction k as [|k IH]; intros i marks counts Hi Hl Hm Hc j; cbn [grade_pass2].
  { by rewrite bool_decide_eq_false_2 by lia. }
  rewrite (Hm i) by lia.
  assert (forall c, is_green g a i = true \/ char_at g i <> c -> used_before g a c (S i) = used_before g a c i) as Hsame.
  { intros c H. rewrite used_before_S. destruct H as [->|H]; cbn; [lia|].
    rewrite (bool_decide_eq_false_2 (char_at g i = c)), andb_false_r by done. lia. }
  assert (forall m, spec_mark g a i = m ->
     (if bool_decide (S i <= j < 5)%nat then Some (spec_mark g a j) else (<[i := m]> marks) !! j)
     = if bool_decide (i <= j < 5)%nat then Some (spec_mark g a j) else marks !! j) as Hglue.
  { intros m Hspec. destruct (decide (j = i)) as [->|Hne].
    - rewrite bool_decide_eq_false_2, bool_decide_eq_true_2, Hspec by lia. apply list_lookup_insert_eq. lia.
    - rewrite list_lookup_insert_ne by done.
      by rewrite (bool_decide_ext (S i <= j < 5)%nat (i <= j < 5)%nat) by lia. }
  assert (forall m, marks !! i = Some m -> <[i := m]> marks = marks) as Hid by (intros; by apply list_insert_id).
  destruct (is_green g a i) eqn:Eg.
  - rewrite decide_True by done. rewrite IH; try done; [|lia|intros; apply Hm; lia|intros c; rewrite Hc, Hsame by auto; done].
    rewrite <- (Hglue Green) by (unfold spec_mark; by rewrite Eg).
    rewrite Hid by (rewrite Hm, Eg by lia; done). done.
  - rewrite decide_False by done. rewrite Hc.
    assert (used_before g a (char_at g i) (S i) = used_before g a (char_at g i) i + 1) as Hnext.
    { rewrite used_before_S, Eg, bool_decide_eq_true_2 by done. done. }
    destruct (Z.eqb_spec (Z.max 0 (available g a (char_at g i) - used_before g a (char_at g i) i)) 0) as [Hz|Hz].
    + rewrite IH; try done; [|lia|intros; apply Hm; lia|].
      * rewrite <- (Hglue Gray).
        -- rewrite Hid by (rewrite Hm, Eg by lia; done). done.
        -- unfold spec_mark. rewrite Eg. destruct (Z.ltb_spec (used_before g a (char_at g i) i) (available g a (char_at g i))); [lia|done].
      * intros c. rewrite Hc. destruct (decide (char_at g i = c)) as [<-|Hne]; [lia|by rewrite Hsame by auto].
    + rewrite IH; [|lia|by rewrite length_insert| |].
      * apply Hglue. unfold spec_mark. rewrite Eg.
        destruct (Z.ltb_spec (used_before g a (char_at g i) i) (available g a (char_at g i))); [done|lia].
      * intros j' Hj. rewrite list_lookup_insert_ne by lia. apply Hm. lia.
      * intros c. rewrite count_of_insert. destruct (decide (char_at g i = c)) as [<-|Hne]; [lia|].
        by rewrite Hc, Hsame by auto.
Qed.

(** ** Correctness *)

Lemma grade_spec_chars g a : grade_chars g a = map (spec_mark g a) (seq 0 5).
Proof.
  unfold grade_chars.
  pose proof (pass1_spec g a 5 0 [Gray; Gray; Gray; Gray; Gray] ∅ eq_refl eq_refl) as H1.
  destruct (grade_pass1 _ _ _ _ _ _) as [marks counts]. destruct H1 as (Hl & Hm & Hc).
  apply list_eq. intros j. rewrite (pass2_spec g a); try done.
  - rewrite Hm. destruct (decide (j < 5)%nat) as [Hj|Hj].
    + rewrite bool_decide_eq_true_2 by lia. do 5 (destruct j as [|j]; [done|]). lia.
    + rewrite bool_decide_eq_false_2 by lia. cbn [andb]. do 5 (destruct j as [|j]; [lia|]). done.
  - intros i Hi. rewrite Hm, bool_decide_eq_true_2 by lia. cbn [andb].
    destruct (is_green g a i); [done|]. do 5 (destruct i as [|i]; [done|]). lia.
  - intros c. rewrite Hc. unfold count_of at 1. rewrite lookup_empty. cbn [default].
    pose proof (available_nonneg g a c). fold (available g a c). unfold used_before. cbn [count_idx]. unfold id. lia.
Qed.

(** The two-pass scoring code computes the rule of the game: at each of the five positions the mark is
    green exactly when the letters agree, yellow exactly when fewer copies of the guessed letter have been used to
    the left than the answer has unmatched, and gray otherwise. *)
Theorem grade_correct guess answer :
  grade guess answer = map (spec_mark (chars guess) (chars answer)) (seq 0 5).
Proof. apply grade_spec_chars. Qed.

Lemma grade_all_green g a :
  length g = 5%nat -> length a = 5%nat ->
  (forallb (fun m => bool_decide (m = Green)) (grade_chars g a) = true <-> g = a).
Proof.
  intros Hg Ha. rewrite grade_spec_chars, forallb_forall. split.
  - intros H. apply list_eq. intros i. destruct (decide (i < 5)%nat) as [Hi|Hi].
    + specialize (H (spec_mark g a i)). rewrite bool_decide_eq_true in H.
      assert (spec_mark g a i = Green) as E by (apply H, in_map, in_seq; lia). unfold spec_mark in E.
      destruct (is_green g a i) eqn:Eg; [by apply bool_decide_eq_true in Eg|]. by destruct (_ <? _).
    + rewrite !lookup_ge_None_2 by lia. done.
  - intros <- m Hm. apply in_map_iff in Hm as (i & <- & _). unfold spec_mark, is_green.
    by rewrite (bool_decide_eq_true_2 (char_at g i = char_at g i)) by done.
Qed.

Lemma count_idx_add f h k : forall i,
  count_idx f i k + count_idx h i k = count_idx (fun j => f j || h j) i k + count_idx (fun j => f j && h j) i k.
Proof.
  induction k as [|k IH]; intros i; cbn [count_idx]; [done|]. specialize (IH (S i)).
  destruct (f i), (h i); cbn [orb andb]; lia.
Qed.

Lemma count_idx_ext f h k : forall i,
  (forall j, (i <= j < i + k)%nat -> f j = h j) -> count_idx f i k = count_idx h i k.
Proof.
  induction k as [|k IH]; intros i H; cbn [count_idx]; [done|]. rewrite (H i), (IH (S i)) by (intros; try apply H; lia). done.
Qed.

Section Accounting.
Context (g a : list ascii) (c : option ascii).

(** Yellow marks on a letter: as many as the guess spends, up to the unmatched copies. *)
Lemma yellows_before i :
  count_idx (fun j => bool_decide (char_at g j = c) && bool_decide (spec_mark g a j = Yellow)) 0 i
  = Z.min (used_before g a c i) (available g a c).
Proof.
  induction i as [|i IH]; [change (0 = Z.min 0 (available g a c)); pose proof (available_nonneg g a c); lia|].
  rewrite count_idx_snoc, IH, used_before_S. cbn [Nat.add].
  pose proof (available_nonneg g a c) as Hav. unfold spec_mark.
  destruct (bool_decide (char_at g i = c)) eqn:Ec; [|rewrite andb_false_r; cbn [andb]; lia].
  apply bool_decide_eq_true in Ec. rewrite Ec. destruct (is_green g a i); cbn [negb andb];
    [rewrite bool_decide_eq_false_2 by done; lia|].
  destruct (Z.ltb_spec (used_before g a c i) (available g a c));
    [rewrite bool_decide_eq_true_2 by done|rewrite bool_decide_eq_false_2 by done]; lia.
Qed.

Lemma split_green (l : list ascii) :
  count_idx (fun j => bool_decide (char_at l j = c)) 0 5
  = count_idx (fun j => is_green g a j && bool_decide (char_at l j = c)) 0 5
    + count_idx (fun j => negb (is_green g a j) && bool_decide (char_at l j = c)) 0 5.
Proof.
  rewrite count_idx_add.
  rewrite (count_idx_ext (fun j => is_green g a j && bool_decide (char_at l j = c) && (negb (is_green g a j) && bool_decide (char_at l j = c))) (fun _ => false)).
  - rewrite (count_idx_ext (fun j => is_green g a j && bool_decide (char_at l j = c) || negb (is_green g a j) && bool_decide (char_at l j = c)) (fun j => bool_decide (char_at l j = c))).
    + cbn. lia.
    + intros j _. by destruct (is_green g a j), (bool_decide _).
  - intros j _. by destruct (is_green g a j), (bool_decide _).
Qed.

Lemma marked_letters :
  count_idx (fun j => bool_decide (char_at g j = c) && negb (bool_decide (spec_mark g a j = Gray))) 0 5
  = Z.min (count_idx (fun j => bool_decide (char_at g j = c)) 0 5) (count_idx (fun j => bool_decide (char_at a j = c)) 0 5).
Proof.
  rewrite (split_green g), (split_green a).
  rewrite (count_idx_ext (fun j => is_green g a j && bool_decide (char_at a j = c)) (fun j => is_green g a j && bool_decide (char_at g j = c))).
  2: { intros j _. unfold is_green. destruct (bool_decide_reflect (char_at g j = char_at a j)) as [->|]; done. }
  pose proof (yellows_before 5) as Hy. unfold used_before, available in Hy.
  rewrite Z.add_min_distr_l, <- Hy, count_idx_add.
  rewrite (count_idx_ext (fun j => is_green g a j && bool_decide (char_at g j = c) && (bool_decide (char_at g j = c) && bool_decide (spec_mark g a j = Yellow))) (fun _ => false)).
  - rewrite (eq_refl : count_idx (fun _ => false) 0 5 = 0), Z.add_0_r. apply count_idx_ext. intros j _. unfold spec_mark.
    destruct (is_green g a j), (bool_decide (char_at g j = c)); cbn; try done. by destruct (_ <? _).
  - intros j _. unfold spec_mark. by destruct (is_green g a j), (bool_decide (char_at g j = c)).
Qed.
End Accounting.

(** No letter is credited more often than the answer has it, nor less often than it could be: for every
    letter the number of green and yellow marks on it is the smaller of its numbers of occurrences in the guess and in the answer. *)
Theorem grade_letter_count guess answer (c : ascii) :
  let occurrences s := count_idx (fun j => bool_decide (char_at (chars s) j = Some c)) 0 5 in
  count_idx (fun j => bool_decide (char_at (chars guess) j = Some c)
                      && negb (bool_decide (nth j (grade guess answer) Gray = Gray))) 0 5
  = Z.min (occurrences guess) (occurrences answer).
Proof.
  intros occurrences. unfold occurrences. rewrite <- (marked_letters (chars guess) (chars answer) (Some c)).
  unfold grade. rewrite grade_spec_chars. apply count_idx_ext.
  intros j Hj. do 2 f_equal. apply bool_decide_ext. do 5 (destruct j as [|j]; [done|]). lia.
Qed.
