(* ===== verification/Number.v ===== *)
(** * Number: JavaScript numbers

    A JavaScript number is an IEEE 754 binary64 value.  The model is the
    Standard Library's executable specification of such values ([SpecFloat]), so
    the reward arithmetic of the worker is computed with its real roundings.
    The section on rounding proves what the worker relies on: a quotient or
    product whose exact value is at most an integer below 2^53 is at most
    that integer after rounding. *)

From S2P Require Import Prelude.
From Stdlib Require Export SpecFloat.

Abbreviation number := spec_float.

(** ** Operations *)

Definition num_of_Z (z : Z) : number := binary_normalize 53 1024 z 0 false.
Definition num_zero : number := S754_zero false.
Definition num_one : number := num_of_Z 1.
Definition num_div (x y : number) : number := SFdiv 53 1024 x y.
Definition num_mul (x y : number) : number := SFmul 53 1024 x y.
Definition num_add (x y : number) : number := SFadd 53 1024 x y.
Definition num_ltb (x y : number) : bool := SFltb x y.

Definition is_nan (x : number) : bool := match x with S754_nan => true | _ => false end.

(** [Math.max] and [Math.min] of two numbers: NaN is contagious and -0 is below +0. *)
Definition math_max (x y : number) : number :=
  if is_nan x || is_nan y then S754_nan
  else if num_ltb x y then y
  else if num_ltb y x then x
  else match x, y with
       | S754_zero true, S754_zero s => S754_zero s
       | _, _ => x
       end.

Definition math_min (x y : number) : number :=
  if is_nan x || is_nan y then S754_nan
  else if num_ltb x y then x
  else if num_ltb y x then y
  else match x, y with
       | S754_zero false, S754_zero s => S754_zero s
       | _, _ => x
       end.

(** [Math.floor] of a finite number as an integer; [None] for NaN and the infinities. *)
Definition math_floor (x : number) : option Z :=
  match x with
  | S754_zero _ => Some 0
  | S754_finite s m e =>
      let v := if s then Zneg m else Zpos m in
      Some (if 0 <=? e then v * 2 ^ e else v / 2 ^ (- e))
  | _ => None
  end.

(** A number after [JSON.stringify] and [JSON.parse]: NaN and the infinities become null
    ([None]), and -0 becomes 0. *)
Definition json_number (x : number) : option number :=
  match x with
  | S754_nan | S754_infinity _ => None
  | S754_zero _ => Some num_zero
  | _ => Some x
  end.

(** ToNumber of a number or null. *)
Definition to_number (x : option number) : number := default num_zero x.

(** ** Rounding *)

Lemma digits_bounds p : 2 ^ (Zpos (digits2_pos p) - 1) <= Zpos p < 2 ^ Zpos (digits2_pos p).
Proof.
  induction p as [p IH|p IH|]; cbn [digits2_pos]; [| |done].
  all: rewrite Pos2Z.inj_succ; replace (Z.succ (Zpos (digits2_pos p)) - 1) with (Z.succ (Zpos (digits2_pos p) - 1)) by lia.
  all: rewrite !Z.pow_succ_r by lia; lia.
Qed.

Lemma digits_lt m k : 0 <= m -> 0 <= k -> m < 2 ^ k -> Zdigits2 m <= k.
Proof.
  intros Hm Hk Hlt. destruct m as [|p|p]; cbn [Zdigits2]; [lia| |lia].
  pose proof (digits_bounds p) as [H _]. apply Z.lt_pred_le. apply (Z.pow_lt_mono_r_iff 2); lia.
Qed.

Lemma lt_digits m : 0 <= m -> m < 2 ^ Zdigits2 m.
Proof. intros Hm. destruct m as [|p|p]; cbn [Zdigits2]; [done| |lia]. apply digits_bounds. Qed.

(** Whether the bits below the kept mantissa are not all zero. *)
Definition sticky (r : shr_record) : bool := shr_r r || shr_s r.
Definition inexact (l : location) : bool := match l with loc_Exact => false | _ => true end.

(** Shifting by [n] divides the mantissa and remembers whether anything was lost. *)
Definition shifts (n : Z) (r r' : shr_record) : Prop :=
  shr_m r' = shr_m r / 2 ^ n /\
  sticky r' = sticky r || negb (shr_m r mod 2 ^ n =? 0).

Lemma shifts_1 r : 0 <= shr_m r -> shifts 1 r (shr_1 r).
Proof.
  destruct r as [m r s]. cbn [shr_m]. intros Hm. unfold shifts. cbn [shr_m]. change (2 ^ 1) with 2.
  destruct m as [|[p|p|]|p]; cbn [shr_1 shr_m]; [destruct r, s; done| | |destruct r, s; done|lia].
  - split; [rewrite Pos2Z.inj_xI; apply Z.div_unique_pos with 1; lia|].
    rewrite Pos2Z.inj_xI, Z.mul_comm, Z.add_comm, Z.mod_add by lia. destruct r, s; done.
  - split; [rewrite Pos2Z.inj_xO; apply Z.div_unique_pos with 0; lia|].
    rewrite Pos2Z.inj_xO, Z.mul_comm, Z.mod_mul by lia. destruct r, s; done.
Qed.

Lemma shifts_compose n1 n2 r r1 r2 :
  0 <= n1 -> 0 <= n2 -> shifts n1 r r1 -> shifts n2 r1 r2 -> shifts (n1 + n2) r r2.
Proof.
  intros H1 H2 [Em1 Es1] [Em2 Es2]. unfold shifts.
  pose proof (Z.pow_pos_nonneg 2 n1 ltac:(lia) H1) as P1. pose proof (Z.pow_pos_nonneg 2 n2 ltac:(lia) H2) as P2.
  rewrite Em2, Es2, Em1, Es1, Z.pow_add_r, Z.div_div by lia. split; [done|].
  rewrite <- orb_assoc. f_equal. rewrite Z.rem_mul_r by lia.
  pose proof (Z.mod_pos_bound (shr_m r) (2 ^ n1) P1). pose proof (Z.mod_pos_bound (shr_m r / 2 ^ n1) (2 ^ n2) P2).
  destruct (Z.eqb_spec (shr_m r mod 2 ^ n1) 0), (Z.eqb_spec ((shr_m r / 2 ^ n1) mod 2 ^ n2) 0),
    (Z.eqb_spec (shr_m r mod 2 ^ n1 + 2 ^ n1 * ((shr_m r / 2 ^ n1) mod 2 ^ n2)) 0); try done; nia.
Qed.

Lemma shifts_nonneg n r r' : 0 <= n -> 0 <= shr_m r -> shifts n r r' -> 0 <= shr_m r'.
Proof. intros Hn Hm [-> _]. apply Z.div_pos; [done|]. apply Z.pow_pos_nonneg; lia. Qed.

Lemma shifts_iter p : forall r, 0 <= shr_m r -> shifts (Zpos p) r (iter_pos shr_1 p r).
Proof.
  induction p as [p IH|p IH|]; intros r Hr; cbn [iter_pos].
  - pose proof (shifts_1 r Hr) as S1. pose proof (shifts_nonneg 1 _ _ ltac:(lia) Hr S1) as N1.
    pose proof (IH _ N1) as S2. pose proof (shifts_nonneg (Zpos p) _ _ ltac:(lia) N1 S2) as N2.
    replace (Zpos p~1) with (1 + (Zpos p + Zpos p)) by lia.
    eapply shifts_compose; [lia|lia|done|]. eapply shifts_compose; [lia|lia|done|]. by apply IH.
  - pose proof (IH _ Hr) as S2. pose proof (shifts_nonneg (Zpos p) _ _ ltac:(lia) Hr S2) as N2.
    replace (Zpos p~0) with (Zpos p + Zpos p) by lia.
    eapply shifts_compose; [lia|lia|done|]. by apply IH.
  - by apply shifts_1.
Qed.

Lemma sticky_of_loc m l : shr_m (shr_record_of_loc m l) = m /\ sticky (shr_record_of_loc m l) = inexact l.
Proof. destruct l as [|[]]; done. Qed.

Lemma inexact_of_record r : inexact (loc_of_shr_record r) = sticky r.
Proof. destruct r as [m [] []]; done. Qed.

Lemma round_nearest_even_bound m l : 0 <= m -> m <= round_nearest_even m l <= m + Z.b2z (inexact l).
Proof. intros H. destruct l as [|[]]; cbn; try case_test; lia. Qed.

(** A bound on the exact value in units of [2^e]: the mantissa, plus one when something was cut off. *)
Definition below (m e : Z) (inex : bool) (k : Z) : Prop := 0 <= m /\ e <= 0 /\ m + Z.b2z inex <= k * 2 ^ (- e).

(** The normalising shift: by [n] bits, at least as many as exceed the 53 kept. *)
Lemma shr_fexp_shift m e l :
  0 <= m ->
  let '(r, e') := shr_fexp 53 1024 m e l in
  let n := Z.max 0 (fexp 53 1024 (Zdigits2 m + e) - e) in
  e' = e + n /\ shr_m r = m / 2 ^ n /\ sticky r = inexact l || negb (m mod 2 ^ n =? 0) /\
  0 <= shr_m r < 2 ^ 53.
Proof.
  intros Hm. unfold shr_fexp, shr. destruct (sticky_of_loc m l) as [Em Es].
  set (r0 := shr_record_of_loc m l) in *. set (n := fexp 53 1024 (Zdigits2 m + e) - e).
  assert (0 <= m / 2 ^ Z.max 0 n < 2 ^ 53) as Hsmall.
  { assert (0 < 2 ^ Z.max 0 n) by (apply Z.pow_pos_nonneg; lia). split; [apply Z.div_pos; lia|].
    apply Z.div_lt_upper_bound; [lia|]. rewrite <- Z.pow_add_r by lia.
    eapply Z.lt_le_trans; [by apply lt_digits|]. apply Z.pow_le_mono_r; [lia|]. unfold n, fexp. lia. }
  destruct n as [|p|p]; cbn [Z.max Z.compare] in *.
  1,3: rewrite Em, Es; change (2 ^ 0) with 1 in *; rewrite Z.div_1_r, Z.mod_1_r in *; cbn;
       rewrite orb_false_r; split_and!; try done; lia.
  destruct (shifts_iter p r0 ltac:(lia)) as [Em' Es']. rewrite Em in Em', Es'. rewrite Em', Es', Es. done.
Qed.

Lemma shr_fexp_below m e l k :
  0 < k < 2 ^ 53 -> below m e (inexact l) k ->
  let '(r, e') := shr_fexp 53 1024 m e l in below (shr_m r) e' (sticky r) k.
Proof.
  intros Hk (Hm & He & Hle). pose proof (shr_fexp_shift m e l Hm) as H.
  destruct (shr_fexp 53 1024 m e l) as [r e']. cbv zeta in H. revert H.
  assert (Zdigits2 m <= 53 - e) as Hd.
  { apply digits_lt; [done|lia|]. unfold Z.sub. rewrite Z.pow_add_r by lia.
    pose proof (Z.pow_pos_nonneg 2 (- e) ltac:(lia) ltac:(lia)). destruct (inexact l); cbn in Hle; nia. }
  assert (e + Z.max 0 (fexp 53 1024 (Zdigits2 m + e) - e) <= 0) as Hen by (unfold fexp, emin; lia).
  revert Hen. generalize (Z.max_spec 0 (fexp 53 1024 (Zdigits2 m + e) - e)) as Hmax.
  assert (0 <= Z.max 0 (fexp 53 1024 (Zdigits2 m + e) - e)) as Hn by lia. revert Hn.
  generalize (Z.max 0 (fexp 53 1024 (Zdigits2 m + e) - e)). intros n Hn _ Hen (-> & Em & Es & Hr).
  split_and!; [lia|lia|]. rewrite Em, Es.
  pose proof (Z.pow_pos_nonneg 2 n ltac:(lia) Hn) as Hp.
  assert (2 ^ (- e) = 2 ^ (- (e + n)) * 2 ^ n) as Hpow by (rewrite <- Z.pow_add_r by lia; f_equal; lia).
  rewrite Hpow in Hle. set (K := k * 2 ^ (- (e + n))).
  assert (m + Z.b2z (inexact l) <= K * 2 ^ n) as HK by (unfold K; lia).
  pose proof (Z.div_mod m (2 ^ n) ltac:(lia)). pose proof (Z.mod_pos_bound m (2 ^ n) Hp).
  destruct (inexact l), (Z.eqb_spec (m mod 2 ^ n) 0); cbn [orb negb Z.b2z] in *; nia.
Qed.

(** The result of rounding a non-negative value: never NaN, and a mantissa of at most 53 bits. *)
Definition num_nonneg (x : number) : Prop :=
  match x with
  | S754_zero _ | S754_infinity false => True
  | S754_finite false m _ => Zpos m < 2 ^ 53
  | _ => False
  end.

Lemma round_nonneg m e l : 0 <= m -> num_nonneg (binary_round_aux 53 1024 false m e l).
Proof.
  intros Hm. unfold binary_round_aux. pose proof (shr_fexp_shift m e l Hm) as H1.
  destruct (shr_fexp 53 1024 m e l) as [r1 e1]. destruct H1 as (_ & _ & _ & Hm1 & _).
  pose proof (round_nearest_even_bound (shr_m r1) (loc_of_shr_record r1) Hm1) as Hm2.
  set (m2 := round_nearest_even (shr_m r1) (loc_of_shr_record r1)) in *.
  pose proof (shr_fexp_shift m2 e1 loc_Exact ltac:(lia)) as H3.
  destruct (shr_fexp 53 1024 m2 e1 loc_Exact) as [r3 e3]. destruct H3 as (_ & _ & _ & Hm3 & Hm3').
  destruct (shr_m r3) as [|p|p]; cbn [num_nonneg]; [done| |lia].
  case_test; cbn [num_nonneg]; [lia|done].
Qed.

(** A finite non-negative number that is at most [k]. *)
Definition num_within (x : number) (k : Z) : Prop :=
  match x with
  | S754_zero _ => 0 <= k
  | S754_finite false m e => Zpos m < 2 ^ 53 /\ e <= 0 /\ Zpos m <= k * 2 ^ (- e)
  | _ => False
  end.

Lemma round_within m e l k :
  0 < k < 2 ^ 53 -> below m e (inexact l) k -> num_within (binary_round_aux 53 1024 false m e l) k.
Proof.
  intros Hk Hb. pose proof (round_nonneg m e l (proj1 Hb)) as Hnn. revert Hnn.
  unfold binary_round_aux. pose proof (shr_fexp_below m e l k Hk Hb) as H1.
  destruct (shr_fexp 53 1024 m e l) as [r1 e1]. destruct H1 as (Hm1 & He1 & Hle1).
  pose proof (round_nearest_even_bound (shr_m r1) (loc_of_shr_record r1) Hm1) as Hm2.
  rewrite inexact_of_record in Hm2. set (m2 := round_nearest_even (shr_m r1) (loc_of_shr_record r1)) in *.
  pose proof (shr_fexp_below m2 e1 loc_Exact k Hk ltac:(split_and!; cbn; lia)) as H3.
  destruct (shr_fexp 53 1024 m2 e1 loc_Exact) as [r3 e3]. destruct H3 as (Hm3 & He3 & Hle3).
  destruct (shr_m r3) as [|p|p]; cbn [num_within num_nonneg]; [lia| |lia].
  destruct (Z.leb_spec e3 (1024 - 53)); [|lia]. cbn [num_within num_nonneg].
  assert (0 <= Z.b2z (sticky r3)) by (destruct (sticky r3); cbn; lia). lia.
Qed.

(** ** Quotients and products *)

Lemma new_location_inexact n k : inexact (new_location n k) = negb (k =? 0).
Proof. unfold new_location, new_location_even, new_location_odd. destruct (Z.even n), (k =? 0); done. Qed.

(** A finite positive number that is at least one. *)
Definition num_ge_one (y : number) : Prop :=
  match y with
  | S754_finite false m e => e <= 0 /\ 2 ^ (- e) <= Zpos m
  | _ => False
  end.

Lemma div_core_below mx ex my ey k :
  0 < k < 2 ^ 53 -> ex <= 0 -> Zpos mx <= k * 2 ^ (- ex) -> ey <= 0 -> 2 ^ (- ey) <= Zpos my ->
  let '(q, e, l) := SFdiv_core_binary 53 1024 (Zpos mx) ex (Zpos my) ey in below q e (inexact l) k.
Proof.
  intros Hk Hex Hx Hey Hy. unfold SFdiv_core_binary. cbn [Zdigits2].
  set (e' := Z.min _ _). set (s := ex - ey - e').
  assert (0 <= s) as Hs by (unfold s, e'; lia).
  assert (e' <= 0) as He'.
  { assert (Zpos (digits2_pos mx) <= 53 - ex) as Hd1.
    { apply (digits_lt (Zpos mx)); [lia|lia|]. unfold Z.sub. rewrite Z.pow_add_r by lia.
      pose proof (Z.pow_pos_nonneg 2 (- ex) ltac:(lia) ltac:(lia)). nia. }
    assert (- ey < Zpos (digits2_pos my)) as Hd2.
    { apply (Z.pow_lt_mono_r_iff 2); [lia|lia|]. pose proof (digits_bounds my). lia. }
    unfold e', fexp, emin. lia. }
  assert (match s with Z0 => Zpos mx | Zpos _ => Z.shiftl (Zpos mx) s | Zneg _ => 0 end = Zpos mx * 2 ^ s) as ->.
  { destruct s; [lia|by rewrite Z.shiftl_mul_pow2|lia]. }
  pose proof (Z_div_mod (Zpos mx * 2 ^ s) (Zpos my) ltac:(lia)) as Hdiv.
  destruct (Z.div_eucl _ _) as [q r]. destruct Hdiv as [Heq Hr]. rewrite new_location_inexact.
  pose proof (Z.pow_pos_nonneg 2 s ltac:(lia) Hs) as Hps.
  pose proof (Z.pow_pos_nonneg 2 (- e') ltac:(lia) ltac:(lia)) as Hpe.
  assert (Zpos mx * 2 ^ s <= k * 2 ^ (- e') * Zpos my) as Hbound.
  { assert (2 ^ (- ex) * 2 ^ s = 2 ^ (- e') * 2 ^ (- ey)) as Hpow.
    { rewrite <- !Z.pow_add_r by lia. f_equal. unfold s. lia. }
    transitivity (k * 2 ^ (- ex) * 2 ^ s); [by apply Z.mul_le_mono_nonneg_r; lia|].
    rewrite <- Z.mul_assoc, Hpow, Z.mul_assoc. apply Z.mul_le_mono_nonneg_l; [nia|done]. }
  split_and!; [nia|done|]. destruct (Z.eqb_spec r 0); cbn; nia.
Qed.

Lemma num_div_within x y k :
  0 < k < 2 ^ 53 -> num_within x k -> num_ge_one y -> num_within (num_div x y) k.
Proof.
  intros Hk Hx Hy. destruct y as [| | |[] my ey]; try done. destruct Hy as [Hey Hy].
  destruct x as [| | |[] mx ex]; try done. destruct Hx as (_ & Hex & Hx).
  unfold num_div, SFdiv. pose proof (div_core_below mx ex my ey k Hk Hex Hx Hey Hy) as Hc.
  destruct (SFdiv_core_binary _ _ _ _ _ _) as [[q e] l]. by apply round_within.
Qed.

Lemma num_mul_within x y k :
  0 < k < 2 ^ 53 -> num_within x 1 -> num_within y k -> num_within (num_mul x y) k.
Proof.
  intros Hk Hx Hy. destruct x as [| | |[] mx ex], y as [| | |[] my ey]; try done; cbn in *; try lia.
  destruct Hx as (_ & Hex & Hx), Hy as (_ & Hey & Hy). apply round_within; [done|].
  split_and!; [lia|lia|]. cbn. replace (- (ex + ey)) with (- ex + - ey) by lia. rewrite Z.pow_add_r by lia.
  pose proof (Z.pow_pos_nonneg 2 (- ex) ltac:(lia) ltac:(lia)). rewrite Pos2Z.inj_mul. nia.
Qed.

Lemma div_core_nonneg mx ex my ey :
  let '(q, _, _) := SFdiv_core_binary 53 1024 (Zpos mx) ex (Zpos my) ey in 0 <= q.
Proof.
  unfold SFdiv_core_binary. set (s := _ - _ - _). set (m' := match s with Z0 => _ | _ => _ end).
  assert (0 <= m') as Hm by (unfold m'; destruct s; [lia|apply Z.shiftl_nonneg; lia|lia]).
  pose proof (Z_div_mod m' (Zpos my) ltac:(lia)) as Hd. destruct (Z.div_eucl _ _) as [q r]. nia.
Qed.

(** Dividing a non-negative number by a number of at least one gives no NaN. *)
Lemma num_div_nonneg x y : num_nonneg x -> num_ge_one y -> num_nonneg (num_div x y).
Proof.
  intros Hx Hy. destruct y as [| | |[] my ey]; try done.
  destruct x as [|[]| |[] mx ex]; try done. unfold num_div, SFdiv.
  pose proof (div_core_nonneg mx ex my ey) as Hq.
  destruct (SFdiv_core_binary _ _ _ _ _ _) as [[q e] l]. by apply round_nonneg.
Qed.

Lemma math_floor_within x k n : 0 <= k -> num_within x k -> math_floor x = Some n -> 0 <= n <= k.
Proof.
  intros Hk Hx. destruct x as [| | |[] m e]; cbn; try done; [intros [= <-]; lia|].
  destruct Hx as (_ & He & Hle). intros [= <-]. destruct (Z.leb_spec 0 e).
  - assert (e = 0) as -> by lia. cbn in *. lia.
  - pose proof (Z.pow_pos_nonneg 2 (- e) ltac:(lia) ltac:(lia)). split; [apply Z.div_pos; lia|].
    apply Z.div_le_upper_bound; lia.
Qed.

(** [Math.max(0, b)] of a number that is not NaN, and [Math.min(1, y)] of a non-negative one. *)
Lemma math_max_zero_nonneg b :
  match b with S754_nan => False | S754_finite _ m _ => Zpos m < 2 ^ 53 | _ => True end -> num_nonneg (math_max num_zero b).
Proof. by destruct b as [[]|[]| |[] m e]. Qed.

Lemma num_of_Z_nonneg z : 0 <= z -> num_nonneg (num_of_Z z).
Proof.
  intros Hz. destruct z as [|p|p]; [done| |lia]. unfold num_of_Z, binary_normalize, binary_round.
  destruct (shl_align p 0 _) as [mz ez]. by apply round_nonneg.
Qed.

Lemma math_min_one_aux c y :
  Zpos c = 2 ^ 52 -> num_nonneg y -> num_within (math_min (S754_finite false c (-52)) y) 1.
Proof.
  intros Hc. assert (num_within (S754_finite false c (-52)) 1) as H1.
  { cbn [num_within]. rewrite Hc. change (- (-52)) with 52. lia. }
  destruct y as [[]|[]| |[] m e]; try done. intros Hm. cbn [num_nonneg] in Hm.
  unfold math_min. cbn [is_nan orb]. unfold num_ltb, SFltb, SFcompare.
  rewrite (Z.compare_antisym (-52) e). destruct (Z.compare_spec (-52) e) as [<-|Hlt|Hgt]; cbn [CompOpp].
  - change (Pos.compare_cont Eq c m) with (Pos.compare c m). change (Pos.compare_cont Eq m c) with (Pos.compare m c).
    destruct (Pos.compare_spec c m), (Pos.compare_spec m c); try done.
    all: cbn [num_within]; change (- (-52)) with 52; lia.
  - done.
  - cbn [num_within]. split_and!; [done|lia|]. rewrite Z.mul_1_l.
    assert (2 ^ 53 <= 2 ^ (- e)) by (apply Z.pow_le_mono_r; lia). lia.
Qed.

Lemma math_min_one_within y : num_nonneg y -> num_within (math_min num_one y) 1.
Proof. change num_one with (S754_finite false 4503599627370496 (-52)). by apply math_min_one_aux. Qed.
