(* ===== verification/Json.v ===== *)
(** * Json: JSON values as JavaScript sees them

    [json] is a value [JSON.parse] can return.  A JavaScript expression over such values can also
    be undefined, so the value of an expression is a [jsval]: [None] is undefined.  The file
    defines the operators the workers apply to such values: truthiness, property
    access and conversion to a string, with the type errors they throw. *)
From S2P Require Import Prelude JsCore Number.

(** ** [Number.prototype.toString] *)

Module NumberText.

(** The binary64 number nearest to [s * 10^t], for [s > 0]. *)
Definition of_decimal (s t : Z) : number :=
  if 0 <=? t then num_of_Z (s * 10 ^ t)
  else let '(q, e, l) := SFdiv_core_binary 53 1024 s 0 (10 ^ (- t)) 0 in
       binary_round_aux 53 1024 false q e l.

Definition num_eqb (x y : number) : bool :=
  match x, y with
  | S754_finite s m e, S754_finite s' m' e' => Bool.eqb s s' && Pos.eqb m m' && (e =? e')
  | _, _ => false
  end.

(** The number of decimal digits of [p / q] before the point (negative for leading zeros after it):
    the [n] with [10^(n-1) <= p/q < 10^n]. *)
Definition dec_exponent (p q : Z) : Z :=
  let len z := Z.of_nat (length (dec_digits (Z.to_nat (Z.log2 z) + 1) z)) in
  let n := len p - len q in
  if (if 0 <=? n then p <? q * 10 ^ n else p * 10 ^ (- n) <? q) then n else n + 1.

(** The nearest and the second nearest [s] of at most [k] digits to [p / q * 10^(k-n)]. *)
Definition candidates (p q n k : Z) : list Z :=
  let '(a, b) := if 0 <=? k - n then (p * 10 ^ (k - n), q) else (p, q * 10 ^ (n - k)) in
  let f := a / b in
  if 2 * (a mod b) <? b then [f; f + 1] else [f + 1; f].

(** The shortest digits [s] ([k] of them) that read back as [x], with their exponent [n]; a candidate
    [10^k] is [10^(k-1)] one exponent higher.  Seventeen digits are always enough. *)
Fixpoint shortest (fuel : nat) (k : Z) (x : number) (p q n : Z) : Z * Z * Z :=
  match fuel with
  | O => (0, k, n)
  | S f =>
      match filter (fun s => (10 ^ (k - 1) <=? s) && num_eqb (of_decimal s (n - k)) x)
                   (candidates p q n k) with
      | s :: _ => if s =? 10 ^ k then (10 ^ (k - 1), k, n + 1) else (s, k, n)
      | [] => shortest f (k + 1) x p q n
      end
  end.

(** The layout of ECMA-262 Number::toString for digits [s] ([k] of them) and exponent [n]. *)
Definition layout (s k n : Z) : list ascii :=
  let ds := dec_digits 20 s in
  let zeros z := replicate (Z.to_nat z) "0"%char in
  if (k <=? n) && (n <=? 21) then ds ++ zeros (n - k)
  else if (0 <? n) && (n <=? 21) then take (Z.to_nat n) ds ++ "."%char :: drop (Z.to_nat n) ds
  else if (-6 <? n) && (n <=? 0) then "0"%char :: "."%char :: zeros (- n) ++ ds
  else let e := n - 1 in
       take 1 ds ++ (if k =? 1 then [] else "."%char :: drop 1 ds)
       ++ "e"%char :: (if e <? 0 then "-"%char else "+"%char) :: dec_digits 20 (Z.abs e).

Definition to_string (x : number) : string :=
  match x with
  | S754_nan => "NaN"
  | S754_infinity s => if s then "-Infinity" else "Infinity"
  | S754_zero _ => "0"
  | S754_finite sign m e =>
      let '(p, q) := if 0 <=? e then (Zpos m * 2 ^ e, 1) else (Zpos m, 2 ^ (- e)) in
      let '(s, k, n) := shortest 17 1 (S754_finite false m e) p q (dec_exponent p q) in
      of_chars ((if sign then ["-"%char] else []) ++ layout s k n)
  end.
End NumberText.

(** ** Values *)

#[warnings="-register-all"]
Inductive json : Type :=
| JNull
| JBool (b : bool)
| JNum (n : number)
| JStr (s : string)
| JArr (l : list json)
| JObj (fields : list (string * json)).

Abbreviation jsval := (option json).

Definition truthy_json (j : json) : bool :=
  match j with
  | JNull => false
  | JBool b => b
  | JNum n => match n with S754_zero _ | S754_nan => false | _ => true end
  | JStr s => negb (String.eqb s "")
  | JArr _ | JObj _ => true
  end.

Definition truthy (v : jsval) : bool := match v with Some j => truthy_json j | None => false end.

(** The value of an own property; of a repeated name the last one counts. *)
Fixpoint field (name : string) (fs : list (string * json)) : jsval :=
  match fs with
  | [] => None
  | (n, v) :: fs' => match field name fs' with
                     | Some v' => Some v'
                     | None => if String.eqb n name then Some v else None
                     end
  end.

(** [v.name], for a name no built-in prototype has. *)
Definition get_prop (v : jsval) (name : string) : res jsval :=
  match v with
  | None => Err "TypeError: Cannot read properties of undefined"
  | Some JNull => Err "TypeError: Cannot read properties of null"
  | Some (JObj fs) => Ok (field name fs)
  | Some _ => Ok None
  end.

(** ToString.  An array joins its elements with commas, null giving the empty string; an object
    converts through its [toString], which a parsed object can only replace by something not callable. *)
Fixpoint json_to_string (j : json) : res string :=
  match j with
  | JNull => Ok "null"%string
  | JBool b => Ok (if b then "true" else "false")%string
  | JNum n => Ok (NumberText.to_string n)
  | JStr s => Ok s
  | JArr l =>
      (fix join (first : bool) (l : list json) : res string :=
         match l with
         | [] => Ok ""%string
         | x :: l' =>
             match (match x with JNull => Ok ""%string | _ => json_to_string x end) with
             | Err e => Err e
             | Ok s => match join false l' with
                       | Err e => Err e
                       | Ok t => Ok (String.append (if first then "" else ",") (String.append s t))%string
                       end
             end
         end) true l
  | JObj fs => match field "toString" fs with
               | Some _ => Err "TypeError: Cannot convert object to primitive value"
               | None => Ok "[object Object]"%string
               end
  end.

Definition to_string (v : jsval) : res string :=
  match v with Some j => json_to_string j | None => Ok "undefined"%string end.

(** [v || d] for a default [d]. *)
Definition or_else (v : jsval) (d : json) : json :=
  match v with Some j => if truthy_json j then j else d | None => d end.

Example to_string_decimal : NumberText.to_string (num_div (num_of_Z 1) (num_of_Z 3)) = "0.3333333333333333"%string.
Proof. vm_compute. reflexivity. Qed.

Example to_string_small : NumberText.to_string (num_div (num_of_Z 1) (num_of_Z (10 ^ 7))) = "1e-7"%string.
Proof. vm_compute. reflexivity. Qed.

Example to_string_integer : NumberText.to_string (num_of_Z 1763164800000) = "1763164800000"%string.
Proof. vm_compute. reflexivity. Qed.

Example to_string_array :
  json_to_string (JArr [JNum (num_of_Z 5); JNull; JArr [JStr "a"; JBool true]]) = Ok "5,,a,true"%string.
Proof. vm_compute. reflexivity. Qed.
