(* ===== verification/JsonText.v ===== *)
(** * JsonText: [JSON.stringify] and [JSON.parse]

    An executable model of the two functions on texts whose code units are below 256.  Objects keep the property
    order of JavaScript: array indexes first, ascending, then the other names as they were added. *)
From S2P Require Import Prelude JsCore Number Json.
Local Open Scope Z_scope.

(** ** Objects *)

(** An array index: the canonical decimal of a number below 2^32 - 1. *)
Definition array_index (name : string) : option Z :=
  match parse_int 10 (chars name) with
  | Some n => if (0 <=? n) && (n <? 2 ^ 32 - 1) && String.eqb (string_of_Z n) name then Some n else None
  | None => None
  end.

Definition before (a b : string) : bool :=
  match array_index a, array_index b with
  | Some m, Some n => m <? n
  | Some _, None => true
  | _, _ => false
  end.

Fixpoint insert_field (name : string) (v : json) (fs : list (string * json)) : list (string * json) :=
  match fs with
  | [] => [(name, v)]
  | (n, w) :: fs' => if before name n then (name, v) :: fs else (n, w) :: insert_field name v fs'
  end.

(** [obj[name] = v]: replace in place, or add at the place the property order gives the name. *)
Definition set_field (name : string) (v : json) (fs : list (string * json)) : list (string * json) :=
  match field name fs with
  | Some _ => map (fun f => if String.eqb f.1 name then (name, v) else f) fs
  | None => insert_field name v fs
  end.

Definition drop_field (name : string) (fs : list (string * json)) : list (string * json) :=
  List.filter (fun f => negb (String.eqb f.1 name)) fs.

(** ** [JSON.stringify] *)

Definition quote : ascii := ascii_of_nat 34.
Definition backslash : ascii := ascii_of_nat 92.

Definition escape (c : ascii) : list ascii :=
  let n := code c in
  if n =? 34 then [backslash; quote]
  else if n =? 92 then [backslash; backslash]
  else if n =? 8 then [backslash; "b"%char]
  else if n =? 12 then [backslash; "f"%char]
  else if n =? 10 then [backslash; "n"%char]
  else if n =? 13 then [backslash; "r"%char]
  else if n =? 9 then [backslash; "t"%char]
  else if n <? 32 then backslash :: chars "u00" ++ hex_byte n
  else [c].

Definition stringify_string (s : string) : list ascii := quote :: mjoin (map escape (chars s)) ++ [quote].

(** The separator before an item and before the closing bracket, for an indent of [ind] spaces at a depth. *)
Definition newline (ind depth : nat) : list ascii :=
  match ind with O => [] | _ => ascii_of_nat 10 :: replicate (ind * depth) " "%char end.

Fixpoint stringify_at (ind depth : nat) (j : json) : list ascii :=
  match j with
  | JNull => chars "null"
  | JBool b => chars (if b then "true" else "false")
  | JNum n => match json_number n with Some n => chars (NumberText.to_string n) | None => chars "null" end
  | JStr s => stringify_string s
  | JArr [] => chars "[]"
  | JArr l =>
      "["%char ::
      (fix items (first : bool) (l : list json) : list ascii :=
         match l with
         | [] => []
         | x :: l' => (if first then [] else [","%char]) ++ newline ind (S depth) ++ stringify_at ind (S depth) x
                      ++ items false l'
         end) true l ++ newline ind depth ++ ["]"%char]
  | JObj [] => chars "{}"
  | JObj fs =>
      "{"%char ::
      (fix items (first : bool) (l : list (string * json)) : list ascii :=
         match l with
         | [] => []
         | (n, x) :: l' => (if first then [] else [","%char]) ++ newline ind (S depth) ++ stringify_string n
                           ++ ":"%char :: (match ind with O => [] | _ => [" "%char] end)
                           ++ stringify_at ind (S depth) x ++ items false l'
         end) true fs ++ newline ind depth ++ ["}"%char]
  end.

(** [JSON.stringify(j)] and [JSON.stringify(j, null, 2)]. *)
Definition stringify (j : json) : string := of_chars (stringify_at 0 0 j).
Definition stringify_pretty (j : json) : string := of_chars (stringify_at 2 0 j).

(** ** [JSON.parse] *)

Definition is_ws (c : ascii) : bool := let n := code c in (n =? 32) || (n =? 9) || (n =? 10) || (n =? 13).

Fixpoint skip_ws (l : list ascii) : list ascii :=
  match l with c :: l' => if is_ws c then skip_ws l' else l | [] => [] end.

Fixpoint expect (s l : list ascii) : option (list ascii) :=
  match s, l with
  | [], _ => Some l
  | c :: s', d :: l' => if code c =? code d then expect s' l' else None
  | _ :: _, [] => None
  end.

(** The longest prefix of digits, as numbers, and the rest. *)
Fixpoint digits (l : list ascii) : list Z * list ascii :=
  match l with
  | c :: l' => if is_digit c then let '(ds, r) := digits l' in (code c - 48 :: ds, r) else ([], l)
  | [] => ([], [])
  end.

Definition parse_fraction (l : list ascii) : option (list Z * list ascii) :=
  match l with
  | c :: l' => if code c =? 46 then match digits l' with ([], _) => None | (ds, r) => Some (ds, r) end
               else Some ([], l)
  | [] => Some ([], [])
  end.

Definition parse_exponent (l : list ascii) : option (Z * list ascii) :=
  match l with
  | c :: l' =>
      if (code c =? 101) || (code c =? 69) then
        let '(sign, l'') := match l' with
                            | d :: r => if code d =? 45 then (-1, r) else if code d =? 43 then (1, r) else (1, l')
                            | [] => (1, [])
                            end in
        match digits l'' with ([], _) => None | (ds, r) => Some (sign * from_be 10 ds, r) end
      else Some (0, l)
  | [] => Some (0, [])
  end.

Definition parse_number (l : list ascii) : option (json * list ascii) :=
  let '(neg, l) := match l with c :: l' => if code c =? 45 then (true, l') else (false, l) | [] => (false, []) end in
  match digits l with
  | ([], _) | (0 :: _ :: _, _) => None
  | (int, l1) =>
      match parse_fraction l1 with
      | None => None
      | Some (frac, l2) =>
          match parse_exponent l2 with
          | None => None
          | Some (e, l3) =>
              let s := from_be 10 (int ++ frac) in
              let x := if s =? 0 then num_zero else NumberText.of_decimal s (e - Z.of_nat (length frac)) in
              Some (JNum (if neg then SFopp x else x), l3)
          end
      end
  end.

Definition hex_value (l : list ascii) : option Z :=
  match l with
  | [a; b; c; d] =>
      match digit_value 16 a, digit_value 16 b, digit_value 16 c, digit_value 16 d with
      | Some a, Some b, Some c, Some d => Some (((a * 16 + b) * 16 + c) * 16 + d)
      | _, _, _, _ => None
      end
  | _ => None
  end.

(** The rest of a string after its opening quote. *)
Fixpoint parse_string (fuel : nat) (l : list ascii) (acc : list ascii) : option (string * list ascii) :=
  match fuel, l with
  | S f, c :: l' =>
      let n := code c in
      if n =? 34 then Some (of_chars (rev acc), l')
      else if n <? 32 then None
      else if n =? 92 then
        match l' with
        | d :: r =>
            let m := code d in
            if (m =? 34) || (m =? 92) || (m =? 47) then parse_string f r (d :: acc)
            else if m =? 98 then parse_string f r (chr 8 :: acc)
            else if m =? 102 then parse_string f r (chr 12 :: acc)
            else if m =? 110 then parse_string f r (chr 10 :: acc)
            else if m =? 114 then parse_string f r (chr 13 :: acc)
            else if m =? 116 then parse_string f r (chr 9 :: acc)
            else if m =? 117 then
              match hex_value (take 4 r) with
              | Some u => if u <? 256 then parse_string f (drop 4 r) (chr u :: acc) else None
              | None => None
              end
            else None
        | [] => None
        end
      else parse_string f l' (c :: acc)
  | _, _ => None
  end.

Definition parse_name (l : list ascii) : option (string * list ascii) :=
  match skip_ws l with
  | c :: l' => if code c =? 34 then
                 match parse_string (S (length l')) l' [] with
                 | Some (n, r) => match skip_ws r with d :: r' => if code d =? 58 then Some (n, r') else None | [] => None end
                 | None => None
                 end
               else None
  | [] => None
  end.

(** A value and the text after it.  Every nested call consumes a character or is called on the text of one element,
    so twice the length of the text is fuel enough. *)
Fixpoint parse_value (fuel : nat) (l : list ascii) : option (json * list ascii) :=
  match fuel with
  | O => None
  | S f =>
      match skip_ws l with
      | [] => None
      | c :: l' =>
          let n := code c in
          if n =? 110 then option_map (pair JNull) (expect (chars "null") (c :: l'))
          else if n =? 116 then option_map (pair (JBool true)) (expect (chars "true") (c :: l'))
          else if n =? 102 then option_map (pair (JBool false)) (expect (chars "false") (c :: l'))
          else if n =? 34 then option_map (fun p => (JStr p.1, p.2)) (parse_string (S (length l')) l' [])
          else if n =? 91 then
            match skip_ws l' with
            | d :: r => if code d =? 93 then Some (JArr [], r) else parse_items f l' []
            | [] => None
            end
          else if n =? 123 then
            match skip_ws l' with
            | d :: r => if code d =? 125 then Some (JObj [], r) else parse_members f l' []
            | [] => None
            end
          else parse_number (c :: l')
      end
  end
with parse_items (fuel : nat) (l : list ascii) (acc : list json) : option (json * list ascii) :=
  match fuel with
  | O => None
  | S f =>
      match parse_value f l with
      | Some (x, r) =>
          match skip_ws r with
          | c :: r' => if code c =? 44 then parse_items f r' (acc ++ [x])
                       else if code c =? 93 then Some (JArr (acc ++ [x]), r') else None
          | [] => None
          end
      | None => None
      end
  end
with parse_members (fuel : nat) (l : list ascii) (acc : list (string * json)) : option (json * list ascii) :=
  match fuel with
  | O => None
  | S f =>
      match parse_name l with
      | Some (n, r) =>
          match parse_value f r with
          | Some (x, r) =>
              match skip_ws r with
              | c :: r' => if code c =? 44 then parse_members f r' (set_field n x acc)
                           else if code c =? 125 then Some (JObj (set_field n x acc), r') else None
              | [] => None
              end
          | None => None
          end
      | None => None
      end
  end.

(** [None]: a SyntaxError. *)
Definition parse (s : string) : option json :=
  match parse_value (2 * length (chars s) + 2) (chars s) with
  | Some (j, r) => match skip_ws r with [] => Some j | _ => None end
  | None => None
  end.

(** ** Facts on objects *)

Lemma field_None name fs : field name fs = None <-> ~ In name (map fst fs).
Proof.
  induction fs as [|[n v] fs IH]; cbn [field map In fst]; [tauto|].
  destruct (field name fs) as [w|].
  - split; [done|]. intros Hn. exfalso. assert (~ In name (map fst fs)) as Hn' by tauto. apply IH in Hn'. done.
  - destruct (String.eqb_spec n name) as [Hnn|Hne]; [subst n|]; [split; [done|tauto]|]. split; [|done]. intros _ [?|?]; [done|]. by apply IH.
Qed.

Lemma field_map_set name v fs n :
  In name (map fst fs) ->
  field n (map (fun f => if String.eqb f.1 name then (name, v) else f) fs) = if String.eqb n name then Some v else field n fs.
Proof.
  induction fs as [|[m w] fs IH]; intros Hin; [done|]. cbn [map fst]. destruct (List.in_dec String.string_dec name (map fst fs)) as [Hin'|Hn].
  - specialize (IH Hin').
    destruct (String.eqb_spec m name) as [Hm|Hne]; cbn [field]; rewrite IH; destruct (String.eqb_spec n name) as [Hn|Hnn]; try done.
    by rewrite (proj2 (String.eqb_neq name n)), (proj2 (String.eqb_neq m n)) by congruence.
  - destruct Hin as [Heq|Hin]; [|done]. cbn [fst] in Heq. subst m. rewrite String.eqb_refl. cbn [field].
    assert (map (fun f : string * json => if String.eqb f.1 name then (name, v) else f) fs = fs) as ->.
    { clear -Hn. induction fs as [|[m w] fs IH]; [done|]. cbn [map fst In] in *.
      rewrite (proj2 (String.eqb_neq m name)) by tauto. by rewrite IH by tauto. }
    destruct (String.eqb_spec n name) as [Hnn|Hne].
    + subst n. by rewrite (proj2 (field_None name fs) Hn), String.eqb_refl.
    + rewrite (proj2 (String.eqb_neq name n)) by congruence. done.
Qed.

Lemma field_insert name v fs n :
  field name fs = None -> field n (insert_field name v fs) = if String.eqb n name then Some v else field n fs.
Proof.
  intros Hnone. induction fs as [|[m w] fs IH]; cbn [insert_field field].
  - destruct (String.eqb_spec name n) as [->|Hne]; [by rewrite String.eqb_refl|].
    by rewrite (proj2 (String.eqb_neq n name)) by congruence.
  - assert (field name fs = None /\ m <> name) as [Hf Hm].
    { cbn [field] in Hnone. destruct (field name fs); [done|]. split; [done|]. by destruct (String.eqb_spec m name). }
    case_test; cbn [field].
    + destruct (String.eqb_spec n name) as [Hnn|Hne]; [subst n|].
      * rewrite Hf, (proj2 (String.eqb_neq m name) Hm). by rewrite String.eqb_refl.
      * destruct (field n fs); [done|]. destruct (String.eqb m n); [done|].
        by rewrite (proj2 (String.eqb_neq name n)) by congruence.
    + rewrite (IH Hf). destruct (String.eqb_spec n name) as [Hnn|Hne]; [by subst n|]. done.
Qed.

(** Setting a property gives it the value and leaves the others, on every object. *)
Lemma field_set name v fs n : field n (set_field name v fs) = if String.eqb n name then Some v else field n fs.
Proof.
  unfold set_field. destruct (field name fs) eqn:E; [|by apply field_insert].
  apply field_map_set. destruct (List.in_dec String.string_dec name (map fst fs)) as [|Hn]; [done|]. apply field_None in Hn. congruence.
Qed.

Lemma field_drop name fs n : field n (drop_field name fs) = if String.eqb n name then None else field n fs.
Proof.
  unfold drop_field. induction fs as [|[m w] fs IH]; cbn [List.filter field fst]; [by destruct (String.eqb n name)|].
  destruct (String.eqb_spec m name) as [->|Hm]; cbn [negb field]; rewrite IH.
  - destruct (String.eqb_spec n name) as [Hnn|Hne]; [by subst n|]. destruct (field n fs); [done|].
    by rewrite (proj2 (String.eqb_neq name n)) by congruence.
  - destruct (String.eqb_spec n name) as [Hnn|Hne]; [subst n; by rewrite (proj2 (String.eqb_neq m name) Hm)|done].
Qed.

(** ** Examples *)

Example parse_stringify_object :
  let j := JObj [("1", JNum (num_of_Z 5)); ("method", JStr "get_info");
                 ("params", JArr [JNull; JBool true; JNum (num_div (num_of_Z 1) (num_of_Z 8))]); ("id", JObj [])]%string in
  parse (stringify j) = Some j /\ parse (stringify_pretty j) = Some j.
Proof. vm_compute. split; reflexivity. Qed.

Example parse_order :
  parse (of_chars (map (fun c => if code c =? 39 then quote else c) (chars "{'b':1,'1':2,'b':[3.50e1,-0]}")))
  = Some (JObj [("1", JNum (num_of_Z 2)); ("b", JArr [JNum (num_of_Z 35); JNum (S754_zero true)])]%string).
Proof. vm_compute. reflexivity. Qed.

Example parse_refuses :
  Forall (fun s => parse s = None) [""; "01"; "[1,]"; "nul"; "1 2"; "{}}"; "+1"; ".5"; "1."]%string.
Proof. repeat constructor. Qed.
