(* ===== verification/Http.v ===== *)
(** * Http: the Fetch API objects the workers build

    Headers are a map from lower-case names to values, as a [Headers] object keeps them.  A
    [Response] constructor throws for a status outside 200..599 and for a body on a
    null-body status.  Requests carry what [new URL(req.url)] gives for their address. *)
From S2P Require Import Prelude JsCore.

Definition lower_char (c : ascii) : ascii := if is_upper c then chr (code c + 32) else c.
Definition to_lower (s : string) : string := of_chars (map lower_char (chars s)).

Abbreviation headers := (gmap string string).

(** [h.set(k, v)] and [h.get(k)]. *)
Definition header_set (h : headers) (k v : string) : headers := <[to_lower k := v]> h.
Definition header_get (h : headers) (k : string) : option string := h !! to_lower k.

(** Headers from an object literal, or from [Object.entries] set one after another. *)
Definition headers_set_all (l : list (string * string)) (h : headers) : headers :=
  fold_left (fun h kv => header_set h kv.1 kv.2) l h.

(** [h.get(k) || d] *)
Definition header_or (h : headers) (k d : string) : string :=
  match header_get h k with
  | Some v => if String.eqb v "" then d else v
  | None => d
  end.

Record response (B : Type) : Type := mk_response {
  status : Z;
  resp_headers : headers;
  resp_body : option B;
}.
Arguments mk_response {B} status resp_headers resp_body.
Arguments status {B} _.
Arguments resp_headers {B} _.
Arguments resp_body {B} _.

Definition null_body_status (s : Z) : bool := (s =? 101) || (s =? 204) || (s =? 205) || (s =? 304).

(** [new Response(body, { status, headers })] *)
Definition new_response {B} (body : option B) (st : Z) (h : headers) : res (response B) :=
  if (st <? 200) || (599 <? st) then Err "RangeError: status out of range"
  else match body with
       | Some _ => if null_body_status st then Err "TypeError: Response with null body status cannot have body"
                   else Ok (mk_response st h body)
       | None => Ok (mk_response st h None)
       end.

(** Setting a list of headers gives each listed name its last listed value and leaves the others. *)
Lemma headers_set_all_other l h k :
  Forall (fun kv => to_lower kv.1 <> k) l -> headers_set_all l h !! k = h !! k.
Proof.
  revert h. induction l as [|[n v] l IH]; intros h H; [done|].
  apply Forall_cons in H as [Hn H]. cbn [headers_set_all fold_left]. fold (headers_set_all l (header_set h n v)).
  rewrite IH by done. by apply lookup_insert_ne.
Qed.

Lemma headers_set_all_in l h k v :
  NoDup (map (fun kv => to_lower kv.1) l) -> In (k, v) l -> headers_set_all l h !! to_lower k = Some v.
Proof.
  revert h. induction l as [|[n w] l IH]; intros h Hd Hin; [done|].
  cbn [map] in Hd. apply NoDup_cons in Hd as [Hn Hd]. cbn [headers_set_all fold_left].
  fold (headers_set_all l (header_set h n w)). destruct Hin as [[= -> ->]|Hin]; [|by apply IH].
  rewrite headers_set_all_other; [by apply lookup_insert_eq|].
  apply Forall_forall. intros [n' w'] Hin' Heq. apply Hn. cbn [fst] in *.
  apply list_elem_of_In, in_map_iff. exists (n', w'). split; [by rewrite <- Heq|]. by apply list_elem_of_In.
Qed.

Lemma new_response_headers {B} (b : option B) st h r : new_response b st h = Ok r -> resp_headers r = h.
Proof. unfold new_response. repeat case_test; by intros [= <-]. Qed.

Lemma new_response_status {B} (b : option B) st h r : new_response b st h = Ok r -> status r = st.
Proof. unfold new_response. repeat case_test; by intros [= <-]. Qed.
