(* ===== verification/Effects.v ===== *)
(** * Effectful programs

    The workers are asynchronous JavaScript functions: they call services (a key-value store,
    [fetch], the edge cache, the clock, the random generator), each call can reject, and between
    two calls other requests run.  A handler is modelled as a [prog]: a tree of the calls it makes,
    whose continuation receives the answer or the rejection.

    - [bind], [call] and [catch] are [await] composition, an awaited call and [try]/[catch];
    - [paths] states what all paths of a program do: every call it makes satisfies [pre] as long as
      the answers satisfy [post], and its outcome satisfies [Q];
    - [exec] runs one program to its end against a service relation, recording the calls;
    - [pool_step] interleaves any number of running programs call by call, with new requests
      arriving and other writers acting at any time; [pool_safe] is the rely-guarantee rule;
    - [run] and [run_pool] execute programs and schedules against a handler function. *)
From S2P Require Import Prelude.
From stdpp Require Import relations.

Inductive prog {op : Type} (ret : op -> Type) (A : Type) : Type :=
| Ret (a : A)
| Throw (msg : string)
| Vis (o : op) (k : res (ret o) -> prog ret A).
Arguments Ret {op ret A} a.
Arguments Throw {op ret A} msg.
Arguments Vis {op ret A} o k.

Section Combinators.
Context {op : Type} {ret : op -> Type}.

Fixpoint bind {A B} (p : prog ret A) (f : A -> prog ret B) : prog ret B :=
  match p with
  | Ret a => f a
  | Throw e => Throw e
  | Vis o k => Vis o (fun r => bind (k r) f)
  end.

(** Code after a [try] block: the handler sees a throw of the block and nothing else. *)
Fixpoint catch {A} (p : prog ret A) (h : string -> prog ret A) : prog ret A :=
  match p with
  | Ret a => Ret a
  | Throw e => h e
  | Vis o k => Vis o (fun r => catch (k r) h)
  end.

Definition lift {A} (r : res A) : prog ret A :=
  match r with Ok a => Ret a | Err e => Throw e end.

Definition call (o : op) : prog ret (ret o) := Vis o lift.
End Combinators.

Notation "'let!' x := p 'in' k" := (bind p (fun x => k))
  (at level 10, x pattern, p at level 100, k at level 200) : glaciem_scope.
Notation "'do!' p 'in' k" := (bind p (fun _ => k))
  (at level 10, p at level 100, k at level 200) : glaciem_scope.

(** ** Running programs *)

Section Run.
Context {op : Type} {ret : op -> Type} {W : Type}.
Variable h : W -> forall o, res (ret o) * W.

Fixpoint run {A} (p : prog ret A) (w : W) : res A * W :=
  match p with
  | Ret a => (Ok a, w)
  | Throw e => (Err e, w)
  | Vis o k => let '(r, w') := h w o in run (k r) w'
  end.

Lemma run_bind {A B} (p : prog ret A) (f : A -> prog ret B) : forall w,
  run (bind p f) w = match run p w with (Ok a, w') => run (f a) w' | (Err e, w') => (Err e, w') end.
Proof.
  induction p as [a|e|o k IH]; intros w; cbn [run bind]; [done|done|]. destruct (h w o) as [r w']. apply IH.
Qed.

Lemma run_call o w : run (call o) w = h w o.
Proof. cbn [run call]. by destruct (h w o) as [[a|e] w']. Qed.

Lemma run_bind_call {B} o (f : ret o -> prog ret B) w :
  run (bind (call o) f) w = match h w o with (Ok a, w') => run (f a) w' | (Err e, w') => (Err e, w') end.
Proof. rewrite run_bind. by rewrite run_call. Qed.

Lemma run_lift {A} (r : res A) w : run (lift r) w = (r, w).
Proof. by destruct r. Qed.

(** The calls of that run. *)
Fixpoint run_trace {A} (p : prog ret A) (w : W) : list op :=
  match p with
  | Vis o k => let '(r, w') := h w o in o :: run_trace (k r) w'
  | _ => []
  end.

Definition run_step {A} (p : prog ret A) (w : W) : prog ret A * W :=
  match p with
  | Vis o k => let '(r, w') := h w o in (k r, w')
  | _ => (p, w)
  end.

(** A schedule names the program that makes the next call. *)
Fixpoint run_pool {A} (sched : list nat) (ps : list (prog ret A)) (w : W) : list (prog ret A) * W :=
  match sched with
  | [] => (ps, w)
  | i :: sched' =>
      match ps !! i with
      | Some p => let '(p', w') := run_step p w in run_pool sched' (<[i := p']> ps) w'
      | None => run_pool sched' ps w
      end
  end.
End Run.

(** ** All paths of a program *)

Section Paths.
Context {op : Type} {ret : op -> Type}.
Variable pre : op -> Prop.
Variable post : forall o, res (ret o) -> Prop.

Fixpoint paths {A} (Q : res A -> Prop) (p : prog ret A) : Prop :=
  match p with
  | Ret a => Q (Ok a)
  | Throw e => Q (Err e)
  | Vis o k => pre o /\ forall r, post o r -> paths Q (k r)
  end.

Lemma paths_mono {A} (Q Q' : res A -> Prop) p :
  (forall r, Q r -> Q' r) -> paths Q p -> paths Q' p.
Proof.
  intros HQ. induction p as [a|e|o k IH]; cbn [paths]; [apply HQ|apply HQ|].
  intros [Hp Hk]. split; [done|]. intros r Hr. by apply IH, Hk.
Qed.

Lemma paths_bind {A B} (Q : res B -> Prop) (p : prog ret A) (f : A -> prog ret B) :
  paths (fun r => match r with Ok a => paths Q (f a) | Err e => Q (Err e) end) p -> paths Q (bind p f).
Proof.
  induction p as [a|e|o k IH]; cbn [paths bind]; [done|done|].
  intros [Hp Hk]. split; [done|]. intros r Hr. by apply IH, Hk.
Qed.

Lemma paths_catch {A} (Q : res A -> Prop) (p : prog ret A) (h : string -> prog ret A) :
  paths (fun r => match r with Ok a => Q (Ok a) | Err e => paths Q (h e) end) p -> paths Q (catch p h).
Proof.
  induction p as [a|e|o k IH]; cbn [paths catch]; [done|done|].
  intros [Hp Hk]. split; [done|]. intros r Hr. by apply IH, Hk.
Qed.

Lemma paths_call o (Q : res (ret o) -> Prop) : pre o -> (forall r, post o r -> Q r) -> paths Q (call o).
Proof. intros Hp Hr. split; [done|]. intros [a|e] H; apply (Hr _ H). Qed.

Lemma paths_lift {A} (Q : res A -> Prop) r : Q r -> paths Q (lift (ret := ret) r).
Proof. by destruct r. Qed.
End Paths.

(** ** Interleaving *)

Section Pool.
Context {op : Type} {ret : op -> Type} {W A : Type}.
Variable answers : W -> forall o, res (ret o) -> W -> Prop.
(** What other writers of the services can do between two calls. *)
Variable others : W -> W -> Prop.
(** The programs new requests start. *)
Variable arrives : prog ret A -> Prop.

(** One program runs to its end, nothing else running; the trace lists its calls. *)
Inductive exec {B} : prog ret B -> W -> list op -> W -> res B -> Prop :=
| exec_ret b w : exec (Ret b) w [] w (Ok b)
| exec_throw e w : exec (Throw e) w [] w (Err e)
| exec_vis o k w r w1 tr w2 out :
    answers w o r w1 -> exec (k r) w1 tr w2 out -> exec (Vis o k) w (o :: tr) w2 out.

(** The weakest precondition of a run: [Q] of its outcome, its calls and the final state. *)
Fixpoint wp {B} (Q : res B -> list op -> W -> Prop) (p : prog ret B) (tr : list op) (w : W) : Prop :=
  match p with
  | Ret b => Q (Ok b) tr w
  | Throw e => Q (Err e) tr w
  | Vis o k => forall r w', answers w o r w' -> wp Q (k r) (tr ++ [o]) w'
  end.

Lemma wp_exec {B} (Q : res B -> list op -> W -> Prop) p w tr w' out :
  exec p w tr w' out -> forall tr0, wp Q p tr0 w -> Q out (tr0 ++ tr) w'.
Proof.
  induction 1 as [b w|e w|o k w r w1 tr w2 out Hr _ IH]; intros tr0 Hp; [by rewrite app_nil_r..|].
  rewrite cons_middle, app_assoc. by eapply IH, Hp.
Qed.

Lemma wp_mono {B} (Q Q' : res B -> list op -> W -> Prop) p :
  (forall r tr w, Q r tr w -> Q' r tr w) -> forall tr w, wp Q p tr w -> wp Q' p tr w.
Proof.
  intros HQ. induction p as [b|e|o k IH]; intros tr w; cbn [wp]; [apply HQ|apply HQ|].
  intros H r w' Hr. by apply IH, H.
Qed.

Lemma wp_bind {B C} (Q : res C -> list op -> W -> Prop) (p : prog ret B) f : forall tr w,
  wp (fun r tr w => match r with Ok b => wp Q (f b) tr w | Err e => Q (Err e) tr w end) p tr w ->
  wp Q (bind p f) tr w.
Proof.
  induction p as [b|e|o k IH]; intros tr w; cbn [wp bind]; [done|done|]. intros H r w' Hr. by apply IH, H.
Qed.

Lemma wp_true {B} (p : prog ret B) : forall tr w, wp (fun _ _ _ => True) p tr w.
Proof. induction p as [b|e|o k IH]; intros tr w; cbn [wp]; auto. Qed.

(** Code whose calls do not matter for what follows. *)
Lemma wp_skip {B C} (Q : res C -> list op -> W -> Prop) (p : prog ret B) f tr w :
  (forall e tr w, Q (Err e) tr w) -> (forall b tr w, wp Q (f b) tr w) -> wp Q (bind p f) tr w.
Proof.
  intros He Hf. apply wp_bind. eapply wp_mono; [|apply wp_true]. intros [b|e] tr1 w1 _; [apply Hf|apply He].
Qed.

Lemma wp_call o (Q : res (ret o) -> list op -> W -> Prop) tr w :
  (forall r w', answers w o r w' -> Q r (tr ++ [o]) w') -> wp Q (call o) tr w.
Proof. intros H [a|e] w' Hr; by apply H. Qed.

Lemma wp_lift {B} (Q : res B -> list op -> W -> Prop) r tr w : Q r tr w -> wp Q (lift r) tr w.
Proof. by destruct r. Qed.

(** The same without the calls. *)
Fixpoint ends {B} (Q : res B -> W -> Prop) (p : prog ret B) (w : W) : Prop :=
  match p with
  | Ret b => Q (Ok b) w
  | Throw e => Q (Err e) w
  | Vis o k => forall r w', answers w o r w' -> ends Q (k r) w'
  end.

Lemma ends_exec {B} (Q : res B -> W -> Prop) p w tr w' out : exec p w tr w' out -> ends Q p w -> Q out w'.
Proof. induction 1 as [b w|e w|o k w r w1 tr w2 out Hr _ IH]; cbn [ends]; [done|done|]. intros H. by apply IH, H. Qed.

Lemma ends_mono {B} (Q Q' : res B -> W -> Prop) p :
  (forall r w, Q r w -> Q' r w) -> forall w, ends Q p w -> ends Q' p w.
Proof.
  intros HQ. induction p as [b|e|o k IH]; intros w; cbn [ends]; [apply HQ|apply HQ|]. intros H r w' Hr. by apply IH, H.
Qed.

Lemma ends_bind {B D} (Q : res D -> W -> Prop) (p : prog ret B) f : forall w,
  ends (fun r w => match r with Ok b => ends Q (f b) w | Err e => Q (Err e) w end) p w -> ends Q (bind p f) w.
Proof. induction p as [b|e|o k IH]; intros w; cbn [ends bind]; [done|done|]. intros H r w' Hr. by apply IH, H. Qed.

Lemma ends_catch {B} (Q : res B -> W -> Prop) (p : prog ret B) h : forall w,
  ends (fun r w => match r with Ok b => Q (Ok b) w | Err e => ends Q (h e) w end) p w -> ends Q (catch p h) w.
Proof. induction p as [b|e|o k IH]; intros w; cbn [ends catch]; [done|done|]. intros H r w' Hr. by apply IH, H. Qed.

Lemma ends_call o (Q : res (ret o) -> W -> Prop) w :
  (forall r w', answers w o r w' -> Q r w') -> ends Q (call o) w.
Proof. intros H [a|e] w' Hr; by apply H. Qed.

Lemma ends_lift {B} (Q : res B -> W -> Prop) r w : Q r w -> ends Q (lift r) w.
Proof. by destruct r. Qed.

Inductive pool_step : W * list (prog ret A) -> W * list (prog ret A) -> Prop :=
| step_call w ps i o k r w' :
    ps !! i = Some (Vis o k) -> answers w o r w' ->
    pool_step (w, ps) (w', <[i := k r]> ps)
| step_arrive w ps p : arrives p -> pool_step (w, ps) (w, ps ++ [p])
| step_other w ps w' : others w w' -> pool_step (w, ps) (w', ps).

Variable I : W -> Prop.
Variable pre : op -> Prop.
Variable post : forall o, res (ret o) -> Prop.
Variable Q : res A -> Prop.

(** Rely-guarantee: if every call allowed by [pre] keeps the invariant and answers as [post] says, other
    writers keep it, and every arriving program is within [pre] on all its paths, then no interleaving
    breaks the invariant, and all programs stay within their specification. *)
Lemma pool_safe :
  (forall w o r w', I w -> pre o -> answers w o r w' -> I w' /\ post o r) ->
  (forall w w', I w -> others w w' -> I w') ->
  (forall p, arrives p -> paths pre post Q p) ->
  forall s s', rtc pool_step s s' ->
  I s.1 /\ Forall (paths pre post Q) s.2 -> I s'.1 /\ Forall (paths pre post Q) s'.2.
Proof.
  intros Ha Ho Hp s s' H. induction H as [|s1 s2 s3 Hs _ IH]; [done|].
  intros [Hi Hf]. apply IH. destruct Hs as [w ps i o k r w' Hk Hr|w ps p Hin|w ps w' Hw]; cbn [fst snd] in *.
  - pose proof (Forall_lookup_1 _ _ _ _ Hf Hk) as [Hpre Hpost].
    destruct (Ha _ _ _ _ Hi Hpre Hr) as [Hi' Hpo]. split; [done|].
    apply Forall_insert; [done|]. by apply Hpost.
  - split; [done|]. apply Forall_app. split; [done|]. apply Forall_singleton. by apply Hp.
  - split; [by eapply Ho|done].
Qed.

(** The same rule for one program run to its end. *)
Lemma exec_safe {B} (R : res B -> Prop) :
  (forall w o r w', I w -> pre o -> answers w o r w' -> I w' /\ post o r) ->
  forall p w tr w' out, exec p w tr w' out -> I w -> paths pre post R p -> I w' /\ R out /\ Forall pre tr.
Proof.
  intros Ha p w tr w' out H. induction H as [b w|e w|o k w r w1 tr w2 out Hr _ IH]; intros Hi Hp.
  - by repeat split.
  - by repeat split.
  - destruct Hp as [Hpre Hpost]. destruct (Ha _ _ _ _ Hi Hpre Hr) as [Hi1 Hpo].
    destruct (IH Hi1 (Hpost _ Hpo)) as (H1 & H2 & H3). split_and!; [done|done|by constructor].
Qed.
End Pool.

(** Executing with a handler function is a run of the relation it is. *)
Lemma run_exec {op} {ret : op -> Type} {W A} (h : W -> forall o, res (ret o) * W) (p : prog ret A) : forall w,
  exec (fun w o r w' => h w o = (r, w')) p w (run_trace h p w) (run h p w).2 (run h p w).1.
Proof.
  induction p as [a|m|o k IH]; intros w; cbn [run run_trace]; [constructor..|].
  destruct (h w o) as [r w'] eqn:E. by eapply exec_vis.
Qed.

(** Step into an awaited call. *)
Ltac ask :=
  lazymatch goal with
  | |- paths ?pre ?post _ (_ ?o) => apply (paths_call pre post o)
  | |- wp ?ans _ (_ ?o) _ _ => apply (wp_call ans o)
  end.
