(* ===== verification/Wordmine.v ===== *)
(** * Wordmine: the game worker (wordmine/src/worker.js)

    Handlers are programs over the worker's services: the WORDMINE key-value namespace, the
    clock, the two random generators, the Turnstile verification endpoint and the asset binding.

    The namespace holds texts.  Following the layout comment of the worker, a value is
    modelled by what its text denotes: a session, a claim or a faucet record (each a JSON
    text that [get(..., {type: 'json'})] parses back), or a plain text.  A handler that finds a record of the
    wrong kind under a key throws; the type invariant of WordmineSafety.v shows that
    sessions are always read as sessions. *)
From S2P Require Import Prelude JsCore Bytes Number Json Http Effects Words Grade.
Local Open Scope glaciem_scope.

(** ** Stored data *)

Record session : Type := mk_session {
  word : string;
  started_at : Z;
  guess_count : Z;
  won : bool;
  lost : bool;
  claimed : bool;
  reward : number;
}.

Inductive claim_status := Pending | Paid | Failed.

Record claim : Type := mk_claim {
  address : string;
  amount : number;
  amount_atomic : option Z;        (** [None]: null, for a number that is not finite *)
  cstatus : claim_status;
  created_at : Z;
  extra : list (string * json);    (** what the payout daemon adds: error, tx_hash, fee *)
}.

(** The daemon's balance record.  A missing or null balance is [None]; [unlocked] can be
    missing, null or a number; a missing [at] is [None] and a null one is 0, as in arithmetic. *)
Record faucet : Type := mk_faucet {
  f_balance : option number;
  f_unlocked : option (option number);
  f_at : option Z;
}.

Inductive kv_value : Type :=
| Session (s : session)
| Claim (c : claim)
| Faucet (f : faucet)
| Text (t : string).

(** ** Requests, environment and services *)

Inductive content : Type :=
| JsonBody (j : json)
| AssetBody (data : string).

Abbreviation resp := (response content).

Record request : Type := mk_request {
  method : string;
  pathname : string;
  search_params : list (string * string);
  req_headers : headers;
  req_json : option json;          (** [None]: the body is not JSON and [req.json()] rejects *)
}.

Record env : Type := mk_env {
  TURNSTILE_SECRET : option string;
  DISABLE_RATELIMIT : option string;
  FAUCET_ADDRESS : option string;
}.

Inductive op : Type :=
| KvGet (k : string)                            (** [env.WORDMINE.get] *)
| KvPut (k : string) (v : kv_value) (ttl : Z)   (** [env.WORDMINE.put] *)
| Now                                           (** [Date.now()] *)
| RandomIndex (n : Z)                           (** [Math.floor(Math.random() * n)] *)
| RandomBytes (n : nat)                         (** [crypto.getRandomValues] *)
| SiteVerify (secret token ip : string)         (** the Turnstile POST and its parsed answer *)
| Assets (r : request)                          (** [env.ASSETS.fetch] *)
| Warn (msg : string).                          (** [console.warn] *)

Definition ret (o : op) : Type :=
  match o with
  | KvGet _ => option kv_value
  | KvPut _ _ _ => unit
  | Now => Z
  | RandomIndex _ => Z
  | RandomBytes _ => list Z
  | SiteVerify _ _ _ => json
  | Assets _ => resp
  | Warn _ => unit
  end.

Definition await (o : op) : prog ret (ret o) := call o.

(** ** Helpers *)

Definition json_resp (body : json) (st : Z) : prog ret resp :=
  lift (new_response (Some (JsonBody body)) st (headers_set_all [("content-type", "application/json")]%string ∅)).

Definition err (msg : string) (st : Z) : prog ret resp := json_resp (JObj [("error", JStr msg)]%string) st.

Definition newId (prefix : string) : prog ret string :=
  let! a := await (RandomBytes 16) in
  Ret (prefix +:+ of_chars (mjoin (map hex_byte a))).

Definition clientIp (req : request) : string :=
  header_or (req_headers req) "cf-connecting-ip" (header_or (req_headers req) "x-forwarded-for" "unknown").

Definition maxReward (balance : option number) : number :=
  math_min num_one (num_div (math_max num_zero (to_number balance)) (num_of_Z 1000)).

Definition verifyTurnstile (token : jsval) (secret : option string) (ip : string) : prog ret bool :=
  if bool_decide (secret = Some "TEST"%string) then
    do! await (Warn "captcha is BYPASSED") in Ret true
  else match secret with
       | None | Some ""%string => do! await (Warn "TURNSTILE_SECRET is not set") in Ret false
       | Some secret =>
           if negb (truthy token) then Ret false
           else let! response := lift (to_string token) in
                let! j := await (SiteVerify secret response ip) in
                let! success := lift (get_prop (Some j) "success") in
                Ret (truthy success)
       end.

(** [{ balance, unlocked }]; a null [unlocked] is [None]. *)
Definition getFaucetBalance : prog ret (number * option number) :=
  let! rec := await (KvGet "faucet:balance") in
  match rec with
  | None => Ret (num_zero, Some num_zero)
  | Some (Faucet f) =>
      let! now := await Now in
      if match f_at f with Some at_ => 600000 <? now - at_ | None => false end
      then Ret (num_zero, Some num_zero)
      else let balance := default num_zero (f_balance f) in
           Ret (balance, match f_unlocked f with Some u => u | None => Some balance end)
  | Some _ => Throw "malformed faucet record"
  end.

(** [await req.json().catch(() => ({}))] *)
Definition body_of (req : request) : jsval := Some (default (JObj []) (req_json req)).

(** ** Routes *)

(** The seconds a taken slot still has to wait; [None] lets the player start. *)
Definition cooldown (taken : option kv_value) : prog ret (option Z) :=
  match taken with
  | Some (Text t) =>
      if String.eqb t "" then Ret None
      else match parse_int 10 (chars t) with
           | Some startedAt =>
               let! now := await Now in
               let remaining := Z.max 0 (3600 - (now - startedAt) / 1000) in
               Ret (if 0 <? remaining then Some remaining else None)
           | None => Ret None
           end
  | _ => Ret None   (** no entry, or a JSON object's text, which is not a number *)
  end.

Definition new_session (w : string) (now : Z) : session :=
  mk_session w now 0 false false false num_zero.

Definition handleStart (req : request) (e : env) : prog ret resp :=
  let ip := clientIp req in
  let rlKey := "ratelimit:" +:+ ip in
  let disabled := bool_decide (DISABLE_RATELIMIT e = Some "1"%string) in
  do! (if disabled then await (Warn "per-IP cooldown is OFF") else Ret tt) in
  let! taken := (if disabled then Ret None else await (KvGet rlKey)) in
  let! wait := cooldown taken in
  match wait with
  | Some remaining =>
      json_resp (JObj [("error", JStr "cooldown"); ("retry_after_seconds", JNum (num_of_Z remaining))]%string) 429
  | None =>
      let! captcha := lift (get_prop (body_of req) "captcha") in
      let! ok := verifyTurnstile captcha (TURNSTILE_SECRET e) ip in
      if negb ok then err "captcha_failed" 403
      else
        let! i := await (RandomIndex (Z.of_nat (length WORDS))) in
        let word := nth (Z.to_nat i) WORDS ""%string in
        let! id := newId "s_" in
        let! now := await Now in
        do! await (KvPut ("session:" +:+ id) (Session (new_session word now)) 1800) in
        do! (if disabled then Ret tt
             else let! now := await Now in
                  await (KvPut rlKey (Text (string_of_Z now)) 3600)) in
        json_resp (JObj [("session", JStr id)]%string) 200
  end.

Definition json_mark (m : mark) : json :=
  JStr (match m with Green => "green" | Yellow => "yellow" | Gray => "gray" end)%string.

Definition json_num (x : number) : json :=
  match json_number x with Some n => JNum n | None => JNull end.

(** The record after an accepted guess, before the reward is known: [guess_count], [won], [lost]. *)
Definition guessed (rec : session) (marks : list mark) : session :=
  let count := guess_count rec + 1 in
  let w := forallb (fun m => bool_decide (m = Green)) marks in
  let l := negb w && (6 <=? count) in
  mk_session (word rec) (started_at rec) count w l (claimed rec) (reward rec).

Definition with_reward (rec : session) (r : number) : session :=
  mk_session (word rec) (started_at rec) (guess_count rec) (won rec) (lost rec) (claimed rec) r.

Definition guess_ttl (rec : session) : Z := if won rec then 900 else if lost rec then 300 else 1800.

Definition guess_answer (rec : session) (marks : list mark) (r : number) (id : json) : json :=
  JObj ([("marks", JArr (map json_mark marks)); ("guesses", JNum (num_of_Z (guess_count rec)));
         ("won", JBool (won rec)); ("lost", JBool (lost rec))]%string
        ++ (if won rec then [("reward", json_num r); ("claim_token", id)]%string
            else if lost rec then [("answer", JStr (word rec))]%string else [])).

Definition handleGuess (req : request) (e : env) : prog ret resp :=
  let body := body_of req in
  let! id := lift (get_prop body "session") in
  let! g := lift (get_prop body "guess") in
  let! guess := lift (json_to_string (or_else g (JStr ""))) in
  let guess := to_upper guess in
  if negb (re_five_letters guess) then err "bad_guess" 400
  else if negb (truthy id) then err "no_session" 400
  else
    let! key := lift (to_string id) in
    let! rec := await (KvGet ("session:" +:+ key)) in
    match rec with
    | None => err "no_session" 410
    | Some (Session rec) =>
        if won rec || lost rec then err "already_finished" 410
        else
          let marks := grade guess (word rec) in
          let rec := guessed rec marks in
          let! r := (if won rec then
                       let! b := getFaucetBalance in
                       Ret (num_div (maxReward b.2) (num_of_Z (guess_count rec)))
                     else Ret num_zero) in
          let rec := if won rec then with_reward rec r else rec in
          do! await (KvPut ("session:" +:+ key) (Session rec) (guess_ttl rec)) in
          json_resp (guess_answer rec marks r (default JNull id)) 200
    | Some _ => Throw "malformed session"
    end.

Definition mark_claimed (rec : session) : session :=
  mk_session (word rec) (started_at rec) (guess_count rec) (won rec) (lost rec) true (reward rec).

Definition new_claim (addr : string) (rec : session) (now : Z) : claim :=
  mk_claim addr (reward rec) (math_floor (num_mul (reward rec) (num_of_Z (10 ^ 12)))) Pending now [].

Definition handleClaim (req : request) (e : env) : prog ret resp :=
  let body := body_of req in
  let! id := lift (get_prop body "token") in
  let! a := lift (get_prop body "address") in
  let! addr := lift (json_to_string (or_else a (JStr ""))) in
  let addr := trim addr in
  if negb (truthy id) then err "no_token" 400
  else if negb (re_address addr) then err "bad_address" 400
  else
    let! key := lift (to_string id) in
    let! rec := await (KvGet ("session:" +:+ key)) in
    match rec with
    | None => err "expired_or_unknown" 410
    | Some (Session rec) =>
        if negb (won rec) then err "not_won" 400
        else if claimed rec then err "already_claimed" 409
        else
          do! await (KvPut ("session:" +:+ key) (Session (mark_claimed rec)) 900) in
          let! claimId := newId "c_" in
          let! now := await Now in
          do! await (KvPut ("claim:" +:+ claimId) (Claim (new_claim addr rec now)) 86400) in
          let! now := await Now in
          do! await (KvPut ("queue:" +:+ string_of_Z now +:+ ":" +:+ claimId) (Text claimId) 86400) in
          json_resp (JObj [("claim_id", JStr claimId)]%string) 200
    | Some _ => Throw "malformed session"
    end.

Definition json_status (s : claim_status) : json :=
  JStr (match s with Pending => "pending" | Paid => "paid" | Failed => "failed" end)%string.

Definition claim_json (c : claim) : json :=
  JObj ([("address", JStr (address c)); ("amount", json_num (amount c));
         ("amount_atomic", match amount_atomic c with Some z => JNum (num_of_Z z) | None => JNull end);
         ("status", json_status (cstatus c)); ("created_at", JNum (num_of_Z (created_at c)))]%string
        ++ extra c).

(** [url.searchParams.get(name)]: the first value of the name. *)
Fixpoint search_get (name : string) (l : list (string * string)) : option string :=
  match l with
  | [] => None
  | (n, v) :: l' => if String.eqb n name then Some v else search_get name l'
  end.

Definition handleClaimStatus (req : request) (e : env) : prog ret resp :=
  match search_get "id" (search_params req) with
  | None | Some ""%string => err "no_id" 400
  | Some id =>
      let! rec := await (KvGet ("claim:" +:+ id)) in
      match rec with
      | None => err "unknown_claim" 404
      | Some (Claim c) => json_resp (claim_json c) 200
      | Some _ => Throw "malformed claim"
      end
  end.

Definition handleFaucet (req : request) (e : env) : prog ret resp :=
  let! b := getFaucetBalance in
  json_resp (JObj [("balance", json_num b.1);
                   ("unlocked", match b.2 with Some u => json_num u | None => JNull end);
                   ("address", JStr (default "" (FAUCET_ADDRESS e)));
                   ("max_reward", json_num (maxReward b.2))]%string) 200.

(** ** Security headers and the dispatcher *)

Definition CSP : string :=
  String.concat "; "
    ["default-src 'self'";
     "script-src 'self' https://challenges.cloudflare.com";
     "script-src-elem 'self' https://challenges.cloudflare.com";
     "style-src 'self' 'unsafe-inline'";
     "img-src 'self' data:";
     "frame-src https://challenges.cloudflare.com";
     "connect-src 'self' https://challenges.cloudflare.com";
     "font-src 'self'";
     "base-uri 'self'";
     "form-action 'self'";
     "frame-ancestors 'none'"]%string.

Definition SECURITY_HEADERS : list (string * string) :=
  [("content-security-policy", CSP);
   ("x-content-type-options", "nosniff");
   ("x-frame-options", "DENY");
   ("referrer-policy", "strict-origin-when-cross-origin");
   ("strict-transport-security", "max-age=63072000; includeSubDomains; preload");
   ("permissions-policy",
    "accelerometer=(), camera=(), geolocation=(), gyroscope=(), microphone=(), payment=(), usb=()")]%string.

Definition withSecurityHeaders (r : resp) : prog ret resp :=
  lift (new_response (resp_body r) (status r) (headers_set_all SECURITY_HEADERS (resp_headers r))).

Definition route (req : request) (e : env) : prog ret resp :=
  if String.eqb (pathname req) "/api/start" && String.eqb (method req) "POST" then handleStart req e
  else if String.eqb (pathname req) "/api/guess" && String.eqb (method req) "POST" then handleGuess req e
  else if String.eqb (pathname req) "/api/claim" && String.eqb (method req) "POST" then handleClaim req e
  else if String.eqb (pathname req) "/api/claim_status" && String.eqb (method req) "GET" then handleClaimStatus req e
  else if String.eqb (pathname req) "/api/faucet" && String.eqb (method req) "GET" then handleFaucet req e
  else await (Assets req).

Definition fetch (req : request) (e : env) : prog ret resp :=
  let! r := route req e in withSecurityHeaders r.
