(* ===== verification/WordmineServices.v ===== *)
(** * WordmineServices: the services behind the game worker

    The services are a typeclass.  [Services] gives their state, the answers they can give and
    the values ever stored under a key; [ServicesLaws] states what the worker relies on: a read
    returns some value stored under the key at some time (Cloudflare's store is only eventually consistent,
    so not necessarily the latest one), only a put stores a value, calls may fail at any time,
    and the random generator keeps to its range.  [StoreLaws] is the stronger contract of a store that is
    read and written from one place: a read sees the latest value unless it expired.

    [sim] is a concrete instance of all of them, on which scenarios are executed. *)
From S2P Require Import Prelude JsCore Bytes Number Json Http Effects Words Grade Wordmine.
From stdpp Require Import relations.
Local Open Scope Z_scope.
Local Open Scope glaciem_scope.

Class Services : Type := {
  world : Type;
  answers : world -> forall o, res (ret o) -> world -> Prop;
  written : world -> string -> kv_value -> Prop;
}.

Class ServicesLaws `{Services} : Prop := {
  get_written w k v w' : answers w (KvGet k) (Ok (Some v)) w' -> written w k v;
  only_put_writes w o r w' k v :
    answers w o r w' -> written w' k v -> written w k v \/ exists ttl, o = KvPut k v ttl;
  random_index_range w (n i : Z) w' : answers w (RandomIndex n) (Ok i) w' -> 0 < n -> 0 <= i < n;
}.

(** ** A store read and written from one place

    [store_step m o r m']: before the call some entries may have expired, leaving [c]; a read answers from
    [c]; a confirmed put has written; a rejected put may or may not have. *)
Abbreviation store := (gmap string kv_value).

Definition store_effect (c : store) (o : op) : res (ret o) -> store -> Prop :=
  match o with
  | KvGet k => fun r m' => m' = c /\ forall v, r = Ok v -> v = c !! k
  | KvPut k v _ => fun r m' => m' = <[k := v]> c \/ (m' = c /\ exists e, r = Err e)
  | _ => fun _ m' => m' = c
  end.

Definition store_step (m : store) (o : op) (r : res (ret o)) (m' : store) : Prop :=
  exists c, c ⊆ m /\ store_effect c o r m'.

Class StoreLaws `{Services} : Type := {
  contents : world -> store;
  answers_store w o r w' : answers w o r w' -> store_step (contents w) o r (contents w');
}.

(** ** A concrete instance *)

Record sim : Type := mk_sim {
  kv : store;
  history : list (string * kv_value);
  clock : Z;                 (** advances by a second at each reading *)
  draws : Z;                 (** random draws so far *)
  log : list string;
}.

Definition sim_put (w : sim) (k : string) (v : kv_value) : sim :=
  mk_sim (<[k := v]> (kv w)) ((k, v) :: history w) (clock w) (draws w) (log w).

Definition sim_answer (w : sim) (o : op) : res (ret o) * sim :=
  match o with
  | KvGet k => (Ok (kv w !! k), w)
  | KvPut k v _ => (Ok tt, sim_put w k v)
  | Now => (Ok (clock w), mk_sim (kv w) (history w) (clock w + 1000) (draws w) (log w))
  | RandomIndex n => (if 0 <? n then Ok (draws w mod n) else Err "RangeError",
                      mk_sim (kv w) (history w) (clock w) (draws w + 1) (log w))
  | RandomBytes n => (Ok (replicate n (draws w mod 256)),
                      mk_sim (kv w) (history w) (clock w) (draws w + 1) (log w))
  | SiteVerify _ _ _ => (Ok (JObj [("success", JBool true)]%string), w)
  | Assets _ => (Ok (mk_response 200 ∅ (Some (AssetBody "page"%string))), w)
  | Warn m => (Ok tt, mk_sim (kv w) (history w) (clock w) (draws w) (m :: log w))
  end.

(** The map holds only values of the history. *)
Definition sim_inv (w : sim) : Prop := forall k v, kv w !! k = Some v -> In (k, v) (history w).

#[export] Instance sim_services : Services := {|
  world := sim;
  answers w o r w' := sim_inv w /\ sim_answer w o = (r, w');
  written w k v := In (k, v) (history w);
|}.

Lemma sim_answer_inv w o : sim_inv w -> sim_inv (sim_answer w o).2.
Proof.
  intros Hw. destruct o; try done. intros k' v'. cbn. intros Hk.
  destruct (decide (k = k')) as [<-|Hne].
  - rewrite lookup_insert_eq in Hk. injection Hk as <-. by left.
  - rewrite lookup_insert_ne in Hk by done. right. by apply Hw.
Qed.

#[export] Instance sim_laws : ServicesLaws.
Proof.
  split.
  - intros w k v w' [Hw [= Hk <-]]. by apply Hw.
  - intros w o r w' k v [Hw Ha] Hin. destruct o; injection Ha as <- <-; auto.
    cbn in Hin. destruct Hin as [[= <- <-]|Hin]; eauto.
  - intros w n i w' [Hw Ha] Hn. cbn in Ha. rewrite (proj2 (Z.ltb_lt 0 n) Hn) in Ha.
    injection Ha as <- _. by apply Z.mod_pos_bound.
Qed.

#[export] Instance sim_store : StoreLaws.
Proof.
  refine {| contents := (kv : world -> store) |}.
  intros w o r w' [_ Ha]. exists (kv w). split; [done|].
  destruct o; injection Ha as <- <-; cbn; auto. split; [done|]. by intros v [= <-].
Defined.

(** Executing on the instance is a run of the relational semantics. *)
Lemma sim_run_exec {A} (p : prog ret A) : forall w,
  sim_inv w ->
  exec answers p w (run_trace sim_answer p w) (run sim_answer p w).2 (run sim_answer p w).1 /\
  sim_inv (run sim_answer p w).2.
Proof.
  induction p as [a|m|o k IH]; intros w Hw; cbn [run run_trace]; [by split; [constructor|]..|].
  pose proof (sim_answer_inv w o Hw) as Hw'. destruct (sim_answer w o) as [r w'] eqn:E.
  destruct (IH r w' Hw') as [Htr Hi]. split; [|done]. by eapply exec_vis.
Qed.

Lemma sim_pool_steps {A} others (arrives : prog ret A -> Prop) sched : forall ps w ps' w',
  run_pool sim_answer sched ps w = (ps', w') -> sim_inv w ->
  rtc (pool_step answers others arrives) (w, ps) (w', ps').
Proof.
  induction sched as [|i sched IH]; intros ps w ps' w' E Hw; cbn [run_pool] in E.
  - injection E as <- <-. apply rtc_refl.
  - destruct (ps !! i) as [p|] eqn:Ep; [|by apply IH].
    destruct p as [a|m|o k]; cbn [run_step] in E.
    + rewrite list_insert_id in E by done. by apply IH.
    + rewrite list_insert_id in E by done. by apply IH.
    + pose proof (sim_answer_inv w o Hw) as Hw1. destruct (sim_answer w o) as [r w1] eqn:Ea.
      eapply rtc_l; [by eapply step_call|]. by apply IH.
Qed.

(** Requests served one after another: their answers, their calls and the final state. *)
Fixpoint sim_serve (e : env) (reqs : list request) (w : sim) : list (res resp) * list op * sim :=
  match reqs with
  | [] => ([], [], w)
  | req :: reqs' =>
      let p := fetch req e in
      let '(rs, tr, w') := sim_serve e reqs' (run sim_answer p w).2 in
      ((run sim_answer p w).1 :: rs, run_trace sim_answer p w ++ tr, w')
  end.

Definition post_request (path : string) (body : json) : request := mk_request "POST" path [] ∅ (Some body).
Definition demo_env : env := mk_env (Some "TEST"%string) None None.
Definition empty_sim : sim := mk_sim ∅ [] 1700000000000 0 [].
Definition start_request : request := post_request "/api/start" (JObj []).
Definition guess_request (id guess : string) : request :=
  post_request "/api/guess" (JObj [("session", JStr id); ("guess", JStr guess)]%string).
Definition claim_request (id addr : string) : request :=
  post_request "/api/claim" (JObj [("token", JStr id); ("address", JStr addr)]%string).
Definition demo_address : string := String.append "R" (of_chars (replicate 96 "1"%char)).

(** The session identifier the instance gives to a game started as its [n]th draw. *)
Definition demo_id (n : Z) : string := "s_" +:+ of_chars (mjoin (map hex_byte (replicate 16 n))).
