(* ===== verification/WordmineSafety.v ===== *)
(** * WordmineSafety: what every entry of the game's store satisfies

    Under the laws of WordmineServices.v every session ever stored is well typed and every claim is for at
    most one coin, for any number of requests interleaved in any order, with stale reads, lost
    writes and other writers. *)
From S2P Require Import Prelude JsCore Bytes Number Json Http Effects Words Grade Wordmine WordmineServices.
From stdpp Require Import relations.
Local Open Scope Z_scope.
Local Open Scope glaciem_scope.

#[local] Opaque WORDS.

(** ** Well-typed entries *)

(** A number a JSON text can denote. *)
Definition json_number_ok (x : number) : Prop :=
  match x with S754_nan => False | S754_finite _ m _ => Zpos m < 2 ^ 53 | _ => True end.

Record session_ok (s : session) : Prop := {
  ok_word : In (word s) WORDS;
  ok_count : 0 <= guess_count s <= 6;
  ok_won : won s = true -> 1 <= guess_count s /\ lost s = false;
  ok_lost : lost s = true -> guess_count s = 6;
  ok_open : won s = false -> lost s = false -> guess_count s < 6;
  ok_claimed : claimed s = true -> won s = true;
  ok_reward : num_within (reward s) 1;
  ok_unearned : won s = false -> reward s = num_zero;
}.

Record claim_ok (c : claim) : Prop := {
  ok_address : re_address (address c) = true;
  ok_amount : num_within (amount c) 1;
  ok_atomic : exists z, amount_atomic c = Some z /\ 0 <= z <= 10 ^ 12;
}.

Record faucet_ok (f : faucet) : Prop := {
  ok_balance : forall b, f_balance f = Some b -> json_number_ok b;
  ok_unlocked : forall u, f_unlocked f = Some (Some u) -> json_number_ok u;
}.

(** The layout of the namespace. *)
Record entry_ok (k : string) (v : kv_value) : Prop := {
  ok_session_key : String.prefix "session:" k = true -> exists s, v = Session s /\ session_ok s;
  ok_claim_key : String.prefix "claim:" k = true -> exists c, v = Claim c /\ claim_ok c;
  ok_faucet_key : k = "faucet:balance"%string -> exists f, v = Faucet f /\ faucet_ok f;
}.

(** What the worker guarantees of its calls and relies on in the answers. *)
Definition call_ok (o : op) : Prop :=
  match o with KvPut k v _ => entry_ok k v | _ => True end.

Definition answer_ok (o : op) : res (ret o) -> Prop :=
  match o with
  | KvGet k => fun r => forall v, r = Ok (Some v) -> entry_ok k v
  | RandomIndex n => fun r => forall i : Z, r = Ok i -> 0 < n -> 0 <= i < n
  | _ => fun _ => True
  end.

(** ** Keys *)

Lemma prefix_app s t : String.prefix s (s +:+ t) = true.
Proof.
  induction s as [|c s IH]; [by destruct t|]. change (String c s +:+ t) with (String c (s +:+ t)).
  cbn [String.prefix]. destruct (Ascii.ascii_dec c c); [done|contradiction].
Qed.

Lemma entry_session k s : session_ok s -> entry_ok ("session:" +:+ k) (Session s).
Proof. intros H. split; cbn; [|done|done]. intros _. by exists s. Qed.

Lemma entry_claim k c : claim_ok c -> entry_ok ("claim:" +:+ k) (Claim c).
Proof. intros H. split; cbn; [done| |done]. intros _. by exists c. Qed.

Lemma entry_ratelimit k t : entry_ok ("ratelimit:" +:+ k) (Text t).
Proof. by split. Qed.

Lemma entry_queue k t : entry_ok ("queue:" +:+ k) (Text t).
Proof. by split. Qed.

Lemma read_session k v : entry_ok ("session:" +:+ k) v -> exists s, v = Session s /\ session_ok s.
Proof. intros H. apply (ok_session_key _ _ H). apply (prefix_app "session:"). Qed.

Lemma read_claim k v : entry_ok ("claim:" +:+ k) v -> exists c, v = Claim c /\ claim_ok c.
Proof. intros H. apply (ok_claim_key _ _ H). apply (prefix_app "claim:"). Qed.

(** ** Rewards *)

Lemma maxReward_within b : (forall x, b = Some x -> json_number_ok x) -> num_within (maxReward b) 1.
Proof.
  intros H. unfold maxReward. apply math_min_one_within, num_div_nonneg.
  - destruct b as [x|]; cbn [to_number default]; [|done].
    by apply math_max_zero_nonneg, H.
  - vm_compute. done.
Qed.

Lemma small_ge_one g : 1 <= g <= 6 -> num_ge_one (num_of_Z g).
Proof.
  intros H. assert (g = 1 \/ g = 2 \/ g = 3 \/ g = 4 \/ g = 5 \/ g = 6) as Hg by lia.
  destruct Hg as [->|[->|[->|[->|[->| ->]]]]]; vm_compute; done.
Qed.

Lemma reward_within b g :
  (forall x, b = Some x -> json_number_ok x) -> 1 <= g <= 6 ->
  num_within (num_div (maxReward b) (num_of_Z g)) 1.
Proof.
  intros Hb Hg. apply num_div_within; [done|by apply maxReward_within|by apply small_ge_one].
Qed.

(** ** Sessions stay well typed *)

Lemma new_session_ok i now :
  0 <= i < Z.of_nat (length WORDS) -> session_ok (new_session (nth (Z.to_nat i) WORDS ""%string) now).
Proof.
  intros Hi. split; cbn; try done; try lia. apply nth_In. lia.
Qed.

Lemma guessed_ok s g b :
  session_ok s -> won s || lost s = false ->
  (forall x, b = Some x -> json_number_ok x) ->
  let s' := guessed s (grade g (word s)) in
  session_ok (if won s' then with_reward s' (num_div (maxReward b) (num_of_Z (guess_count s'))) else s').
Proof.
  intros Hs Hopen Hb. apply orb_false_iff in Hopen as [Hw Hl].
  pose proof (ok_open _ Hs Hw Hl) as Hlt. pose proof (ok_count _ Hs) as Hc.
  assert (claimed s = false) as Hcl.
  { destruct (claimed s) eqn:E; [|done]. apply (ok_claimed _ Hs) in E. congruence. }
  unfold guessed. destruct (forallb _ (grade g (word s))) eqn:E; cbn [won negb andb].
  - split; cbn; try done; try lia; [apply (ok_word _ Hs)|apply reward_within; [done|lia]].
  - split; cbn; try done; try lia; try congruence; try (by intros; apply Hs).
    all: destruct (Z.leb_spec 6 (guess_count s + 1)); intros; try done; lia.
Qed.

Lemma mark_claimed_ok s : session_ok s -> won s = true -> session_ok (mark_claimed s).
Proof. intros Hs Hw. split; cbn; try done; apply Hs. Qed.

Lemma new_claim_ok a s now : session_ok s -> re_address a = true -> claim_ok (new_claim a s now).
Proof.
  intros Hs Ha. pose proof (ok_reward _ Hs) as Hr. split; cbn [address amount amount_atomic new_claim]; [done|done|].
  assert (num_within (num_mul (reward s) (num_of_Z (10 ^ 12))) (10 ^ 12)) as Hm.
  { apply num_mul_within; [done|done|]. vm_compute. done. }
  assert (exists z, math_floor (num_mul (reward s) (num_of_Z (10 ^ 12))) = Some z) as [z Hz].
  { destruct (num_mul _ _) as [| | |[] ? ?]; try done; by eexists. }
  exists z. split; [done|]. by apply (math_floor_within (num_mul (reward s) (num_of_Z (10 ^ 12)))).
Qed.

(** ** Every handler keeps to the layout *)

Section Handlers.
Abbreviation keeps := (paths call_ok answer_ok).

Ltac walk :=
  repeat first
    [ done
    | progress (cbn [bind paths lift])
    | apply paths_bind
    | apply paths_lift
    | match goal with |- paths _ _ _ (await _) => idtac end; ask; [try done|intros [?|?] ?]
    | case_test ].

Lemma json_resp_keeps j st : keeps (fun _ => True) (json_resp j st).
Proof. unfold json_resp. by apply paths_lift. Qed.

Lemma newId_keeps prefix : keeps (fun _ => True) (newId prefix).
Proof. unfold newId. walk. Qed.

Lemma verifyTurnstile_keeps token secret ip : keeps (fun _ => True) (verifyTurnstile token secret ip).
Proof. unfold verifyTurnstile. walk. Qed.

Lemma cooldown_keeps taken : keeps (fun _ => True) (cooldown taken).
Proof. unfold cooldown. walk. Qed.

Lemma getFaucetBalance_keeps :
  keeps (fun r => forall b x, r = Ok b -> b.2 = Some x -> json_number_ok x) getFaucetBalance.
Proof.
  assert (json_number_ok num_zero) as Hz by done.
  unfold getFaucetBalance. apply paths_bind; ask; [done|]. intros [v|e] H; [|done].
  destruct v as [v|]; [|by intros ?? [= <-] [= <-]].
  destruct (ok_faucet_key _ _ (H v eq_refl) eq_refl) as (f & -> & Hf).
  apply paths_bind; ask; [done|]. intros [now|e] _; [|done]. cbn [bind].
  destruct (match f_at f with Some _ => _ | None => _ end); [by intros ?? [= <-] [= <-]|].
  intros b x [= <-]. cbn [snd]. destruct (f_unlocked f) as [u|] eqn:Eu.
  - intros ->. by apply (ok_unlocked _ Hf).
  - intros [= <-]. destruct (f_balance f) eqn:Eb; cbn [default]; [by apply (ok_balance _ Hf)|done].
Qed.

Lemma handleStart_keeps req e : keeps (fun _ => True) (handleStart req e).
Proof.
  unfold handleStart. apply paths_bind. eapply paths_mono with (Q := fun _ => True); [intros [u|m] _|by case_test; walk].
  2: done.
  apply paths_bind. eapply paths_mono with (Q := fun _ => True); [intros [taken|m] _; [|done]|case_test; walk].
  apply paths_bind. eapply paths_mono; [intros [wait|m] _; [|done]|apply cooldown_keeps].
  destruct wait as [remaining|]; [apply json_resp_keeps|].
  apply paths_bind, paths_lift. destruct (get_prop _ _) as [captcha|m]; [|done].
  apply paths_bind. eapply paths_mono; [intros [ok|m] _; [|done]|apply verifyTurnstile_keeps].
  destruct ok; cbn [negb]; [|apply json_resp_keeps].
  apply paths_bind; ask; [done|]. intros [i|m] Hi; [|done].
  apply paths_bind. eapply paths_mono; [intros [id|m] _; [|done]|apply newId_keeps].
  apply paths_bind; ask; [done|]. intros [now|m] _; [|done].
  apply paths_bind; ask; [|intros [[]|m] _; [|done]].
  { apply entry_session, new_session_ok, Hi; [done|]. rewrite length_WORDS. lia. }
  apply paths_bind. eapply paths_mono with (Q := fun _ => True); [intros [u2|m] _; [apply json_resp_keeps|done]|].
  case_test; [done|]. apply paths_bind; ask; [done|]. intros [now2|m] _; [|done].
  ask; [apply entry_ratelimit|done].
Qed.

Lemma handleGuess_keeps req e : keeps (fun _ => True) (handleGuess req e).
Proof.
  unfold handleGuess. apply paths_bind, paths_lift. destruct (get_prop _ _) as [id|m]; [|done].
  apply paths_bind, paths_lift. destruct (get_prop _ _) as [g|m]; [|done].
  apply paths_bind, paths_lift. destruct (json_to_string _) as [guess|m]; [|done].
  case_test; [apply json_resp_keeps|]. case_test; [apply json_resp_keeps|].
  apply paths_bind, paths_lift. destruct (to_string id) as [key|m]; [|done].
  apply paths_bind; ask; [done|]. intros [v|m] Hv; [|done]. destruct v as [v|]; [|apply json_resp_keeps].
  destruct (read_session _ _ (Hv v eq_refl)) as (s & -> & Hs).
  destruct (won s || lost s) eqn:Hopen; [apply json_resp_keeps|].
  pose proof (fun b Hb => guessed_ok s (to_upper guess) b Hs Hopen Hb) as Hok. cbv zeta in Hok.
  set (s' := guessed s (grade (to_upper guess) (word s))) in *.
  apply paths_bind. destruct (won s').
  - apply paths_bind. eapply paths_mono; [|apply getFaucetBalance_keeps]. intros [b|m] Hb; [|done]. cbn [paths].
    apply paths_bind; ask; [|intros [[]|m] _; [apply json_resp_keeps|done]].
    apply entry_session, Hok. intros x. by apply Hb.
  - cbn [paths]. apply paths_bind; ask; [|intros [[]|m] _; [apply json_resp_keeps|done]].
    apply entry_session, (Hok None). done.
Qed.

Lemma handleClaim_keeps req e : keeps (fun _ => True) (handleClaim req e).
Proof.
  unfold handleClaim. apply paths_bind, paths_lift. destruct (get_prop _ _) as [id|m]; [|done].
  apply paths_bind, paths_lift. destruct (get_prop _ _) as [a|m]; [|done].
  apply paths_bind, paths_lift. destruct (json_to_string _) as [addr|m]; [|done].
  case_test; [apply json_resp_keeps|].
  destruct (re_address (trim addr)) eqn:Ha; [|apply json_resp_keeps]. cbn [negb].
  apply paths_bind, paths_lift. destruct (to_string id) as [key|m]; [|done].
  apply paths_bind; ask; [done|]. intros [v|m] Hv; [|done]. destruct v as [v|]; [|apply json_resp_keeps].
  destruct (read_session _ _ (Hv v eq_refl)) as (s & -> & Hs).
  destruct (won s) eqn:Hw; [|apply json_resp_keeps]. cbn [negb].
  destruct (claimed s); [apply json_resp_keeps|].
  apply paths_bind; ask; [by apply entry_session, mark_claimed_ok|]. intros [[]|m] _; [|done].
  apply paths_bind. eapply paths_mono; [intros [claimId|m] _; [|done]|apply newId_keeps].
  apply paths_bind; ask; [done|]. intros [now|m] _; [|done].
  apply paths_bind; ask; [by apply entry_claim, new_claim_ok|]. intros [[]|m] _; [|done].
  apply paths_bind; ask; [done|]. intros [now2|m] _; [|done].
  apply paths_bind; ask; [apply entry_queue|]. intros [[]|m] _; [apply json_resp_keeps|done].
Qed.

Lemma handleClaimStatus_keeps req e : keeps (fun _ => True) (handleClaimStatus req e).
Proof. unfold handleClaimStatus, err, json_resp. walk. Qed.

Lemma handleFaucet_keeps req e : keeps (fun _ => True) (handleFaucet req e).
Proof.
  unfold handleFaucet. apply paths_bind. eapply paths_mono; [|apply getFaucetBalance_keeps].
  intros [b|m] _; [apply json_resp_keeps|done].
Qed.

Lemma fetch_keeps req e : keeps (fun _ => True) (fetch req e).
Proof.
  unfold fetch. apply paths_bind. eapply paths_mono with (Q := fun _ => True).
  { intros [r|m] _; [unfold withSecurityHeaders; by apply paths_lift|done]. }
  unfold route. repeat case_test.
  - apply handleStart_keeps.
  - apply handleGuess_keeps.
  - apply handleClaim_keeps.
  - apply handleClaimStatus_keeps.
  - apply handleFaucet_keeps.
  - by ask.
Qed.
End Handlers.

(** ** The store under any interleaving *)

Section Safety.
Context `{ServicesLaws}.

Definition store_ok (w : world) : Prop := forall k v, written w k v -> entry_ok k v.

(** The payout daemon and operators also write to the namespace; whatever they do, the worker only relies
    on their entries following the layout. *)
Definition other_writers (w w' : world) : Prop := forall k v, written w' k v -> written w k v \/ entry_ok k v.

Definition a_request (p : prog ret resp) : Prop := exists req e, p = fetch req e.

Lemma call_keeps_store w o r w' :
  store_ok w -> call_ok o -> answers w o r w' -> store_ok w' /\ answer_ok o r.
Proof.
  intros Hw Ho Ha. split.
  - intros k v Hk. destruct (only_put_writes _ _ _ _ _ _ Ha Hk) as [Hk'|[ttl ->]]; [by apply Hw|done].
  - destruct o; try done; cbn.
    + intros v ->. apply Hw. by eapply get_written.
    + intros i ->. by eapply random_index_range.
Qed.

(** C1: at every point of every interleaving of requests, each value ever stored in the namespace is as the
    layout says: under a session key a session with a word of the list, at most six guesses, consistent
    flags and a reward between 0 and 1 that is zero unless the game was won; under a claim key a claim with a
    valid address whose amount is between 0 and 1 coin, 10^12 atomic units.  Reads may be stale, calls may
    fail or take effect without confirming, and other writers may write entries that follow the layout. *)
Theorem store_always_ok w0 w ps :
  store_ok w0 -> rtc (pool_step answers other_writers a_request) (w0, []) (w, ps) -> store_ok w.
Proof.
  intros Hw0 Hs.
  refine (proj1 (pool_safe answers other_writers a_request store_ok call_ok answer_ok (fun _ => True)
                   call_keeps_store _ _ _ _ Hs (conj Hw0 (Forall_nil_2 _)))).
  - intros w1 w2 H1 H2 k v Hk. destruct (H2 k v Hk) as [Hk'|Hk']; [by apply H1|done].
  - intros p (req & e & ->). apply fetch_keeps.
Qed.
End Safety.

Lemma store_always_ok_witness :
  exists w ps, rtc (pool_step answers other_writers a_request) (empty_sim, []) (w, ps) /\
               length (history w) = 2%nat /\ store_ok w.
Proof.
  destruct (run_pool sim_answer (replicate 8 0%nat) [fetch start_request demo_env] empty_sim) as [ps w] eqn:E.
  exists w, ps.
  assert (rtc (pool_step answers other_writers a_request) (empty_sim, []) (w, ps)) as Hs.
  { eapply rtc_l; [apply (step_arrive _ _ _ _ _ (fetch start_request demo_env)); by eexists _, _|].
    by apply (sim_pool_steps _ _ (replicate 8 0%nat) _ _ _ _ E). }
  split; [done|]. split.
  - apply (f_equal (fun r => length (history r.2))) in E. cbn [snd] in E. rewrite <- E. vm_compute. reflexivity.
  - apply (@store_always_ok sim_services sim_laws empty_sim w ps); [|done]. intros k v [].
Defined.
