(* ===== verification/WordmineLedger.v ===== *)
(** * WordmineLedger: claims are backed by games

    When requests are served one after another on a store read and written from one place
    ([StoreLaws]), the number of claims ever enqueued is at most the number of games started: the [claimed] flag of a
    session is set before its claim is written, and no handler clears it.  Entries may expire
    at any time and any call may fail. *)
From S2P Require Import Prelude JsCore Bytes Number Json Http Effects Words Grade Wordmine WordmineServices.
Local Open Scope Z_scope.
Local Open Scope glaciem_scope.

#[local] Opaque WORDS.

(** ** Counting *)

Definition is_claim (o : op) : bool := match o with KvPut _ (Claim _) _ => true | _ => false end.

(** The claims a trace of calls enqueues. *)
Definition claims (tr : list op) : nat := length (List.filter is_claim tr).

Definition unclaimed_entry (v : kv_value) : bool :=
  match v with Session s => negb (claimed s) | _ => false end.

(** The sessions in the store that a claim can still be made on. *)
Definition unclaimed (m : store) : nat := count_if unclaimed_entry m.

Definition is_start (req : request) : bool :=
  String.eqb (pathname req) "/api/start" && String.eqb (method req) "POST".

Lemma claims_snoc tr o : claims (tr ++ [o]) = (claims tr + if is_claim o then 1 else 0)%nat.
Proof. unfold claims. rewrite List.filter_app, length_app. cbn. by destruct (is_claim o). Qed.

(** ** Handlers keep the account *)

Section Ledger.
Context `{Services, !StoreLaws}.

(** The account: claims made and claims still possible, within a budget. *)
Definition within (b : nat) (tr : list op) (w : world) : Prop := (claims tr + unclaimed (contents w) <= b)%nat.

Definition is_put (o : op) : bool := match o with KvPut _ _ _ => true | _ => false end.

(** Code that writes nothing. *)
Definition reads {A} (p : prog ret A) : Prop :=
  paths (fun o => is_put o = false) (fun _ _ => True) (fun _ => True) p.

Lemma read_store w o r w' : answers w o r w' -> is_put o = false -> contents w' ⊆ contents w.
Proof.
  intros Ha Ho. destruct (answers_store _ _ _ _ Ha) as (c & Hc & He).
  destruct o; try done; cbn in He; destruct_and?; by subst.
Qed.

Lemma put_store w k v ttl r w' :
  answers w (KvPut k v ttl) r w' ->
  exists c, c ⊆ contents w /\ (contents w' = <[k := v]> c \/ (contents w' = c /\ exists e, r = Err e)).
Proof. intros Ha. destruct (answers_store _ _ _ _ Ha) as (c & Hc & He). by exists c. Qed.

Lemma reads_wp {A} (p : prog ret A) : reads p -> forall tr w,
  wp answers (fun _ tr' w' => claims tr' = claims tr /\ contents w' ⊆ contents w) p tr w.
Proof.
  induction p as [a|m|o k IH]; cbn [reads wp paths]; [done|done|]. intros [Ho Hk] tr w r w' Ha.
  eapply wp_mono; [|by apply IH, Hk]. intros r' tr' w'' [Hc Hs]. cbn beta in *. split.
  - rewrite Hc, claims_snoc. destruct o; try done; cbn; lia.
  - transitivity (contents w'); [done|]. by apply (read_store _ _ _ _ Ha).
Qed.

Lemma reads_within {A} (p : prog ret A) b tr w :
  reads p -> within b tr w -> wp answers (fun _ tr w => within b tr w) p tr w.
Proof.
  intros Hp Hw. eapply wp_mono; [|by apply reads_wp]. intros r tr' w' [Hc Hs].
  apply (count_if_mono unclaimed_entry) in Hs. unfold within, unclaimed in *. lia.
Qed.

Ltac reading := repeat first [done | progress (cbn [bind paths lift negb]) | apply paths_bind | apply paths_lift
  | match goal with |- paths _ _ _ (await _) => ask; [done|intros [?|?] _] end | case_test ].

Lemma json_resp_reads j st : reads (json_resp j st).
Proof. unfold reads, json_resp. reading. Qed.

Lemma newId_reads prefix : reads (newId prefix).
Proof. unfold reads, newId. reading. Qed.

Lemma cooldown_reads taken : reads (cooldown taken).
Proof. unfold reads, cooldown. reading. Qed.

Lemma verifyTurnstile_reads token secret ip : reads (verifyTurnstile token secret ip).
Proof. unfold reads, verifyTurnstile. reading. Qed.

Lemma getFaucetBalance_reads : reads getFaucetBalance.
Proof. unfold reads, getFaucetBalance. reading. Qed.

Lemma handleClaimStatus_reads req e : reads (handleClaimStatus req e).
Proof. unfold reads, handleClaimStatus, err, json_resp. reading. Qed.

Lemma handleFaucet_reads req e : reads (handleFaucet req e).
Proof.
  unfold reads, handleFaucet. apply paths_bind. eapply paths_mono; [|apply getFaucetBalance_reads].
  intros [b|m] _; [apply json_resp_reads|done].
Qed.

(** A put of an entry that is neither a claim nor claimable keeps the account. *)
Lemma put_within b tr w k v ttl r w' :
  within b tr w -> answers w (KvPut k v ttl) r w' -> unclaimed_entry v = false ->
  within (b + if is_claim (KvPut k v ttl) then 1 else 0) (tr ++ [KvPut k v ttl]) w'.
Proof.
  intros Hw Ha Hv. unfold within, unclaimed in *. rewrite claims_snoc.
  destruct (put_store _ _ _ _ _ _ Ha) as (c & Hc & Hs). apply (count_if_mono unclaimed_entry) in Hc.
  pose proof (count_if_insert unclaimed_entry c k v Hv). destruct Hs as [->|[-> _]]; lia.
Qed.

(** Rewriting a session read before: keeping its flag keeps the account, setting it frees one claim. *)
Lemma put_session_within b tr w0 w k s s' ttl r w' :
  within b tr w0 -> contents w ⊆ contents w0 -> contents w0 !! k = Some (Session s) ->
  (claimed s = true -> claimed s' = true) ->
  answers w (KvPut k (Session s') ttl) r w' -> within b (tr ++ [KvPut k (Session s') ttl]) w'.
Proof.
  intros Hw Hs Hk Hcl Ha. unfold within, unclaimed in *. rewrite claims_snoc. cbn [is_claim].
  destruct (put_store _ _ _ _ _ _ Ha) as (c & Hc & He). pose proof (count_if_mono unclaimed_entry c (contents w0) ltac:(by etransitivity)).
  destruct He as [->|[-> _]]; [|lia]. destruct (claimed s) eqn:E.
  - pose proof (count_if_insert unclaimed_entry c k (Session s') ltac:(cbn; by rewrite Hcl)). lia.
  - pose proof (count_if_replace unclaimed_entry c (contents w0) k (Session s') (Session s) ltac:(by etransitivity) Hk ltac:(cbn; by rewrite E)).
    lia.
Qed.

Lemma put_claimed_within b tr w k s s' ttl w' :
  within b tr w -> contents w !! k = Some (Session s) -> claimed s = false -> claimed s' = true ->
  answers w (KvPut k (Session s') ttl) (Ok tt) w' ->
  exists b', b = S b' /\ within b' (tr ++ [KvPut k (Session s') ttl]) w'.
Proof.
  intros Hw Hk Hcl Hcl' Ha. unfold within, unclaimed in *. rewrite claims_snoc. cbn [is_claim].
  destruct (put_store _ _ _ _ _ _ Ha) as (c & Hc & He). destruct He as [->|[_ [? [=]]]].
  pose proof (count_if_replace unclaimed_entry c (contents w) k (Session s') (Session s) Hc Hk ltac:(cbn; by rewrite Hcl)) as Hr.
  cbn [unclaimed_entry] in Hr. rewrite Hcl' in Hr. cbn [negb] in Hr. exists (b - 1)%nat. lia.
Qed.

(** A read of the store, and what it tells about the contents afterwards. *)
Lemma get_within b tr w k r w' :
  within b tr w -> answers w (KvGet k) r w' ->
  within b (tr ++ [KvGet k]) w' /\ forall v, r = Ok (Some v) -> contents w' !! k = Some v.
Proof.
  intros Hw Ha. split.
  - pose proof (count_if_mono unclaimed_entry _ _ (read_store _ _ _ _ Ha eq_refl)). unfold within, unclaimed in *.
    rewrite claims_snoc. cbn. lia.
  - destruct (answers_store _ _ _ _ Ha) as (c & _ & Hm & Hv). intros v ->. rewrite Hm. symmetry. by apply Hv.
Qed.

Lemma other_within b tr w o r w' :
  within b tr w -> answers w o r w' -> is_put o = false -> within b (tr ++ [o]) w'.
Proof.
  intros Hw Ha Ho. pose proof (count_if_mono unclaimed_entry _ _ (read_store _ _ _ _ Ha Ho)). unfold within, unclaimed in *.
  rewrite claims_snoc. destruct o; try done; cbn; lia.
Qed.

Lemma within_more b tr w : within b tr w -> within (b + 1) tr w.
Proof. unfold within, unclaimed. lia. Qed.

Lemma wp_reads_bind {A B} (Q : res B -> list op -> world -> Prop) (p : prog ret A) f b tr w :
  reads p -> within b tr w -> (forall e tr w, within b tr w -> Q (Err e) tr w) ->
  (forall a tr w, within b tr w -> wp answers Q (f a) tr w) -> wp answers Q (bind p f) tr w.
Proof.
  intros Hp Hw He Hf. apply wp_bind. eapply wp_mono; [|by apply reads_within].
  intros [a|e] tr1 w1 H1; [by apply Hf|by apply He].
Qed.

(** Step over a part that only reads, keeping the account [Hw]. *)
Ltac over L := eapply wp_reads_bind; [first [apply L|unfold reads; reading]|eassumption|by intros; auto using within_more|].

Lemma json_resp_within j st b tr w : within b tr w -> wp answers (fun _ tr w => within b tr w) (json_resp j st) tr w.
Proof. apply reads_within, json_resp_reads. Qed.

Lemma start_put_within key id s disabled rlKey b tr w :
  within b tr w ->
  wp answers (fun _ tr w => within (b + 1) tr w)
    (do! await (KvPut key (Session s) 1800) in
     do! (if (disabled : bool) then Ret tt
          else let! now := await Now in await (KvPut rlKey (Text (string_of_Z now)) 3600)) in
     json_resp (JObj [("session", JStr id)]%string) 200) tr w.
Proof.
  intros Hw. apply wp_bind; ask. intros r w1 H1.
  assert (within (b + 1) (tr ++ [KvPut key (Session s) 1800]) w1) as Hw1.
  { destruct (put_store _ _ _ _ _ _ H1) as (c & Hc & Hs). apply (count_if_mono unclaimed_entry) in Hc. unfold within, unclaimed in *.
    rewrite claims_snoc. cbn [is_claim]. pose proof (count_if_insert_any unclaimed_entry c key (Session s)). destruct Hs as [->|[-> _]]; lia. }
  destruct r as [[]|m]; [|done]. apply wp_bind. eapply wp_mono with (Q := fun _ tr w => within (b + 1) tr w).
  { intros [u2|m] tr2 w2 H2; [by apply json_resp_within|done]. }
  destruct disabled; [done|]. over I. intros now tr2 w2 H2. ask. intros r w3 H3.
  eapply put_within in H3; [|exact H2|done]. cbn [is_claim] in H3. by rewrite Nat.add_0_r in H3.
Qed.

Lemma handleStart_within req e b tr w :
  within b tr w -> wp answers (fun _ tr w => within (b + 1) tr w) (handleStart req e) tr w.
Proof.
  intros Hw. unfold handleStart. over I. clear Hw tr w. intros u tr w Hw.
  over I. clear Hw tr w. intros taken tr w Hw. over (cooldown_reads taken). clear Hw tr w. intros wait tr w Hw.
  destruct wait as [remaining|]; [by apply json_resp_within, within_more|].
  over I. clear Hw tr w. intros captcha tr w Hw.
  over (verifyTurnstile_reads captcha (TURNSTILE_SECRET e) (clientIp req)). clear Hw tr w. intros ok tr w Hw.
  destruct ok; cbn [negb]; [|by apply json_resp_within, within_more].
  over I. clear Hw tr w. intros i tr w Hw. over (newId_reads "s_"). clear Hw tr w. intros id tr w Hw.
  over I. clear Hw tr w. intros now tr w Hw. by apply start_put_within.
Qed.
Lemma handleGuess_within req e b tr w :
  within b tr w -> wp answers (fun _ tr w => within b tr w) (handleGuess req e) tr w.
Proof.
  intros Hw. unfold handleGuess. over I. clear Hw tr w. intros id tr w Hw.
  over I. clear Hw tr w. intros g tr w Hw. over I. clear Hw tr w. intros guess tr w Hw.
  case_test; [by apply json_resp_within|]. case_test; [by apply json_resp_within|].
  over I. clear Hw tr w. intros key tr w Hw. apply wp_bind; ask. intros r w0 H0'.
  destruct (get_within _ _ _ _ _ _ Hw H0') as [Hw0 Hk]. clear H0'. destruct r as [v|m]; [|done].
  destruct v as [v|]; [|by apply json_resp_within]. specialize (Hk v eq_refl).
  destruct v as [s| | |]; try done. destruct (won s || lost s); [by apply json_resp_within|].
  set (s' := guessed s (grade (to_upper guess) (word s))). set (tr0 := tr ++ _) in *. clearbody tr0.
  apply wp_bind. eapply wp_mono with (Q := fun _ tr w => claims tr = claims tr0 /\ contents w ⊆ contents w0).
  2: { apply reads_wp. destruct (won s'); [|done]. unfold reads. apply paths_bind.
       eapply paths_mono; [|apply getFaucetBalance_reads]. by intros [?|?] _. }
  intros [r|m] tr1 w1 [Hc Hs]; [|by apply (count_if_mono unclaimed_entry) in Hs; unfold within, unclaimed in *; lia].
  apply wp_bind; ask. intros r2 w2 H2.
  assert (within b tr1 w0) as Hw1 by (unfold within, unclaimed in *; lia).
  eapply (put_session_within b tr1 w0 w1) in H2; [|done|done|exact Hk|by destruct (won s')].
  destruct r2 as [[]|m]; [by apply json_resp_within|done].
Qed.

Lemma claim_put_within addr s now claimId b tr w :
  within b tr w ->
  wp answers (fun _ tr w => within (S b) tr w)
    (do! await (KvPut ("claim:" +:+ claimId) (Claim (new_claim addr s now)) 86400) in
     let! now := await Now in
     do! await (KvPut ("queue:" +:+ string_of_Z now +:+ ":" +:+ claimId) (Text claimId) 86400) in
     json_resp (JObj [("claim_id", JStr claimId)]%string) 200) tr w.
Proof.
  intros Hw. apply wp_bind; ask. intros r w1 H1. eapply put_within in H1; [|exact Hw|done].
  cbn [is_claim] in H1. rewrite Nat.add_1_r in H1. destruct r as [[]|m]; [|done].
  over I. intros now2 tr2 w2 H2. apply wp_bind; ask. intros r w3 H3.
  eapply put_within in H3; [|exact H2|done]. cbn [is_claim] in H3. rewrite Nat.add_0_r in H3.
  destruct r as [[]|m]; [by apply json_resp_within|done].
Qed.

Lemma handleClaim_within req e b tr w :
  within b tr w -> wp answers (fun _ tr w => within b tr w) (handleClaim req e) tr w.
Proof.
  intros Hw. unfold handleClaim. over I. clear Hw tr w. intros id tr w Hw.
  over I. clear Hw tr w. intros a tr w Hw. over I. clear Hw tr w. intros addr tr w Hw.
  case_test; [by apply json_resp_within|]. case_test; [by apply json_resp_within|].
  over I. clear Hw tr w. intros key tr w Hw. apply wp_bind; ask. intros r w0 H0'.
  destruct (get_within _ _ _ _ _ _ Hw H0') as [Hw0 Hk]. clear H0'. destruct r as [v|m]; [|done].
  destruct v as [v|]; [|by apply json_resp_within]. specialize (Hk v eq_refl).
  destruct v as [s| | |]; try done. case_test; [by apply json_resp_within|].
  destruct (claimed s) eqn:Hcl; [by apply json_resp_within|].
  apply wp_bind; ask. intros [[]|m] w1 H1.
  2: { eapply put_session_within in H1; [done|exact Hw0|done|exact Hk|done]. }
  destruct (put_claimed_within _ _ _ _ s (mark_claimed s) _ _ Hw0 Hk Hcl eq_refl H1) as (b' & -> & Hw1).
  assert (forall tr w, within b' tr w -> within (S b') tr w) as Hmore by (unfold within, unclaimed; intros; lia).
  eapply wp_reads_bind; [apply newId_reads|exact Hw1|by intros; apply Hmore|]. intros claimId tr2 w2 H2.
  eapply wp_reads_bind; [unfold reads; reading|exact H2|by intros; apply Hmore|]. intros now tr3 w3 H3.
  by apply claim_put_within.
Qed.

Lemma fetch_within req e b tr w :
  within b tr w ->
  wp answers (fun _ tr w => within (b + if is_start req then 1 else 0) tr w) (fetch req e) tr w.
Proof.
  intros Hw. unfold fetch. apply wp_bind.
  eapply wp_mono with (Q := fun _ tr w => within (b + if is_start req then 1 else 0) tr w).
  { intros [r|m] tr1 w1 H1; [|done]. by apply wp_lift. }
  unfold route, is_start. case_test; [by apply handleStart_within|]. rewrite Nat.add_0_r.
  case_test; [by apply handleGuess_within|]. case_test; [by apply handleClaim_within|].
  case_test; [apply reads_within; [apply handleClaimStatus_reads|done]|].
  case_test; [apply reads_within; [apply handleFaucet_reads|done]|].
  apply reads_within; [|done]. unfold reads. reading.
Qed.

(** Requests served one after another; between them entries may expire and others may write, but nobody
    else creates or reopens a session. *)
Inductive serve (e : env) : world -> list request -> list op -> world -> Prop :=
| serve_done w : serve e w [] [] w
| serve_idle w w1 reqs tr w2 :
    (unclaimed (contents w1) <= unclaimed (contents w))%nat -> serve e w1 reqs tr w2 -> serve e w reqs tr w2
| serve_request w req reqs tr1 w1 out tr2 w2 :
    exec answers (fetch req e) w tr1 w1 out -> serve e w1 reqs tr2 w2 ->
    serve e w (req :: reqs) (tr1 ++ tr2) w2.

Lemma claims_app tr1 tr2 : claims (tr1 ++ tr2) = (claims tr1 + claims tr2)%nat.
Proof. unfold claims. by rewrite List.filter_app, length_app. Qed.

(** C9: served one at a time, the worker never enqueues more claims than games were started: with no session in
    the store at the beginning, the claims written while serving any list of requests, plus the sessions still
    open to a claim, are at most the start requests among them. *)
Theorem claims_le_starts e w reqs tr w' :
  serve e w reqs tr w' -> unclaimed (contents w) = 0%nat ->
  (claims tr + unclaimed (contents w') <= length (List.filter is_start reqs))%nat.
Proof.
  intros Hs H0'. cut (claims tr + unclaimed (contents w') <= length (List.filter is_start reqs) + unclaimed (contents w))%nat; [lia|].
  clear H0'. induction Hs as [w|w w1 reqs tr w2 Hle _ IH|w req reqs tr1 w1 out tr2 w2 He _ IH].
  - cbn. lia.
  - lia.
  - pose proof (wp_exec _ _ _ _ _ _ _ He [] (fetch_within req e (unclaimed (contents w)) [] w ltac:(unfold within, unclaimed; cbn; lia))) as Hw.
    cbn [app] in Hw. unfold within in Hw. rewrite claims_app. cbn [List.filter]. destruct (is_start req); cbn [length]; lia.
Qed.
End Ledger.

(** Serving on the concrete instance is serving. *)
Lemma sim_serves e reqs : forall w,
  sim_inv w -> serve e w reqs (sim_serve e reqs w).1.2 (sim_serve e reqs w).2.
Proof.
  induction reqs as [|req reqs IH]; intros w Hw; cbn [sim_serve]; [apply serve_done|].
  destruct (sim_run_exec (fetch req e) w Hw) as [He Hi]. specialize (IH _ Hi).
  destruct (sim_serve e reqs _) as [[rs tr] w']. by eapply serve_request.
Qed.

Lemma claims_le_starts_witness :
  let reqs := [start_request; guess_request (demo_id 1) (nth 0 WORDS ""%string); claim_request (demo_id 1) demo_address] in
  let run := sim_serve demo_env reqs empty_sim in
  claims run.1.2 = 1%nat /\
  (claims run.1.2 + unclaimed (contents run.2) <= length (List.filter is_start reqs))%nat.
Proof.
  intros reqs run. split; [vm_compute; reflexivity|].
  apply (@claims_le_starts sim_services sim_store demo_env empty_sim reqs); [by apply sim_serves|vm_compute; reflexivity].
Defined.
