(* ===== verification/WordmineGame.v ===== *)
(** * WordmineGame: the game as it is played through the worker

    Functional theorems about the handlers: what each answer is, what it reveals, when a player has to wait,
    how a game runs from the first guess to the last, and what concurrent requests can do. *)
From S2P Require Import Prelude JsCore Bytes Number Json Http Effects Words Grade Wordmine WordmineServices.
Local Open Scope Z_scope.
Local Open Scope glaciem_scope.

#[local] Opaque WORDS.

(** ** Every response carries the security headers *)

Lemma security_names : NoDup (map (fun kv : string * string => to_lower kv.1) SECURITY_HEADERS).
Proof. vm_compute. apply (bool_decide_unpack (NoDup _)). vm_compute. done. Qed.

(** Whatever the services answer, a response the worker returns carries every security header with the configured
    value, also when the asset or handler response had a header of that name. *)
Theorem responses_have_security_headers {W} (ans : W -> forall o, res (ret o) -> W -> Prop) req e w tr w' r k v :
  exec ans (fetch req e) w tr w' (Ok r) -> In (k, v) SECURITY_HEADERS ->
  header_get (resp_headers r) k = Some v.
Proof.
  intros He Hin.
  assert (paths (fun _ => True) (fun _ _ => True)
            (fun out => forall r, out = Ok r -> header_get (resp_headers r) k = Some v) (fetch req e)) as Hp.
  { unfold fetch. apply paths_bind. eapply paths_mono with (Q := fun _ => True).
    - intros [r0|m] _; [|done]. apply paths_lift. intros r1.
      pose proof (headers_set_all_in SECURITY_HEADERS (resp_headers r0) k v security_names Hin) as Hh. revert Hh.
      generalize (headers_set_all SECURITY_HEADERS (resp_headers r0)). intros h Hh. unfold new_response.
      case_test; [done|]. destruct (resp_body r0); [case_test; [done|]|]; by intros [= <-].
    - generalize (route req e). intros p. induction p as [a|m|o kk IH]; cbn [paths]; auto. }
  destruct (exec_safe ans (fun _ => True) (fun _ => True) (fun _ _ => True) _ ltac:(done) _ _ _ _ _ He I Hp) as (_ & HR & _).
  by apply HR.
Qed.

Lemma responses_have_security_headers_witness :
  exists r, header_get (resp_headers r) "x-frame-options" = Some "DENY"%string /\ resp_body r = Some (AssetBody "page").
Proof.
  destruct (sim_run_exec (fetch (mk_request "GET" "/index.html" [] ∅ None) demo_env) empty_sim ltac:(done)) as [He _].
  assert (match (run sim_answer (fetch (mk_request "GET" "/index.html" [] ∅ None) demo_env) empty_sim).1 with
          | Ok r => resp_body r = Some (AssetBody "page") | Err _ => False end) as Hb by (vm_compute; reflexivity).
  destruct (run sim_answer (fetch (mk_request "GET" "/index.html" [] ∅ None) demo_env) empty_sim).1 as [r|m]; [|done].
  exists r. split; [|exact Hb].
  apply (responses_have_security_headers (@answers sim_services) _ _ _ _ _ r "x-frame-options" "DENY" He).
  do 2 right. by left.
Defined.

(** ** Winning *)

(** A five-letter guess wins exactly when it is the word. *)
Lemma guess_wins_iff s g :
  In (word s) WORDS -> re_five_letters g = true ->
  (won (guessed s (grade g (word s))) = true <-> g = word s).
Proof.
  intros Hw Hg. apply WORDS_five in Hw. unfold re_five_letters in *. split_hyps. bool_to_prop.
  unfold guessed. cbn [won]. unfold grade. rewrite grade_all_green by lia. split; [apply chars_inj|by intros ->].
Qed.

(** ** A guess, start to end *)

Definition json_headers : headers := headers_set_all [("content-type", "application/json")]%string ∅.
Definition plain (body : json) (st : Z) : resp := mk_response st json_headers (Some (JsonBody body)).

(** The response of a handler after the dispatcher. *)
Definition secured (body : json) (st : Z) : resp :=
  mk_response st (headers_set_all SECURITY_HEADERS json_headers) (Some (JsonBody body)).

Lemma run_fetch_plain {W} (h : W -> forall o, res (ret o) * W) req e w w' j st :
  200 <= st <= 599 -> null_body_status st = false ->
  run h (route req e) w = (Ok (plain j st), w') -> run h (fetch req e) w = (Ok (secured j st), w').
Proof.
  intros Hst Hn Hr. unfold fetch. rewrite run_bind, Hr. unfold withSecurityHeaders, new_response.
  cbn [status resp_body resp_headers plain]. rewrite Hn.
  by replace ((st <? 200) || (599 <? st)) with false by (symmetry; apply orb_false_iff; lia).
Qed.

Lemma run_await {W} (h : W -> forall o, res (ret o) * W) o w : run h (await o) w = h w o.
Proof. apply run_call. Qed.

(** What the faucet record of a store is worth at the instance's clock. *)
Definition sim_faucet (w : sim) : res (number * option number) * sim := run sim_answer getFaucetBalance w.

Lemma sim_faucet_kv w : kv (sim_faucet w).2 = kv w.
Proof.
  unfold sim_faucet, getFaucetBalance. cbn [bind await call run sim_answer lift].
  destruct (kv w !! _) as [[]|]; try done. cbn [bind run await call sim_answer lift].
  by destruct (match f_at f with Some _ => _ | None => _ end).
Qed.

(** The record after a guess, with its reward if it won. *)
Definition scored (s : session) (g : string) (r : number) : session :=
  let s' := guessed s (grade g (word s)) in if won s' then with_reward s' r else s'.

(** The reward of a guess and the state after reading the faucet for it. *)
Definition sim_reward (w : sim) (s : session) (g : string) : res number * sim :=
  let s' := guessed s (grade g (word s)) in
  if won s' then
    match sim_faucet w with
    | (Ok b, w1) => (Ok (num_div (maxReward b.2) (num_of_Z (guess_count s'))), w1)
    | (Err m, w1) => (Err m, w1)
    end
  else (Ok num_zero, w).

Section Guess.
Variables (w : sim) (e : env) (id g : string) (s : session).
Hypothesis id_given : id <> ""%string.
Hypothesis five : re_five_letters (to_upper g) = true.
Hypothesis stored : kv w !! ("session:" +:+ id) = Some (Session s).

Lemma run_guess_read :
  run sim_answer (handleGuess (guess_request id g) e) w =
  if won s || lost s then (Ok (plain (JObj [("error", JStr "already_finished")]%string) 410), w)
  else match sim_reward w s (to_upper g) with
       | (Err m, w1) => (Err m, w1)
       | (Ok r, w1) =>
           (Ok (plain (guess_answer (scored s (to_upper g) r) (grade (to_upper g) (word s)) r (JStr id)) 200),
            sim_put w1 ("session:" +:+ id) (Session (scored s (to_upper g) r)))
       end.
Proof using id_given five stored.
  unfold handleGuess.
  change (get_prop (body_of (guess_request id g)) "session") with (Ok (Some (JStr id)) : res jsval).
  change (get_prop (body_of (guess_request id g)) "guess") with (Ok (Some (JStr g)) : res jsval).
  cbn [lift bind].
  assert (json_to_string (or_else (Some (JStr g)) (JStr "")) = Ok g) as -> by (destruct g; done).
  cbn [lift bind]. rewrite five. cbn [negb truthy truthy_json].
  rewrite (proj2 (String.eqb_neq id "") id_given). cbn [negb to_string json_to_string lift bind].
  cbn [await call bind run sim_answer]. rewrite stored. cbn [bind lift].
  destruct (won s || lost s); [done|]. unfold sim_reward, scored.
  set (s' := guessed s (grade (to_upper g) (word s))). destruct (won s').
  - rewrite !run_bind. unfold sim_faucet. destruct (run sim_answer getFaucetBalance w) as [[b|m] w1]; [|done]. done.
  - done.
Qed.
End Guess.

(** ** What an answer reveals *)

Lemma sim_faucet_session w id v :
  (sim_faucet (sim_put w ("session:" +:+ id) v)).1 = (sim_faucet w).1.
Proof.
  unfold sim_faucet, getFaucetBalance. cbn [bind await call run sim_answer lift kv sim_put clock].
  rewrite lookup_insert_ne by done. destruct (kv w !! _) as [[]|]; try done.
  cbn [bind run await call sim_answer lift clock sim_put].
  by destruct (match f_at f with Some _ => _ | None => _ end).
Qed.

Lemma run_fetch_guess w e id g :
  (run sim_answer (fetch (guess_request id g) e) w).1 =
  match (run sim_answer (handleGuess (guess_request id g) e) w).1 with
  | Ok r => (run sim_answer (withSecurityHeaders r) w).1
  | Err m => Err m
  end.
Proof.
  unfold fetch. rewrite run_bind. change (route (guess_request id g) e) with (handleGuess (guess_request id g) e).
  destruct (run sim_answer (handleGuess _ _) w) as [[r|m] w1]; [|done]. cbn [fst].
  unfold withSecurityHeaders. by rewrite !run_lift.
Qed.

(** Until the last guess an answer tells the player nothing but the marks: two games in the same state whose words
    give the same marks for a guess give the same response to it, whatever else the store holds. *)
Theorem guess_reveals_marks_only w e id g s1 s2 :
  id <> ""%string -> re_five_letters (to_upper g) = true ->
  guess_count s1 = guess_count s2 -> guess_count s1 + 1 < 6 ->
  won s1 || lost s1 = false -> won s2 || lost s2 = false ->
  grade (to_upper g) (word s1) = grade (to_upper g) (word s2) ->
  (run sim_answer (fetch (guess_request id g) e) (sim_put w ("session:" +:+ id) (Session s1))).1 =
  (run sim_answer (fetch (guess_request id g) e) (sim_put w ("session:" +:+ id) (Session s2))).1.
Proof.
  intros Hid Hg Hc Hlt Ho1 Ho2 Hm. rewrite !run_fetch_guess.
  rewrite (run_guess_read _ e id g s1 Hid Hg (lookup_insert_eq _ _ _)).
  rewrite (run_guess_read _ e id g s2 Hid Hg (lookup_insert_eq _ _ _)). rewrite Ho1, Ho2.
  pose proof (sim_faucet_session w id (Session s1)) as F1. pose proof (sim_faucet_session w id (Session s2)) as F2.
  unfold sim_reward, scored, guessed. rewrite Hm, Hc in *.
  set (marks := grade _ (word s2)). set (allgreen := forallb _ marks). cbn [won guess_count].
  assert ((6 <=? guess_count s2 + 1) = false) as -> by (apply Z.leb_gt; lia). rewrite andb_false_r.
  destruct (sim_faucet (sim_put w _ (Session s1))) as [b1 w1], (sim_faucet (sim_put w _ (Session s2))) as [b2 w2].
  cbn [fst] in F1, F2. subst b1 b2. destruct allgreen; [|done]. by destruct (sim_faucet w).1.
Qed.

Lemma guess_reveals_marks_only_witness :
  let s1 := new_session "CRANE" 0 in let s2 := new_session "CRATE" 0 in
  word s1 <> word s2 /\ grade "CRACK" (word s1) = [Green; Green; Green; Gray; Gray] /\
  (run sim_answer (fetch (guess_request "x" "crack") demo_env) (sim_put empty_sim "session:x" (Session s1))).1 =
  (run sim_answer (fetch (guess_request "x" "crack") demo_env) (sim_put empty_sim "session:x" (Session s2))).1.
Proof.
  split; [done|]. split; [reflexivity|].
  apply (guess_reveals_marks_only empty_sim demo_env "x" "crack" (new_session "CRANE" 0) (new_session "CRATE" 0)); done.
Defined.

(** ** A whole game *)

Inductive progress := Open (guesses : Z) | Won (guesses : Z) | Lost.

Definition progress_of (s : session) : progress :=
  if won s then Won (guess_count s) else if lost s then Lost else Open (guess_count s).

(** One guess in the abstract game. *)
Definition advance (answer : string) (p : progress) (g : string) : progress :=
  match p with
  | Open n => if String.eqb g answer then Won (n + 1) else if 6 <=? n + 1 then Lost else Open (n + 1)
  | _ => p
  end.

(** The first position of a word, counted from [i]. *)
Fixpoint position (answer : string) (i : Z) (gs : list string) : option Z :=
  match gs with
  | [] => None
  | g :: gs' => if String.eqb g answer then Some i else position answer (i + 1) gs'
  end.

(** How a game on [answer] stands after the guesses [gs]: won at the first correct one of the first six. *)
Definition outcome (answer : string) (gs : list string) : progress :=
  match position answer 0 gs with
  | Some i => if i <? 6 then Won (i + 1) else Lost
  | None => if 6 <=? Z.of_nat (length gs) then Lost else Open (Z.of_nat (length gs))
  end.

Lemma advance_finished answer gs p : (forall n, p <> Open n) -> fold_left (advance answer) gs p = p.
Proof. intros H. induction gs as [|g gs IH]; [done|]. cbn. by destruct p; [destruct (H guesses)| |]. Qed.

Lemma position_ge answer gs : forall i j, position answer i gs = Some j -> i <= j.
Proof.
  induction gs as [|g gs IH]; intros i j; cbn; [done|]. case_test; [intros [= <-]; lia|]. intros H. apply IH in H. lia.
Qed.

Lemma advance_outcome answer gs : forall n, 0 <= n < 6 ->
  fold_left (advance answer) gs (Open n) =
  match position answer n gs with
  | Some i => if i <? 6 then Won (i + 1) else Lost
  | None => if 6 <=? n + Z.of_nat (length gs) then Lost else Open (n + Z.of_nat (length gs))
  end.
Proof.
  induction gs as [|g gs IH]; intros n Hn; cbn [fold_left position advance length].
  - rewrite Z.add_0_r. case_test; [lia|done].
  - destruct (String.eqb g answer).
    { rewrite advance_finished by done. by rewrite (proj2 (Z.ltb_lt n 6)) by lia. }
    destruct (Z.leb_spec 6 (n + 1)).
    + rewrite advance_finished by done. destruct (position answer (n + 1) gs) as [i|] eqn:E.
      * apply position_ge in E. by rewrite (proj2 (Z.ltb_ge i 6)) by lia.
      * by rewrite (proj2 (Z.leb_le 6 (n + Z.of_nat (S (length gs))))) by lia.
    + rewrite IH by lia. by rewrite Nat2Z.inj_succ, <- Z.add_1_l, Z.add_assoc.
Qed.

(** The faucet record, if any, is a faucet record. *)
Definition faucet_readable (w : sim) : Prop :=
  match kv w !! "faucet:balance"%string with None | Some (Faucet _) => True | Some _ => False end.

Lemma sim_faucet_ok w : faucet_readable w -> exists b, (sim_faucet w).1 = Ok b.
Proof.
  unfold faucet_readable, sim_faucet, getFaucetBalance. cbn [bind await call run sim_answer lift].
  destruct (kv w !! _) as [[]|]; try done; [|by eexists]. intros _. cbn [bind run await call sim_answer lift].
  destruct (match f_at f with Some _ => _ | None => _ end); by eexists.
Qed.

(** A game on [answer] under way or over. *)
Definition in_game (w : sim) (id answer : string) (p : progress) : Prop :=
  exists s, kv w !! ("session:" +:+ id) = Some (Session s) /\ word s = answer /\ progress_of s = p /\
            (won s || lost s = false -> 0 <= guess_count s < 6).

Lemma guess_step w e id answer p g :
  id <> ""%string -> In answer WORDS -> re_five_letters (to_upper g) = true ->
  faucet_readable w -> in_game w id answer p ->
  let w' := (run sim_answer (fetch (guess_request id g) e) w).2 in
  faucet_readable w' /\ in_game w' id answer (advance answer p (to_upper g)).
Proof.
  intros Hid Hans Hg Hf (s & Hs & <- & <- & Hopen). unfold fetch. rewrite run_bind.
  change (route (guess_request id g) e) with (handleGuess (guess_request id g) e).
  rewrite (run_guess_read w e id g s Hid Hg Hs). destruct (won s || lost s) eqn:Hfin.
  { split; [done|]. exists s. split_and!; [done|done| |by rewrite Hfin]. unfold progress_of, advance.
    destruct (won s), (lost s); done. }
  specialize (Hopen eq_refl). apply orb_false_iff in Hfin as [Hw Hl].
  assert (exists r w1, sim_reward w s (to_upper g) = (Ok r, w1) /\ kv w1 = kv w) as (r & w1 & -> & Hkv).
  { unfold sim_reward. destruct (won (guessed s _)); [|by eexists _, _].
    destruct (sim_faucet_ok w Hf) as [b Hb]. pose proof (sim_faucet_kv w). destruct (sim_faucet w) as [r w1].
    cbn [fst snd] in *. subst r. by eexists _, _. }
  cbn [fst snd run withSecurityHeaders]. unfold withSecurityHeaders. rewrite run_lift. cbn [snd].
  split; [unfold faucet_readable, sim_put; cbn [kv]; rewrite lookup_insert_ne, Hkv by done; exact Hf|].
  exists (scored s (to_upper g) r). cbn [kv sim_put]. rewrite lookup_insert_eq. split; [done|].
  pose proof (guess_wins_iff s (to_upper g) Hans Hg) as Hiff. unfold scored, progress_of, advance. rewrite Hw, Hl.
  set (s' := guessed s _) in *. destruct (won s') eqn:E.
  - rewrite (proj2 (String.eqb_eq _ _) (proj1 Hiff eq_refl)). split_and!; cbn [won with_reward guess_count word]; rewrite ?E; done.
  - rewrite (proj2 (String.eqb_neq _ _)) by (intros Heq; apply Hiff in Heq; congruence).
    unfold s', guessed in *. cbn [won lost guess_count word] in *. rewrite E. cbn [negb andb orb].
    destruct (Z.leb_spec 6 (guess_count s + 1)); split_and!; try done; lia.
Qed.

(** C25: a game played through the worker is the game it promises: after the guesses [gs] on a fresh session the
    stored record is won with [i + 1] guesses when the [i]th guess is the first to be the word and is among
    the first six, lost when six guesses missed, and open otherwise; guesses after the end change nothing. *)
Theorem game_played w e id s gs :
  id <> ""%string -> In (word s) WORDS -> s = new_session (word s) (started_at s) ->
  Forall (fun g => re_five_letters (to_upper g) = true) gs -> faucet_readable w ->
  kv w !! ("session:" +:+ id) = Some (Session s) ->
  exists s', kv (sim_serve e (map (guess_request id) gs) w).2 !! ("session:" +:+ id) = Some (Session s') /\
             progress_of s' = outcome (word s) (map to_upper gs).
Proof.
  intros Hid Hans Hnew Hgs Hf Hs.
  cut (in_game (sim_serve e (map (guess_request id) gs) w).2 id (word s) (fold_left (advance (word s)) (map to_upper gs) (Open 0))).
  { intros (s' & Hs' & _ & Hp & _). exists s'. split; [done|]. rewrite Hp. by rewrite advance_outcome. }
  assert (in_game w id (word s) (Open 0)) as Hg by (exists s; rewrite Hnew; split_and!; try done; by rewrite <- Hnew).
  revert Hg Hf Hgs. clear Hs Hnew. generalize (Open 0). revert w.
  induction gs as [|g gs IH]; intros w p Hg Hf Hgs; [done|]. apply Forall_cons in Hgs as [Hg5 Hgs].
  cbn [map sim_serve fold_left].
  destruct (guess_step w e id (word s) p g Hid Hans Hg5 Hf Hg) as [Hf' Hg'].
  specialize (IH _ _ Hg' Hf' Hgs). by destruct (sim_serve e _ _) as [[rs tr] w'].
Qed.

Lemma game_played_witness :
  let w := sim_put empty_sim "session:x" (Session (new_session (nth 0 WORDS ""%string) 7)) in
  let gs := ["crane"; nth 0 WORDS ""; "storm"]%string in
  outcome (nth 0 WORDS ""%string) (map to_upper gs) = Won 2 /\
  exists s', kv (sim_serve demo_env (map (guess_request "x") gs) w).2 !! ("session:" +:+ "x") = Some (Session s') /\
             progress_of s' = outcome (nth 0 WORDS ""%string) (map to_upper gs).
Proof.
  split; [vm_compute; reflexivity|].
  apply (game_played _ demo_env "x" (new_session (nth 0 WORDS ""%string) 7)); try done.
  - apply nth_In. rewrite length_WORDS. lia.
  - repeat (constructor; [vm_compute; reflexivity|]). constructor.
Defined.

(** ** The hourly slot *)

(** While a slot is taken the player waits: if the rate-limit entry of the caller's address holds the time [t] of the
    last start and the clock reads less than an hour later, the start request is refused with status 429 and the remaining
    whole seconds, between 1 and 3600, and nothing else is called; this holds whatever the services are. *)
Theorem start_cooldown {W} (h : W -> forall o, res (ret o) * W) req e w w1 w2 t now :
  pathname req = "/api/start"%string -> method req = "POST"%string ->
  DISABLE_RATELIMIT e <> Some "1"%string -> 0 <= t ->
  h w (KvGet ("ratelimit:" +:+ clientIp req)) = (Ok (Some (Text (string_of_Z t))), w1) ->
  h w1 Now = (Ok now, w2) -> t <= now < t + 3600 * 1000 ->
  exists remaining, 1 <= remaining <= 3600 /\ remaining = 3600 - (now - t) / 1000 /\
    run h (fetch req e) w =
    (Ok (secured (JObj [("error", JStr "cooldown"); ("retry_after_seconds", JNum (num_of_Z remaining))]%string) 429), w2).
Proof.
  intros Hp Hm He Ht Hget Hnow Hlt. exists (3600 - (now - t) / 1000).
  assert (0 <= (now - t) / 1000 < 3600) as Hd.
  { split; [apply Z.div_pos; lia|apply Z.div_lt_upper_bound; lia]. }
  split; [lia|]. split; [done|]. apply run_fetch_plain; [lia|done|]. unfold route. rewrite Hp, Hm.
  change (String.eqb "/api/start" "/api/start" && String.eqb "POST" "POST") with true. cbv iota.
  unfold handleStart. rewrite bool_decide_eq_false_2 by done. cbn [bind].
  pose proof (run_await h (KvGet ("ratelimit:" +:+ clientIp req)) w) as Hr. rewrite Hget in Hr. cbn [ret] in Hr.
  rewrite run_bind, Hr, run_bind. unfold cooldown.
  destruct (parse_int_of_Z t Ht) as [Hparse ->]. rewrite Hparse.
  rewrite run_bind, run_await, Hnow. cbn [run].
  rewrite Z.max_r by lia. by rewrite (proj2 (Z.ltb_lt 0 _)) by lia.
Qed.

Lemma start_cooldown_witness :
  let w := sim_put empty_sim "ratelimit:unknown" (Text "1699999000000") in
  exists remaining, 1 <= remaining <= 3600 /\ remaining = 3600 - (1700000000000 - 1699999000000) / 1000 /\
    run sim_answer (fetch start_request demo_env) w =
    (Ok (secured (JObj [("error", JStr "cooldown"); ("retry_after_seconds", JNum (num_of_Z remaining))]%string) 429),
     (sim_answer w Now).2).
Proof.
  intros w. apply (start_cooldown sim_answer start_request demo_env w w _ 1699999000000); try done.
Defined.

(** A started game takes the slot: in every run in which a start request is answered with status 200 and the rate
    limit is not switched off, a fresh session was stored and the caller's rate-limit entry was written with the
    time, for an hour. *)
Theorem start_takes_slot {W} (ans : W -> forall o, res (ret o) -> W -> Prop) req e w tr w' r :
  exec ans (handleStart req e) w tr w' (Ok r) -> status r = 200 -> DISABLE_RATELIMIT e <> Some "1"%string ->
  exists id word t now,
    In (KvPut ("session:" +:+ id) (Session (new_session word t)) 1800) tr /\
    In (KvPut ("ratelimit:" +:+ clientIp req) (Text (string_of_Z now)) 3600) tr.
Proof.
  intros He Hst Hon. refine (wp_exec ans (fun out tr _ => forall r, out = Ok r -> status r = 200 ->
    exists id word t now, In (KvPut ("session:" +:+ id) (Session (new_session word t)) 1800) tr /\
      In (KvPut ("ratelimit:" +:+ clientIp req) (Text (string_of_Z now)) 3600) tr) _ _ _ _ _ He [] _ r eq_refl Hst).
  clear He Hst.
  unfold handleStart. rewrite bool_decide_eq_false_2 by done.
  do 3 (apply wp_skip; [done|]; intros ? ? ?). case_match; [by apply wp_lift; intros ? [= <-]|].
  do 2 (apply wp_skip; [done|]; intros ? ? ?). case_match; [by apply wp_lift; intros ? [= <-]|].
  apply wp_skip; [done|]; intros i ? ?. apply wp_skip; [done|]; intros id ? ?. apply wp_skip; [done|]; intros t ? ?.
  apply wp_bind, (wp_call ans (KvPut _ _ _)). intros [[]|m] ? _; [|done].
  apply wp_bind, wp_bind, (wp_call ans Now). intros [now|m] ? _; [|done].
  apply (wp_call ans (KvPut _ _ _)). intros [[]|m] ? _; [|done]. apply wp_lift. intros r0 _ _.
  exists id, (nth (Z.to_nat i) WORDS ""%string), t, now. rewrite !in_app_iff. cbn [In]. split; auto 10.
Qed.

Lemma start_takes_slot_witness :
  let r := run sim_answer (handleStart start_request demo_env) empty_sim in
  let tr := run_trace sim_answer (handleStart start_request demo_env) empty_sim in
  r.1 = Ok (plain (JObj [("session", JStr (demo_id 1))]%string) 200) /\
  exists id word t now,
    In (KvPut ("session:" +:+ id) (Session (new_session word t)) 1800) tr /\
    In (KvPut ("ratelimit:" +:+ clientIp start_request) (Text (string_of_Z now)) 3600) tr.
Proof.
  intros r tr. assert (r.1 = Ok (plain (JObj [("session", JStr (demo_id 1))]%string) 200)) as Hr by (vm_compute; reflexivity).
  split; [done|].
  apply (start_takes_slot (@answers sim_services) start_request demo_env empty_sim tr r.2 (plain (JObj [("session", JStr (demo_id 1))]%string) 200));
    [|done|done].
  rewrite <- Hr. apply sim_run_exec. done.
Defined.

(** ** Malformed bodies *)

(** A JSON body of null is not handled: the guess and claim handlers throw a type error, before any call, instead of
    answering with an error code. *)
Theorem null_body_throws req e :
  In (pathname req) ["/api/guess"; "/api/claim"]%string -> method req = "POST"%string -> req_json req = Some JNull ->
  fetch req e = Throw "TypeError: Cannot read properties of null".
Proof.
  intros Hp Hm Hj. unfold fetch, route. rewrite Hm.
  destruct Hp as [Hp|[Hp|[]]]; rewrite <- Hp; cbn [String.eqb Ascii.eqb Bool.eqb andb];
    [unfold handleGuess|unfold handleClaim]; unfold body_of; rewrite Hj; reflexivity.
Qed.

Lemma null_body_throws_witness :
  fetch (post_request "/api/guess" JNull) demo_env = Throw "TypeError: Cannot read properties of null".
Proof. apply (null_body_throws (post_request "/api/guess" JNull) demo_env); [by left|done|done]. Defined.

(** ** Concurrent requests *)

(** The store after one game was started and won. *)
Definition won_sim : sim :=
  (sim_serve demo_env [start_request; guess_request (demo_id 1) (nth 0 WORDS ""%string)] empty_sim).2.

Definition statuses (ps : list (prog ret resp)) : list Z :=
  map (fun p => match p with Ret r => status r | _ => 0 end) ps.

(** What a claim request still has to do after it has read a won and unclaimed game. *)
Definition claim_rest (id addr : string) (s : session) : prog ret resp :=
  let! r := (do! await (KvPut ("session:" +:+ id) (Session (mark_claimed s)) 900) in
             let! claimId := newId "c_" in
             let! now := await Now in
             do! await (KvPut ("claim:" +:+ claimId) (Claim (new_claim addr s now)) 86400) in
             let! now := await Now in
             do! await (KvPut ("queue:" +:+ string_of_Z now +:+ ":" +:+ claimId) (Text claimId) 86400) in
             json_resp (JObj [("claim_id", JStr claimId)]%string) 200) in
  withSecurityHeaders r.

Lemma claim_reads id a e s :
  id <> ""%string -> re_address (trim a) = true -> won s = true -> claimed s = false ->
  exists k, (fetch (claim_request id a) e = Vis (KvGet ("session:" +:+ id)) k) /\
            (k (Ok (Some (Session s))) = claim_rest id (trim a) s).
Proof.
  intros Hid Ha Hw Hc. unfold fetch.
  change (route (claim_request id a) e) with (handleClaim (claim_request id a) e). unfold handleClaim.
  change (get_prop (body_of (claim_request id a)) "token") with (Ok (Some (JStr id)) : res jsval).
  change (get_prop (body_of (claim_request id a)) "address") with (Ok (Some (JStr a)) : res jsval).
  cbn [lift bind].
  assert (json_to_string (or_else (Some (JStr a)) (JStr "")) = Ok a) as -> by (destruct a; done).
  cbn [lift bind truthy truthy_json]. rewrite (proj2 (String.eqb_neq id "") Hid), Ha.
  cbn [negb to_string json_to_string lift bind await call]. eexists. split; [reflexivity|].
  cbn [lift bind]. rewrite Hw, Hc. reflexivity.
Qed.

(** The identifier of the claim the instance makes as its [n]th draw. *)
Definition claim_id (n : Z) : string := "c_" +:+ of_chars (mjoin (map hex_byte (replicate 16 (n mod 256)))).

Definition claim_made (id addr : string) (s : session) (w : sim) : sim :=
  let c := claim_id (draws w) in
  let w1 := sim_put w ("session:" +:+ id) (Session (mark_claimed s)) in
  let w2 := mk_sim (kv w1) (history w1) (clock w + 1000) (draws w + 1) (log w) in
  let w3 := sim_put w2 ("claim:" +:+ c) (Claim (new_claim addr s (clock w))) in
  let w4 := mk_sim (kv w3) (history w3) (clock w + 1000 + 1000) (draws w + 1) (log w) in
  sim_put w4 ("queue:" +:+ string_of_Z (clock w + 1000) +:+ ":" +:+ c) (Text c).

Definition claim_answered (w : sim) : resp := secured (JObj [("claim_id", JStr (claim_id (draws w)))]%string) 200.

Lemma claim_finishes id addr s i ps sched w :
  ps !! i = Some (claim_rest id addr s) ->
  run_pool sim_answer (replicate 6 i ++ sched) ps w =
  run_pool sim_answer sched (<[i := Ret (claim_answered w)]> ps) (claim_made id addr s w).
Proof.
  intros Hi. pose proof (lookup_lt_Some _ _ _ Hi) as Hlen. cbn [replicate app run_pool]. rewrite Hi.
  unfold claim_rest, newId.
  repeat (cbn [run_step await call bind lift sim_answer]; rewrite ?list_lookup_insert_eq by (rewrite ?length_insert; done)).
  rewrite !list_insert_insert_eq. reflexivity.
Qed.

Lemma claim_bytes n : bytes_ok (replicate 16 (n mod 256)).
Proof. apply Forall_replicate. by apply Z.mod_pos_bound. Qed.

Lemma claim_id_inj n m : claim_id n = claim_id m -> n mod 256 = m mod 256.
Proof.
  unfold claim_id. intros H. apply (f_equal chars) in H. rewrite !chars_app, !chars_of_chars in H.
  apply app_inv_head, hex_inj in H; [by injection H|apply claim_bytes..].
Qed.

Lemma claim_id_fresh n : claim_id n <> claim_id (n + 1).
Proof.
  intros E. apply claim_id_inj in E. pose proof (Z.mod_pos_bound n 256 eq_refl).
  rewrite <- (Z.add_mod_idemp_l n 1) in E by done.
  destruct (decide (n mod 256 = 255)) as [F|F]; [by rewrite F in E|].
  rewrite (Z.mod_small (_ + 1)) in E; lia.
Qed.

(** Keys made from the identifiers of two claims differ whenever the claims do: the identifiers have one length. *)
Lemma claim_key_inj s t n m : s +:+ claim_id n = t +:+ claim_id m -> claim_id n = claim_id m.
Proof.
  intros H. apply (f_equal chars) in H. rewrite !chars_app in H. apply app_inj_2 in H as [_ H].
  - apply (f_equal of_chars) in H. by rewrite !of_chars_chars in H.
  - unfold claim_id. rewrite !chars_app, !chars_of_chars, !length_app, !length_hex by apply claim_bytes. done.
Qed.

Lemma queue_key_inj (u v : string) n m :
  "queue:" +:+ u +:+ ":" +:+ claim_id n = "queue:" +:+ v +:+ ":" +:+ claim_id m -> claim_id n = claim_id m.
Proof.
  assert (forall x y z : string, x +:+ y +:+ z = (x +:+ y) +:+ z) as Ha
    by (intros x y z; rewrite <- (of_chars_chars (x +:+ y +:+ z)), <- (of_chars_chars ((x +:+ y) +:+ z));
        by rewrite !chars_app, app_assoc).
  rewrite !Ha. apply claim_key_inj.
Qed.

(** C39: the check of [claimed] and its update are two calls: two claim requests on one won game, with any two
    addresses, that both read the record before either writes are both answered with status 200, from any state of
    the instance.  Afterwards the store holds two claims, each for the game's whole reward, and both are queued. *)
Theorem double_claim w e id s a b :
  id <> ""%string -> kv w !! ("session:" +:+ id) = Some (Session s) -> won s = true -> claimed s = false ->
  re_address (trim a) = true -> re_address (trim b) = true ->
  let '(ps, w') := run_pool sim_answer ([0; 1]%nat ++ replicate 6 0%nat ++ replicate 6 1%nat)
                     [fetch (claim_request id a) e; fetch (claim_request id b) e] w in
  statuses ps = [200; 200] /\
  exists i j t u, i <> j /\
    kv w' !! ("claim:" +:+ i) = Some (Claim (new_claim (trim a) s t)) /\
    kv w' !! ("claim:" +:+ j) = Some (Claim (new_claim (trim b) s u)) /\
    (exists now, kv w' !! ("queue:" +:+ string_of_Z now +:+ ":" +:+ i) = Some (Text i)) /\
    (exists now, kv w' !! ("queue:" +:+ string_of_Z now +:+ ":" +:+ j) = Some (Text j)).
Proof.
  intros Hid Hk Hw Hc Ha Hb.
  destruct (claim_reads id a e s) as (ka & -> & Ea); [done..|].
  destruct (claim_reads id b e s) as (kb & -> & Eb); [done..|].
  cbn [app run_pool lookup list_lookup run_step sim_answer]. rewrite Hk, Ea.
  change (<[0%nat := _]> _) with [claim_rest id (trim a) s; Vis (KvGet ("session:" +:+ id)) kb].
  cbn [lookup list_lookup run_step sim_answer]. rewrite Hk, Eb.
  change (<[1%nat := _]> _) with [claim_rest id (trim a) s; claim_rest id (trim b) s].
  rewrite (claim_finishes id (trim a) s 0) by done.
  rewrite <- (app_nil_r (replicate 6 1%nat)), (claim_finishes id (trim b) s 1) by done.
  cbn [run_pool]. split; [done|].
  pose proof (claim_id_fresh (draws w)) as Hne.
  exists (claim_id (draws w)), (claim_id (draws w + 1)), (clock w), (clock w + 1000 + 1000). split; [done|].
  unfold claim_made. cbn [kv sim_put history clock draws log].
  split; [|split; [|split]].
  - rewrite lookup_insert_ne by discriminate. rewrite lookup_insert_ne by (intros E; by eapply Hne, eq_sym, claim_key_inj).
    do 2 rewrite lookup_insert_ne by discriminate. apply lookup_insert_eq.
  - rewrite lookup_insert_ne by discriminate. apply lookup_insert_eq.
  - exists (clock w + 1000). rewrite lookup_insert_ne.
    + do 2 rewrite lookup_insert_ne by discriminate. apply lookup_insert_eq.
    + intros E. by apply queue_key_inj in E.
  - eexists. apply lookup_insert_eq.
Qed.

Lemma double_claim_witness :
  exists s, let '(ps, w') := run_pool sim_answer ([0; 1]%nat ++ replicate 6 0%nat ++ replicate 6 1%nat)
              [fetch (claim_request (demo_id 1) demo_address) demo_env;
               fetch (claim_request (demo_id 1) (" " +:+ demo_address)) demo_env] won_sim in
  statuses ps = [200; 200] /\
  exists i j t u, i <> j /\
    kv w' !! ("claim:" +:+ i) = Some (Claim (new_claim demo_address s t)) /\
    kv w' !! ("claim:" +:+ j) = Some (Claim (new_claim demo_address s u)) /\
    (exists now, kv w' !! ("queue:" +:+ string_of_Z now +:+ ":" +:+ i) = Some (Text i)) /\
    (exists now, kv w' !! ("queue:" +:+ string_of_Z now +:+ ":" +:+ j) = Some (Text j)).
Proof.
  eexists (match kv won_sim !! ("session:" +:+ demo_id 1) with Some (Session s) => s | _ => new_session "" 0 end).
  apply (double_claim won_sim demo_env (demo_id 1) _ demo_address (" " +:+ demo_address)); vm_compute; done.
Defined.

(** Likewise seven guesses sent together are all graded although a game allows six: each reads the record before
    any of them writes, and the stored count is one. *)
Theorem parallel_guesses :
  let guesses := ["ABCDE"; "FGHIJ"; "KLMNO"; "PQRST"; "UVWXY"; "ZABCD"; "EFGHI"]%string in
  let ps := map (fun g => fetch (guess_request (demo_id 1) g) demo_env) guesses in
  let '(ps', w) := run_pool sim_answer (seq 0 7 ++ seq 0 7) ps
                     (sim_serve demo_env [start_request] empty_sim).2 in
  statuses ps' = replicate 7 200 /\
  exists s, kv w !! ("session:" +:+ demo_id 1) = Some (Session s) /\ guess_count s = 1.
Proof. vm_compute. split; [reflexivity|]. eexists. split; reflexivity. Qed.
