(* ===== verification/Payout.v ===== *)
(** * Payout: the daemon that pays claims (wordmine/payout/payout_daemon.py)

    The daemon reads the queue the game worker writes, pays each pending claim through the wallet's RPC, writes
    the result back and removes the queue entry; it also publishes the faucet's balance.  Its HTTP helper turns every
    failure into a status, so calls never raise; the model keeps that: a call of [op] returns the status with what the
    body holds for status 200.  Stored values are those of the game worker ([kv_value]). *)
From S2P Require Import Prelude JsCore Number Json JsonText Http Effects Wordmine.
Local Open Scope Z_scope.
Local Open Scope glaciem_scope.

(** ** Services *)

Inductive wallet_call : Type :=
| GetBalance (account_index : Z)
| Transfer (amount : Z) (addr : string) (account_index : Z) (subaddr_indices : list Z) (priority : Z) (get_tx_key : bool).

(** The members of a result the daemon reads; absent ones take the defaults of the code. *)
Record wallet_result : Type := mk_result {
  r_balance : option Z;
  r_unlocked : option Z;
  r_tx_hash : option string;
  r_fee : option Z;
}.

(** What a body holds: no JSON, JSON in which a lookup of the daemon raises, an error with its message, or a result. *)
Inductive reply : Type :=
| BadJson (e : string)
| BadShape (e : string)
| RpcError (message : option string)
| RpcResult (r : wallet_result).

Inductive op : Type :=
| HttpGet (k : string)                             (** status, and the stored value for 200 *)
| HttpPut (k : string) (v : kv_value) (ttl : Z)
| HttpDelete (k : string)
| HttpList (prefix : string) (limit : Z)
| HttpWallet (c : wallet_call)
| TimeMs                                           (** [time.time()], in milliseconds *)
| Print (msg : string).

Definition ret (o : op) : Type :=
  match o with
  | HttpGet _ => Z * option kv_value
  | HttpPut _ _ _ => Z
  | HttpDelete _ => Z
  | HttpList _ _ => Z * list string
  | HttpWallet _ => Z * string * reply
  | TimeMs => Z
  | Print _ => unit
  end.

Definition await (o : op) : prog ret (ret o) := call o.

Definition print (msg : string) : prog ret unit := await (Print msg).

Definition MIN_PAYOUT : Z := 1000.

(** ** Helpers *)

Definition kv_get (key : string) : prog ret (option kv_value) :=
  let! (s, body) := await (HttpGet key) in
  if s =? 404 then Ret None
  else if negb (s =? 200) then do! print ("[kv_get] " +:+ key) in Ret None
  else Ret body.

Definition kv_put (key : string) (value : kv_value) (ttl : Z) : prog ret unit :=
  let! s := await (HttpPut key value ttl) in
  if negb (s =? 200) then print ("[kv_put] " +:+ key) else Ret tt.

Definition kv_delete (key : string) : prog ret unit :=
  let! s := await (HttpDelete key) in
  if negb ((s =? 200) || (s =? 404)) then print ("[kv_delete] " +:+ key) else Ret tt.

Definition kv_list (prefix : string) (limit : Z) : prog ret (list string) :=
  let! (s, names) := await (HttpList prefix limit) in
  if negb (s =? 200) then do! print ("[kv_list] " +:+ prefix) in Ret []
  else Ret names.

(** A result, or the message of an error. *)
Definition wallet (c : wallet_call) : prog ret (wallet_result + string) :=
  let! (s, b, r) := await (HttpWallet c) in
  if negb (s =? 200) then Ret (inr ("http " +:+ string_of_Z s +:+ ": " +:+ slice_to 200 b))
  else match r with
       | BadJson e => Ret (inr ("bad json: " +:+ e))
       | BadShape e => Throw e
       | RpcError m => Ret (inr (default "rpc error"%string m))
       | RpcResult r => Ret (inl r)
       end.

(** ** The daemon *)

Definition coins (atomic : option Z) : number := num_div (num_of_Z (default 0 atomic)) (num_of_Z (10 ^ 12)).

Definition update_balance : prog ret unit :=
  let! r := wallet (GetBalance 0) in
  match r with
  | inr err =>
      if String.eqb err "" then Throw "AttributeError"
      else print ("[balance] wallet rpc error: " +:+ err)
  | inl res =>
      let! now := await TimeMs in
      kv_put "faucet:balance"
        (Faucet (mk_faucet (Some (coins (r_balance res))) (Some (Some (coins (r_unlocked res)))) (Some now))) 600
  end.

(** [qkey.rsplit(':', 1)[-1]] *)
Fixpoint after_last_colon (acc l : list ascii) : list ascii :=
  match l with
  | [] => acc
  | c :: l' => if code c =? 58 then after_last_colon l' l' else after_last_colon acc l'
  end.
Definition claim_id_of (qkey : string) : string := of_chars (after_last_colon (chars qkey) (chars qkey)).

(** [not rec] for a stored text: [json.loads] where it is JSON, else the text.  The texts of the namespace are ids and
    times, never objects. *)
Definition falsy_text (t : string) : bool :=
  match JsonText.parse t with
  | Some (JArr []) | Some (JObj []) => true
  | Some j => negb (truthy_json j)
  | None => String.eqb t ""
  end.

Definition claim_failed (c : claim) (error : string) : claim :=
  mk_claim (address c) (amount c) (amount_atomic c) Failed (created_at c) (set_field "error" (JStr error) (extra c)).

Definition claim_paid (c : claim) (res : wallet_result) : claim :=
  mk_claim (address c) (amount c) (amount_atomic c) Paid (created_at c)
    (set_field "fee" (JNum (num_of_Z (default 0 (r_fee res))))
      (set_field "tx_hash" (JStr (default ""%string (r_tx_hash res))) (extra c))).

Definition process_claim (qkey : string) : prog ret unit :=
  let claim_id := claim_id_of qkey in
  let! rec := kv_get ("claim:" +:+ claim_id) in
  match rec with
  | None => kv_delete qkey
  | Some (Claim c) =>
      match cstatus c with
      | Paid | Failed => kv_delete qkey
      | Pending =>
          match amount_atomic c with
          | None => Throw "TypeError: int() argument must be a string or a number"
          | Some amt =>
              if amt <? MIN_PAYOUT then
                do! kv_put ("claim:" +:+ claim_id) (Claim (claim_failed c "below minimum payout")) 86400 in
                kv_delete qkey
              else
                do! print ("[pay] " +:+ claim_id) in
                let! r := wallet (Transfer amt (address c) 0 [1; 2; 3; 4; 5] 0 true) in
                match r with
                | inr err =>
                    if String.eqb err "" then Throw "AttributeError" else
                    do! kv_put ("claim:" +:+ claim_id) (Claim (claim_failed c err)) 86400 in
                    do! kv_delete qkey in
                    print ("[pay] FAIL " +:+ claim_id)
                | inl res =>
                    do! kv_put ("claim:" +:+ claim_id) (Claim (claim_paid c res)) 86400 in
                    do! kv_delete qkey in
                    print ("[pay] OK " +:+ claim_id)
                end
          end
      end
  | Some (Session _) | Some (Faucet _) => kv_delete qkey
  | Some (Text t) => if falsy_text t then kv_delete qkey else Throw "AttributeError"
  end.

Fixpoint process_keys (keys : list string) : prog ret unit :=
  match keys with
  | [] => Ret tt
  | qkey :: keys' => do! process_claim qkey in process_keys keys'
  end.

Definition process_claims : prog ret unit :=
  let! keys := kv_list "queue:" 20 in process_keys keys.

(** One round of the main loop: the balance at most every thirty seconds, then the queue; an exception ends the round.
    The clock counts milliseconds. *)
Definition iteration (last_balance : Z) : prog ret Z :=
  let! now := await TimeMs in
  let! (last_balance, raised) :=
    catch (if 30000 <? now - last_balance then do! update_balance in Ret (now, None) else Ret (last_balance, None))
          (fun e => Ret (last_balance, Some e)) in
  match raised with
  | Some e => do! print ("loop error: " +:+ e) in Ret last_balance
  | None => catch (do! process_claims in Ret last_balance)
                  (fun e => do! print ("loop error: " +:+ e) in Ret last_balance)
  end.
