(* ===== verification/PayoutSafety.v ===== *)
(** * PayoutSafety: claims are paid at most once, and only for games played

    On a store whose reads are current and whose puts succeed, a claim stops being pending before its queue entry can
    come up again, whichever result or error the wallet answers and however often lists, deletes and reads fail.  Together with
    WordmineLedger.v this bounds the payouts by the games started.  The daemon's writes keep the layout the worker relies
    on.  The last section shows what happens when a put or a read fails. *)
From S2P Require Import Prelude JsCore Number Json JsonText Http Effects Wordmine WordmineServices WordmineSafety WordmineLedger.
From S2P Require Import Payout.
Local Open Scope Z_scope.
Local Open Scope glaciem_scope.

(** ** The store the daemon sees *)

(** A body of the wallet's JSON-RPC protocol: an object, whose error, if any, has a message. *)
Definition protocol (r : reply) : Prop :=
  match r with BadShape _ => False | RpcError m => m <> Some ""%string | _ => True end.

(** Reads answer the current value or fail; puts succeed; a delete may fail; the wallet answers within its protocol; lists and
    the clock answer anything. *)
Definition reliable (m : store) (o : op) : res (ret o) -> store -> Prop :=
  match o with
  | HttpGet k => fun r m' => m' = m /\ exists s v, r = Ok (s, v) /\ (s = 200 -> v = m !! k)
  | HttpPut k v _ => fun r m' => m' = <[k := v]> m /\ r = Ok 200
  | HttpDelete k => fun r m' => (m' = delete k m \/ m' = m) /\ exists s, r = Ok s
  | HttpWallet _ => fun r m' => m' = m /\ exists s b rep, r = Ok (s, b, rep) /\ protocol rep
  | _ => fun r m' => m' = m /\ exists a, r = Ok a
  end.

Definition pending_entry (v : kv_value) : bool :=
  match v with Claim c => match cstatus c with Pending => true | _ => false end | _ => false end.

(** Claims in the store that are still to be paid. *)
Definition pending (m : store) : nat := count_if pending_entry m.

Definition is_transfer (o : op) : bool := match o with HttpWallet (Transfer _ _ _ _ _ _) => true | _ => false end.

(** Payments a trace of calls orders from the wallet. *)
Definition transfers (tr : list op) : nat := length (List.filter is_transfer tr).

Lemma transfers_snoc tr o : transfers (tr ++ [o]) = (transfers tr + if is_transfer o then 1 else 0)%nat.
Proof. unfold transfers. rewrite List.filter_app, length_app. cbn. by destruct (is_transfer o). Qed.

(** The account: payments ordered and payments to come, and the sessions left to claim on. *)
Definition within (p u : nat) (tr : list op) (m : store) : Prop :=
  (transfers tr + pending m <= p)%nat /\ (unclaimed m <= u)%nat.

(** Calls that order nothing and write nothing but deletions. *)
Definition quiet (o : op) : bool := match o with HttpPut _ _ _ => false | _ => negb (is_transfer o) end.

Lemma quiet_within p u tr m o r m' :
  within p u tr m -> reliable m o r m' -> quiet o = true -> within p u (tr ++ [o]) m'.
Proof.
  intros [Hp Hu] Ha Hq. assert (m' ⊆ m) as Hs.
  { destruct o; try done; cbn in Ha; destruct Ha as [Ha _]; try (by rewrite Ha).
    destruct Ha as [->| ->]; [apply delete_subseteq|done]. }
  pose proof (count_if_mono pending_entry _ _ Hs). pose proof (count_if_mono unclaimed_entry _ _ Hs).
  unfold within, pending, unclaimed in *. rewrite transfers_snoc.
  assert (is_transfer o = false) as -> by (destruct o; try done; by destruct c). lia.
Qed.

Definition all_quiet {A} (p : prog ret A) : Prop := paths (fun o => quiet o = true) (fun _ _ => True) (fun _ => True) p.

Lemma quiet_wp {A} (q : prog ret A) p u : all_quiet q -> forall tr m,
  within p u tr m -> wp reliable (fun _ tr m => within p u tr m) q tr m.
Proof.
  induction q as [a|e|o k IH]; intros Hq tr m Hw; [done|done|]. destruct Hq as [Ho Hk]. intros r m' Ha.
  apply IH; [by apply Hk|]. by eapply quiet_within.
Qed.

Lemma quiet_bind {A B} (q : prog ret A) (f : A -> prog ret B) p u tr m :
  all_quiet q -> within p u tr m ->
  (forall a tr m, within p u tr m -> wp reliable (fun _ tr m => within p u tr m) (f a) tr m) ->
  wp reliable (fun _ tr m => within p u tr m) (bind q f) tr m.
Proof.
  intros Hq Hw Hf. apply wp_bind. eapply wp_mono; [|by apply quiet_wp]. intros [a|e] tr1 m1 H1; [by apply Hf|done].
Qed.

Ltac calm := unfold all_quiet, kv_get, kv_delete, kv_list, print;
  repeat first [done | progress (cbn [bind paths lift negb]) | apply paths_bind
  | match goal with |- paths _ _ _ (await _) => ask; [done|intros [?|?] _] end | case_test | case_match ].

Lemma kv_delete_quiet k : all_quiet (kv_delete k).
Proof. calm. Qed.

Lemma print_quiet s : all_quiet (print s).
Proof. calm. Qed.

Lemma kv_list_quiet prefix n : all_quiet (kv_list prefix n).
Proof. calm. Qed.

(** A put of an entry that is neither pending nor open to a claim. *)
Lemma kv_put_within k v ttl p u tr m :
  pending_entry v = false -> unclaimed_entry v = false -> within p u tr m ->
  wp reliable (fun _ tr m => within p u tr m) (kv_put k v ttl) tr m.
Proof.
  intros Hp Hu [Hwp Hwu]. unfold kv_put. apply wp_bind; ask. intros r m' [-> ->]. cbn [Z.eqb Pos.eqb negb wp].
  pose proof (count_if_insert pending_entry m k v Hp). pose proof (count_if_insert unclaimed_entry m k v Hu).
  unfold within, pending, unclaimed in *. rewrite transfers_snoc. cbn [is_transfer]. lia.
Qed.

(** Settling a pending claim frees one payment. *)
Lemma settle_within {A} k c c' ttl p u tr m (next : prog ret A) :
  (transfers tr + pending m <= S p)%nat -> (unclaimed m <= u)%nat ->
  m !! k = Some (Claim c) -> cstatus c = Pending -> cstatus c' <> Pending -> all_quiet next ->
  wp reliable (fun _ tr m => within p u tr m) (bind (kv_put k (Claim c') ttl) (fun _ => next)) tr m.
Proof.
  intros Hp Hu Hk Hc Hc' Hn. apply wp_bind. unfold kv_put. apply wp_bind; ask. intros r m' [-> ->]. cbn [Z.eqb Pos.eqb negb wp].
  apply quiet_wp; [done|]. assert (pending_entry (Claim c') = false) as Hf by (cbn; by destruct (cstatus c')).
  pose proof (count_if_replace pending_entry m m k (Claim c') (Claim c) (reflexivity m) Hk ltac:(cbn; by rewrite Hc)) as Hr.
  rewrite Hf in Hr. pose proof (count_if_insert unclaimed_entry m k (Claim c') eq_refl).
  unfold within, pending, unclaimed in *. rewrite transfers_snoc. cbn [is_transfer]. lia.
Qed.

Lemma process_claim_within qkey p u tr m :
  within p u tr m -> wp reliable (fun _ tr m => within p u tr m) (process_claim qkey) tr m.
Proof.
  intros Hw. unfold process_claim. apply wp_bind.
  eapply wp_mono with (Q := fun r tr' m' => within p u tr' m' /\
    forall v, r = Ok (Some v) -> m' !! ("claim:" +:+ claim_id_of qkey) = Some v).
  2: { unfold kv_get. apply wp_bind; ask. intros r m' Ha. pose proof (quiet_within _ _ _ _ _ _ _ Hw Ha eq_refl) as Hw'.
       destruct Ha as [-> (s & v & -> & Hv)]. destruct (s =? 404); [done|]. destruct (Z.eqb_spec s 200) as [Hs|Hs]; cbn [negb].
       - cbn [wp]. split; [done|]. intros v' [= ->]. by rewrite (Hv Hs).
       - unfold print. apply wp_bind; ask. intros r m' Ha. pose proof (quiet_within _ _ _ _ _ _ _ Hw' Ha eq_refl) as Hw2. by destruct r. }
  intros [rec|e] tr1 m1 [H1 Hk]; [|done]. destruct rec as [v|]; [|by apply quiet_wp; [apply kv_delete_quiet|]].
  specialize (Hk v eq_refl). destruct v as [ss|c|f|t]; [by apply quiet_wp; [apply kv_delete_quiet|]| |by apply quiet_wp; [apply kv_delete_quiet|]|].
  2: { case_test; [by apply quiet_wp; [apply kv_delete_quiet|]|done]. }
  destruct (cstatus c) eqn:Hc; [|by apply quiet_wp; [apply kv_delete_quiet|]..].
  destruct (amount_atomic c) as [amt|]; [|done]. destruct (amt <? MIN_PAYOUT).
  { destruct H1 as [H1p H1u]. eapply settle_within; [|done|exact Hk|done|done|apply kv_delete_quiet]. lia. }
  unfold print at 1. apply wp_bind; ask. intros r m' [-> [[] ->]]. apply wp_bind. unfold wallet. apply wp_bind; ask.
  intros r m' [-> (s & b & rep & -> & Hrep)].
  assert (transfers ((tr1 ++ [Print ("[pay] " +:+ claim_id_of qkey)]) ++ [HttpWallet (Transfer amt (address c) 0 [1; 2; 3; 4; 5]%Z 0 true)])
          + pending m1 <= S p)%nat as Hp.
  { destruct H1 as [H1p H1u]. rewrite !transfers_snoc. cbn [is_transfer]. lia. }
  assert (forall msg, all_quiet (do! kv_delete qkey in print msg)) as Hq.
  { intros msg. apply paths_bind. eapply paths_mono; [|apply kv_delete_quiet]. intros [[]|?] _; [apply print_quiet|done]. }
  destruct H1 as [H1p H1u].
  assert (forall err, err <> ""%string -> wp reliable (fun _ tr m => within p u tr m)
            (if String.eqb err "" then Throw "AttributeError" else do! kv_put ("claim:" +:+ claim_id_of qkey) (Claim (claim_failed c err)) 86400 in
             do! kv_delete qkey in print ("[pay] FAIL " +:+ claim_id_of qkey))
            ((tr1 ++ [Print ("[pay] " +:+ claim_id_of qkey)]) ++ [HttpWallet (Transfer amt (address c) 0 [1; 2; 3; 4; 5]%Z 0 true)]) m1) as Hfail.
  { intros err He. apply String.eqb_neq in He as ->. by eapply settle_within. }
  destruct (negb (s =? 200)); [by apply Hfail|]. destruct rep as [e|e|[e|]|res]; [by apply Hfail|done|apply Hfail|by apply Hfail|].
  { cbn in Hrep |- *. congruence. }
  by eapply settle_within.
Qed.

Lemma process_claims_within p u tr m :
  within p u tr m -> wp reliable (fun _ tr m => within p u tr m) process_claims tr m.
Proof.
  intros Hw. apply quiet_bind; [apply kv_list_quiet|done|]. intros keys. induction keys as [|k keys IH]; intros tr1 m1 H1; [done|].
  cbn [process_keys]. apply wp_bind. eapply wp_mono; [|by apply process_claim_within].
  intros [[]|e] tr2 m2 H2; [by apply IH|done].
Qed.

Lemma update_balance_within p u tr m :
  within p u tr m -> wp reliable (fun _ tr m => within p u tr m) update_balance tr m.
Proof.
  intros Hw. unfold update_balance. apply quiet_bind; [unfold wallet; calm|done|]. intros [res|err] tr1 m1 H1.
  - apply quiet_bind; [calm|done|]. intros now tr2 m2 H2. by apply kv_put_within.
  - case_test; [done|]. by apply quiet_wp; [apply print_quiet|].
Qed.

Lemma wp_catch {A} (Q : res A -> list op -> store -> Prop) (q : prog ret A) h : forall tr m,
  wp reliable (fun r tr m => match r with Ok a => Q (Ok a) tr m | Err e => wp reliable Q (h e) tr m end) q tr m ->
  wp reliable Q (catch q h) tr m.
Proof. induction q as [a|e|o k IH]; intros tr m; cbn [wp catch]; [done|done|]. intros H r m' Hr. by apply IH, H. Qed.

Lemma iteration_within last p u tr m :
  within p u tr m -> wp reliable (fun _ tr m => within p u tr m) (iteration last) tr m.
Proof.
  intros Hw. unfold iteration. apply quiet_bind; [calm|done|]. intros now tr1 m1 H1. apply wp_bind.
  eapply wp_mono with (Q := fun _ tr m => within p u tr m).
  2: { apply wp_catch. case_test; [|done]. apply wp_bind. eapply wp_mono; [|by apply update_balance_within].
       by intros [[]|e] tr2 m2 H2. }
  intros [[last' [e|]]|e] tr2 m2 H2; [..|done].
  - by apply quiet_bind; [apply print_quiet|done|].
  - apply wp_catch, wp_bind. eapply wp_mono; [|by apply process_claims_within].
    intros [[]|e] tr3 m3 H3; [done|]. by apply quiet_bind; [apply print_quiet|done|].
Qed.

(** ** Worker and daemon together *)

(** The store itself as the worker's services. *)
Definition store_services : Services := {|
  WordmineServices.world := store;
  WordmineServices.answers := store_step;
  WordmineServices.written := fun _ _ _ => True;
|}.

Definition store_contents : @StoreLaws store_services.
Proof. refine (@Build_StoreLaws store_services (fun m => m) _). by intros. Defined.

(** A request never leaves more claims pending than it wrote. *)
Lemma exec_pending {A} (q : prog Wordmine.ret A) m tr m' out :
  exec store_step q m tr m' out -> (pending m' <= pending m + claims tr)%nat.
Proof.
  induction 1 as [a m|e m|o k m r m1 tr m2 out Ha _ IH]; [cbn; lia..|].
  change (o :: tr) with ([o] ++ tr). rewrite claims_app.
  assert (pending m1 <= pending m + claims [o])%nat; [|lia].
  destruct Ha as (c & Hc & He). apply (count_if_mono pending_entry) in Hc. unfold pending.
  destruct o; cbn in He; destruct_and?; subst; try (cbn; lia).
  destruct v as [s|cl|f|t]; cbn [claims is_claim List.filter length]; unfold claims; cbn [List.filter is_claim length].
  2: { pose proof (count_if_insert_any pending_entry c k0 (Claim cl)). destruct He as [->|[-> _]]; lia. }
  all: pose proof (fun v H => count_if_insert pending_entry c k0 v H) as Hi.
  all: destruct He as [->|[-> _]]; [|lia].
  all: match goal with |- context [<[_ := ?v]> _] => specialize (Hi v eq_refl) end; lia.
Qed.

(** Requests and rounds of the daemon in any order, entries expiring in between; [n] counts the payments ordered. *)
Inductive system (e : env) : store -> list request -> nat -> store -> Prop :=
| system_done m : system e m [] 0 m
| system_expire m m1 reqs n m2 : m1 ⊆ m -> system e m1 reqs n m2 -> system e m reqs n m2
| system_request m req reqs tr m1 out n m2 :
    exec store_step (fetch req e) m tr m1 out -> system e m1 reqs n m2 -> system e m (req :: reqs) n m2
| system_daemon m last tr m1 out reqs n m2 :
    exec reliable (iteration last) m tr m1 out -> system e m1 reqs n m2 -> system e m reqs (transfers tr + n) m2.

(** C7: payouts are backed by games: starting from an empty store, when requests and rounds of the daemon run one after another,
    the payments ordered from the wallet, plus the claims still pending, plus the sessions still open to a claim, are at most the
    start requests served.  The wallet may answer any result or error of its protocol, entries may expire, and the daemon's reads, lists and deletes may fail;
    its puts succeed. *)
Theorem payouts_backed e reqs n m :
  system e ∅ reqs n m -> (n + pending m + unclaimed m <= length (List.filter is_start reqs))%nat.
Proof.
  cut (forall m0, system e m0 reqs n m ->
    n + pending m + unclaimed m <= length (List.filter is_start reqs) + pending m0 + unclaimed m0)%nat.
  { intros H Hs. specialize (H _ Hs). unfold pending, unclaimed in *. rewrite !count_if_empty in H. lia. }
  intros m0 Hs. induction Hs as [m0|m0 m1 reqs n m2 Hsub _ IH|m0 req reqs tr m1 out n m2 He _ IH|m0 last tr m1 out reqs n m2 He _ IH].
  - cbn. lia.
  - apply (count_if_mono pending_entry) in Hsub as Hp. apply (count_if_mono unclaimed_entry) in Hsub as Hu.
    unfold pending, unclaimed in *. lia.
  - pose proof (exec_pending _ _ _ _ _ He) as Hp.
    pose proof (@fetch_within store_services store_contents req e (unclaimed m0) [] m0 (le_n _)) as Hw.
    apply (wp_exec _ _ _ _ _ _ _ He []) in Hw. unfold WordmineLedger.within in Hw. cbn [app contents store_contents] in Hw.
    cbn [List.filter]. destruct (is_start req); cbn [length]; lia.
  - pose proof (iteration_within last (pending m0) (unclaimed m0) [] m0 (conj (le_n _) (le_n _))) as Hw.
    apply (wp_exec _ _ _ _ _ _ _ He []) in Hw. cbn [app] in Hw. destruct Hw as [Hp Hu]. lia.
Qed.

(** ** The daemon keeps the layout of the namespace *)

Definition put_ok (o : op) : Prop := match o with HttpPut k v _ => entry_ok k v | _ => True end.

(** Values read follow the layout, and the wallet's amounts are unsigned. *)
Definition read_ok (o : op) : res (ret o) -> Prop :=
  match o with
  | HttpGet k => fun r => forall v, r = Ok (200, Some v) -> entry_ok k v
  | HttpWallet _ => fun r => forall s b res, r = Ok (s, b, RpcResult res) ->
      0 <= default 0 (r_balance res) /\ 0 <= default 0 (r_unlocked res)
  | _ => fun _ => True
  end.

Abbreviation lays_out := (paths (ret := ret) put_ok read_ok).

Lemma coins_ok z : 0 <= default 0 z -> json_number_ok (coins z).
Proof.
  intros Hz. assert (num_nonneg (coins z)) as Hn.
  { apply num_div_nonneg; [by apply num_of_Z_nonneg|vm_compute; done]. }
  destruct (coins z) as [| | |[] m e]; done.
Qed.

Ltac lay := unfold print; repeat first [done | progress (cbn [bind paths lift negb]) | apply paths_bind
  | match goal with |- paths _ _ _ (await _) => ask; [done|intros [?|?] _] end | case_test | case_match ].

Lemma kv_put_lays k v ttl : entry_ok k v -> lays_out (fun _ => True) (kv_put k v ttl).
Proof. intros H. unfold kv_put. apply paths_bind; ask; [done|]. intros [s|e] _; [|done]. lay. Qed.

Lemma kv_get_lays k :
  lays_out (fun r => forall v, r = Ok (Some v) -> entry_ok k v) (kv_get k).
Proof.
  unfold kv_get. apply paths_bind; ask; [done|]. intros [[s v]|e] H; [|done]. case_test; [done|].
  destruct (Z.eqb_spec s 200) as [->|Hs]; cbn [negb paths]; [intros v' [= ->]; by apply H|].
  unfold print. apply paths_bind; ask; [done|]. by intros [?|?] _.
Qed.

Lemma kv_delete_lays k : lays_out (fun _ => True) (kv_delete k).
Proof. unfold kv_delete. lay. Qed.

Lemma wallet_lays c :
  lays_out (fun r => forall res, r = Ok (inl res) -> 0 <= default 0 (r_balance res) /\ 0 <= default 0 (r_unlocked res)) (wallet c).
Proof.
  unfold wallet. apply paths_bind; ask; [done|]. intros [[[s b] rep]|e] H; [|done]. case_test; [done|].
  destruct rep as [?|?|?|res]; try done. intros res' [= <-]. by apply (H s b).
Qed.

Lemma settle_lays {A} k c c' (next : prog ret A) Q :
  claim_ok c -> address c' = address c -> amount c' = amount c -> amount_atomic c' = amount_atomic c ->
  (forall e, Q (Err e)) -> lays_out Q next -> lays_out Q (bind (kv_put ("claim:" +:+ k) (Claim c') 86400) (fun _ => next)).
Proof.
  intros [H1 H2 H3] E1 E2 E3 HQ Hn. apply paths_bind. eapply paths_mono; [|apply kv_put_lays, entry_claim].
  - by intros [[]|e] _.
  - split; [by rewrite E1|by rewrite E2|by rewrite E3].
Qed.

Lemma process_claim_lays qkey : lays_out (fun _ => True) (process_claim qkey).
Proof.
  unfold process_claim. apply paths_bind. eapply paths_mono; [|apply kv_get_lays].
  intros [[v|]|e] Hv; [|apply kv_delete_lays|done].
  destruct (read_claim _ _ (Hv v eq_refl)) as (c & -> & Hc).
  assert (forall msg, lays_out (fun _ => True) (do! kv_delete qkey in print msg)) as Hd.
  { intros msg. apply paths_bind. eapply paths_mono; [|apply kv_delete_lays]. intros [[]|e] _; lay. }
  destruct (cstatus c); [|apply kv_delete_lays..]. destruct (amount_atomic c) as [amt|] eqn:Ea; [|done].
  case_test; [by apply (settle_lays _ c); [..|apply kv_delete_lays]|].
  unfold print at 1. apply paths_bind; ask; [done|]. intros [[]|e] _; [|done]. apply paths_bind. eapply paths_mono; [|apply wallet_lays].
  intros [[res|err]|e] _; [..|done]; [|case_test; [done|]]; apply (settle_lays _ c); try done; apply Hd.
Qed.

Lemma process_claims_lays : lays_out (fun _ => True) process_claims.
Proof.
  unfold process_claims. apply paths_bind. eapply paths_mono with (Q := fun _ => True); [|unfold kv_list; lay].
  intros [keys|e] _; [|done]. induction keys as [|k keys IH]; [done|]. cbn [process_keys]. apply paths_bind.
  eapply paths_mono; [|apply process_claim_lays]. by intros [[]|e] _.
Qed.

Lemma update_balance_lays : lays_out (fun _ => True) update_balance.
Proof.
  unfold update_balance. apply paths_bind. eapply paths_mono; [|apply wallet_lays].
  intros [[res|err]|e] Hres; [|lay|done]. destruct (Hres res eq_refl) as [Hb Hu].
  apply paths_bind; ask; [done|]. intros [now'|e] _; [|done]. apply kv_put_lays.
  split; [done|done|]. intros _. eexists. split; [done|]. split; cbn; intros x [= <-]; by apply coins_ok.
Qed.

(** C37: the daemon only writes what the layout allows: if what it reads follows the layout, so does every entry it puts, so the
    worker's invariant holds with the daemon among the other writers. *)
Theorem daemon_keeps_layout {W} (ans : W -> forall o, res (ret o) -> W -> Prop) last w tr w' out :
  (forall w o r w', ans w o r w' -> read_ok o r) ->
  exec ans (iteration last) w tr w' out -> Forall put_ok tr.
Proof.
  intros Hans He. refine (proj2 (proj2 (exec_safe ans (fun _ => True) put_ok read_ok (fun _ => True) _ _ _ _ _ _ He I _))).
  { intros w1 o r w2 _ _ Ha. split; [done|]. by apply (Hans _ _ _ _ Ha). }
  unfold iteration. apply paths_bind; ask; [done|]. intros [now|e] _; [|done]. apply paths_bind.
  eapply paths_mono with (Q := fun _ => True).
  - intros [[last' [e'|]]|e'] _; [lay| |done]. apply paths_catch, paths_bind.
    eapply paths_mono; [|apply process_claims_lays]. intros [[]|e'] _; lay.
  - apply paths_catch. case_test; [|done]. apply paths_bind. eapply paths_mono; [|apply update_balance_lays]. by intros [[]|e'] _.
Qed.

(** ** When calls fail *)

(** A store and a wallet that pays; gets, puts and deletes can be made to fail with status 500. *)
Record bank : Type := mk_bank { b_kv : store; b_sent : list (Z * string); b_fail : op -> bool }.

Definition keys_with (prefix : string) (m : store) : list string :=
  List.filter (String.prefix prefix) (map fst (map_to_list m)).

Definition bank_answer (w : bank) (o : op) : res (ret o) * bank :=
  match o return res (ret o) * bank with
  | HttpGet k => (Ok (if b_fail w o then (500, None) else match b_kv w !! k with Some v => (200, Some v) | None => (404, None) end), w)
  | HttpPut k v _ => if b_fail w o then (Ok 500, w) else (Ok 200, mk_bank (<[k := v]> (b_kv w)) (b_sent w) (b_fail w))
  | HttpDelete k => if b_fail w o then (Ok 500, w) else (Ok 200, mk_bank (delete k (b_kv w)) (b_sent w) (b_fail w))
  | HttpList prefix _ => (Ok (200, keys_with prefix (b_kv w)), w)
  | HttpWallet (Transfer amt a _ _ _ _) =>
      (Ok (200, ""%string, RpcResult (mk_result None None (Some "tx"%string) (Some 1))),
       mk_bank (b_kv w) ((amt, a) :: b_sent w) (b_fail w))
  | HttpWallet _ => (Ok (200, ""%string, RpcResult (mk_result (Some (5 * 10 ^ 12)) (Some (3 * 10 ^ 12)) None None)), w)
  | TimeMs => (Ok 1000, w)
  | Print _ => (Ok tt, w)
  end.

Definition demo_pending : claim := mk_claim demo_address num_one (Some (10 ^ 12)) Pending 0 [].

Definition queued : store :=
  <["queue:7:c_1"%string := Text "c_1"]> (<["claim:c_1"%string := Claim demo_pending]> ∅).

(** One round with a chosen failure. *)
Definition round (fail : op -> bool) (w : bank) : bank :=
  (run bank_answer (iteration 0) (mk_bank (b_kv w) (b_sent w) fail)).2.

Definition never (o : op) : bool := false.

(** A claim is paid once when the calls succeed, and the second round finds nothing to do; but a put and a delete that fail after the
    transfer are only printed, and the next round pays the same claim again. *)
Theorem double_payment :
  let start := mk_bank queued [] never in
  let outage o := match o with HttpPut _ _ _ | HttpDelete _ => true | _ => false end in
  length (b_sent (round never (round never start))) = 1%nat /\
  b_sent (round never (round outage start)) = [(10 ^ 12, demo_address); (10 ^ 12, demo_address)].
Proof. vm_compute. split; reflexivity. Qed.

(** A read of the claim that fails is taken for a claim that is gone: the queue entry is deleted, the claim stays pending, and later
    rounds never pay it. *)
Theorem failed_read_drops_claim :
  let outage o := match o with HttpGet _ => true | _ => false end in
  let w := round never (round never (round outage (mk_bank queued [] never))) in
  b_sent w = [] /\ b_kv w !! "queue:7:c_1"%string = None /\
  b_kv w !! "claim:c_1"%string = Some (Claim demo_pending).
Proof. vm_compute. split_and!; reflexivity. Qed.

(** ** Witnesses *)

Lemma bank_reliable w o :
  b_fail w = never -> reliable (b_kv w) o (bank_answer w o).1 (b_kv (bank_answer w o).2) /\ b_fail (bank_answer w o).2 = never.
Proof.
  intros Hf. destruct o; cbn; rewrite ?Hf; cbn; try (by eauto).
  - split; [|done]. split; [done|]. destruct (b_kv w !! k) eqn:E; eexists _, _; split; done.
  - destruct c; cbn; (split; [split; [done|by eexists _, _, _]|done]).
Qed.

Lemma bank_exec {A} (q : prog ret A) : forall w, b_fail w = never ->
  exec reliable q (b_kv w) (run_trace bank_answer q w) (b_kv (run bank_answer q w).2) (run bank_answer q w).1.
Proof.
  induction q as [a|e|o k IH]; intros w Hf; cbn [run run_trace]; [constructor..|].
  pose proof (bank_reliable w o Hf) as [Hr Hf']. destruct (bank_answer w o) as [r w']. eapply exec_vis; [exact Hr|]. by apply IH.
Qed.

Lemma sim_exec_store {A} (q : prog Wordmine.ret A) : forall w,
  exec store_step q (kv w) (run_trace sim_answer q w) (kv (run sim_answer q w).2) (run sim_answer q w).1.
Proof.
  induction q as [a|e|o k IH]; intros w; cbn [run run_trace]; [constructor..|].
  destruct (sim_answer w o) as [r w'] eqn:E. eapply exec_vis; [|apply IH].
  exists (kv w). split; [done|]. destruct o; injection E as <- <-; cbn; auto. split; [done|]. by intros v [= <-].
Qed.

Lemma sim_requests_system e reqs : forall w n m,
  system e (kv (sim_serve e reqs w).2) [] n m -> system e (kv w) reqs n m.
Proof.
  induction reqs as [|req reqs IH]; intros w n m Hs; [done|]. eapply system_request; [apply sim_exec_store|].
  apply IH. cbn [sim_serve] in Hs. by destruct (sim_serve e reqs _) as [[rs tr] w'].
Qed.

(** A round of the daemon publishes the balance, then a game is started, won and claimed, then a round pays it. *)
Definition demo_game : list request :=
  [start_request; guess_request (demo_id 1) (nth 0 Words.WORDS ""%string); claim_request (demo_id 1) demo_address].
Definition demo_balance : bank := (run bank_answer (iteration (-40000)) (mk_bank ∅ [] never)).2.
Definition demo_claimed : sim := (sim_serve demo_env demo_game (mk_sim (b_kv demo_balance) [] 2000 0 [])).2.
Definition demo_round : prog ret Z := iteration 0.
Definition demo_paid : bank := (run bank_answer demo_round (mk_bank (kv demo_claimed) [] never)).2.

Lemma payouts_backed_witness :
  system demo_env ∅ demo_game 1 (b_kv demo_paid) /\
  (1 + pending (b_kv demo_paid) + unclaimed (b_kv demo_paid) <= length (List.filter is_start demo_game))%nat.
Proof.
  assert (system demo_env ∅ demo_game 1 (b_kv demo_paid)) as Hs.
  { change 1%nat with (transfers (run_trace bank_answer (iteration (-40000)) (mk_bank ∅ [] never)) + 1)%nat.
    eapply system_daemon; [apply (bank_exec (iteration (-40000)) (mk_bank ∅ [] never) eq_refl)|].
    apply (sim_requests_system demo_env demo_game (mk_sim (b_kv demo_balance) [] 2000 0 [])).
    assert (1 = transfers (run_trace bank_answer demo_round (mk_bank (kv demo_claimed) [] never)) + 0)%nat as ->
      by (vm_compute; reflexivity).
    eapply system_daemon; [apply (bank_exec demo_round (mk_bank (kv demo_claimed) [] never) eq_refl)|apply system_done]. }
  split; [exact Hs|]. apply (payouts_backed demo_env demo_game _ _ Hs).
Defined.

(** Services that always hold one pending claim. *)
Definition still_answer (w : unit) (o : op) : res (ret o) * unit :=
  (match o return res (ret o) with
   | HttpGet k => Ok (if String.eqb k "claim:c_1" then (200, Some (Claim demo_pending)) else (404, None))
   | HttpPut _ _ _ => Ok 200
   | HttpDelete _ => Ok 200
   | HttpList _ _ => Ok (200, ["queue:7:c_1"%string])
   | HttpWallet _ => Ok (200, ""%string, RpcResult (mk_result (Some 7) (Some 5) None None))
   | TimeMs => Ok 1000
   | Print _ => Ok tt
   end, w).

Lemma daemon_keeps_layout_witness :
  length (List.filter is_transfer (run_trace still_answer (iteration (-40000)) tt)) = 1%nat /\
  Forall put_ok (run_trace still_answer (iteration (-40000)) tt).
Proof.
  split; [vm_compute; reflexivity|].
  refine (daemon_keeps_layout (fun w o r w' => still_answer w o = (r, w')) _ _ _ _ _ _
            (run_exec still_answer (iteration (-40000)) tt)).
  intros w o r w'. destruct o; intros [= <- <-]; try done; cbn [read_ok].
  - intros v. destruct (String.eqb_spec k "claim:c_1") as [->|]; [|done]. intros [= <-].
    apply (entry_claim "c_1"). split; [vm_compute; reflexivity|vm_compute; done|]. by exists (10 ^ 12).
  - intros s b res [= <- <- <-]. cbn. lia.
Defined.
