(* ===== verification/Page.v ===== *)
(** * Page: the game's page in the browser (wordmine/public/game.js)

    The page is one state: the variables of the script, the elements of the document it touches, the remembered address,
    the timers that are set and the promises that are awaited.  A callback of the script is an action on that state which
    may throw, keeping the changes made before; an asynchronous function is cut at its [await]: the first part leaves a
    continuation among the awaited promises, the second part is the action that runs when the answer arrives.  [step] is one turn of
    the event loop.  Timers and answers may come in any order, and callbacks may run whether or not their element is visible. *)
From S2P Require Import Prelude Wallet JsCore Number Json.
Local Open Scope Z_scope.
Local Open Scope glaciem_scope.

(** ** The document *)

(** The elements of [els], named as there; [donate] and [captchaWrap] are never written. *)
Inductive el : Type :=
| els_start | els_game | els_win | els_loss | els_cooldown | els_playBtn | els_faucetBal | els_faucetAddr
| els_maxReward | els_minReward | els_winGuesses | els_winReward | els_claimAddress | els_claimBtn | els_claimStatus
| els_lossWord | els_cooldownTime | els_toast | els_walletPanel | els_walletEmpty | els_walletSaved | els_walletSavedAddr
| els_walletChangeConfirm | els_walletChangeCurrentAddr | els_walletChangeCb | els_walletChangeGoBtn | els_genWalletBtn
| els_walletShow | els_walletShowAddr | els_walletShowSeed | els_seedCopyBtn | els_seedConfirmCb | els_seedContinue.

#[export] Instance el_eq_dec : EqDecision el.
Proof. solve_decision. Defined.

Record element : Type := mk_element {
  hidden : bool;
  disabled : bool;
  checked : bool;
  text : string;                    (** [textContent] *)
  value : string;
  color : string;                   (** [style.color] *)
  classes : list string;
  dataset : gmap string string;
  words : list string;              (** the children [showSeed] appends *)
}.

Definition set_hidden b e := mk_element b (disabled e) (checked e) (text e) (value e) (color e) (classes e) (dataset e) (words e).
Definition set_disabled b e := mk_element (hidden e) b (checked e) (text e) (value e) (color e) (classes e) (dataset e) (words e).
Definition set_checked b e := mk_element (hidden e) (disabled e) b (text e) (value e) (color e) (classes e) (dataset e) (words e).
Definition set_text s e := mk_element (hidden e) (disabled e) (checked e) s (value e) (color e) (classes e) (dataset e) (words e).
Definition set_value s e := mk_element (hidden e) (disabled e) (checked e) (text e) s (color e) (classes e) (dataset e) (words e).
Definition set_color s e := mk_element (hidden e) (disabled e) (checked e) (text e) (value e) s (classes e) (dataset e) (words e).
Definition set_classes l e := mk_element (hidden e) (disabled e) (checked e) (text e) (value e) (color e) l (dataset e) (words e).
Definition set_data k s e :=
  mk_element (hidden e) (disabled e) (checked e) (text e) (value e) (color e) (classes e) (<[k := s]> (dataset e)) (words e).
Definition set_words l e := mk_element (hidden e) (disabled e) (checked e) (text e) (value e) (color e) (classes e) (dataset e) l.

(** [classList.add] and [classList.remove]. *)
Definition class_add (c : string) (l : list string) : list string := if bool_decide (c ∈ l) then l else l ++ [c].
Definition class_remove (c : string) (l : list string) : list string := List.filter (fun d => negb (String.eqb d c)) l.

(** A cell of the board; the one with the id [c<r><c>] is the entry [(r, c)] of the board. *)
Record cell : Type := mk_cell { cell_text : string; cell_class : list string }.

(** A key of the on-screen keyboard. *)
Record key : Type := mk_key { key_token : string; key_label : string; key_class : list string }.

(** ** The state of the script *)

Record graded : Type := mk_graded { g_word : string; g_marks : jsval }.

Record vars : Type := mk_vars {
  sessionId : jsval;
  currentRow : Z;
  currentCol : Z;
  guesses : list graded;
  kbState : gmap string json;       (** a letter without an entry, or with undefined, has none here *)
  captchaToken : option string;
  gameOver : bool;
  walletMod : bool;                 (** whether the wallet module is loaded *)
}.

Definition set_sessionId x v := mk_vars x (currentRow v) (currentCol v) (guesses v) (kbState v) (captchaToken v) (gameOver v) (walletMod v).
Definition set_currentRow x v := mk_vars (sessionId v) x (currentCol v) (guesses v) (kbState v) (captchaToken v) (gameOver v) (walletMod v).
Definition set_currentCol x v := mk_vars (sessionId v) (currentRow v) x (guesses v) (kbState v) (captchaToken v) (gameOver v) (walletMod v).
Definition set_guesses x v := mk_vars (sessionId v) (currentRow v) (currentCol v) x (kbState v) (captchaToken v) (gameOver v) (walletMod v).
Definition set_kbState x v := mk_vars (sessionId v) (currentRow v) (currentCol v) (guesses v) x (captchaToken v) (gameOver v) (walletMod v).
Definition set_captchaToken x v := mk_vars (sessionId v) (currentRow v) (currentCol v) (guesses v) (kbState v) x (gameOver v) (walletMod v).
Definition set_gameOver x v := mk_vars (sessionId v) (currentRow v) (currentCol v) (guesses v) (kbState v) (captchaToken v) x (walletMod v).
Definition set_walletMod x v := mk_vars (sessionId v) (currentRow v) (currentCol v) (guesses v) (kbState v) (captchaToken v) (gameOver v) x.

(** A request of [api]: the path under /api and the body of a POST. *)
Record api_call : Type := mk_call { api_path : string; api_body : option json }.

(** What leaves the script: requests, the import, the clipboard, the storage and the reload. *)
Inductive effect : Type :=
| Fetch (c : api_call)
| Import
| Clipboard (s : string)
| Save (addr : string)
| Forget
| Reload.

(** Callbacks given to [setTimeout] and [setInterval]. *)
Inductive task : Type :=
| HideToast
| Flip (r c : Z) (marks : jsval) (letters : list string)
| FlipEnd (r c : Z) (marks : jsval) (letters : list string)
| Unshake (r c : Z)
| PaintKeyboard
| ShowWin (data : jsval)
| ShowLoss (answer : jsval)
| Upd (secsLeft : number)
| Tick (claimId : jsval) (tries : Z)
| RefreshFaucet
| DoReload.

(** What is awaited, with the local variables still needed. *)
Inductive cont : Type :=
| InSubmitRow (guess : string)
| InStartGame
| InSubmitClaim
| InTick (claimId : jsval) (tries : Z)
| InRefreshFaucet
| InGenerate
| InCopySeed
| InCopyAddress.

Record page : Type := mk_page {
  script : vars;
  dom : el -> element;
  board : gmap (Z * Z) cell;
  kb : list key;
  storage : option string;                   (** [localStorage]'s entry wordmine.address *)
  timers : list (Z * task);                  (** with their delay in milliseconds *)
  awaited : list cont;
  trace : list effect;                       (** the latest first *)
}.

(** ** Actions *)

Definition act (A : Type) : Type := page -> res A * page.

Definition pure {A} (a : A) : act A := fun p => (Ok a, p).
Definition throw {A} (e : string) : act A := fun p => (Err e, p).
Definition act_bind {A B} (m : act A) (k : A -> act B) : act B :=
  fun p => match m p with (Ok a, p') => k a p' | (Err e, p') => (Err e, p') end.
Definition of_res {A} (r : res A) : act A := fun p => (r, p).
Definition get : act page := fun p => (Ok p, p).

Notation "'let%' x := m 'in' k" := (act_bind m (fun x => k))
  (at level 10, x pattern, m at level 100, k at level 200) : glaciem_scope.
Notation "m ;% k" := (act_bind m (fun _ => k)) (at level 90, k at level 200, right associativity) : glaciem_scope.

Definition skip : act unit := pure tt.

Definition var (f : vars -> vars) : act unit := fun p =>
  (Ok tt, mk_page (f (script p)) (dom p) (board p) (kb p) (storage p) (timers p) (awaited p) (trace p)).
Definition on (x : el) (f : element -> element) : act unit := fun p =>
  (Ok tt, mk_page (script p) (fun y => if bool_decide (y = x) then f (dom p y) else dom p y) (board p) (kb p) (storage p)
            (timers p) (awaited p) (trace p)).
Definition on_board (f : gmap (Z * Z) cell -> gmap (Z * Z) cell) : act unit := fun p =>
  (Ok tt, mk_page (script p) (dom p) (f (board p)) (kb p) (storage p) (timers p) (awaited p) (trace p)).
Definition on_kb (f : list key -> list key) : act unit := fun p =>
  (Ok tt, mk_page (script p) (dom p) (board p) (f (kb p)) (storage p) (timers p) (awaited p) (trace p)).
Definition on_timers (f : list (Z * task) -> list (Z * task)) : act unit := fun p =>
  (Ok tt, mk_page (script p) (dom p) (board p) (kb p) (storage p) (f (timers p)) (awaited p) (trace p)).
Definition on_awaited (f : list cont -> list cont) : act unit := fun p =>
  (Ok tt, mk_page (script p) (dom p) (board p) (kb p) (storage p) (timers p) (f (awaited p)) (trace p)).
Definition emit (e : effect) : act unit := fun p =>
  (Ok tt, mk_page (script p) (dom p) (board p) (kb p) (storage p) (timers p) (awaited p) (e :: trace p)).
Definition keep (a : option string) : act unit := fun p =>
  (Ok tt, mk_page (script p) (dom p) (board p) (kb p) a (timers p) (awaited p)
            (match a with Some s => Save s | None => Forget end :: trace p)).

Definition setTimeout (t : task) (ms : Z) : act unit := on_timers (fun l => l ++ [(ms, t)]).
Definition wait_for (e : effect) (k : cont) : act unit := emit e ;% on_awaited (fun l => l ++ [k]).

(** [for (let c = 0; c < n; c++) f(c)] *)
Fixpoint for_each {A} (l : list A) (f : A -> act unit) : act unit :=
  match l with [] => skip | x :: l' => f x ;% for_each l' f end.
Definition columns : list Z := [0; 1; 2; 3; 4].
Definition rows : list Z := [0; 1; 2; 3; 4; 5].

(** [el.textContent = v] *)
Definition text_of (v : jsval) : res string :=
  match v with None | Some JNull => Ok ""%string | Some j => json_to_string j end.

(** ** Helpers *)

Definition toast (msg : jsval) (ms : Z) : act unit :=
  let% s := of_res (text_of msg) in
  on els_toast (set_text s) ;%
  on els_toast (fun e => set_classes (class_add "show" (classes e)) e) ;%
  on_timers (List.filter (fun t => match t.2 with HideToast => false | _ => true end)) ;%
  setTimeout HideToast ms.
Definition toast_text (msg : string) : act unit := toast (Some (JStr msg)) 1800.

(** The request is in flight once [api] returns its promise. *)
Definition api (path : string) (body : option json) (k : cont) : act unit := wait_for (Fetch (mk_call path body)) k.

(** [n.toFixed(d)]: the integer nearest to [n * 10^d], the larger one of two. *)
Definition to_fixed (d : nat) (x : number) : string :=
  match x with
  | S754_nan | S754_infinity _ => NumberText.to_string x
  | S754_zero _ => of_chars ("0"%char :: (if decide (d = 0%nat) then [] else "."%char :: replicate d "0"%char))
  | S754_finite sign m e =>
      let '(p, q) := if 0 <=? e then (Zpos m * 2 ^ e, 1) else (Zpos m, 2 ^ (- e)) in
      if 10 ^ 21 * q <=? p then NumberText.to_string x
      else
        let n := (2 * p * 10 ^ Z.of_nat d + q) / (2 * q) in
        let digits := pad_start (S d) "0"%char (chars (string_of_Z n)) in
        let k := (length digits - d)%nat in
        of_chars ((if sign then ["-"%char] else [])
                  ++ take k digits ++ (if decide (d = 0%nat) then [] else "."%char :: drop k digits))
  end.

(** The amounts the worker sends are numbers or null. *)
Definition amount_of (v : jsval) : res (option number) :=
  match v with
  | None | Some JNull => Ok None
  | Some (JNum n) => Ok (Some n)
  | Some _ => Err "TypeError: n.toFixed is not a function"
  end.

Definition formatGlac (n : option number) : string :=
  match n with
  | None | Some S754_nan => "— GLAC"
  | Some (S754_zero _) => "0 GLAC"
  | Some n => to_fixed (if num_ltb n (num_div (num_of_Z 1) (num_of_Z 100)) then 6
                        else if num_ltb n (num_of_Z 1) then 4 else 3) n +:+ " GLAC"
  end.

(** ** The board *)

Definition blank : cell := mk_cell "" ["cell"%string].

Definition buildBoard : act unit :=
  on_board (fun _ => ∅) ;%
  for_each rows (fun r => for_each columns (fun c => on_board (insert (r, c) blank))).

Definition setCell (r c : Z) (ch cls : string) : act unit :=
  let% p := get in
  match board p !! (r, c) with
  | None => skip
  | Some _ => on_board (insert (r, c) (mk_cell ch ("cell"%string :: if String.eqb cls "" then [] else [cls])))
  end.

(** A change of the cell with the id [c<r><c>]; the page has no other. *)
Definition on_cell (r c : Z) (f : cell -> cell) : act unit :=
  let% p := get in
  match board p !! (r, c) with
  | None => throw "TypeError: Cannot read properties of null"
  | Some x => on_board (insert (r, c) (f x))
  end.

(** [v[c]] *)
Definition get_index (v : jsval) (c : Z) : res jsval :=
  match v with
  | None => Err "TypeError: Cannot read properties of undefined"
  | Some JNull => Err "TypeError: Cannot read properties of null"
  | Some (JArr l) => Ok (l !! Z.to_nat c)
  | Some (JStr s) => Ok (option_map (fun a => JStr (of_chars [a])) (chars s !! Z.to_nat c))
  | Some (JObj fs) => Ok (field (string_of_Z c) fs)
  | Some _ => Ok None
  end.

Definition flipRow (r : Z) (marks : jsval) (letters : list string) : act unit :=
  for_each columns (fun c => setTimeout (Flip r c marks letters) (c * 140)).

Definition flip_start (r c : Z) (marks : jsval) (letters : list string) : act unit :=
  on_cell r c (fun x => mk_cell (cell_text x) (class_add "flip" (cell_class x))) ;%
  setTimeout (FlipEnd r c marks letters) 175.

Definition flip_end (r c : Z) (marks : jsval) (letters : list string) : act unit :=
  let% m := of_res (get_index marks c) in
  let% m := of_res (to_string m) in
  on_cell r c (fun x => mk_cell (cell_text x) ["cell"%string; m]) ;%
  on_cell r c (fun x => mk_cell (default ""%string (letters !! Z.to_nat c)) (cell_class x)).

Definition shakeRow (r : Z) : act unit :=
  for_each columns (fun c =>
    on_cell r c (fun x => mk_cell (cell_text x) (class_add "shake" (cell_class x))) ;%
    setTimeout (Unshake r c) 500).

Definition unshake (r c : Z) : act unit := on_cell r c (fun x => mk_cell (cell_text x) (class_remove "shake" (cell_class x))).

(** ** The keyboard *)

Definition KEYS : list (list string) :=
  [["Q"; "W"; "E"; "R"; "T"; "Y"; "U"; "I"; "O"; "P"];
   ["A"; "S"; "D"; "F"; "G"; "H"; "J"; "K"; "L"];
   ["ENT"; "Z"; "X"; "C"; "V"; "B"; "N"; "M"; "BACK"]]%string.

Definition is_wide (t : string) : bool := String.eqb t "ENT" || String.eqb t "BACK".

Definition new_key (t : string) : key :=
  mk_key t (if String.eqb t "BACK" then "⌫" else if String.eqb t "ENT" then "ENTER" else t)
    ("key" :: if is_wide t then ["wide"] else [])%string.

Definition buildKeyboard : act unit := on_kb (fun _ => map new_key (mjoin KEYS)).

Definition paint_key (state : gmap string json) (k : key) : res key :=
  if is_wide (key_token k) then Ok k
  else
    let l := class_remove "gray" (class_remove "yellow" (class_remove "green" (key_class k))) in
    match state !! key_token k with
    | Some m => if truthy_json m then let* c := json_to_string m in Ok (mk_key (key_token k) (key_label k) (class_add c l))
                else Ok (mk_key (key_token k) (key_label k) l)
    | None => Ok (mk_key (key_token k) (key_label k) l)
    end.

Fixpoint paint_keys (state : gmap string json) (before after : list key) : act unit :=
  match after with
  | [] => skip
  | k :: after' =>
      let% k' := of_res (paint_key state k) in
      on_kb (fun _ => before ++ k' :: after') ;%
      paint_keys state (before ++ [k']) after'
  end.

Definition paintKeyboard : act unit :=
  let% p := get in paint_keys (kbState (script p)) [] (kb p).

Definition re_upper (t : string) : bool := match chars t with [c] => is_upper c | _ => false end.
Definition re_letter (t : string) : bool := match chars t with [c] => is_upper c || is_lower c | _ => false end.

Definition backspace : act unit :=
  let% p := get in
  if currentCol (script p) =? 0 then skip
  else
    var (fun v => set_currentCol (currentCol v - 1) v) ;%
    setCell (currentRow (script p)) (currentCol (script p) - 1) "" "".

Fixpoint cell_texts (b : gmap (Z * Z) cell) (r : Z) (cs : list Z) : res string :=
  match cs with
  | [] => Ok ""%string
  | c :: cs' => match b !! (r, c) with
                | None => Err "TypeError: Cannot read properties of null"
                | Some x => let* s := cell_texts b r cs' in Ok (cell_text x +:+ s)
                end
  end.

Definition getCurrentGuess : act string :=
  let% p := get in of_res (cell_texts (board p) (currentRow (script p)) columns).

(** ** A guess *)

Definition submitRow : act unit :=
  let% p := get in
  if currentCol (script p) <? 5 then shakeRow (currentRow (script p)) ;% toast_text "Need 5 letters"
  else
    let% guess := getCurrentGuess in
    api "/guess" (Some (JObj ((match sessionId (script p) with Some s => [("session"%string, s)] | None => [] end)
                              ++ [("guess"%string, JStr guess)]))) (InSubmitRow guess).

Definition pressKey (t : string) : act unit :=
  let% p := get in
  if gameOver (script p) then skip
  else if String.eqb t "ENT" then submitRow
  else if String.eqb t "BACK" then backspace
  else if (currentCol (script p) <? 5) && re_upper t then
    setCell (currentRow (script p)) (currentCol (script p)) t "typing" ;%
    var (fun v => set_currentCol (currentCol v + 1) v)
  else skip.

Definition split_chars (s : string) : list string := map (fun c => of_chars [c]) (chars s).

(** [order[m]], undefined for every other name. *)
Definition order (m : jsval) : res (option Z) :=
  let* s := to_string m in
  Ok (if String.eqb s "gray" then Some 0 else if String.eqb s "yellow" then Some 1
      else if String.eqb s "green" then Some 2 else None).

Definition upgrades (m : jsval) (cur : json) : res bool :=
  let* a := order m in
  let* b := order (Some cur) in
  Ok (match a, b with Some a, Some b => b <? a | _, _ => false end).

(** One round of the loop that colours the letters. *)
Definition colour (marks : jsval) (letters : list string) (c : Z) (state : gmap string json) : res (gmap string json) :=
  let L := default "undefined"%string (letters !! Z.to_nat c) in
  match state !! L with
  | Some cur =>
      if truthy_json cur then
        let* m := get_index marks c in
        let* up := upgrades m cur in
        Ok (if up then partial_alter (fun _ => m) L state else state)
      else let* m := get_index marks c in Ok (partial_alter (fun _ => m) L state)
  | None => let* m := get_index marks c in Ok (partial_alter (fun _ => m) L state)
  end.

Definition colour_letter (marks : jsval) (letters : list string) (c : Z) : act unit :=
  let% p := get in
  let% s := of_res (colour marks letters c (kbState (script p))) in
  var (set_kbState s).

(** [v === s] for a string [s]. *)
Definition is_text (v : jsval) (s : string) : bool := match v with Some (JStr t) => String.eqb t s | _ => false end.

Definition guess_rejected (body : json) : act unit :=
  let% err := (if truthy_json body then of_res (get_prop (Some body) "error") else pure (Some body)) in
  let err := or_else err (JStr "guess rejected") in
  let% p := get in
  if is_text (Some err) "not_in_wordlist" then shakeRow (currentRow (script p)) ;% toast_text "Not in word list"
  else if is_text (Some err) "no_session" then toast_text "Session expired — refreshing…" ;% setTimeout DoReload 1500
  else shakeRow (currentRow (script p)) ;% toast (Some err) 1800.

Definition guess_finished (body : json) : act unit :=
  let% won := of_res (get_prop (Some body) "won") in
  if truthy won then
    var (set_gameOver true) ;% setTimeout (ShowWin (Some body)) (5 * 140 + 400)
  else
    let% lost := of_res (get_prop (Some body) "lost") in
    if truthy lost then
      var (set_gameOver true) ;%
      setTimeout (ShowLoss (match get_prop (Some body) "answer" with Ok a => a | Err _ => None end)) (5 * 140 + 400)
    else skip.

Definition submitRow_answer (guess : string) (status : Z) (body : json) : act unit :=
  if negb (status =? 200) then guess_rejected body
  else
    let% marks := of_res (get_prop (Some body) "marks") in
    let letters := split_chars guess in
    let% p := get in
    flipRow (currentRow (script p)) marks letters ;%
    for_each columns (colour_letter marks letters) ;%
    setTimeout PaintKeyboard (5 * 140 + 200) ;%
    var (fun v => set_guesses (guesses v ++ [mk_graded guess marks]) v) ;%
    var (fun v => set_currentRow (currentRow v + 1) v) ;%
    var (set_currentCol 0) ;%
    guess_finished body.

(** [keydown]; [modified] when a modifier is held. *)
Definition keydown (name : string) (modified : bool) : act unit :=
  let% p := get in
  if hidden (dom p els_game) then skip
  else if modified then skip
  else if String.eqb name "Enter" then pressKey "ENT"
  else if String.eqb name "Backspace" then pressKey "BACK"
  else if re_letter name then pressKey (to_upper name)
  else skip.

(** ** Screens *)

Definition showStart : act unit :=
  on els_start (set_hidden false) ;%
  on els_game (set_hidden true) ;%
  on els_win (set_hidden true) ;%
  on els_loss (set_hidden true) ;%
  on els_cooldown (set_hidden true) ;%
  on els_walletPanel (set_hidden false) ;%
  on els_walletShow (set_hidden true) ;%
  on els_walletChangeConfirm (set_hidden true).

Definition showGame : act unit :=
  on els_start (set_hidden true) ;%
  on els_game (set_hidden false) ;%
  on els_walletPanel (set_hidden true) ;%
  on els_walletChangeConfirm (set_hidden true).

Definition showWin (data : jsval) : act unit :=
  on els_game (set_hidden true) ;%
  on els_win (set_hidden false) ;%
  let% g := of_res (get_prop data "guesses") in
  let% s := of_res (to_string g) in
  let one := match g with Some (JNum n) => SFeqb n num_one | _ => false end in
  on els_winGuesses (set_text (s +:+ (if one then " GUESS" else " GUESSES"))) ;%
  let% r := of_res (get_prop data "reward") in
  let% a := of_res (amount_of r) in
  on els_winReward (set_text (formatGlac a)) ;%
  let% p := get in
  (match storage p with
   | Some saved => if String.eqb saved "" then skip else on els_claimAddress (set_value saved)
   | None => skip
   end) ;%
  let% t := of_res (get_prop data "claim_token") in
  let% t := of_res (to_string t) in
  on els_claimBtn (set_data "token" t) ;%
  let% r := of_res (to_string r) in
  on els_claimBtn (set_data "reward" r).

Definition showLoss (answer : jsval) : act unit :=
  on els_game (set_hidden true) ;%
  on els_loss (set_hidden false) ;%
  let% s := of_res (text_of answer) in
  on els_lossWord (set_text s).

(** The seconds left as minutes and seconds; they are integers once [Math.floor] is taken. *)
Definition cooldown_text (secsLeft : number) : string :=
  match secsLeft with
  | S754_nan => "NaNm NaNs"
  | S754_infinity false => "Infinitym NaNs"
  | _ =>
      let s := Z.max 0 (default 0 (math_floor secsLeft)) in
      let mm := default 0 (math_floor (num_div (num_of_Z s) (num_of_Z 60))) in
      NumberText.to_string (num_of_Z mm) +:+ "m " +:+ NumberText.to_string (num_of_Z (s mod 60)) +:+ "s"
  end.

Definition upd (secsLeft : number) : act unit :=
  on els_cooldownTime (set_text (cooldown_text secsLeft)) ;%
  let secsLeft := SFsub 53 1024 secsLeft num_one in
  if SFleb num_zero secsLeft then setTimeout (Upd secsLeft) 1000 else setTimeout DoReload 1000.

Definition showCooldown (secsLeft : number) : act unit :=
  on els_start (set_hidden true) ;%
  on els_cooldown (set_hidden false) ;%
  upd secsLeft.

(** ** Starting a game *)

Definition startGame : act unit :=
  on els_playBtn (set_disabled true) ;%
  on els_playBtn (set_text "STARTING…") ;%
  let% p := get in
  api "/start" (Some (JObj [("captcha", match captchaToken (script p) with Some t => JStr t | None => JNull end)]%string)) InStartGame.

Definition startGame_answer (status : Z) (body : json) : act unit :=
  if status =? 429 then
    let% secs := of_res (get_prop (Some body) "retry_after_seconds") in
    showCooldown (match secs with Some (JNum n) => n | _ => num_of_Z 3600 end)
  else if negb (status =? 200) then
    let% e := of_res (get_prop (Some body) "error") in
    toast (Some (or_else e (JStr "failed to start"))) 1800 ;%
    on els_playBtn (set_disabled false) ;%
    on els_playBtn (set_text "PLAY")
  else
    let% s := of_res (get_prop (Some body) "session") in
    var (set_sessionId s) ;%
    showGame.

(** ** Claiming *)

Definition submitClaim : act unit :=
  let% p := get in
  let addr := trim (value (dom p els_claimAddress)) in
  if negb (re_address addr) then
    on els_claimStatus (set_color "var(--red)") ;%
    on els_claimStatus (set_text "Doesn't look like a valid Glaciem address (starts with R, 97 chars).")
  else
    keep (Some addr) ;%
    on els_claimBtn (set_disabled true) ;%
    on els_claimBtn (set_text "SUBMITTING…") ;%
    on els_claimStatus (set_color "var(--dim)") ;%
    on els_claimStatus (set_text "Queued. Payout daemon picks it up within ~10s.") ;%
    api "/claim" (Some (JObj ((match dataset (dom p els_claimBtn) !! "token"%string with
                               | Some t => [("token"%string, JStr t)] | None => [] end)
                              ++ [("address"%string, JStr addr)]))) InSubmitClaim.

(** [encodeURIComponent]: the bytes of the UTF-8 encoding, escaped unless unreserved. *)
Definition is_unreserved (c : ascii) : bool :=
  is_upper c || is_lower c || is_digit c || existsb (Ascii.eqb c) (chars "-_.!~*'()").
Definition percent (c : ascii) : list ascii :=
  "%"%char :: map (fun c => if is_lower c then chr (code c - 32) else c) (hex_byte (code c)).
Definition encode_char (c : ascii) : list ascii :=
  if is_unreserved c then [c] else mjoin (map percent (utf8_char c)).
Definition encodeURIComponent (s : string) : string := of_chars (mjoin (map encode_char (chars s))).

(** [tick]; [tries] is the count before it. *)
Definition tick (claimId : jsval) (tries : Z) : act unit :=
  let% id := of_res (to_string claimId) in
  api ("/claim_status?id=" +:+ encodeURIComponent id) None (InTick claimId (tries + 1)).

Definition pollClaimStatus (claimId : jsval) : act unit := tick claimId 0.

(** [(v || '').slice(0, 12)] in a text. *)
Definition short_hash (v : jsval) : res string :=
  match or_else v (JStr "") with
  | JStr s => Ok (slice_to 12 s)
  | JArr l => json_to_string (JArr (take 12 l))
  | _ => Err "TypeError: slice is not a function"
  end.

Definition tick_pending (claimId : jsval) (tries : Z) : act unit :=
  if tries <? 30 then setTimeout (Tick claimId tries) 5000
  else
    on els_claimStatus (set_color "var(--dim)") ;%
    on els_claimStatus (set_text "Payout still pending after 2.5 min — check the address later.").

Definition tick_failed (body : json) : act unit :=
  on els_claimStatus (set_color "var(--red)") ;%
  let% e := of_res (get_prop (Some body) "error") in
  let% e := of_res (json_to_string (or_else e (JStr "unknown"))) in
  on els_claimStatus (set_text ("Payout failed: " +:+ e)) ;%
  on els_claimBtn (set_disabled false) ;%
  on els_claimBtn (set_text "RETRY").

(** The text of the payment is shown in a span. *)
Definition tick_answer (claimId : jsval) (tries : Z) (status : Z) (body : json) : act unit :=
  let% paid := (if status =? 200 then let% s := of_res (get_prop (Some body) "status") in pure (is_text s "paid") else pure false) in
  if paid then
    on els_claimStatus (set_color "var(--green)") ;%
    let% h := of_res (get_prop (Some body) "tx_hash") in
    let% h := of_res (short_hash h) in
    on els_claimStatus (set_text ("Paid. tx " +:+ h +:+ "…"))
  else
    let% failed := (if truthy_json body then let% s := of_res (get_prop (Some body) "status") in pure (is_text s "failed")
                    else pure false) in
    if failed then tick_failed body else tick_pending claimId tries.

Definition submitClaim_answer (status : Z) (body : json) : act unit :=
  if negb (status =? 200) then
    on els_claimBtn (set_disabled false) ;%
    on els_claimBtn (set_text "CLAIM") ;%
    on els_claimStatus (set_color "var(--red)") ;%
    let% e := of_res (get_prop (Some body) "error") in
    let% e := of_res (text_of (Some (or_else e (JStr "claim failed")))) in
    on els_claimStatus (set_text e)
  else
    on els_claimBtn (set_text "CLAIMED") ;%
    let% id := of_res (get_prop (Some body) "claim_id") in
    pollClaimStatus id.

(** ** The faucet *)

Definition refreshFaucet : act unit := api "/faucet" None InRefreshFaucet.

(** ToNumber of an amount. *)
Definition number_of (v : jsval) : res number :=
  match v with
  | None => Ok S754_nan
  | Some JNull => Ok num_zero
  | Some (JNum n) => Ok n
  | Some _ => Err "TypeError: n.toFixed is not a function"
  end.

Definition refreshFaucet_answer (status : Z) (body : json) : act unit :=
  if negb (status =? 200) then skip
  else
    let% bal := of_res (get_prop (Some body) "balance") in
    let% addr := of_res (get_prop (Some body) "address") in
    let% b := of_res (number_of bal) in
    let max := math_min num_one (num_div b (num_of_Z 1000)) in
    let min := num_div max (num_of_Z 6) in
    let% a := of_res (amount_of bal) in
    on els_faucetBal (set_text (formatGlac a)) ;%
    on els_maxReward (set_text (formatGlac (Some max))) ;%
    on els_minReward (set_text (formatGlac (Some min))) ;%
    if truthy addr then let% s := of_res (text_of addr) in on els_faucetAddr (set_text s) else skip.

(** The callbacks given to the captcha widget. *)
Definition captcha_solved (t : string) : act unit :=
  var (set_captchaToken (Some t)) ;%
  on els_playBtn (set_disabled false) ;%
  on els_playBtn (set_text "PLAY").

Definition captcha_expired : act unit :=
  var (set_captchaToken None) ;%
  on els_playBtn (set_disabled true) ;%
  on els_playBtn (set_text "CAPTCHA EXPIRED").

(** ** The wallet panels *)

(** The module is imported once; later calls only yield. *)
Definition loadWalletMod (k : cont) : act unit :=
  let% p := get in
  if walletMod (script p) then on_awaited (fun l => l ++ [k]) else wait_for Import k.

(** After the import, if there was one: whether the module is there. *)
Definition loadWalletMod_answer (imported : bool) : act bool :=
  let% p := get in
  if walletMod (script p) || imported then var (set_walletMod true) ;% pure true
  else toast_text "Couldn't load wallet code — check your network" ;% pure false.

Definition generateNewWallet : act unit :=
  on els_genWalletBtn (set_disabled true) ;%
  on els_genWalletBtn (set_text "GENERATING…") ;%
  loadWalletMod InGenerate.

Definition renderSavedWallet : act unit :=
  let% p := get in
  (match storage p with
   | Some a =>
       if re_address a then
         on els_walletEmpty (set_hidden true) ;%
         on els_walletSaved (set_hidden false) ;%
         on els_walletSavedAddr (set_text a) ;%
         on els_claimAddress (set_value a)
       else on els_walletEmpty (set_hidden false) ;% on els_walletSaved (set_hidden true)
   | None => on els_walletEmpty (set_hidden false) ;% on els_walletSaved (set_hidden true)
   end) ;%
  on els_walletPanel (set_hidden false).

Definition hideAllWalletPanels : act unit :=
  on els_walletShow (set_hidden true) ;%
  on els_walletShowSeed (set_words []) ;%
  on els_walletShowAddr (set_text "") ;%
  on els_seedConfirmCb (set_checked false) ;%
  on els_seedContinue (set_disabled true).

Definition showSeed (w : wallet) : act unit :=
  on els_walletShowAddr (set_text (address w)) ;%
  on els_walletShowSeed (set_words []) ;%
  for_each (mnemonic w) (fun word => on els_walletShowSeed (fun e => set_words (words e ++ [word]) e)) ;%
  on els_seedCopyBtn (set_data "seed" (String.concat " " (mnemonic w))) ;%
  on els_walletPanel (set_hidden true) ;%
  on els_start (set_hidden true) ;%
  on els_walletShow (set_hidden false) ;%
  on els_seedContinue (set_data "addr" (address w)).

(** After [loadWalletMod]: whether the import succeeded where one was made, and what [generateWallet] returned or threw. *)
Definition generateNewWallet_answer (imported : bool) (made : res wallet) : act unit :=
  let% loaded := loadWalletMod_answer imported in
  on els_genWalletBtn (set_disabled false) ;%
  on els_genWalletBtn (set_text "GENERATE NEW WALLET") ;%
  match made with
  | Ok w => if loaded then showSeed w else skip
  | Err _ => skip
  end.

Definition copy_seed : act unit :=
  let% p := get in
  let seed := default ""%string (dataset (dom p els_seedCopyBtn) !! "seed"%string) in
  if String.eqb seed "" then skip else wait_for (Clipboard seed) InCopySeed.

Definition confirm_changed : act unit :=
  let% p := get in on els_seedContinue (set_disabled (negb (checked (dom p els_seedConfirmCb)))).

Definition continue : act unit :=
  let% p := get in
  (match dataset (dom p els_seedContinue) !! "addr"%string with
   | Some a => if String.eqb a "" then skip else keep (Some a)
   | None => skip
   end) ;%
  hideAllWalletPanels ;%
  renderSavedWallet ;%
  on els_start (set_hidden false) ;%
  toast_text "Address saved".

Definition change_wallet : act unit :=
  let% p := get in
  let cur := match storage p with Some a => if String.eqb a "" then "(none)" else a | None => "(none)" end%string in
  on els_walletChangeCurrentAddr (set_text cur) ;%
  on els_walletChangeCb (set_checked false) ;%
  on els_walletChangeGoBtn (set_disabled true) ;%
  on els_walletPanel (set_hidden true) ;%
  on els_start (set_hidden true) ;%
  on els_walletChangeConfirm (set_hidden false).

Definition change_changed : act unit :=
  let% p := get in on els_walletChangeGoBtn (set_disabled (negb (checked (dom p els_walletChangeCb)))).

Definition change_go : act unit :=
  let% p := get in
  if negb (checked (dom p els_walletChangeCb)) then skip
  else
    keep None ;%
    on els_claimAddress (set_value "") ;%
    on els_walletChangeConfirm (set_hidden true) ;%
    on els_start (set_hidden false) ;%
    renderSavedWallet ;%
    toast_text "Address cleared".

Definition change_cancel : act unit :=
  on els_walletChangeConfirm (set_hidden true) ;%
  on els_start (set_hidden false) ;%
  renderSavedWallet.

Definition copy_address : act unit :=
  let% p := get in
  let a := trim (text (dom p els_faucetAddr)) in
  if String.eqb a "" || String.eqb a "loading…" then skip else wait_for (Clipboard a) InCopyAddress.

(** ** Loading the page *)

(** The elements as the document declares them (public/index.html). *)
Definition document (x : el) : element :=
  let plain h d t := mk_element h d false t "" "" [] ∅ [] in
  match x with
  | els_game | els_win | els_loss | els_cooldown | els_walletPanel | els_walletSaved | els_walletChangeConfirm | els_walletShow =>
      plain true false ""
  | els_playBtn => plain false true "WAITING FOR CAPTCHA…"
  | els_walletChangeGoBtn => plain false true "CONTINUE — REPLACE ADDRESS"
  | els_seedContinue => plain false true "SAVE ADDRESS AND CONTINUE"
  | els_faucetBal | els_maxReward | els_minReward | els_winReward => plain false false "— GLAC"
  | els_faucetAddr => plain false false "loading…"
  | els_winGuesses | els_cooldownTime => plain false false "—"
  | els_claimBtn => plain false false "CLAIM"
  | els_genWalletBtn => plain false false "GENERATE NEW WALLET"
  | els_claimStatus => mk_element false false false "" "" "" ["dim"] ∅ []
  | els_toast => mk_element false false false "" "" "" ["toast"] ∅ []
  | _ => plain false false ""
  end%string.

Definition unloaded (a : option string) (tr : list effect) : page :=
  mk_page (mk_vars (Some JNull) 0 0 [] ∅ None false false) document ∅ [] a [] [] tr.

(** The bootstrap after the board and the keyboard are built. *)
Definition show_page : act unit :=
  showStart ;%
  renderSavedWallet ;%
  refreshFaucet ;%
  setTimeout RefreshFaucet 30000 ;%
  let% p := get in
  match storage p with
  | Some saved => if String.eqb saved "" then skip else on els_claimAddress (set_value saved)
  | None => skip
  end.

Definition bootstrap : act unit := buildBoard ;% buildKeyboard ;% show_page.

Definition load (a : option string) (tr : list effect) : page := (bootstrap (unloaded a tr)).2.

(** [location.reload()]: what is remembered is the storage. *)
Definition reload : act unit := fun p => (Ok tt, load (storage p) (Reload :: trace p)).

(** ** The event loop *)

Inductive answer : Type :=
| Response (status : Z) (body : json)
| Rejected
| Module (imported : bool) (made : res wallet)
| Copied (ok : bool).

Inductive event : Type :=
| PressKey (t : string)
| KeyDown (name : string) (modified : bool)
| ClickPlay
| ClickClaim
| EditAddress (s : string)
| ClickGenerate
| ClickSeedCopy
| CheckSeed (b : bool)
| ClickContinue
| ClickChange
| CheckChange (b : bool)
| ClickChangeGo
| ClickChangeCancel
| ClickCopyAddress
| ClickReload
| CaptchaSolved (t : string)
| CaptchaExpired
| Timeout (i : nat)
| Answered (i : nat) (a : answer).

Definition run_task (t : task) : act unit :=
  match t with
  | HideToast => on els_toast (fun e => set_classes (class_remove "show" (classes e)) e)
  | Flip r c marks letters => flip_start r c marks letters
  | FlipEnd r c marks letters => flip_end r c marks letters
  | Unshake r c => unshake r c
  | PaintKeyboard => paintKeyboard
  | ShowWin data => showWin data
  | ShowLoss answer => showLoss answer
  | Upd secs => upd secs
  | Tick claimId tries => tick claimId tries
  | RefreshFaucet => refreshFaucet
  | DoReload => reload
  end.

Definition resume (k : cont) (a : answer) : act unit :=
  match k, a with
  | InSubmitRow guess, Response st body => submitRow_answer guess st body
  | InStartGame, Response st body => startGame_answer st body
  | InSubmitClaim, Response st body => submitClaim_answer st body
  | InTick claimId tries, Response st body => tick_answer claimId tries st body
  | InRefreshFaucet, Response st body => refreshFaucet_answer st body
  | InGenerate, Module imported made => generateNewWallet_answer imported made
  | InCopySeed, Copied ok =>
      if ok then toast_text "25 words copied — write them on paper; restore in the Glaciem app"
      else toast_text "Copy failed — select the words manually"
  | InCopyAddress, Copied ok => if ok then toast_text "Address copied" else skip
  | _, _ => skip
  end.

(** A disabled button gets no clicks. *)
Definition button (x : el) (m : act unit) : act unit :=
  let% p := get in if disabled (dom p x) then skip else m.

Definition handle (ev : event) : act unit :=
  match ev with
  | PressKey t => if bool_decide (t ∈ mjoin KEYS) then pressKey t else skip
  | KeyDown name modified => keydown name modified
  | ClickPlay => button els_playBtn startGame
  | ClickClaim => button els_claimBtn submitClaim
  | EditAddress s => on els_claimAddress (set_value s)
  | ClickGenerate => button els_genWalletBtn generateNewWallet
  | ClickSeedCopy => copy_seed
  | CheckSeed b => on els_seedConfirmCb (set_checked b) ;% confirm_changed
  | ClickContinue => button els_seedContinue continue
  | ClickChange => change_wallet
  | CheckChange b => on els_walletChangeCb (set_checked b) ;% change_changed
  | ClickChangeGo => button els_walletChangeGoBtn change_go
  | ClickChangeCancel => change_cancel
  | ClickCopyAddress => copy_address
  | ClickReload => reload
  | CaptchaSolved t => captcha_solved t
  | CaptchaExpired => captcha_expired
  | Timeout i =>
      let% p := get in
      match timers p !! i with
      | None => skip
      | Some (_, t) =>
          (match t with RefreshFaucet => skip | _ => on_timers (fun l => take i l ++ drop (S i) l) end) ;% run_task t
      end
  | Answered i a =>
      let% p := get in
      match awaited p !! i with
      | None => skip
      | Some k => on_awaited (fun l => take i l ++ drop (S i) l) ;% resume k a
      end
  end.

(** One turn of the loop; an uncaught exception is only reported. *)
Definition step (p : page) (ev : event) : page := (handle ev p).2.
Definition steps (p : page) (evs : list event) : page := fold_left step evs p.
