(* ===== verification/PageLogic.v ===== *)
(** * PageLogic: reasoning about the actions of the page

    [pres R m]: whatever page the action [m] starts from, it ends in one related to it by the preorder [R], also when it
    throws.  The class [Frame] lists the primitive actions of the parts of the script that do not touch the game; every callback
    built from them preserves every [Frame], and is proved to do so once here. *)
From S2P Require Import Prelude Wallet JsCore Number Json Page.
From stdpp Require Import relations.
Local Open Scope Z_scope.
Local Open Scope glaciem_scope.

Section Pres.
Context (R : relation page) `{!PreOrder R}.

Definition pres {A} (m : act A) : Prop := forall p, R p (m p).2.

Lemma pres_bind {A B} (m : act A) (k : A -> act B) : pres m -> (forall a, pres (k a)) -> pres (act_bind m k).
Proof.
  intros Hm Hk p. unfold act_bind. pose proof (Hm p) as H. destruct (m p) as [[a|e] p']; [|done].
  etransitivity; [exact H|apply Hk].
Qed.

Lemma pres_get {B} (k : page -> act B) : (forall q, pres (k q)) -> pres (act_bind get k).
Proof. intros Hk p. apply Hk. Qed.

Lemma pres_pure {A} (a : A) : pres (pure a).
Proof. intros p. reflexivity. Qed.

Lemma pres_throw {A} e : pres (throw (A := A) e).
Proof. intros p. reflexivity. Qed.

Lemma pres_of_res {A} (r : res A) : pres (of_res r).
Proof. intros p. reflexivity. Qed.

Lemma pres_for_each {A} (l : list A) f : (forall x, pres (f x)) -> pres (for_each l f).
Proof. intros Hf. induction l as [|x l IH]; cbn [for_each]; [apply pres_pure|]. apply pres_bind; [apply Hf|done]. Qed.
End Pres.

(** Timers of the game itself. *)
Definition game_task (t : task) : bool :=
  match t with Flip _ _ _ _ | FlipEnd _ _ _ _ | PaintKeyboard => true | _ => false end.

(** What the page may send: guesses of five letters and claims for addresses. *)
Definition call_ok (c : api_call) : Prop :=
  match api_path c with
  | "/guess"%string => exists s g, api_body c = Some (JObj (s ++ [("guess"%string, JStr g)])) /\ re_five_letters g = true
  | "/claim"%string => exists t a, api_body c = Some (JObj (t ++ [("address"%string, JStr a)])) /\ re_address a = true
  | _ => True
  end.
Definition effect_ok (e : effect) : Prop := match e with Fetch c => call_ok c | _ => True end.

Class Frame (R : relation page) : Prop := {
  frame_preorder :: PreOrder R;
  frame_on x f : pres R (on x f);
  frame_keep a : pres R (keep a);
  frame_session x : pres R (var (set_sessionId x));
  frame_captcha x : pres R (var (set_captchaToken x));
  frame_over x : pres R (var (set_gameOver x));
  frame_module x : pres R (var (set_walletMod x));
  frame_emit e : effect_ok e -> pres R (emit e);
  frame_setTimeout t ms : game_task t = false -> pres R (setTimeout t ms);
  frame_no_toast : pres R (on_timers (List.filter (fun t => match t.2 with HideToast => false | _ => true end)));
  frame_wait k : (forall g, k <> InSubmitRow g) -> pres R (on_awaited (fun l => l ++ [k]));
}.

Create HintDb page.
#[export] Hint Resolve pres_pure pres_throw pres_of_res frame_on frame_keep frame_session frame_captcha frame_over
  frame_module frame_no_toast frame_preorder : page.
#[export] Hint Extern 1 (pres _ (setTimeout _ _)) => (apply frame_setTimeout; reflexivity) : page.
#[export] Hint Extern 1 (pres _ (on_awaited _)) => (apply frame_wait; discriminate) : page.
#[export] Hint Extern 1 (pres _ (emit _)) => (apply frame_emit; exact I) : page.

(** Walk through an action, solving its primitive parts. *)
Ltac walk :=
  repeat first
    [ solve [auto with page typeclass_instances]
    | match goal with
      | |- pres ?R (act_bind get _) => apply (pres_get R); intros ?
      | |- pres ?R (act_bind _ _) => apply (pres_bind R); [|intros ?]
      | |- pres ?R (for_each _ _) => apply (pres_for_each R); intros ?
      | |- pres _ (if ?b then _ else _) => destruct b eqn:?
      | |- pres _ (match ?x with _ => _ end) => destruct x eqn:?
      | |- pres _ (let '(_, _) := ?x in _) => destruct x
      | |- PreOrder _ => apply frame_preorder
      end
    | progress unfold toast_text, skip, wait_for, pollClaimStatus, api ].

Section Callbacks.
Context (R : relation page) `{!Frame R}.

Lemma pres_toast msg ms : pres R (toast msg ms).
Proof. unfold toast. walk. Qed.
#[local] Hint Resolve pres_toast : page.

Lemma pres_tick claimId tries : pres R (tick claimId tries).
Proof. unfold tick. walk. Qed.
Lemma pres_renderSavedWallet : pres R renderSavedWallet.
Proof. unfold renderSavedWallet. walk. Qed.
Lemma pres_hideAll : pres R hideAllWalletPanels.
Proof. unfold hideAllWalletPanels. walk. Qed.
Lemma pres_upd secs : pres R (upd secs).
Proof. unfold upd. walk. Qed.
#[local] Hint Resolve pres_tick pres_renderSavedWallet pres_hideAll pres_upd : page.

Lemma pres_showWin data : pres R (showWin data).
Proof. unfold showWin. walk. Qed.
Lemma pres_showLoss a : pres R (showLoss a).
Proof. unfold showLoss. walk. Qed.
Lemma pres_showSeed w : pres R (showSeed w).
Proof. unfold showSeed. walk. Qed.
Lemma pres_refreshFaucet : pres R refreshFaucet.
Proof. unfold refreshFaucet. walk. Qed.
#[local] Hint Resolve pres_showWin pres_showLoss pres_showSeed pres_refreshFaucet : page.

Lemma pres_show_page : pres R show_page.
Proof. unfold show_page, showStart. walk. Qed.
Lemma pres_startGame : pres R startGame.
Proof. unfold startGame. walk. Qed.
Lemma pres_startGame_answer st body : pres R (startGame_answer st body).
Proof. unfold startGame_answer, showCooldown, showGame. walk. Qed.
Lemma pres_submitClaim_answer st body : pres R (submitClaim_answer st body).
Proof. unfold submitClaim_answer. walk. Qed.
Lemma pres_tick_answer id n st body : pres R (tick_answer id n st body).
Proof. unfold tick_answer, tick_failed, tick_pending. walk. Qed.
Lemma pres_refreshFaucet_answer st body : pres R (refreshFaucet_answer st body).
Proof. unfold refreshFaucet_answer. walk. Qed.
Lemma pres_generateNewWallet : pres R generateNewWallet.
Proof. unfold generateNewWallet, loadWalletMod. walk. Qed.
Lemma pres_generate_answer b w : pres R (generateNewWallet_answer b w).
Proof. unfold generateNewWallet_answer, loadWalletMod_answer. walk. Qed.
Lemma pres_guess_finished body : pres R (guess_finished body).
Proof. unfold guess_finished. walk. Qed.

Lemma pres_submitClaim : pres R submitClaim.
Proof.
  unfold submitClaim. walk. apply frame_emit. cbn. do 2 eexists. split; [reflexivity|]. by apply negb_false_iff.
Qed.

Lemma pres_copy_seed : pres R copy_seed.
Proof. unfold copy_seed. walk. Qed.
Lemma pres_confirm b : pres R (on els_seedConfirmCb (set_checked b) ;% confirm_changed).
Proof. unfold confirm_changed. walk. Qed.
Lemma pres_continue : pres R continue.
Proof. unfold continue. walk. Qed.
Lemma pres_change_wallet : pres R change_wallet.
Proof. unfold change_wallet. walk. Qed.
Lemma pres_change_changed b : pres R (on els_walletChangeCb (set_checked b) ;% change_changed).
Proof. unfold change_changed. walk. Qed.
Lemma pres_change_go : pres R change_go.
Proof. unfold change_go. walk. Qed.
Lemma pres_change_cancel : pres R change_cancel.
Proof. unfold change_cancel. walk. Qed.
Lemma pres_copy_address : pres R copy_address.
Proof. unfold copy_address. walk. Qed.
Lemma pres_captcha_solved t : pres R (captcha_solved t).
Proof. unfold captcha_solved. walk. Qed.
Lemma pres_captcha_expired : pres R captcha_expired.
Proof. unfold captcha_expired. walk. Qed.
End Callbacks.

#[export] Hint Resolve pres_toast pres_tick pres_renderSavedWallet pres_hideAll pres_upd pres_showWin pres_showLoss pres_showSeed
  pres_refreshFaucet pres_show_page pres_startGame pres_startGame_answer pres_submitClaim_answer pres_tick_answer
  pres_refreshFaucet_answer pres_generateNewWallet pres_generate_answer pres_guess_finished pres_submitClaim pres_copy_seed
  pres_confirm pres_continue pres_change_wallet pres_change_changed pres_change_go pres_change_cancel pres_copy_address
  pres_captcha_solved pres_captcha_expired : page.
