(* ===== verification/PageInv.v ===== *)
(** * PageInv: what the page shows is what was graded

    [reach] are the states the page can get into, by any sequence of clicks, keys, timers and answers in any order, as long as an
    accepted guess is answered with five marks.  [game_ok] is an invariant of those states: the row counts the graded guesses,
    the letters typed are on the board, each graded row shows its marks once its timers have run, the keyboard has
    the best mark of every letter, and every guess sent has five letters. *)
From S2P Require Import Prelude Wallet JsCore Number Json Grade Wordmine Page PageLogic.
Local Open Scope Z_scope.
Local Open Scope glaciem_scope.

(** ** Vocabulary *)

Definition tasks (p : page) : list task := map snd (timers p).

Definition rank (m : mark) : Z := match m with Gray => 0 | Yellow => 1 | Green => 2 end.

Definition mark_name (m : mark) : string := match m with Green => "green" | Yellow => "yellow" | Gray => "gray" end.

Definition json_marks (ms : list mark) : jsval := Some (JArr (map json_mark ms)).

(** A guess graded with five marks. *)
Definition graded_ok (g : graded) : Prop :=
  re_five_letters (g_word g) = true /\ exists ms, length ms = 5%nat /\ g_marks g = json_marks ms.

(** Letter [L] was given mark [m] at column [c] of a guess. *)
Definition marked_at (g : graded) (c : Z) (L : string) (m : mark) : Prop :=
  split_chars (g_word g) !! Z.to_nat c = Some L /\ get_index (g_marks g) c = Ok (Some (json_mark m)).

Definition marked (gs : list graded) (L : string) (m : mark) : Prop :=
  exists g c, g ∈ gs /\ 0 <= c < 5 /\ marked_at g c L m.

(** [state] has the best mark of every letter of [O], and nothing else. *)
Definition best (O : string -> mark -> Prop) (state : gmap string json) : Prop :=
  forall L, match state !! L with
            | Some j => exists m, j = json_mark m /\ O L m /\ forall m', O L m' -> rank m' <= rank m
            | None => forall m, ~ O L m
            end.

(** A cell that shows letter and mark of its column. *)
Definition shows (g : graded) (c : Z) (x : cell) : Prop :=
  exists L m, marked_at g c L m /\ x = mk_cell L ["cell"%string; mark_name m].

Definition flipping (p : page) (r c : Z) (g : graded) : Prop :=
  Flip r c (g_marks g) (split_chars (g_word g)) ∈ tasks p \/ FlipEnd r c (g_marks g) (split_chars (g_word g)) ∈ tasks p.

Definition painted (state : gmap string json) (k : key) : Prop :=
  is_wide (key_token k) = true \/
  key_class k = "key"%string :: match state !! key_token k with Some (JStr s) => [s] | _ => [] end.

(** A key has no class beyond its colour. *)
Definition key_ok (k : key) : Prop :=
  is_wide (key_token k) = true \/ exists m : option mark, key_class k = "key"%string :: match m with Some m => [mark_name m] | None => [] end.

Record game_ok (p : page) : Prop := {
  ok_row : currentRow (script p) = Z.of_nat (length (guesses (script p)));
  ok_col : 0 <= currentCol (script p) <= 5;
  ok_board r c : is_Some (board p !! (r, c)) <-> 0 <= r < 6 /\ 0 <= c < 5;
  ok_typed c x : board p !! (currentRow (script p), c) = Some x ->
    if c <? currentCol (script p) then re_upper (cell_text x) = true else cell_text x = ""%string;
  ok_ahead r c x : currentRow (script p) < r -> board p !! (r, c) = Some x -> cell_text x = ""%string;
  ok_guesses : Forall graded_ok (guesses (script p));
  ok_flips t : t ∈ tasks p -> match t with
    | Flip r c m l | FlipEnd r c m l =>
        0 <= r /\ 0 <= c < 5 /\ exists g, guesses (script p) !! Z.to_nat r = Some g /\ m = g_marks g /\ l = split_chars (g_word g)
    | _ => True end;
  ok_shown r c g : 0 <= r < 6 -> 0 <= c < 5 -> guesses (script p) !! Z.to_nat r = Some g ->
    flipping p r c g \/ exists x, board p !! (r, c) = Some x /\ shows g c x;
  ok_best : best (marked (guesses (script p))) (kbState (script p));
  ok_keys : Forall key_ok (kb p);
  ok_painted : PaintKeyboard ∈ tasks p \/ Forall (painted (kbState (script p))) (kb p);
  ok_awaited g : InSubmitRow g ∈ awaited p -> re_five_letters g = true;
}.

(** ** Parts of the script that do not touch the game *)

Record same_game (p q : page) : Prop := {
  same_row : currentRow (script q) = currentRow (script p);
  same_col : currentCol (script q) = currentCol (script p);
  same_guesses : guesses (script q) = guesses (script p);
  same_kbState : kbState (script q) = kbState (script p);
  same_board : board q = board p;
  same_kb : kb q = kb p;
  same_tasks t : game_task t = true -> t ∈ tasks q <-> t ∈ tasks p;
  same_awaited g : InSubmitRow g ∈ awaited q -> InSubmitRow g ∈ awaited p;
}.

Lemma same_game_ok p q : same_game p q -> game_ok p -> game_ok q.
Proof.
  intros [S1 S2 S3 S4 S5 S6 S7 S8] [H1 H2 H3 H4 H5 H6 H7 H8 H9 Hk H10 H11].
  split; rewrite ?S1, ?S2, ?S3, ?S4, ?S5, ?S6; try done.
  - intros t Ht. destruct t; try done; (apply S7 in Ht; [|done]); apply (H7 _ Ht).
  - intros r c g Hr Hc Hg. destruct (H8 r c g Hr Hc Hg) as [[Hf|Hf]|Hx]; [left; left|left; right|by right]; by apply S7.
  - destruct H10 as [Hp|Hp]; [left; by apply S7|by right].
  - intros g Hg. by apply H11, S8.
Qed.

#[export] Instance same_game_frame : Frame same_game.
Proof.
  split; try (intros; intros p; by split).
  - split; [intros p; by split|]. intros p q r [S1 S2 S3 S4 S5 S6 S7 S8] [T1 T2 T3 T4 T5 T6 T7 T8].
    split; try congruence; [|by auto]. intros t Ht. by rewrite T7, S7.
  - intros t ms Ht p. split; try done. intros t' Ht'. unfold tasks. cbn [setTimeout on_timers timers snd]. rewrite map_app.
    cbn [map snd]. rewrite elem_of_app, list_elem_of_singleton. split; [|by left]. intros [?| ->]; [done|]. congruence.
  - intros p. split; try done. intros t Ht. unfold tasks. cbn [on_timers timers snd]. rewrite !list_elem_of_In, !in_map_iff. split.
    + intros ([ms t'] & E & Hin). apply filter_In in Hin as [Hin _]. by exists (ms, t').
    + intros ([ms t'] & E & Hin). exists (ms, t'). split; [done|]. apply filter_In. split; [done|].
      cbn in E |- *. subst t'. by destruct t.
  - intros k Hk p. split; try done. intros g. cbn [on_awaited awaited snd].
    rewrite elem_of_app, list_elem_of_singleton. intros [?|E]; [done|]. by destruct (Hk g).
Qed.

(** ** Typing *)

Lemma tasks_setTimeout t ms p : tasks (setTimeout t ms p).2 = tasks p ++ [t].
Proof. unfold tasks. cbn. by rewrite map_app. Qed.

(** Change of one cell at or beyond the current row, with its text kept. *)
Lemma class_only_ok f r c p :
  game_ok p -> currentRow (script p) <= r ->
  let q := (on_cell r c (fun x => mk_cell (cell_text x) (f (cell_class x))) p).2 in game_ok q /\ script q = script p.
Proof.
  intros [H1 H2 H3 H4 H5 H6 H7 H8 H9 Hk H10 H11] Hr. unfold on_cell, act_bind, get. cbn.
  destruct (board p !! (r, c)) as [x|] eqn:E; cbn; [|by split].
  assert (forall r' c' y, <[(r, c) := mk_cell (cell_text x) (f (cell_class x))]> (board p) !! (r', c') = Some y ->
    exists z, board p !! (r', c') = Some z /\ cell_text z = cell_text y) as Hl.
  { intros r' c' y. destruct (decide ((r, c) = (r', c'))) as [[= <- <-]|Hne].
    - rewrite lookup_insert_eq. intros [= <-]. by exists x.
    - rewrite lookup_insert_ne by done. by exists y. }
  split; [|done]. split; cbn; try done.
  - intros r' c'. rewrite <- H3. destruct (decide ((r, c) = (r', c'))) as [[= <- <-]|Hne].
    + rewrite lookup_insert_eq, E. split; intros _; by eexists.
    + by rewrite lookup_insert_ne.
  - intros c' y Hy. destruct (Hl _ _ _ Hy) as (z & Hz & <-). by apply H4.
  - intros r' c' y Hr' Hy. destruct (Hl _ _ _ Hy) as (z & Hz & <-). by apply (H5 r' c').
  - intros r' c' g Hr' Hc' Hg. destruct (H8 r' c' g Hr' Hc' Hg) as [Hf|(y & Hy & Hs)]; [by left|]. right.
    exists y. split; [|done]. rewrite lookup_insert_ne; [done|]. intros [= -> ->]. apply lookup_lt_Some in Hg. lia.
Qed.

Lemma shakeRow_ok p : game_ok p -> game_ok (shakeRow (currentRow (script p)) p).2.
Proof.
  unfold shakeRow. generalize columns. intros cs. remember (currentRow (script p)) as r eqn:Hr. intros Hp.
  assert (currentRow (script p) <= r) as Hle by lia. clear Hr. revert p Hp Hle.
  induction cs as [|c cs IH]; intros p Hp Hle; cbn [for_each]; [done|].
  destruct (class_only_ok (class_add "shake") r c p Hp Hle) as [Hq Hs]. unfold act_bind at 1 2.
  destruct (on_cell r c _ p) as [[[]|e] q]; cbn [snd] in *; [|done].
  cbn. apply IH; cbn.
  - eapply same_game_ok; [|exact Hq]. by apply (frame_setTimeout (Unshake r c) 500).
  - rewrite Hs. lia.
Qed.

Lemma toast_ok msg ms p : game_ok p -> game_ok (toast msg ms p).2.
Proof. apply same_game_ok, (pres_toast same_game). Qed.

Lemma bind_ok {A B} (m : act A) (k : A -> act B) p :
  game_ok (m p).2 -> (forall a q, game_ok q -> game_ok (k a q).2) -> game_ok (act_bind m k p).2.
Proof. intros Hm Hk. unfold act_bind. destruct (m p) as [[a|e] q]; [by apply Hk|done]. Qed.

Lemma re_upper_char t : re_upper t = true -> exists c, chars t = [c] /\ is_upper c = true.
Proof. unfold re_upper. destruct (chars t) as [|c [|]]; try done. by exists c. Qed.

Lemma columns_range c : c ∈ columns <-> 0 <= c < 5.
Proof. rewrite list_elem_of_In. cbn. lia. Qed.

(** A row whose five cells hold letters spells a guess. *)
Lemma cell_texts_letters b r cs :
  (forall c, c ∈ cs -> exists x, b !! (r, c) = Some x /\ re_upper (cell_text x) = true) ->
  exists s, cell_texts b r cs = Ok s /\ length (chars s) = length cs /\ forallb is_upper (chars s) = true.
Proof.
  induction cs as [|c cs IH]; intros H; cbn [cell_texts]; [by exists ""%string|].
  destruct (H c ltac:(set_solver)) as (x & -> & Hx). destruct IH as (s & -> & Hl & Hu); [set_solver|].
  destruct (re_upper_char _ Hx) as (a & Ha & Hua). exists (cell_text x +:+ s). split; [done|].
  rewrite chars_app, Ha. cbn. by rewrite Hl, Hua, Hu.
Qed.

(** A letter written to, or taken from, the current row. *)
Lemma retype_ok p c x y col :
  game_ok p -> board p !! (currentRow (script p), c) = Some x -> 0 <= col <= 5 ->
  (forall c', if c' <? col then c' = c /\ re_upper (cell_text y) = true \/ c' <> c /\ c' < currentCol (script p)
              else c' = c /\ cell_text y = ""%string \/ c' <> c /\ currentCol (script p) <= c') ->
  game_ok (mk_page (set_currentCol col (script p)) (dom p) (<[(currentRow (script p), c) := y]> (board p)) (kb p) (storage p)
             (timers p) (awaited p) (trace p)).
Proof.
  intros [H1 H2 H3 H4 H5 H6 H7 H8 H9 Hk H10 H11] Hx Hcol Hy. split; cbn; try done.
  - intros r' c'. rewrite <- H3. destruct (decide ((currentRow (script p), c) = (r', c'))) as [[= <- <-]|Hne].
    + rewrite lookup_insert_eq, Hx. split; intros _; by eexists.
    + by rewrite lookup_insert_ne.
  - intros c' z. specialize (Hy c'). destruct (decide (c = c')) as [<-|Hne].
    + rewrite lookup_insert_eq. intros [= <-]. destruct (c <? col); destruct Hy as [[_ Hy]|[Hy _]]; done.
    + rewrite lookup_insert_ne by congruence. intros Hz. specialize (H4 c' z Hz).
      destruct (c' <? col); destruct Hy as [[-> _]|[_ Hy]]; try done.
      * by rewrite (proj2 (Z.ltb_lt _ _) Hy) in H4.
      * by rewrite (proj2 (Z.ltb_ge _ _) Hy) in H4.
  - intros r' c' z Hr'. rewrite lookup_insert_ne by (intros [= ]; lia). by apply H5.
  - intros r' c' g Hr' Hc' Hg. destruct (H8 r' c' g Hr' Hc' Hg) as [Hf|(z & Hz & Hs)]; [by left|]. right.
    exists z. split; [|done]. rewrite lookup_insert_ne; [done|]. intros [= <- <-]. apply lookup_lt_Some in Hg. lia.
Qed.

(** Beyond the last row only the count of columns changes. *)
Lemma recount_ok p col :
  game_ok p -> (forall c, board p !! (currentRow (script p), c) = None) -> 0 <= col <= 5 ->
  game_ok (mk_page (set_currentCol col (script p)) (dom p) (board p) (kb p) (storage p) (timers p) (awaited p) (trace p)).
Proof.
  intros [H1 H2 H3 H4 H5 H6 H7 H8 H9 Hk H10 H11] Hn Hcol. split; cbn; try done. intros c x Hx. by rewrite Hn in Hx.
Qed.

Lemma row_missing p c c' :
  game_ok p -> 0 <= c < 5 -> board p !! (currentRow (script p), c) = None -> board p !! (currentRow (script p), c') = None.
Proof.
  intros Hp Hc Hn. destruct (board p !! (_, c')) eqn:E; [|done].
  apply mk_is_Some, (ok_board p Hp) in E. assert (is_Some (board p !! (currentRow (script p), c))) as [x Hx]; [|congruence].
  apply (ok_board p Hp). lia.
Qed.

Lemma current_guess_ok p g :
  game_ok p -> 5 <= currentCol (script p) -> cell_texts (board p) (currentRow (script p)) columns = Ok g ->
  re_five_letters g = true.
Proof.
  intros Hp Hcol E. destruct (cell_texts_letters (board p) (currentRow (script p)) columns) as (s & Hs & Hl & Hu).
  - intros c Hc. apply columns_range in Hc as Hcr. destruct (board p !! (currentRow (script p), c)) as [x|] eqn:Ex.
    + exists x. split; [done|]. pose proof (ok_typed p Hp c x Ex) as Ht. by rewrite (proj2 (Z.ltb_lt c _)) in Ht by lia.
    + exfalso. cbn in E. rewrite (row_missing p c 0 Hp Hcr Ex) in E. done.
  - rewrite E in Hs. injection Hs as <-. unfold re_five_letters. by rewrite Hl, Hu.
Qed.

Lemma submitRow_ok p : game_ok p -> game_ok (submitRow p).2.
Proof.
  intros Hp. unfold submitRow. change (act_bind get ?k p) with (k p p). cbv beta. case_test.
  { apply bind_ok; [by apply shakeRow_ok|]. intros [] q Hq. by apply toast_ok. }
  unfold getCurrentGuess. unfold act_bind at 1. change (act_bind get ?k p) with (k p p). cbv beta.
  destruct (cell_texts (board p) _ _) as [g|e] eqn:E; unfold of_res; [|done].
  pose proof (current_guess_ok p g Hp Heqb E) as Hg.
  destruct Hp as [H1 H2 H3 H4 H5 H6 H7 H8 H9 Hk H10 H11]. split; cbn; try done.
  intros g'. rewrite elem_of_app, list_elem_of_singleton. intros [?|[= ->]]; [by apply H11|done].
Qed.

Lemma backspace_ok p : game_ok p -> game_ok (backspace p).2.
Proof.
  intros Hp. unfold backspace. change (act_bind get ?k p) with (k p p). cbv beta. pose proof (ok_col p Hp).
  case_test; [done|]. unfold setCell, act_bind, get. cbn.
  destruct (board p !! (_, _)) as [x|] eqn:Ex; cbn.
  - eapply retype_ok; [done|exact Ex|lia|]. intros c'. case_test; [right; lia|].
    destruct (decide (c' = currentCol (script p) - 1)); [by left|right; lia].
  - apply recount_ok; [done| |lia]. intros c. apply (row_missing p (currentCol (script p) - 1)); [done|lia|done].
Qed.

Lemma pressKey_ok t p : game_ok p -> game_ok (pressKey t p).2.
Proof.
  intros Hp. unfold pressKey. change (act_bind get ?k p) with (k p p). cbv beta. pose proof (ok_col p Hp).
  do 3 (case_test; [solve [done | by apply submitRow_ok | by apply backspace_ok]|]).
  destruct ((currentCol (script p) <? 5) && re_upper t) eqn:Ht; [|done]. apply andb_prop in Ht as [Hc Ht]. bool_to_prop.
  unfold setCell, act_bind, get. cbn. destruct (board p !! (_, _)) as [x|] eqn:Ex; cbn.
  - eapply retype_ok; [done|exact Ex|lia|]. intros c'. destruct (Z.ltb_spec c' (currentCol (script p) + 1)).
    + destruct (decide (c' = currentCol (script p))); [by left|right; lia].
    + right. lia.
  - apply recount_ok; [done| |lia]. intros c. apply (row_missing p (currentCol (script p))); [done|lia|done].
Qed.

Lemma keydown_ok name modified p : game_ok p -> game_ok (keydown name modified p).2.
Proof.
  intros Hp. unfold keydown. change (act_bind get ?k p) with (k p p). cbv beta.
  repeat case_test; try done; by apply pressKey_ok.
Qed.

(** ** Timers *)

(** [q] is [p] with a task taken out. *)
Definition taken (t : task) (p q : page) : Prop :=
  q = mk_page (script p) (dom p) (board p) (kb p) (storage p) (timers q) (awaited p) (trace p) /\
  (forall u, u ∈ tasks q -> u ∈ tasks p) /\ (forall u, u ∈ tasks p -> u = t \/ u ∈ tasks q).

Lemma take_timer p i ms t :
  timers p !! i = Some (ms, t) -> taken t p (on_timers (fun l => take i l ++ drop (S i) l) p).2.
Proof.
  intros Hi. pose proof (take_drop_middle _ _ _ Hi) as Hl. split; [done|].
  assert (map snd (timers p) = map snd (take i (timers p)) ++ t :: map snd (drop (S i) (timers p))) as E.
  { rewrite <- Hl at 1. by rewrite map_app. }
  unfold tasks. cbn [on_timers timers snd]. rewrite E, map_app. split; intros u; rewrite !elem_of_app.
  - intros [?|?]; [by left|right; by right].
  - intros [?|[->|?]%elem_of_cons]; auto.
Qed.

Lemma taken_other t p q : game_task t = false -> taken t p q -> same_game p q.
Proof.
  intros Ht (E & H1 & H2). rewrite E. split; try done. intros u Hu. fold (tasks q). split; [apply H1|]. intros Hin.
  destruct (H2 u Hin) as [->|]; congruence.
Qed.

Lemma marked_at_exists g c :
  graded_ok g -> 0 <= c < 5 ->
  exists L m, marked_at g c L m.
Proof.
  intros (Hw & ms & Hms & Hm) Hc. unfold re_five_letters in Hw. apply andb_prop in Hw as [Hw _]. bool_to_prop.
  destruct (lookup_lt_is_Some_2 (split_chars (g_word g)) (Z.to_nat c)) as [L HL].
  { unfold split_chars. rewrite length_map. lia. }
  destruct (lookup_lt_is_Some_2 ms (Z.to_nat c)) as [m Hmc]; [lia|].
  exists L, m. split; [done|]. rewrite Hm. cbn. by rewrite list_lookup_fmap, Hmc.
Qed.

(** A change of a cell in a graded row that leaves it shown or being flipped. *)
Lemma graded_cell_ok p q r c g y :
  let flip := Flip r c (g_marks g) (split_chars (g_word g)) in
  let flip_end := FlipEnd r c (g_marks g) (split_chars (g_word g)) in
  game_ok p -> 0 <= r < 6 -> 0 <= c < 5 -> guesses (script p) !! Z.to_nat r = Some g ->
  q = mk_page (script p) (dom p) (<[(r, c) := y]> (board p)) (kb p) (storage p) (timers q) (awaited p) (trace p) ->
  (forall u, u ∈ tasks q -> u ∈ tasks p \/ u = flip_end) ->
  (forall u, u ∈ tasks p -> u ∈ tasks q \/ u = flip \/ u = flip_end) ->
  flipping q r c g \/ shows g c y -> game_ok q.
Proof.
  intros f fe [H1 H2 H3 H4 H5 H6 H7 H8 H9 Hk H10 H11] Hr Hc Hg E Hin Hout Hy.
  assert (r < currentRow (script p)) as Hlt by (apply lookup_lt_Some in Hg; lia).
  assert (board q = <[(r, c) := y]> (board p)) as Eb by (by rewrite E).
  assert (script q = script p) as Es by (by rewrite E). assert (kb q = kb p) as Ek by (by rewrite E).
  assert (awaited q = awaited p) as Ea by (by rewrite E).
  split; rewrite ?Eb, ?Es, ?Ek, ?Ea; try done.
  - intros r' c'. rewrite <- H3. destruct (decide ((r, c) = (r', c'))) as [[= <- <-]|Hne].
    + rewrite lookup_insert_eq. split; [|by eexists]. intros _. by apply H3.
    + by rewrite lookup_insert_ne.
  - intros c' x. rewrite lookup_insert_ne by (intros [= ]; lia). by apply H4.
  - intros r' c' x Hr'. rewrite lookup_insert_ne by (intros [= ]; lia). by apply H5.
  - intros t Ht. destruct (Hin t Ht) as [Hp| ->]; [by apply H7|]. cbn. split; [lia|]. split; [lia|]. by exists g.
  - intros r' c' g' Hr' Hc' Hg'. destruct (decide ((r, c) = (r', c'))) as [[= <- <-]|Hne].
    + rewrite Hg in Hg'. injection Hg' as <-. destruct Hy as [Hy|Hy]; [by left|]. right. exists y. by rewrite lookup_insert_eq.
    + destruct (H8 r' c' g' Hr' Hc' Hg') as [[Hf|Hf]|Hx]; [left; left|left; right|right; by rewrite lookup_insert_ne].
      all: destruct (Hout _ Hf) as [?|[[= ]|[= ]]]; subst; done.
  - destruct H10 as [Hp|Hp]; [|by right]. left. by destruct (Hout _ Hp) as [?|[?|?]].
Qed.

(** A flip that finds no cell is past the board and leaves nothing to show. *)
Lemma lost_flip_ok p q t r c g :
  t = Flip r c (g_marks g) (split_chars (g_word g)) \/ t = FlipEnd r c (g_marks g) (split_chars (g_word g)) ->
  game_ok p -> taken t p q -> 6 <= r -> game_ok q.
Proof.
  intros Ht [H1 H2 H3 H4 H5 H6 H7 H8 H9 Hk H10 H11] (E & Hin & Hout) Hr. rewrite E in *. split; cbn in *; try done.
  - intros u Hu. by apply H7, Hin.
  - intros r' c' g' Hr' Hc' Hg'. destruct (H8 r' c' g' Hr' Hc' Hg') as [[Hf|Hf]|Hx]; [left; left|left; right|by right].
    all: destruct (Hout _ Hf) as [Heq|]; [|done]; destruct Ht as [-> | ->]; simplify_eq; lia.
  - destruct H10 as [Hp|Hp]; [|by right]. left. destruct (Hout _ Hp) as [<-|]; [by destruct Ht|done].
Qed.

(** The cell a flip is about. *)
Lemma flip_cell p q t r c m l :
  t = Flip r c m l \/ t = FlipEnd r c m l -> game_ok p -> t ∈ tasks p -> taken t p q ->
  exists g, m = g_marks g /\ l = split_chars (g_word g) /\ guesses (script p) !! Z.to_nat r = Some g /\ graded_ok g /\
    0 <= c < 5 /\ 0 <= r /\ (6 <= r /\ board q !! (r, c) = None \/ r < 6 /\ exists x, board q !! (r, c) = Some x).
Proof.
  intros Ht Hp Hin (E & _). pose proof (ok_flips p Hp t Hin) as Hf.
  assert (0 <= r /\ 0 <= c < 5 /\ exists g, guesses (script p) !! Z.to_nat r = Some g /\ m = g_marks g /\ l = split_chars (g_word g))
    as (Hr & Hc & g & Hg & -> & ->) by (by destruct Ht as [-> | ->]).
  exists g. do 3 (split; [done|]). split.
  { pose proof (ok_guesses p Hp) as Hok. rewrite Forall_lookup in Hok. by apply (Hok (Z.to_nat r)). }
  do 2 (split; [lia|]). rewrite E. cbn. destruct (decide (6 <= r)); [left|right]; (split; [lia|]).
  - destruct (board p !! (r, c)) eqn:Eb; [|done]. apply mk_is_Some, (ok_board p Hp) in Eb. lia.
  - apply (ok_board p Hp). lia.
Qed.

Lemma flip_ok p q r c m l :
  game_ok p -> Flip r c m l ∈ tasks p -> taken (Flip r c m l) p q -> game_ok (flip_start r c m l q).2.
Proof.
  intros Hp Hin Ht. destruct (flip_cell p q _ r c m l (or_introl eq_refl) Hp Hin Ht) as (g & -> & -> & Hg & Hok & Hc & Hr & Hx).
  unfold flip_start, on_cell, act_bind, get. destruct Hx as [[H6 ->]|[H6 [x Hx]]]; cbn.
  - by eapply lost_flip_ok; [left|..].
  - rewrite Hx. cbn. destruct Ht as (E & Hi & Ho). rewrite E.
    eapply (graded_cell_ok p _ r c g); [done|lia|done|exact Hg|cbn; reflexivity|..]; unfold flipping, tasks; cbn; rewrite map_app; cbn.
    + intros u. rewrite elem_of_app, list_elem_of_singleton. intros [Hu| ->]; [left; by apply Hi|by right].
    + intros u Hu. rewrite elem_of_app. destruct (Ho u Hu); auto.
    + left. right. rewrite elem_of_app, list_elem_of_singleton. by right.
Qed.

Lemma mark_text m : to_string (Some (json_mark m)) = Ok (mark_name m).
Proof. by destruct m. Qed.

Lemma flip_end_ok p q r c m l :
  game_ok p -> FlipEnd r c m l ∈ tasks p -> taken (FlipEnd r c m l) p q -> game_ok (flip_end r c m l q).2.
Proof.
  intros Hp Hin Ht. destruct (flip_cell p q _ r c m l (or_intror eq_refl) Hp Hin Ht) as (g & -> & -> & Hg & Hok & Hc & Hr & Hx).
  destruct (marked_at_exists g c Hok Hc) as (L & mk & HL & Hm).
  unfold flip_end, on_cell, act_bind, get, of_res. rewrite Hm, mark_text, HL. destruct Hx as [[H6 ->]|[H6 [x Hx]]]; cbn.
  - by eapply lost_flip_ok; [right|..].
  - rewrite Hx. cbn. rewrite lookup_insert_eq. cbn. rewrite insert_insert_eq. destruct Ht as (E & Hi & Ho). rewrite E.
    eapply (graded_cell_ok p _ r c g); [done|lia|done|exact Hg|cbn; reflexivity|..]; unfold tasks; cbn; fold (tasks q).
    + intros u Hu. left. by apply Hi.
    + intros u Hu. destruct (Ho u Hu); auto.
    + right. by exists L, mk.
Qed.

Lemma unshake_ok r c p : game_ok p -> game_ok (unshake r c p).2.
Proof.
  intros Hp. destruct (decide (currentRow (script p) <= r)) as [Hr|Hr]; [by apply class_only_ok|].
  unfold unshake, on_cell, act_bind, get. cbn. destruct (board p !! (r, c)) as [x|] eqn:Ex; [|done]. cbn.
  pose proof (mk_is_Some _ _ Ex) as Hb. apply (ok_board p Hp) in Hb as [Hr6 Hc].
  destruct (lookup_lt_is_Some_2 (guesses (script p)) (Z.to_nat r)) as [g Hg]; [pose proof (ok_row p Hp); lia|].
  eapply (graded_cell_ok p _ r c g); [done|lia|done|exact Hg|cbn; reflexivity|auto..].
  destruct (ok_shown p Hp r c g Hr6 Hc Hg) as [Hf|(y & Hy & L & m & Hm & ->)]; [by left|right].
  rewrite Ex in Hy. injection Hy as ->. exists L, m. split; [done|]. by destruct m.
Qed.

Lemma best_values O state L j : best O state -> state !! L = Some j -> exists m, j = json_mark m.
Proof. intros Hb HL. specialize (Hb L). rewrite HL in Hb. destruct Hb as (m & -> & _). by exists m. Qed.

Lemma paint_key_ok O state k :
  best O state -> key_ok k -> exists k', paint_key state k = Ok k' /\ key_ok k' /\ painted state k'.
Proof.
  intros Hb Hk. unfold paint_key. destruct (is_wide (key_token k)) eqn:Ew; [exists k; split_and!; try done; by left|].
  destruct Hk as [Hk|(m & Hm)]; [congruence|].
  assert (class_remove "gray" (class_remove "yellow" (class_remove "green" (key_class k))) = ["key"%string]) as ->.
  { rewrite Hm. by destruct m as [[]|]. }
  destruct (state !! key_token k) as [j|] eqn:Ej.
  - destruct (best_values _ _ _ _ Hb Ej) as [m' ->]. replace (truthy_json (json_mark m')) with true by (by destruct m').
    eexists. split; [by destruct m'|]. split; [right; exists (Some m'); by destruct m'|].
    right. cbn [key_token key_class]. rewrite Ej. by destruct m'.
  - eexists. split; [done|]. split; [right; by exists None|]. right. cbn [key_token key_class]. by rewrite Ej.
Qed.

Lemma paint_keys_ok O state after : best O state -> forall before p,
  kb p = before ++ after -> Forall key_ok (before ++ after) -> Forall (painted state) before ->
  exists ks, paint_keys state before after p =
    (Ok tt, mk_page (script p) (dom p) (board p) ks (storage p) (timers p) (awaited p) (trace p)) /\
    Forall key_ok ks /\ Forall (painted state) ks.
Proof.
  intros Hb. induction after as [|k after IH]; intros before p Hkb Hok Hpt; cbn [paint_keys].
  { exists before. rewrite app_nil_r in *. split_and!; [|done|done]. rewrite <- Hkb. by destruct p. }
  apply Forall_app in Hok as [Hok1 [Hok2 Hok3]%Forall_cons].
  destruct (paint_key_ok O state k Hb Hok2) as (k' & Ek & Hk1 & Hk2).
  unfold act_bind, of_res, on_kb. rewrite Ek. destruct (IH (before ++ [k']) (mk_page (script p) (dom p) (board p)
    (before ++ k' :: after) (storage p) (timers p) (awaited p) (trace p))) as (ks & E & H1 & H2).
  - cbn. by rewrite <- app_assoc.
  - rewrite <- app_assoc. apply Forall_app. split; [done|]. by constructor.
  - apply Forall_app. split; [done|]. by constructor.
  - exists ks. by rewrite E.
Qed.

Lemma paintKeyboard_ok p q : game_ok p -> taken PaintKeyboard p q -> game_ok (paintKeyboard q).2.
Proof.
  intros Hp (E & Hin & Hout). unfold paintKeyboard. change (act_bind get ?k q) with (k q q). cbv beta.
  assert (script q = script p) as Es by (by rewrite E). assert (kb q = kb p) as Ek by (by rewrite E).
  rewrite Es, Ek.
  destruct (paint_keys_ok _ (kbState (script p)) (kb p) (ok_best p Hp) [] q Ek (ok_keys p Hp) ltac:(constructor)) as (ks & -> & Hk1 & Hk2).
  cbn. rewrite Es. destruct Hp as [H1 H2 H3 H4 H5 H6 H7 H8 H9 Hk H10 H11].
  rewrite E. split; cbn; try done.
  - intros t Ht. by apply H7, Hin.
  - intros r c g Hr Hc Hg. destruct (H8 r c g Hr Hc Hg) as [[Hf|Hf]|Hx]; [left; left|left; right|by right].
    all: by destruct (Hout _ Hf).
  - by right.
Qed.

(** ** A graded guess *)

Lemma order_mark m : order (Some (json_mark m)) = Ok (Some (rank m)).
Proof. by destruct m. Qed.

Lemma json_mark_truthy m : truthy_json (json_mark m) = true.
Proof. by destruct m. Qed.

(** One round of the colouring loop records one mark. *)
Lemma colour_best O g c state :
  graded_ok g -> 0 <= c < 5 -> best O state ->
  exists s, colour (g_marks g) (split_chars (g_word g)) c state = Ok s /\ best (fun L m => O L m \/ marked_at g c L m) s.
Proof.
  intros Hg Hc Hb. destruct (marked_at_exists g c Hg Hc) as (L0 & m0 & HL & Hm). unfold colour. rewrite HL, Hm. cbn [default id].
  assert (forall L m, marked_at g c L m -> L = L0 /\ m = m0) as Huniq.
  { intros L m [HL' Hm']. rewrite HL in HL'. rewrite Hm in Hm'. split; [congruence|]. by destruct m, m0. }
  assert (forall s, (forall L, L <> L0 -> s !! L = state !! L) ->
    (exists m, s !! L0 = Some (json_mark m) /\ (O L0 m \/ m = m0) /\ rank m0 <= rank m /\ forall m', O L0 m' -> rank m' <= rank m) ->
    best (fun L m => O L m \/ marked_at g c L m) s) as Hkey.
  { intros s Hs (m & Hm1 & Hm2 & Hm3 & Hm4) L. destruct (decide (L = L0)) as [->|Hne].
    - rewrite Hm1. exists m. split; [done|]. split; [destruct Hm2 as [?| ->]; [by left|by right]|].
      intros m' [Ho|Hmk]; [by apply Hm4|]. by destruct (Huniq _ _ Hmk) as [_ ->].
    - rewrite Hs by done. specialize (Hb L). destruct (state !! L).
      + destruct Hb as (m' & -> & Ho & Hmax). exists m'. split_and!; [done|by left|]. intros m'' [?|Hmk]; [by apply Hmax|].
        by destruct (Huniq _ _ Hmk).
      + intros m' [Ho|Hmk]; [by apply (Hb m')|]. by destruct (Huniq _ _ Hmk). }
  pose proof (Hb L0) as H0. destruct (state !! L0) as [cur|] eqn:Ecur.
  - destruct H0 as (mc & -> & Ho & Hmax). rewrite json_mark_truthy. unfold upgrades. cbn [res_bind]. rewrite !order_mark. cbn [res_bind].
    eexists. split; [done|]. apply Hkey.
    + intros L Hne. case_test; [by rewrite lookup_partial_alter_ne|done].
    + destruct (Z.ltb_spec (rank mc) (rank m0)).
      * exists m0. rewrite lookup_partial_alter_eq. split_and!; [done|by right|lia|]. intros m' Ho'. specialize (Hmax m' Ho'). lia.
      * exists mc. split_and!; [done|by left|lia|done].
  - eexists. split; [done|]. apply Hkey.
    + intros L Hne. by rewrite lookup_partial_alter_ne.
    + exists m0. rewrite lookup_partial_alter_eq. split_and!; [done|by right|lia|]. intros m' Ho. by destruct (H0 m').
Qed.

Lemma best_ext O O' state : (forall L m, O L m <-> O' L m) -> best O state -> best O' state.
Proof.
  intros H Hb L. specialize (Hb L). destruct (state !! L).
  - destruct Hb as (m & -> & Ho & Hmax). exists m. split_and!; [done|by apply H|]. intros m' Hm'. by apply Hmax, H.
  - intros m Ho. by apply (Hb m), H.
Qed.

Definition with_kbState (s : gmap string json) (p : page) : page :=
  mk_page (set_kbState s (script p)) (dom p) (board p) (kb p) (storage p) (timers p) (awaited p) (trace p).

(** The whole loop. *)
Lemma colours_best g cs : graded_ok g -> (forall c, c ∈ cs -> 0 <= c < 5) -> forall O p,
  best O (kbState (script p)) ->
  exists s, for_each cs (colour_letter (g_marks g) (split_chars (g_word g))) p = (Ok tt, with_kbState s p) /\
            best (fun L m => O L m \/ exists c, c ∈ cs /\ marked_at g c L m) s.
Proof.
  intros Hg. induction cs as [|c cs IH]; intros Hcs O p Hb; cbn [for_each].
  { exists (kbState (script p)). split; [by destruct p as [[]]|]. eapply best_ext; [|exact Hb].
    intros L m. split; [by left|]. intros [?|(? & Hin & _)]; [done|]. by apply elem_of_nil in Hin. }
  destruct (colour_best O g c (kbState (script p)) Hg (Hcs c (list_elem_of_here _ _)) Hb) as (s & Es & Hs).
  destruct (IH (fun d Hd => Hcs d (list_elem_of_further _ _ _ Hd)) _ (with_kbState s p) Hs) as (s' & Es' & Hs').
  exists s'. split.
  - unfold act_bind, colour_letter at 1, get, of_res. cbn. by rewrite Es.
  - eapply best_ext; [|exact Hs']. intros L m. cbn. clear. setoid_rewrite elem_of_cons. naive_solver.
Qed.

(** The page after a guess is graded, before its outcome is looked at. *)
Definition graded_page (g : graded) (s : gmap string json) (p : page) : page :=
  mk_page (set_currentCol 0 (set_currentRow (currentRow (script p) + 1)
             (set_guesses (guesses (script p) ++ [g]) (set_kbState s (script p)))))
    (dom p) (board p) (kb p) (storage p)
    (timers p ++ map (fun c => (c * 140, Flip (currentRow (script p)) c (g_marks g) (split_chars (g_word g)))) columns
     ++ [(5 * 140 + 200, PaintKeyboard)])
    (awaited p) (trace p).

Lemma marked_snoc gs g L m : marked (gs ++ [g]) L m <-> marked gs L m \/ exists c, c ∈ columns /\ marked_at g c L m.
Proof.
  split.
  - intros (g' & c & [Hin| ->%list_elem_of_singleton]%elem_of_app & Hc & Hm); [left; by exists g', c|].
    right. exists c. by rewrite columns_range.
  - intros [(g' & c & Hin & Hm)|(c & Hc%columns_range & Hm)]; [exists g', c|exists g, c]; by rewrite elem_of_app, ?list_elem_of_singleton; auto.
Qed.

Lemma submitRow_graded g body p :
  graded_ok g -> get_prop (Some body) "marks" = Ok (g_marks g) -> best (marked (guesses (script p))) (kbState (script p)) ->
  exists s, submitRow_answer (g_word g) 200 body p = guess_finished body (graded_page g s p) /\
            best (marked (guesses (script p) ++ [g])) s.
Proof.
  intros Hg Hm Hb. unfold submitRow_answer. cbn [Z.eqb Pos.eqb negb]. rewrite Hm. unfold act_bind at 1, of_res.
  change (act_bind get ?k p) with (k p p). cbv beta.
  set (p1 := mk_page (script p) (dom p) (board p) (kb p) (storage p)
    (timers p ++ map (fun c => (c * 140, Flip (currentRow (script p)) c (g_marks g) (split_chars (g_word g)))) columns)
    (awaited p) (trace p)).
  assert (flipRow (currentRow (script p)) (g_marks g) (split_chars (g_word g)) p = (Ok tt, p1)) as Hf.
  { unfold flipRow. cbn. unfold act_bind, setTimeout, on_timers. cbn. unfold p1. by rewrite <- !app_assoc. }
  unfold act_bind at 1. rewrite Hf.
  destruct (colours_best g columns Hg (fun c => proj1 (columns_range c)) _ p1 Hb) as (s & Es & Hs).
  unfold act_bind at 1. rewrite Es. exists s. split.
  - unfold graded_page, setTimeout, on_timers, var, with_kbState, act_bind. cbn -[guess_finished]. rewrite <- !app_assoc. by destruct g.
  - eapply best_ext; [|exact Hs]. intros L m. by rewrite marked_snoc.
Qed.

Lemma graded_page_ok g s p :
  game_ok p -> graded_ok g -> best (marked (guesses (script p) ++ [g])) s -> game_ok (graded_page g s p).
Proof.
  intros [H1 H2 H3 H4 H5 H6 H7 H8 H9 Hk H10 H11] Hg Hs.
  assert (forall t, t ∈ tasks (graded_page g s p) <-> t ∈ tasks p \/
    (exists c, 0 <= c < 5 /\ t = Flip (currentRow (script p)) c (g_marks g) (split_chars (g_word g))) \/ t = PaintKeyboard) as Ht.
  { intros t. unfold tasks, graded_page. cbn [timers]. rewrite !map_app, map_map, !elem_of_app.
    setoid_rewrite <- columns_range. cbn [map snd]. rewrite list_elem_of_singleton, (list_elem_of_fmap _ columns).
    split; (intros [?|[(c & ? & ?)|?]]; [by left|right; left; by exists c|by right; right]). }
  split; cbn; try done; try lia.
  - rewrite length_app. cbn. lia.
  - intros c x Hx. case_test; [|by apply (H5 (currentRow (script p) + 1) c x); [lia|]]. apply mk_is_Some, H3 in Hx. lia.
  - intros r c x Hr. apply H5. lia.
  - apply Forall_app. split; [done|]. by constructor.
  - intros t Hin. apply Ht in Hin as [Hin|[(c & Hc & ->)| ->]]; [|cbn|done].
    + specialize (H7 t Hin). destruct t; try done; destruct H7 as (? & ? & g' & Hg' & ?); (split; [done|split; [done|]]);
        exists g'; (split; [by apply lookup_app_l_Some|done]).
    + split; [lia|]. split; [done|]. exists g. split; [|done]. rewrite H1, Nat2Z.id. by apply list_lookup_middle.
  - intros r c g' Hr Hc Hg'. apply lookup_app_Some in Hg' as [Hg'|[Hlen Hg']].
    + destruct (H8 r c g' Hr Hc Hg') as [[Hf|Hf]|Hx]; [left; left|left; right|by right]; apply Ht; by left.
    + apply list_lookup_singleton_Some in Hg' as [Hz <-]. left. left. apply Ht. right. left. exists c. split; [done|].
      f_equal. lia.
  - left. apply Ht. by right; right.
Qed.

Lemma guess_answer_ok g st body p :
  game_ok p -> re_five_letters g = true ->
  (st = 200 -> exists ms, length ms = 5%nat /\ get_prop (Some body) "marks" = Ok (json_marks ms)) ->
  game_ok (submitRow_answer g st body p).2.
Proof.
  intros Hp Hg Hms. destruct (decide (st = 200)) as [->|Hst].
  - destruct (Hms eq_refl) as (ms & Hl & Hm). assert (graded_ok (mk_graded g (json_marks ms))) as Hok by (split; [done|by exists ms]).
    destruct (submitRow_graded (mk_graded g (json_marks ms)) body p Hok Hm (ok_best p Hp)) as (s & E & Hs). cbn [g_word] in E.
    rewrite E. eapply same_game_ok; [by apply (pres_guess_finished same_game)|]. by apply graded_page_ok.
  - unfold submitRow_answer. rewrite (proj2 (Z.eqb_neq _ _) Hst). cbn [negb]. unfold guess_rejected.
    apply bind_ok; [by case_test|]. intros err q Hq. change (act_bind get ?k q) with (k q q). cbv beta zeta.
    repeat case_test; (apply bind_ok; [solve [by apply shakeRow_ok | by apply toast_ok]|]); intros [] q' Hq'; try by apply toast_ok.
    eapply same_game_ok; [|exact Hq']. by apply frame_setTimeout.
Qed.

(** ** Loading *)

Definition empty_board : gmap (Z * Z) cell := board (buildBoard (unloaded None [])).2.

Lemma empty_board_blank k x : empty_board !! k = Some x -> x = blank /\ 0 <= k.1 < 6 /\ 0 <= k.2 < 5.
Proof.
  assert (Forall (fun kx : Z * Z * cell => kx.2 = blank /\ 0 <= kx.1.1 < 6 /\ 0 <= kx.1.2 < 5) (map_to_list empty_board)) as H.
  { vm_compute (map_to_list _). repeat (constructor; [split_and!; done|]). constructor. }
  rewrite Forall_forall in H. intros Hk. apply (H (k, x)). by apply elem_of_map_to_list.
Qed.

Lemma empty_board_full r c : 0 <= r < 6 -> 0 <= c < 5 -> is_Some (empty_board !! (r, c)).
Proof.
  intros Hr Hc. assert (forallb (fun rc => bool_decide (is_Some (empty_board !! rc))) (list_prod rows columns) = true) as H.
  { vm_compute. reflexivity. }
  rewrite forallb_forall in H. apply (bool_decide_eq_true_1 _), H, in_prod; cbn; lia.
Qed.

Lemma built a tr :
  ((buildBoard ;% buildKeyboard) (unloaded a tr)).2 =
  mk_page (script (unloaded a tr)) document empty_board (map new_key (mjoin KEYS)) a [] [] tr.
Proof. reflexivity. Qed.

#[local] Opaque empty_board.

Lemma board_built a tr : game_ok ((buildBoard ;% buildKeyboard) (unloaded a tr)).2.
Proof.
  rewrite built. split; cbn [unloaded script currentRow currentCol guesses kbState board kb timers awaited].
  - done.
  - done.
  - intros r c. split; [|intros [? ?]; by apply empty_board_full]. intros [x Hx]. by apply empty_board_blank in Hx as (_ & ? & ?).
  - intros c x Hx. pose proof (empty_board_blank _ _ Hx) as (-> & _ & Hc). cbn in Hc |- *. case_test; [lia|done].
  - intros r c x _ Hx. by apply empty_board_blank in Hx as [-> _].
  - constructor.
  - intros t Ht. by apply elem_of_nil in Ht.
  - done.
  - intros L. rewrite lookup_empty. intros m (g & c & Hg & _). by apply elem_of_nil in Hg.
  - apply Forall_map, Forall_forall. intros t _. unfold key_ok, new_key. cbn.
    destruct (is_wide t); [by left|right; by exists None].
  - right. apply Forall_map, Forall_forall. intros t _. unfold painted, new_key. cbn [key_token key_class]. rewrite lookup_empty.
    destruct (is_wide t); [by left|by right].
  - intros g Hg. by apply elem_of_nil in Hg.
Qed.

Lemma then_frames (m1 m2 m3 : act unit) p :
  game_ok ((m1 ;% m2) p).2 -> pres same_game m3 -> game_ok ((m1 ;% m2 ;% m3) p).2.
Proof.
  intros H Hf. unfold act_bind in *. destruct (m1 p) as [[[]|e] p1]; [|done]. destruct (m2 p1) as [[[]|e] p2]; [|done].
  eapply same_game_ok; [apply Hf|exact H].
Qed.

Lemma load_ok a tr : game_ok (load a tr).
Proof. apply then_frames; [apply board_built|]. apply (pres_show_page same_game). Qed.

#[local] Opaque load.

(** ** Every event *)

(** An accepted guess is answered with five marks. *)
Definition answer_ok (p : page) (ev : event) : Prop :=
  match ev with
  | Answered i (Response st body) =>
      match awaited p !! i with
      | Some (InSubmitRow _) =>
          st = 200 -> exists ms, length ms = 5%nat /\ get_prop (Some body) "marks" = Ok (json_marks ms)
      | _ => True
      end
  | _ => True
  end.

Inductive reach : page -> Prop :=
| reach_load a : reach (load a [])
| reach_step p ev : reach p -> answer_ok p ev -> reach (step p ev).

(** The goal that an action keeps the invariant, for an action that does not touch the game. *)
Ltac by_frame := match goal with
  | H : game_ok ?p |- game_ok (?m ?p).2 =>
      apply (same_game_ok p); [|exact H]; cut (pres same_game m); [intros Hframe; apply Hframe|walk]
  end.

Lemma run_task_ok p q t : game_ok p -> t ∈ tasks p -> taken t p q -> game_ok (run_task t q).2.
Proof.
  intros Hp Hin Ht. destruct (game_task t) eqn:Eg.
  - destruct t; try done; cbn [run_task]; [by apply (flip_ok p)|by apply (flip_end_ok p)|by apply (paintKeyboard_ok p)].
  - assert (game_ok q) as Hq by (eapply same_game_ok; [by apply (taken_other t)|done]).
    destruct t; try discriminate Eg; cbn [run_task];
      [by_frame|by apply unshake_ok|by_frame|by_frame|by_frame|by_frame|by_frame|apply load_ok].
Qed.

Lemma resume_ok k a p :
  game_ok p -> (forall g, k = InSubmitRow g -> re_five_letters g = true) ->
  (forall g st body, k = InSubmitRow g -> a = Response st body -> st = 200 ->
     exists ms, length ms = 5%nat /\ get_prop (Some body) "marks" = Ok (json_marks ms)) ->
  game_ok (resume k a p).2.
Proof.
  intros Hp Hg Ha. destruct k, a; cbn [resume]; try solve [done|by_frame]. eapply guess_answer_ok; [done|by apply Hg|by eapply Ha].
Qed.

Lemma awaited_taken p i :
  game_ok p -> game_ok (on_awaited (fun l => take i l ++ drop (S i) l) p).2.
Proof.
  intros [H1 H2 H3 H4 H5 H6 H7 H8 H9 Hk H10 H11]. split; cbn; try done.
  intros g Hg. apply H11. apply elem_of_app in Hg as [Hg|Hg]; [by eapply subseteq_take|by eapply subseteq_drop].
Qed.

Lemma step_ok p ev : game_ok p -> answer_ok p ev -> game_ok (step p ev).
Proof.
  intros Hp Ha. unfold step. destruct ev as [t|name modified| | |s| | |b| | |b| | | | |t| |i|i a]; cbn [handle].
  - case_test; [by apply pressKey_ok|done].
  - by apply keydown_ok.
  - unfold button. by_frame.
  - unfold button. by_frame.
  - by_frame.
  - unfold button. by_frame.
  - by_frame.
  - by_frame.
  - unfold button. by_frame.
  - by_frame.
  - by_frame.
  - unfold button. by_frame.
  - by_frame.
  - by_frame.
  - apply load_ok.
  - by_frame.
  - by_frame.
  - change (act_bind get ?k p) with (k p p). cbv beta. destruct (timers p !! i) as [[ms t]|] eqn:Ei; [|done].
    destruct t; try (apply (run_task_ok p); [done|apply list_elem_of_fmap; eexists (_, _); split; [done|by eapply list_elem_of_lookup_2]|
      by apply (take_timer p i ms)]).
    cbn [run_task]. by_frame.
  - change (act_bind get ?k p) with (k p p). cbv beta. destruct (awaited p !! i) as [k|] eqn:Ei; [|done].
    change (act_bind (on_awaited ?f) ?k p) with (k tt (on_awaited f p).2). cbv beta. apply resume_ok; [by apply awaited_taken|..].
    + intros g ->. apply (ok_awaited p Hp). by eapply list_elem_of_lookup_2.
    + intros g st body -> -> Hst. cbn in Ha. rewrite Ei in Ha. by apply Ha.
Qed.

Lemma reach_ok p : reach p -> game_ok p.
Proof. induction 1 as [a|p ev _ IH Ha]; [apply load_ok|by apply step_ok]. Qed.
