(* ===== verification/PageSafety.v ===== *)
(** * PageSafety: theorems about the page in every reachable state

    Consequences of the invariant of PageInv.v and of the callbacks' structure: rows and keys show the marks, requests are well formed,
    rows finish turning, the cooldown and the polling end. *)
From stdpp Require Import relations.
From S2P Require Import Prelude Wallet JsCore Number Json Grade Wordmine Page PageLogic PageInv.
Local Open Scope Z_scope.
Local Open Scope glaciem_scope.

(** ** What is shown *)

(** Rows show their marks: in every reachable state the cell in column [c] of a graded row shows the letter guessed there
    and the colour of its mark, unless the cell is still being turned. *)
Theorem board_shows_marks p r c g :
  reach p -> 0 <= r < 6 -> 0 <= c < 5 -> guesses (script p) !! Z.to_nat r = Some g -> ~ flipping p r c g ->
  exists L m, split_chars (g_word g) !! Z.to_nat c = Some L /\ get_index (g_marks g) c = Ok (Some (json_mark m)) /\
              board p !! (r, c) = Some (mk_cell L ["cell"%string; mark_name m]).
Proof.
  intros Hp%reach_ok Hr Hc Hg Hf. destruct (ok_shown p Hp r c g Hr Hc Hg) as [?|(x & Hx & L & m & [HL Hm] & ->)]; [done|].
  by exists L, m.
Qed.

(** The keyboard has the best mark: in every reachable state in which no repaint is due, a letter key is coloured with the
    best mark that letter got in any graded guess, and is not coloured if the letter was not guessed. *)
Theorem keyboard_best p k :
  reach p -> PaintKeyboard ∉ tasks p -> k ∈ kb p -> is_wide (key_token k) = false ->
  (exists m, key_class k = ["key"%string; mark_name m] /\ marked (guesses (script p)) (key_token k) m /\
             forall m', marked (guesses (script p)) (key_token k) m' -> rank m' <= rank m) \/
  (key_class k = ["key"%string] /\ forall m, ~ marked (guesses (script p)) (key_token k) m).
Proof.
  intros Hp%reach_ok Hpaint Hk Hw. destruct (ok_painted p Hp) as [?|Hpt]; [done|]. rewrite Forall_forall in Hpt.
  destruct (Hpt k Hk) as [?|E]; [congruence|]. rewrite E. pose proof (ok_best p Hp (key_token k)) as Hb.
  destruct (kbState (script p) !! key_token k) as [j|].
  - left. destruct Hb as (m & -> & Hm). exists m. by destruct m.
  - by right.
Qed.

(** ** What is sent *)

(** The requests sent meanwhile are well formed. *)
Definition sends (p q : page) : Prop := exists l, trace q = l ++ trace p /\ Forall effect_ok l.

#[export] Instance sends_frame : Frame sends.
Proof.
  split; try (intros; intros p; by exists []).
  - split; [intros p; by exists []|]. intros p q r (l & E & Hl) (l' & E' & Hl'). exists (l' ++ l).
    rewrite E', E, app_assoc. split; [done|]. by apply Forall_app.
  - intros a p. eexists [_]. split; [reflexivity|]. repeat constructor. by destruct a.
  - intros e He p. exists [e]. split; [done|]. by repeat constructor.
Qed.

Lemma sends_var f : pres sends (var f).
Proof. intros p. by exists []. Qed.
Lemma sends_board f : pres sends (on_board f).
Proof. intros p. by exists []. Qed.
Lemma sends_kb f : pres sends (on_kb f).
Proof. intros p. by exists []. Qed.
Lemma sends_timers f : pres sends (on_timers f).
Proof. intros p. by exists []. Qed.
Lemma sends_awaited f : pres sends (on_awaited f).
Proof. intros p. by exists []. Qed.
#[local] Hint Resolve sends_var sends_board sends_kb sends_timers sends_awaited : page.
#[local] Hint Extern 1 (pres sends (setTimeout _ _)) => apply sends_timers : page.

Lemma sends_paint state after : forall before, pres sends (paint_keys state before after).
Proof. induction after as [|k after IH]; intros before; cbn [paint_keys]; walk. Qed.
Lemma sends_shake r : pres sends (shakeRow r).
Proof. unfold shakeRow, on_cell. walk. Qed.
#[local] Hint Resolve sends_paint sends_shake : page.

Lemma sends_guess_answer g st body : pres sends (submitRow_answer g st body).
Proof. unfold submitRow_answer, guess_rejected, flipRow, colour_letter. walk. Qed.

Lemma sends_load a tr : exists l, trace (load a tr) = l ++ tr /\ Forall effect_ok l.
Proof.
  assert (pres sends bootstrap) as H; [unfold bootstrap, buildBoard, buildKeyboard; walk|].
  destruct (H (unloaded a tr)) as (l & E & Hl). exists l. split; [|exact Hl]. unfold load. rewrite E. reflexivity.
Qed.

Lemma sends_reload : pres sends reload.
Proof.
  intros p. destruct (sends_load (storage p) (Reload :: trace p)) as (l & E & Hl). exists (l ++ [Reload]).
  split; [by rewrite <- app_assoc|]. apply Forall_app. by repeat constructor.
Qed.
#[local] Opaque load.

Lemma sends_submitRow p : game_ok p -> sends p (submitRow p).2.
Proof.
  intros Hp. unfold submitRow. change (act_bind get ?k p) with (k p p). cbv beta. case_test.
  { assert (pres sends (shakeRow (currentRow (script p)) ;% toast_text "Need 5 letters")) as H by walk. apply H. }
  unfold getCurrentGuess. unfold act_bind at 1. change (act_bind get ?k p) with (k p p). cbv beta.
  destruct (cell_texts (board p) _ _) as [g|e] eqn:E; unfold of_res; [|reflexivity].
  eexists [_]. split; [reflexivity|]. repeat constructor. cbn. do 2 eexists. split; [reflexivity|].
  by eapply current_guess_ok.
Qed.

Lemma sends_pressKey t p : game_ok p -> sends p (pressKey t p).2.
Proof.
  intros Hp. unfold pressKey. change (act_bind get ?k p) with (k p p). cbv beta.
  case_test; [reflexivity|]. case_test; [by apply sends_submitRow|]. match goal with |- sends p (?m p).2 => cut (pres sends m) end.
  { intros H. apply H. }
  unfold backspace, setCell. walk.
Qed.

Lemma sends_task t : pres sends (run_task t).
Proof. destruct t; cbn [run_task]; unfold flip_start, flip_end, unshake, on_cell, paintKeyboard; walk. apply sends_reload. Qed.

Lemma sends_resume k a : pres sends (resume k a).
Proof. pose proof sends_guess_answer. destruct k, a; cbn [resume]; walk. Qed.

Lemma sends_step p ev : game_ok p -> sends p (step p ev).
Proof.
  intros Hp. unfold step. pose proof sends_task. pose proof sends_resume. pose proof sends_reload.
  destruct ev as [t|name modified| | |s| | |b| | |b| | | | |t| |i|i a]; cbn [handle].
  1: case_test; [by apply sends_pressKey|reflexivity].
  1: unfold keydown; change (act_bind get ?k p) with (k p p); cbv beta; repeat case_test; try reflexivity; by apply sends_pressKey.
  all: match goal with |- sends ?p (?m ?p).2 => cut (pres sends m); [intros Hm; apply Hm|unfold button; walk] end.
Qed.

(** The page only sends requests the worker can use: in every reachable state each guess sent so far has five upper case letters
    and each claim has an address of the expected form. *)
Theorem requests_valid p :
  reach p -> Forall effect_ok (trace p).
Proof.
  induction 1 as [a|p ev Hp IH Ha].
  - destruct (sends_load a []) as (l & -> & Hl). by rewrite app_nil_r.
  - destruct (sends_step p ev (reach_ok p Hp)) as (l & -> & Hl). by apply Forall_app.
Qed.

(** ** Turning the cells *)

Definition turns (t : task) : nat := match t with Flip _ _ _ _ => 2 | FlipEnd _ _ _ _ => 1 | _ => 0 end.
Definition turning (p : page) : nat := sum_list_with turns (tasks p).

(** A timer of a flip fires. *)
Definition turn (p q : page) : Prop :=
  exists i ms t, timers p !! i = Some (ms, t) /\ (0 < turns t)%nat /\ q = step p (Timeout i).

Lemma turning_take p i ms t :
  timers p !! i = Some (ms, t) ->
  (turning p = turns t + turning (on_timers (fun l => take i l ++ drop (S i) l) p).2)%nat.
Proof.
  intros Hi. unfold turning, tasks. cbn [on_timers timers snd]. rewrite <- (take_drop_middle _ _ _ Hi) at 1.
  rewrite !map_app, !sum_list_with_app. cbn. lia.
Qed.

Lemma turning_cell r c f p : turning (on_cell r c f p).2 = turning p /\ script (on_cell r c f p).2 = script p.
Proof. unfold on_cell, act_bind, get. by destruct (board p !! (r, c)). Qed.

Lemma turn_lowers p q : turn p q -> (turning q < turning p)%nat /\ guesses (script q) = guesses (script p).
Proof.
  intros (i & ms & t & Hi & Ht & ->). pose proof (turning_take p i ms t Hi) as E. unfold step. cbn [handle].
  change (act_bind get ?k p) with (k p p). cbv beta. rewrite Hi. set (p1 := (on_timers _ p).2) in E.
  destruct t; cbn [turns] in *; try lia; cbn [run_task].
  - change (act_bind (on_timers ?f) ?k p) with (k tt p1). cbv beta. unfold flip_start, act_bind.
    pose proof (turning_cell r c (fun x => mk_cell (cell_text x) (class_add "flip" (cell_class x))) p1) as [E1 E2].
    destruct (on_cell r c _ p1) as [[[]|e] p2]; cbn [snd] in *; [|split; [lia|by rewrite E2]].
    unfold turning at 1. rewrite tasks_setTimeout, sum_list_with_app. fold (turning p2). cbn. split; [lia|by rewrite E2].
  - change (act_bind (on_timers ?f) ?k p) with (k tt p1). cbv beta. unfold flip_end, act_bind, of_res.
    destruct (get_index marks c) as [m|]; [|split; [cbn [snd]; lia|done]]. destruct (to_string m) as [s|]; [|split; [cbn [snd]; lia|done]].
    pose proof (turning_cell r c (fun x => mk_cell (cell_text x) ["cell"%string; s]) p1) as [E1 E2].
    destruct (on_cell r c _ p1) as [[[]|e] p2]; cbn [snd] in *; [|split; [lia|by rewrite E2]].
    pose proof (turning_cell r c (fun x => mk_cell (default ""%string (letters !! Z.to_nat c)) (cell_class x)) p2) as [E3 E4].
    rewrite E3, E4, E2. split; [lia|done].
Qed.

Lemma turning_flips p : turning p = 0%nat -> forall r c g, ~ flipping p r c g.
Proof.
  unfold turning. intros H r c g [Hf|Hf]; apply list_elem_of_split in Hf as (l1 & l2 & E); rewrite E, sum_list_with_app in H; cbn in H; lia.
Qed.

Lemma turn_exists p : turning p <> 0%nat -> exists q, turn p q.
Proof.
  unfold turning, tasks. intros H. assert (exists i ms t, timers p !! i = Some (ms, t) /\ (0 < turns t)%nat) as (i & ms & t & Hi & Ht).
  { induction (timers p) as [|[ms t] l IH]; [done|]. cbn in H. destruct (turns t) as [|n] eqn:Et.
    - destruct (IH H) as (i & ms' & t' & Hi & Ht). by exists (S i), ms', t'.
    - exists 0%nat, ms, t. split; [done|lia]. }
  by exists (step p (Timeout i)), i, ms, t.
Qed.

(** What the flips do to a sound page, in any order. *)
Lemma turned_ok p q n : game_ok p -> nsteps turn n p q ->
  game_ok q /\ (n + turning q <= turning p)%nat /\ guesses (script q) = guesses (script p) /\
  (turning q = 0%nat -> forall r c g, 0 <= r < 6 -> 0 <= c < 5 -> guesses (script p) !! Z.to_nat r = Some g ->
     exists L m, marked_at g c L m /\ board q !! (r, c) = Some (mk_cell L ["cell"%string; mark_name m])).
Proof.
  intros Hp Hn. assert (game_ok q /\ (n + turning q <= turning p)%nat /\ guesses (script q) = guesses (script p)) as (Hq & Hle & Hg).
  { induction Hn as [p|n p p1 q Ht _ IH]; [done|]. destruct (turn_lowers _ _ Ht) as [Hlt Hg].
    assert (game_ok p1) as Hp1 by (destruct Ht as (i & ms & t & _ & _ & ->); by apply step_ok).
    destruct (IH Hp1) as (Hq & Hle & Hg'). split_and!; [done|lia|congruence]. }
  split_and!; [done|done|done|]. intros H0 r c g Hr Hc Hlk. rewrite <- Hg in Hlk.
  destruct (ok_shown q Hq r c g Hr Hc Hlk) as [Hf|(x & Hx & L & m & Hm & ->)]; [by apply (turning_flips q H0) in Hf|by exists L, m].
Qed.

(** Rows finish turning: from every reachable state the timers of the flips, fired in any order, run out after at most [turning p]
    firings (two for each cell to be turned); as long as they have not run out another one can fire, and when they
    have, every cell of every graded row on the board shows its letter and its mark. *)
Theorem rows_finish_turning p q n :
  reach p -> nsteps turn n p q ->
  (n + turning q <= turning p)%nat /\ (turning q <> 0%nat -> exists q', turn q q') /\
  (turning q = 0%nat -> forall r c g, 0 <= r < 6 -> 0 <= c < 5 -> guesses (script p) !! Z.to_nat r = Some g ->
     exists L m, marked_at g c L m /\ board q !! (r, c) = Some (mk_cell L ["cell"%string; mark_name m])).
Proof.
  intros Hp%reach_ok Hn. destruct (turned_ok p q n Hp Hn) as (_ & Hle & _ & Hb). split_and!; [done|apply turn_exists|exact Hb].
Qed.

(** ** The cooldown *)

#[local] Instance number_eq_dec : EqDecision number.
Proof. solve_decision. Defined.

(** The seconds the worker sends are counted down exactly. *)
Definition countdown_ok (k : Z) : bool :=
  let next := num_of_Z (k - 1) in
  bool_decide (SFsub 53 1024 (num_of_Z k) num_one = next) && Bool.eqb (SFleb num_zero next) (1 <=? k).

Lemma countdown_all : forallb (fun n => countdown_ok (Z.of_nat n)) (seq 0 3601) = true.
Proof. vm_compute. reflexivity. Qed.

Lemma countdown k : 0 <= k <= 3600 ->
  SFsub 53 1024 (num_of_Z k) num_one = num_of_Z (k - 1) /\ SFleb num_zero (num_of_Z (k - 1)) = (1 <=? k).
Proof.
  intros Hk. pose proof countdown_all as H. rewrite forallb_forall in H. specialize (H (Z.to_nat k)).
  rewrite Z2Nat.id in H by lia. specialize (H ltac:(apply in_seq; lia)).
  apply andb_prop in H as [H1%bool_decide_eq_true H2%eqb_prop]. done.
Qed.

Example cooldown_texts :
  cooldown_text (num_of_Z 3600) = "60m 0s"%string /\ cooldown_text (num_of_Z 3599) = "59m 59s"%string /\
  cooldown_text (num_of_Z 0) = "0m 0s"%string.
Proof. vm_compute. done. Qed.

(** The timer set last fires. *)
Definition fire_last (p : page) : page := step p (Timeout (length (timers p) - 1)).

Lemma fire_last_task p l ms t :
  timers p = l ++ [(ms, t)] -> t <> RefreshFaucet ->
  fire_last p = (run_task t (mk_page (script p) (dom p) (board p) (kb p) (storage p) l (awaited p) (trace p))).2.
Proof.
  intros E Ht. unfold fire_last, step. cbn [handle]. change (act_bind get ?k p) with (k p p). cbv beta.
  rewrite E, length_app, Nat.add_sub, list_lookup_middle by done. cbn [length].
  assert (on_timers (fun l0 => take (length l) l0 ++ drop (S (length l)) l0) p =
    (Ok tt, mk_page (script p) (dom p) (board p) (kb p) (storage p) l (awaited p) (trace p))) as E1.
  { unfold on_timers. rewrite E. do 2 f_equal. rewrite take_app_length, drop_ge by (rewrite length_app; cbn; lia).
    by rewrite app_nil_r. }
  destruct t; try done; unfold act_bind at 1; by rewrite E1.
Qed.

(** The cooldown panel with [k] seconds shown and the next callback set, on a page with timers [l]. *)
Definition counting (a : option string) (tr : list effect) (l : list (Z * task)) (k : Z) (p : page) : Prop :=
  storage p = a /\ trace p = tr /\
  timers p = l ++ [(1000, if 1 <=? k then Upd (num_of_Z (k - 1)) else DoReload)] /\
  text (dom p els_cooldownTime) = cooldown_text (num_of_Z k).

Lemma upd_counting k p : 0 <= k <= 3600 -> counting (storage p) (trace p) (timers p) k (upd (num_of_Z k) p).2.
Proof.
  intros Hk. destruct (countdown k Hk) as [E1 E2]. unfold counting, upd. rewrite E1, E2.
  destruct (1 <=? k); split_and!; done.
Qed.

(** The cooldown ends: shown for a refusal with [k] seconds left, at most an hour, the panel shows [k], [k - 1], ..., 0
    seconds, one callback a second, and then reloads the page, which keeps only the remembered address. *)
Theorem cooldown_ends p k j :
  (k <= 3600)%nat -> (j <= k)%nat ->
  let shown := (showCooldown (num_of_Z (Z.of_nat k)) p).2 in
  text (dom (Nat.iter j fire_last shown) els_cooldownTime) = cooldown_text (num_of_Z (Z.of_nat (k - j))) /\
  Nat.iter (S k) fire_last shown = load (storage p) (Reload :: trace p).
Proof.
  intros Hk Hj shown. assert (forall i, (i <= k)%nat ->
    counting (storage p) (trace p) (timers p) (Z.of_nat (k - i)) (Nat.iter i fire_last shown)) as H.
  { induction i as [|i IH]; intros Hi.
    - rewrite Nat.sub_0_r. apply (upd_counting _ (mk_page _ _ _ _ _ _ _ _)). lia.
    - destruct (IH ltac:(lia)) as (E1 & E2 & E3 & E4). rewrite (proj2 (Z.leb_le _ _)) in E3 by lia.
      change (Nat.iter (S i) fire_last shown) with (fire_last (Nat.iter i fire_last shown)).
      rewrite (fire_last_task _ _ _ _ E3) by done. cbn [run_task]. rewrite <- E1, <- E2.
      replace (Z.of_nat (k - i) - 1) with (Z.of_nat (k - S i)) by lia.
      apply (upd_counting _ (mk_page _ _ _ _ _ _ _ _)). lia. }
  split; [by apply H|]. change (Nat.iter (S k) fire_last shown) with (fire_last (Nat.iter k fire_last shown)).
  destruct (H k ltac:(lia)) as (E1 & E2 & E3 & E4). rewrite Nat.sub_diag in E3.
  rewrite (fire_last_task _ _ _ _ E3) by done. cbn [run_task]. unfold reload. cbn [snd storage trace]. by rewrite E1, E2.
Qed.

(** ** Polling a claim *)

(** An answer that says neither paid nor failed. *)
Definition undecided (body : json) : Prop :=
  truthy_json body = true /\ exists s, get_prop (Some body) "status" = Ok s /\ is_text s "paid" = false /\ is_text s "failed" = false.

(** The last awaited promise is answered. *)
Definition answer_last (a : answer) (p : page) : page := step p (Answered (length (awaited p) - 1) a).

(** One round of polling: the answer, and five seconds later the next request. *)
Definition poll_round (a : answer) (p : page) : page := fire_last (answer_last a p).

Lemma answer_last_resume a p l k :
  awaited p = l ++ [k] ->
  answer_last a p = (resume k a (mk_page (script p) (dom p) (board p) (kb p) (storage p) (timers p) l (trace p))).2.
Proof.
  intros E. unfold answer_last, step. cbn [handle]. change (act_bind get ?k p) with (k p p). cbv beta.
  rewrite E, length_app, Nat.add_sub, list_lookup_middle by done. cbn [length].
  assert (on_awaited (fun l0 => take (length l) l0 ++ drop (S (length l)) l0) p =
    (Ok tt, mk_page (script p) (dom p) (board p) (kb p) (storage p) (timers p) l (trace p))) as E1.
  { unfold on_awaited. rewrite E. do 2 f_equal. rewrite take_app_length, drop_ge by (rewrite length_app; cbn; lia).
    by rewrite app_nil_r. }
  unfold act_bind at 1. by rewrite E1.
Qed.

Lemma tick_undecided claimId n st body p :
  undecided body -> tick_answer claimId n st body p = tick_pending claimId n p.
Proof.
  intros (Ht & s & Hs & Hp & Hf). unfold tick_answer, act_bind, of_res, pure. rewrite Ht, Hs.
  destruct (st =? 200); by rewrite ?Hp, Hf.
Qed.

Definition poll_call (id : string) : effect := Fetch (mk_call ("/claim_status?id=" +:+ encodeURIComponent id) None).

(** Polling stops: while the answers say neither paid nor failed, a claim is asked about exactly thirty times; then the page says the
    payout is still pending and leaves no timer and no request behind. *)
Theorem polling_stops p claimId id st body :
  to_string claimId = Ok id -> undecided body ->
  let a := Response st body in
  let last := answer_last a (Nat.iter 29 (poll_round a) (pollClaimStatus claimId p).2) in
  trace last = replicate 30 (poll_call id) ++ trace p /\ timers last = timers p /\ awaited last = awaited p /\
  text (dom last els_claimStatus) = "Payout still pending after 2.5 min — check the address later."%string.
Proof.
  intros Hid Hb a last.
  assert (forall n, (n <= 29)%nat -> let q := Nat.iter n (poll_round a) (pollClaimStatus claimId p).2 in
    trace q = replicate (S n) (poll_call id) ++ trace p /\ timers q = timers p /\
    awaited q = awaited p ++ [InTick claimId (Z.of_nat n + 1)]) as H.
  { induction n as [|n IH]; intros Hn.
    - cbn -[String.append]. unfold pollClaimStatus, tick, act_bind, of_res. by rewrite Hid.
    - destruct (IH ltac:(lia)) as (E1 & E2 & E3).
      change (Nat.iter (S n) ?f ?x) with (f (Nat.iter n f x)). set (q := Nat.iter n _ _) in *. cbv zeta.
      unfold poll_round. rewrite (answer_last_resume _ _ _ _ E3). cbn [resume a].
      rewrite (tick_undecided _ _ _ _ _ Hb). unfold tick_pending. rewrite (proj2 (Z.ltb_lt _ _)) by lia.
      erewrite fire_last_task; [|cbn; reflexivity|done]. cbn [run_task]. unfold tick, act_bind, of_res. rewrite Hid. cbn -[String.append].
      rewrite E1, E2. split_and!; [done|done|]. do 3 f_equal. lia. }
  unfold last. generalize (H 29%nat ltac:(lia)). generalize (Nat.iter 29 (poll_round a) (pollClaimStatus claimId p).2).
  intros q (E1 & E2 & E3). rewrite (answer_last_resume _ _ _ _ E3). cbn [resume a].
  rewrite (tick_undecided _ _ _ _ _ Hb). split_and!; [exact E1|exact E2|reflexivity|reflexivity].
Qed.

(** ** A game in the browser *)

Definition demo_body : json :=
  JObj [("marks", JArr (map json_mark [Green; Yellow; Gray; Gray; Gray])); ("guesses", JNum (num_of_Z 1));
        ("won", JBool false); ("lost", JBool false)]%string.

(** Started, typed, graded with [demo_body], and with all timers of the row run. *)
Definition demo_started : page :=
  steps (load None []) [CaptchaSolved "t"; ClickPlay; Answered 1 (Response 200 (JObj [("session", JStr "s_1")]%string))].
Definition demo_typed : page :=
  steps demo_started (map PressKey ["C"; "R"; "A"; "N"; "E"; "ENT"]%string).
Definition demo_graded : page := step demo_typed (Answered 1 (Response 200 demo_body)).
Definition demo_shown : page := steps demo_graded (replicate 11 (Timeout 1)).

Lemma reach_quiet evs : forall p,
  reach p -> Forall (fun ev => match ev with Answered _ _ => False | _ => True end) evs -> reach (steps p evs).
Proof.
  induction evs as [|ev evs IH]; intros p Hp H; [done|]. apply Forall_cons in H as [Hev H]. apply IH; [|done].
  apply reach_step; [done|]. by destruct ev.
Qed.

Lemma reach_then p evs ev :
  reach p -> Forall (fun ev => match ev with Answered _ _ => False | _ => True end) evs -> answer_ok (steps p evs) ev ->
  reach (steps p (evs ++ [ev])).
Proof. intros Hp H Ha. unfold steps. rewrite fold_left_app. apply reach_step; [by apply reach_quiet|done]. Qed.

Lemma demo_reached : reach demo_graded /\ reach demo_shown.
Proof.
  assert (reach demo_started) as H1.
  { apply (reach_then (load None []) [CaptchaSolved "t"; ClickPlay]); [apply reach_load|by repeat constructor|]. unfold answer_ok.
    assert (awaited (steps (load None []) [CaptchaSolved "t"; ClickPlay]) !! 1%nat = Some InStartGame) as -> by (vm_compute; reflexivity).
    exact I. }
  assert (reach demo_graded) as H2.
  { apply reach_step; [apply reach_quiet; [done|by repeat constructor]|]. unfold answer_ok.
    assert (awaited demo_typed !! 1%nat = Some (InSubmitRow "CRANE")) as -> by (vm_compute; reflexivity).
    intros _. by exists [Green; Yellow; Gray; Gray; Gray]. }
  split; [done|]. apply reach_quiet; [done|]. by repeat constructor.
Qed.

Lemma demo_tasks : tasks demo_shown = [RefreshFaucet].
Proof. vm_compute. reflexivity. Qed.

Lemma board_shows_marks_witness :
  exists L m, split_chars "CRANE" !! 1%nat = Some L /\ get_index (json_marks [Green; Yellow; Gray; Gray; Gray]) 1 = Ok (Some (json_mark m)) /\
              board demo_shown !! (0, 1) = Some (mk_cell L ["cell"%string; mark_name m]).
Proof.
  apply (board_shows_marks demo_shown 0 1 (mk_graded "CRANE" (json_marks [Green; Yellow; Gray; Gray; Gray])) (proj2 demo_reached)).
  - lia.
  - lia.
  - vm_compute. reflexivity.
  - unfold flipping. rewrite demo_tasks. intros [H%list_elem_of_singleton|H%list_elem_of_singleton]; discriminate.
Defined.

Lemma keyboard_best_witness :
  let k := mk_key "R" "R" ["key"; "yellow"]%string in
  (exists m, key_class k = ["key"%string; mark_name m] /\ marked (guesses (script demo_shown)) (key_token k) m /\
             forall m', marked (guesses (script demo_shown)) (key_token k) m' -> rank m' <= rank m) \/
  (key_class k = ["key"%string] /\ forall m, ~ marked (guesses (script demo_shown)) (key_token k) m).
Proof.
  intros k. apply (keyboard_best demo_shown k (proj2 demo_reached)).
  - rewrite demo_tasks. intros H%list_elem_of_singleton. discriminate.
  - apply (list_elem_of_lookup_2 _ 3). vm_compute. reflexivity.
  - reflexivity.
Defined.

Lemma requests_valid_witness :
  trace demo_typed !! 0%nat =
    Some (Fetch (mk_call "/guess" (Some (JObj [("session", JStr "s_1"); ("guess", JStr "CRANE")]%string)))) /\
  Forall effect_ok (trace demo_shown).
Proof. split; [vm_compute; reflexivity|]. apply (requests_valid demo_shown (proj2 demo_reached)). Defined.

Lemma demo_turns : nsteps turn 10 demo_graded (steps demo_graded (replicate 5 (Timeout 1) ++ replicate 5 (Timeout 2))).
Proof.
  assert (forall evs p, (forall pre i post, evs = pre ++ i :: post -> exists ms t,
    timers (steps p (map Timeout pre)) !! i = Some (ms, t) /\ (0 < turns t)%nat) -> nsteps turn (length evs) p (steps p (map Timeout evs))) as H.
  { induction evs as [|i evs IH]; intros p Hp; [constructor|]. cbn [length map steps fold_left]. eapply nsteps_l.
    - destruct (Hp [] i evs eq_refl) as (ms & t & Hi & Ht). by exists i, ms, t.
    - apply IH. intros pre j post ->. by apply (Hp (i :: pre) j post). }
  apply (H [1; 1; 1; 1; 1; 2; 2; 2; 2; 2]%nat). intros pre i post E.
  assert (length pre < 10)%nat as Hlt by (apply (f_equal length) in E; rewrite length_app in E; cbn in E; lia).
  assert (pre = take (length pre) [1; 1; 1; 1; 1; 2; 2; 2; 2; 2]%nat) as Ep by (rewrite E, take_app_length; done).
  assert ([1; 1; 1; 1; 1; 2; 2; 2; 2; 2]%nat !! length pre = Some i) as Ei by (rewrite E, list_lookup_middle; done).
  rewrite Ep. clear -Hlt Ei. destruct (length pre) as [|[|[|[|[|[|[|[|[|[|]]]]]]]]]]; [injection Ei as <-..|lia].
  all: eexists _, _; split; [vm_compute; reflexivity|cbn; lia].
Qed.

Lemma rows_finish_turning_witness :
  let q := steps demo_graded (replicate 5 (Timeout 1) ++ replicate 5 (Timeout 2)) in
  (10 + turning q <= turning demo_graded)%nat /\ turning q = 0%nat.
Proof.
  intros q. split; [|vm_compute; reflexivity].
  apply (proj1 (rows_finish_turning demo_graded q 10 (proj1 demo_reached) demo_turns)).
Defined.

Lemma cooldown_ends_witness :
  text (dom (Nat.iter 1 fire_last (showCooldown (num_of_Z 61) (load None [])).2) els_cooldownTime) = cooldown_text (num_of_Z 60) /\
  cooldown_text (num_of_Z 60) = "1m 0s"%string.
Proof. split; [|vm_compute; reflexivity]. apply (proj1 (cooldown_ends (load None []) 61 1 ltac:(lia) ltac:(lia))). Defined.

Lemma polling_stops_witness :
  let a := Response 200 (JObj [("status", JStr "pending")]%string) in
  let last := answer_last a (Nat.iter 29 (poll_round a) (pollClaimStatus (Some (JStr "c_1")) (load None [])).2) in
  trace last = replicate 30 (poll_call "c_1") ++ trace (load None []).
Proof.
  apply (proj1 (polling_stops (load None []) (Some (JStr "c_1")) "c_1" 200 (JObj [("status", JStr "pending")]%string) eq_refl
    (conj eq_refl (ex_intro _ (Some (JStr "pending")) (conj eq_refl (conj eq_refl eq_refl)))))).
Defined.
