(* ===== verification/PageSecrets.v ===== *)
(** * PageSecrets: the seed stays in the page

    Two runs of the page whose generated wallets differ only in their secrets send the same requests and write the same storage.
    The seed reaches the clipboard when its copy button is clicked, and nothing else. *)
From S2P Require Import Prelude Wallet JsCore Number Json Page.
Local Open Scope Z_scope.
Local Open Scope glaciem_scope.

(** ** Pages that differ in a seed *)

Definition seed_of (e : element) : string := default ""%string (dataset e !! "seed"%string).

Record same_el (e f : element) : Prop := {
  el_hidden : hidden e = hidden f;
  el_disabled : disabled e = disabled f;
  el_checked : checked e = checked f;
  el_text : text e = text f;
  el_value : value e = value f;
  el_color : color e = color f;
  el_classes : classes e = classes f;
  el_dataset k : k <> "seed"%string -> dataset e !! k = dataset f !! k;
  el_seed : String.eqb (seed_of e) "" = String.eqb (seed_of f) "";
}.

Section Alike.
Context (pub : effect -> effect).

(** Everything but the seed words and the stashed seed; of the effects, what [pub] keeps. *)
Record alike (p q : page) : Prop := {
  alike_script : script p = script q;
  alike_dom x : same_el (dom p x) (dom q x);
  alike_board : board p = board q;
  alike_kb : kb p = kb q;
  alike_storage : storage p = storage q;
  alike_timers : timers p = timers q;
  alike_awaited : awaited p = awaited q;
  alike_trace : map pub (trace p) = map pub (trace q);
}.

(** Actions that do the same on pages that are alike. *)
Definition agree {A} (m n : act A) : Prop := forall p q, alike p q -> (m p).1 = (n q).1 /\ alike (m p).2 (n q).2.

Lemma agree_bind {A B} (m n : act A) (k l : A -> act B) :
  agree m n -> (forall a, agree (k a) (l a)) -> agree (act_bind m k) (act_bind n l).
Proof.
  intros Hm Hk p q Hpq. unfold act_bind. destruct (Hm p q Hpq) as [E H].
  destruct (m p) as [r p'], (n q) as [r' q']. cbn [fst snd] in *. subst r'. destruct r; [by apply Hk|done].
Qed.

Lemma agree_get {B} (k l : page -> act B) :
  (forall p q, alike p q -> agree (k p) (l q)) -> agree (act_bind get k) (act_bind get l).
Proof. intros H p q Hpq. by apply (H p q). Qed.

Lemma agree_pure {A} (a : A) : agree (pure a) (pure a).
Proof. by intros p q. Qed.
Lemma agree_throw {A} e : agree (throw (A := A) e) (throw e).
Proof. by intros p q. Qed.
Lemma agree_of_res {A} (r : res A) : agree (of_res r) (of_res r).
Proof. by intros p q. Qed.

Lemma agree_on x f g : (forall e e', same_el e e' -> same_el (f e) (g e')) -> agree (on x f) (on x g).
Proof.
  intros Hf p q [H1 H2 H3 H4 H5 H6 H7 H8]. split; [done|]. split; cbn; try done.
  intros y. destruct (bool_decide_reflect (y = x)) as [->|]; [by apply Hf|done].
Qed.

Lemma agree_var f : agree (var f) (var f).
Proof. intros p q []. split; [done|]. split; cbn; solve [done | congruence]. Qed.
Lemma agree_board f : agree (on_board f) (on_board f).
Proof. intros p q []. split; [done|]. split; cbn; solve [done | congruence]. Qed.
Lemma agree_kb f : agree (on_kb f) (on_kb f).
Proof. intros p q []. split; [done|]. split; cbn; solve [done | congruence]. Qed.
Lemma agree_timers f : agree (on_timers f) (on_timers f).
Proof. intros p q []. split; [done|]. split; cbn; solve [done | congruence]. Qed.
Lemma agree_awaited f : agree (on_awaited f) (on_awaited f).
Proof. intros p q []. split; [done|]. split; cbn; solve [done | congruence]. Qed.
Lemma agree_keep a : agree (keep a) (keep a).
Proof. intros p q []. split; [done|]. split; cbn; solve [done | congruence]. Qed.
Lemma agree_emit e f : pub e = pub f -> agree (emit e) (emit f).
Proof. intros E p q []. split; [done|]. split; cbn; solve [done | congruence]. Qed.

Lemma agree_each {A} (l : list A) f g : (forall x, agree (f x) (g x)) -> agree (for_each l f) (for_each l g).
Proof. intros H. induction l as [|x l IH]; cbn [for_each]; [apply agree_pure|]. by apply agree_bind. Qed.
End Alike.

(** ** Automation *)

Create HintDb alike.
#[export] Hint Resolve agree_pure agree_throw agree_of_res agree_var agree_board agree_kb agree_timers agree_awaited
  agree_keep : alike.
#[export] Hint Extern 1 (agree _ (emit _) (emit _)) => (apply agree_emit; reflexivity) : alike.
#[export] Hint Extern 1 (agree _ (setTimeout _ _) _) => apply agree_timers : alike.

(** The assignments of the script to an element treat alike elements alike. *)
Ltac same_element :=
  let e := fresh "e" in let f := fresh "f" in let H := fresh in
  intros e f H; pose proof (el_classes e f H); destruct H; split; cbn; try congruence;
  [intros ? ?;
   try match goal with |- <[?j := _]> _ !! ?k = _ => destruct (decide (j = k)) as [->|];
         [by rewrite !lookup_insert_eq|rewrite !lookup_insert_ne by done] end; by auto
  |unfold seed_of in *; cbn; rewrite ?lookup_insert_ne by done; done].
#[export] Hint Extern 1 (agree _ (on _ _) (on _ _)) => (apply agree_on; solve [same_element]) : alike.

(** What is read from two pages that are alike is the same. *)
Ltac read_alike := repeat match goal with
  | H : alike _ ?p ?q |- context [script ?p] => rewrite (alike_script _ p q H)
  | H : alike _ ?p ?q |- context [board ?p] => rewrite (alike_board _ p q H)
  | H : alike _ ?p ?q |- context [kb ?p] => rewrite (alike_kb _ p q H)
  | H : alike _ ?p ?q |- context [storage ?p] => rewrite (alike_storage _ p q H)
  | H : alike _ ?p ?q |- context [timers ?p] => rewrite (alike_timers _ p q H)
  | H : alike _ ?p ?q |- context [awaited ?p] => rewrite (alike_awaited _ p q H)
  | H : alike _ ?p ?q |- context [hidden (dom ?p ?x)] => rewrite (el_hidden _ _ (alike_dom _ p q H x))
  | H : alike _ ?p ?q |- context [disabled (dom ?p ?x)] => rewrite (el_disabled _ _ (alike_dom _ p q H x))
  | H : alike _ ?p ?q |- context [checked (dom ?p ?x)] => rewrite (el_checked _ _ (alike_dom _ p q H x))
  | H : alike _ ?p ?q |- context [text (dom ?p ?x)] => rewrite (el_text _ _ (alike_dom _ p q H x))
  | H : alike _ ?p ?q |- context [value (dom ?p ?x)] => rewrite (el_value _ _ (alike_dom _ p q H x))
  | H : alike _ ?p ?q |- context [dataset (dom ?p ?x) !! ?k] => rewrite (el_dataset _ _ (alike_dom _ p q H x) k) by discriminate
  end.

Ltac agreed :=
  repeat first
    [ solve [auto with alike]
    | match goal with
      | |- agree _ (act_bind get _) (act_bind get _) => apply agree_get; intros ? ? ?; read_alike
      | |- agree _ (act_bind _ _) (act_bind _ _) => apply agree_bind; [|intros ?]
      | |- agree _ (for_each _ _) (for_each _ _) => apply agree_each; intros ?
      | |- agree _ (if ?b then _ else _) (if ?b then _ else _) => destruct b
      | |- agree _ (match ?x with _ => _ end) (match ?x with _ => _ end) => destruct x
      end
    | progress unfold toast_text, skip, wait_for, pollClaimStatus, api ].

(** ** The callbacks *)

Section Callbacks.
Context (pub : effect -> effect).
#[local] Abbreviation agree := (agree pub).

Lemma agree_toast msg ms : agree (toast msg ms) (toast msg ms).
Proof. unfold toast. agreed. Qed.
#[local] Hint Resolve agree_toast : alike.

Lemma agree_tick id n : agree (tick id n) (tick id n).
Proof. unfold tick. agreed. Qed.
Lemma agree_render : agree renderSavedWallet renderSavedWallet.
Proof. unfold renderSavedWallet. agreed. Qed.
Lemma agree_upd n : agree (upd n) (upd n).
Proof. unfold upd. agreed. Qed.
Lemma agree_faucet : agree refreshFaucet refreshFaucet.
Proof. unfold refreshFaucet. agreed. Qed.
Lemma agree_paint st after : forall before, agree (paint_keys st before after) (paint_keys st before after).
Proof. induction after as [|k after IH]; intros before; cbn [paint_keys]; agreed. Qed.
Lemma agree_cell r c f : agree (on_cell r c f) (on_cell r c f).
Proof. unfold on_cell. agreed. Qed.
#[local] Hint Resolve agree_tick agree_render agree_upd agree_faucet agree_paint agree_cell : alike.

Lemma agree_setCell r c s t : agree (setCell r c s t) (setCell r c s t).
Proof. unfold setCell. agreed. Qed.
Lemma agree_shake r : agree (shakeRow r) (shakeRow r).
Proof. unfold shakeRow. agreed. Qed.
#[local] Hint Resolve agree_setCell agree_shake : alike.

Lemma agree_submitRow : agree submitRow submitRow.
Proof. unfold submitRow, getCurrentGuess. agreed. Qed.
Lemma agree_backspace : agree backspace backspace.
Proof. unfold backspace. agreed. Qed.
#[local] Hint Resolve agree_submitRow agree_backspace : alike.

Lemma agree_pressKey t : agree (pressKey t) (pressKey t).
Proof. unfold pressKey. agreed. Qed.
#[local] Hint Resolve agree_pressKey : alike.
Lemma agree_keydown t b : agree (keydown t b) (keydown t b).
Proof. unfold keydown. agreed. Qed.

Lemma agree_colour m l c : agree (colour_letter m l c) (colour_letter m l c).
Proof. unfold colour_letter. agreed. Qed.
#[local] Hint Resolve agree_colour : alike.
Lemma agree_guess_answer g st body : agree (submitRow_answer g st body) (submitRow_answer g st body).
Proof. unfold submitRow_answer, guess_rejected, guess_finished, flipRow. agreed. Qed.
Lemma agree_start_answer st body : agree (startGame_answer st body) (startGame_answer st body).
Proof. unfold startGame_answer, showCooldown, showGame. agreed. Qed.
Lemma agree_claim_answer st body : agree (submitClaim_answer st body) (submitClaim_answer st body).
Proof. unfold submitClaim_answer. agreed. Qed.
Lemma agree_tick_answer id n st body : agree (tick_answer id n st body) (tick_answer id n st body).
Proof. unfold tick_answer, tick_failed, tick_pending. agreed. Qed.
Lemma agree_faucet_answer st body : agree (refreshFaucet_answer st body) (refreshFaucet_answer st body).
Proof. unfold refreshFaucet_answer. agreed. Qed.
Lemma agree_showWin data : agree (showWin data) (showWin data).
Proof. unfold showWin. agreed. Qed.
#[local] Hint Resolve agree_keydown agree_guess_answer agree_start_answer agree_claim_answer agree_tick_answer
  agree_faucet_answer agree_showWin : alike.

Lemma agree_load a tr tr' : map pub tr = map pub tr' -> alike pub (load a tr) (load a tr').
Proof.
  intros E. unfold load. assert (agree bootstrap bootstrap) as H.
  { unfold bootstrap, buildBoard, buildKeyboard, show_page, showStart. agreed. }
  apply H. by split.
Qed.

Lemma agree_reload : agree reload reload.
Proof.
  intros p q H. split; [done|]. unfold reload. cbn [snd]. rewrite (alike_storage _ _ _ H). apply agree_load.
  cbn. by rewrite (alike_trace _ _ _ H).
Qed.
#[local] Hint Resolve agree_reload : alike.

Lemma agree_task t : agree (run_task t) (run_task t).
Proof. destruct t; cbn [run_task]; unfold flip_start, flip_end, unshake, paintKeyboard, showLoss; agreed. Qed.
#[local] Hint Resolve agree_task : alike.

(** Wallets with the same address; their secrets may differ. *)
Definition same_wallet (v w : wallet) : Prop :=
  address v = address w /\
  String.eqb (String.concat " " (mnemonic v)) "" = String.eqb (String.concat " " (mnemonic w)) "".

Lemma agree_words x l l' :
  agree (for_each l (fun w => on x (fun e => set_words (words e ++ [w]) e))) (for_each l' (fun w => on x (fun e => set_words (words e ++ [w]) e))).
Proof.
  assert (forall l p q, alike pub p q ->
    alike pub p (for_each l (fun w => on x (fun e => set_words (words e ++ [w]) e)) q).2 /\
    (for_each l (fun w => on x (fun e => set_words (words e ++ [w]) e)) q).1 = Ok tt) as H.
  { clear. induction l as [|w l IH]; intros p q Hpq; [done|]. cbn [for_each]. apply IH. destruct Hpq as [H1 H2 H3 H4 H5 H6 H7 H8].
    split; cbn; try done. intros y. destruct (bool_decide_reflect (y = x)) as [->|]; [|done].
    destruct (H2 x). by split. }
  intros p q Hpq. assert (alike pub q q) as Hq by (by split). assert (alike pub p p) as Hp by (by split).
  destruct (H l p p Hp) as [Hl ->], (H l' p q Hpq) as [Hl' ->]. split; [done|].
  destruct Hl as [A1 A2 A3 A4 A5 A6 A7 A8], Hl' as [B1 B2 B3 B4 B5 B6 B7 B8]. split; try congruence.
  intros y. destruct (A2 y), (B2 y). split; try congruence. intros k Hk. rewrite <- el_dataset0 by done. by apply el_dataset1.
Qed.

Lemma agree_showSeed v w : same_wallet v w -> agree (showSeed v) (showSeed w).
Proof.
  intros [Ha Hs]. unfold showSeed. rewrite Ha. apply agree_bind; [agreed|intros _]. apply agree_bind; [agreed|intros _].
  apply agree_bind; [apply agree_words|intros _]. apply agree_bind; [|intros _; agreed].
  apply agree_on. intros e f []. split; cbn; try congruence.
  - intros k Hk. rewrite !lookup_insert_ne by done. by apply el_dataset0.
  - unfold seed_of. cbn. by rewrite !lookup_insert_eq.
Qed.

(** The same answer, except for the secrets of a generated wallet. *)
Definition same_answer (a b : answer) : Prop :=
  match a, b with
  | Module i (Ok v), Module j (Ok w) => i = j /\ same_wallet v w
  | _, _ => a = b
  end.

Definition same_event (e f : event) : Prop :=
  match e, f with
  | Answered i a, Answered j b => i = j /\ same_answer a b
  | _, _ => e = f
  end.

Lemma agree_generated imported v w :
  same_wallet v w -> agree (generateNewWallet_answer imported (Ok v)) (generateNewWallet_answer imported (Ok w)).
Proof. intros Hw. unfold generateNewWallet_answer, loadWalletMod_answer. pose proof (agree_showSeed v w Hw). agreed. Qed.

Lemma agree_resume k a b : same_answer a b -> agree (resume k a) (resume k b).
Proof.
  intros H. assert (a = b \/ exists i v w, a = Module i (Ok v) /\ b = Module i (Ok w) /\ same_wallet v w) as [<-|(i & v & w & -> & -> & Hw)].
  { destruct a as [| |i [v|]|], b as [| |j [w|]|]; cbn in H; auto. destruct H as [<- Hw]. right. by exists i, v, w. }
  - destruct k, a as [| |i [v|]|]; cbn [resume]; try solve [agreed].
    + by apply agree_generated.
    + unfold generateNewWallet_answer, loadWalletMod_answer. agreed.
  - destruct k; cbn [resume]; try solve [agreed]. by apply agree_generated.
Qed.

(** Every event, where either the clipboard is not looked at or the seed is not copied. *)
Lemma agree_event e f :
  same_event e f -> (forall s t, pub (Clipboard s) = pub (Clipboard t)) \/ e <> ClickSeedCopy -> agree (handle e) (handle f).
Proof.
  intros Hef Hc. assert (e = f \/ exists i a b, e = Answered i a /\ f = Answered i b /\ same_answer a b) as [<-|(i & a & b & -> & -> & Hab)].
  { destruct e, f; cbn in Hef; auto. destruct Hef as [<- Hab]. right. by eexists _, _, _. }
  - destruct e; cbn [handle]; unfold button, startGame, submitClaim, generateNewWallet, loadWalletMod, confirm_changed, continue,
      hideAllWalletPanels, change_wallet, change_changed, change_go, change_cancel, copy_address, captcha_solved, captcha_expired;
      try solve [agreed].
    + destruct Hc as [Hc|]; [|done]. unfold copy_seed. apply agree_get. intros p q Hpq.
      pose proof (el_seed _ _ (alike_dom _ p q Hpq els_seedCopyBtn)) as Hs. unfold seed_of in Hs. cbv zeta. rewrite Hs. clear Hs.
      destruct (String.eqb _ ""); [agreed|]. unfold wait_for. apply agree_bind; [apply agree_emit, Hc|intros; agreed].
    + apply agree_get. intros p q Hpq. read_alike.
      destruct (awaited q !! i) as [k|]; [|agreed]. apply agree_bind; [agreed|intros _]. apply agree_resume. by destruct a as [| |j [w|]|].
  - cbn [handle]. apply agree_get. intros p q Hpq. read_alike. destruct (awaited q !! i) as [k|]; [|agreed].
    apply agree_bind; [agreed|intros _]. by apply agree_resume.
Qed.

Lemma agree_steps es fs :
  Forall2 same_event es fs ->
  (forall s t, pub (Clipboard s) = pub (Clipboard t)) \/ ClickSeedCopy ∉ es ->
  forall p q, alike pub p q -> alike pub (steps p es) (steps q fs).
Proof.
  intros H Hc. induction H as [|e f es fs Hef _ IH]; intros p q Hpq; [done|]. cbn [steps fold_left]. apply IH.
  - destruct Hc as [?|Hc]; [by left|right]. set_solver.
  - apply (agree_event e f Hef); [|done]. destruct Hc as [?|Hc]; [by left|right]. set_solver.
Qed.
End Callbacks.

(** ** The theorem *)

Definition unclipped (e : effect) : effect := match e with Clipboard _ => Clipboard "" | _ => e end.

(** C12: the seed stays in the page: run the page twice with the same events, except that the wallets generated in the two runs have the
    same addresses but other seeds and keys; then both runs send the same requests and write the same to the storage, in the same order.
    If the copy button of the seed is not clicked, the clipboard gets the same texts too. *)
Theorem seed_stays a es fs :
  Forall2 same_event es fs ->
  let p := steps (load a []) es in let q := steps (load a []) fs in
  map unclipped (trace p) = map unclipped (trace q) /\ storage p = storage q /\
  (ClickSeedCopy ∉ es -> trace p = trace q).
Proof.
  intros H p q. split_and!.
  - apply (alike_trace unclipped p q), agree_steps; [done|by left|by apply agree_load].
  - apply (alike_storage unclipped p q), agree_steps; [done|by left|by apply agree_load].
  - intros Hc. rewrite <- (map_id (trace p)), <- (map_id (trace q)).
    apply (alike_trace (fun e => e) p q), agree_steps; [done|by right|by apply agree_load].
Qed.

(** ** A wallet generated *)

Definition demo_wallet (seed : list string) : wallet := mk_wallet "R1" seed "" "".
Definition demo_generated (seed : list string) : list event :=
  [ClickGenerate; Answered 1 (Module true (Ok (demo_wallet seed))); CheckSeed true; ClickContinue; ClickSeedCopy].

Lemma seed_stays_witness :
  let p := steps (load None []) (demo_generated ["one"; "two"]%string) in
  let q := steps (load None []) (demo_generated ["other"]%string) in
  storage p = Some "R1"%string /\ trace p <> trace q /\ map unclipped (trace p) = map unclipped (trace q).
Proof.
  intros p q. split; [vm_compute; reflexivity|]. split; [vm_compute; discriminate|].
  refine (proj1 (seed_stays None _ _ _)). by repeat constructor.
Defined.

(** After the seed is confirmed its words are gone from the panel, but the text stashed on the copy button stays, and the
    button still copies it. *)
Theorem seed_lingers :
  let p := steps (load None []) (take 4 (demo_generated ["one"; "two"]%string)) in
  words (dom p els_walletShowSeed) = [] /\ hidden (dom p els_walletShow) = true /\
  dataset (dom p els_seedCopyBtn) !! "seed"%string = Some "one two"%string /\
  trace (step p ClickSeedCopy) !! 0%nat = Some (Clipboard "one two").
Proof. vm_compute. split_and!; reflexivity. Qed.
