(* ===== verification/PageGame.v ===== *)
(** * PageGame: the page and the worker together

    A request of the page reaches the worker as the browser delivers it; the worker's answer resolves the promise.  On the
    services of [sim] this gives a system in which guesses are typed, sent, graded, and shown. *)
From S2P Require Import Prelude Wallet JsCore Bytes Number Json Http Effects Words Grade Wordmine WordmineServices WordmineGame.
From S2P Require Import Payout Page PageLogic PageInv PageSafety.
Local Open Scope Z_scope.
Local Open Scope glaciem_scope.

#[local] Opaque WORDS.

(** ** Requests on their way *)

(** The part of a list before the first [c], and the part after it. *)
Fixpoint cut_at (c : ascii) (l : list ascii) : list ascii * list ascii :=
  match l with
  | [] => ([], [])
  | x :: l' => if Ascii.eqb x c then ([], l') else let '(a, b) := cut_at c l' in (x :: a, b)
  end.

(** Decoding of a query component: [+] is a space, escapes are bytes, and the bytes are UTF-8. *)
Fixpoint unescape (l : list ascii) : list ascii :=
  match l with
  | [] => []
  | x :: l' =>
      if Ascii.eqb x "+" then " "%char :: unescape l'
      else if Ascii.eqb x "%" then
        match l' with
        | a :: b :: l'' =>
            match digit_value 16 a, digit_value 16 b with
            | Some u, Some v => chr (16 * u + v) :: unescape l''
            | _, _ => x :: unescape l'
            end
        | _ => x :: unescape l'
        end
      else x :: unescape l'
  end.
Definition decode_component (l : list ascii) : string := of_chars (utf8_decode_list (unescape l)).

(** [new URL(...).searchParams] of a query with one parameter; the page sends no other. *)
Definition query_of (l : list ascii) : list (string * string) :=
  match l with
  | [] => []
  | _ => let '(name, value) := cut_at "="%char l in [(decode_component name, decode_component value)]
  end.

Definition request_of (c : api_call) : request :=
  let '(path, query) := cut_at "?"%char (chars (api_path c)) in
  mk_request (match api_body c with Some _ => "POST" | None => "GET" end)%string ("/api" +:+ of_chars path) (query_of query)
    (match api_body c with Some _ => header_set ∅ "Content-Type" "application/json" | None => ∅ end) (api_body c).

(** [r.json()] rejects on a body that is not JSON, and on the error page of a worker that threw. *)
Definition answer_of (r : res resp) : answer :=
  match r with
  | Ok r => match resp_body r with Some (JsonBody j) => Response (status r) j | _ => Rejected end
  | Err _ => Rejected
  end.

(** ** Claim identifiers survive the query string *)

Lemma digit_upper_hex d : 0 <= d < 16 ->
  digit_value 16 (let c := hex_digit d in if is_lower c then chr (code c - 32) else c) = Some d.
Proof.
  intros Hd. assert (forallb (fun n => bool_decide (digit_value 16 (let c := hex_digit n in if is_lower c then chr (code c - 32) else c) = Some n))
    [0; 1; 2; 3; 4; 5; 6; 7; 8; 9; 10; 11; 12; 13; 14; 15] = true) as H by (vm_compute; reflexivity).
  rewrite forallb_forall in H. apply (bool_decide_eq_true_1 _), H. cbn. lia.
Qed.

Lemma unescape_percent c l : unescape (percent c ++ l) = c :: unescape l.
Proof.
  pose proof (code_range c) as Hc. assert (0 <= code c / 16 < 16) as Hd.
  { split; [apply Z.div_pos; lia|apply Z.div_lt_upper_bound; lia]. }
  assert (0 <= code c mod 16 < 16) as Hm by (apply Z.mod_pos_bound; lia).
  unfold percent. rewrite hex_byte_pair by done. cbn [map app unescape Ascii.eqb Bool.eqb].
  pose proof (digit_upper_hex _ Hd) as E1. pose proof (digit_upper_hex _ Hm) as E2. cbv zeta in E1, E2.
  rewrite E1, E2. f_equal. rewrite <- (chr_code c) at 3. f_equal. pose proof (Z.div_mod (code c) 16). lia.
Qed.

Lemma unescape_bytes b l : unescape (mjoin (map percent b) ++ l) = b ++ unescape l.
Proof. induction b as [|c b IH]; [done|]. cbn [map]. by rewrite mjoin_cons, <- app_assoc, unescape_percent, IH. Qed.

Lemma encode_char_decoded c l : exists b, unescape (encode_char c ++ l) = b ++ unescape l /\ b = utf8_char c.
Proof.
  unfold encode_char. destruct (is_unreserved c) eqn:E; [|eexists; split; [apply unescape_bytes|done]].
  assert (forallb (fun n => let c := chr (Z.of_nat n) in negb (is_unreserved c) ||
    (negb (Ascii.eqb c "+") && negb (Ascii.eqb c "%") && (code c <? 128))) (seq 0 256) = true) as H by (vm_compute; reflexivity).
  rewrite forallb_forall in H. specialize (H (Z.to_nat (code c))). pose proof (code_range c).
  cbv zeta in H. rewrite Z2Nat.id, chr_code, E in H by lia. specialize (H ltac:(apply in_seq; lia)). cbn in H.
  apply andb_prop in H as [[H1%negb_true_iff H2%negb_true_iff]%andb_prop H3].
  exists [c]. cbn [app unescape]. rewrite H1, H2. split; [done|]. unfold utf8_char. by rewrite H3.
Qed.

Lemma decode_encode s : decode_component (chars (encodeURIComponent s)) = s.
Proof.
  unfold decode_component, encodeURIComponent. rewrite chars_of_chars.
  assert (unescape (mjoin (map encode_char (chars s))) = mjoin (map utf8_char (chars s))) as ->.
  { induction (chars s) as [|c l IH]; [done|]. cbn [map]. rewrite !mjoin_cons.
    destruct (encode_char_decoded c (mjoin (map encode_char l))) as (b & -> & ->). by rewrite IH. }
  pose proof (utf8_roundtrip s) as H. unfold utf8_decode, utf8 in H. by rewrite chars_of_chars in H.
Qed.

(** The worker is asked about the claim the page polls: whatever text the claim identifier is, the request the page sends for it is a GET of
    /api/claim_status whose parameter id is that text. *)
Theorem polled_claim id :
  let r := request_of (mk_call ("/claim_status?id=" +:+ encodeURIComponent id) None) in
  method r = "GET"%string /\ pathname r = "/api/claim_status"%string /\ search_get "id" (search_params r) = Some id.
Proof.
  intros r. unfold r, request_of. cbn [api_path api_body]. rewrite chars_app.
  change (cut_at "?" (chars "/claim_status?id=" ++ ?l)) with (chars "/claim_status", chars "id=" ++ l). cbv beta iota.
  split_and!; [done|done|]. cbn [search_params].
  change (query_of (chars "id=" ++ ?l)) with [("id"%string, decode_component l)]. by rewrite decode_encode.
Qed.

(** ** Typing a guess *)

Lemma upper_key c : is_upper c = true -> of_chars [c] ∈ mjoin KEYS /\ re_upper (of_chars [c]) = true /\
  String.eqb (of_chars [c]) "ENT" = false /\ String.eqb (of_chars [c]) "BACK" = false.
Proof.
  intros Hc. unfold is_upper, in_range in Hc. apply andb_prop in Hc as [H1 H2]. bool_to_prop. change (code "A") with 65 in H1. change (code "Z") with 90 in H2.
  assert (forallb (fun n => let t := of_chars [chr (Z.of_nat n)] in bool_decide (t ∈ mjoin KEYS) && re_upper t &&
    negb (String.eqb t "ENT") && negb (String.eqb t "BACK")) (seq 65 26) = true) as H by (vm_compute; reflexivity).
  rewrite forallb_forall in H. specialize (H (Z.to_nat (code c))). cbv zeta in H.
  rewrite Z2Nat.id, chr_code in H by lia. specialize (H ltac:(apply in_seq; lia)).
  apply andb_prop in H as [[[H3%bool_decide_eq_true H4]%andb_prop H5%negb_true_iff]%andb_prop H6%negb_true_iff]. done.
Qed.

(** The page with another current column and board. *)
Definition retyped (col : Z) (b : gmap (Z * Z) cell) (p : page) : page :=
  mk_page (set_currentCol col (script p)) (dom p) b (kb p) (storage p) (timers p) (awaited p) (trace p).

Lemma type_letter p c x :
  game_ok p -> gameOver (script p) = false -> is_upper c = true -> currentCol (script p) < 5 ->
  board p !! (currentRow (script p), currentCol (script p)) = Some x ->
  step p (PressKey (of_chars [c])) = retyped (currentCol (script p) + 1)
    (<[(currentRow (script p), currentCol (script p)) := mk_cell (of_chars [c]) ["cell"; "typing"]%string]> (board p)) p.
Proof.
  intros Hp Ho Hc Hcol Hx. destruct (upper_key c Hc) as (Hk & Hu & He & Hb).
  unfold step. cbn [handle]. rewrite bool_decide_eq_true_2 by done. unfold pressKey.
  change (act_bind get ?k p) with (k p p). cbv beta. rewrite Ho, He, Hb, Hu, (proj2 (Z.ltb_lt _ _) Hcol). cbn [andb].
  unfold act_bind, setCell, get. cbn [act_bind]. unfold act_bind. cbn -[of_chars]. rewrite Hx. done.
Qed.

Lemma type_letters l : forall p,
  game_ok p -> gameOver (script p) = false -> 0 <= currentRow (script p) < 6 -> forallb is_upper l = true ->
  currentCol (script p) + Z.of_nat (length l) <= 5 ->
  exists b, let q := retyped (currentCol (script p) + Z.of_nat (length l)) b p in
    steps p (map (fun c => PressKey (of_chars [c])) l) = q /\ game_ok q /\
    (forall i c, l !! i = Some c -> exists y, b !! (currentRow (script p), currentCol (script p) + Z.of_nat i) = Some y /\ cell_text y = of_chars [c]) /\
    (forall k, k.2 < currentCol (script p) -> b !! k = board p !! k).
Proof.
  induction l as [|a l IH]; intros p Hp Ho Hr Hl Hlen.
  { exists (board p). cbn. rewrite Z.add_0_r. assert (retyped (currentCol (script p)) (board p) p = p) as -> by (by destruct p as [[]]).
    split_and!; try done. }
  cbn [forallb] in Hl. apply andb_prop in Hl as [Ha Hl]. cbn [length] in Hlen. pose proof (ok_col p Hp) as Hcol.
  destruct (proj2 (ok_board p Hp (currentRow (script p)) (currentCol (script p)))) as [x Hx]; [lia|].
  pose proof (type_letter p a x Hp Ho Ha ltac:(lia) Hx) as E.
  pose proof (step_ok p (PressKey (of_chars [a])) Hp I) as Hq. rewrite E in Hq.
  destruct (IH _ Hq) as (b & Es & Hok & Hb & Hold); [done|done|done|cbn; lia|].
  exists b. cbn [map steps fold_left]. rewrite E. cbn [retyped script set_currentCol currentCol currentRow board] in *.
  replace (currentCol (script p) + Z.of_nat (length (a :: l))) with (currentCol (script p) + 1 + Z.of_nat (length l)) by (cbn [length]; lia).
  split; [exact Es|]. split; [exact Hok|]. split.
  - intros [|i] c Hi.
    + injection Hi as <-. rewrite Z.add_0_r, Hold by (cbn; lia). rewrite lookup_insert_eq. by eexists.
    + destruct (Hb i c Hi) as (y & Hy & Ht). exists y. split; [|done]. rewrite <- Hy. do 2 f_equal. lia.
  - intros k Hk. rewrite Hold by lia. by rewrite lookup_insert_ne by (intros <-; cbn in Hk; lia).
Qed.

Definition typed (g : string) : list event := map PressKey (split_chars g) ++ [PressKey "ENT"%string].

Definition guess_call (id g : string) : api_call :=
  mk_call "/guess" (Some (JObj [("session", JStr id); ("guess", JStr g)]%string)).

Lemma row_spells b r l :
  length l = 5%nat -> (forall i c, l !! i = Some c -> exists y, b !! (r, Z.of_nat i) = Some y /\ cell_text y = of_chars [c]) ->
  cell_texts b r columns = Ok (of_chars l).
Proof.
  intros Hl H. destruct l as [|c0 [|c1 [|c2 [|c3 [|c4 [|]]]]]]; try done.
  destruct (H 0%nat c0 eq_refl) as (y0 & E0 & T0), (H 1%nat c1 eq_refl) as (y1 & E1 & T1), (H 2%nat c2 eq_refl) as (y2 & E2 & T2),
    (H 3%nat c3 eq_refl) as (y3 & E3 & T3), (H 4%nat c4 eq_refl) as (y4 & E4 & T4).
  cbn [cell_texts columns]. change 0 with (Z.of_nat 0). change 1 with (Z.of_nat 1). change 2 with (Z.of_nat 2).
  change 3 with (Z.of_nat 3). change 4 with (Z.of_nat 4). by rewrite E0, E1, E2, E3, E4, T0, T1, T2, T3, T4.
Qed.

(** Typing a guess on an empty row and entering it sends it. *)
Lemma guess_typed p id g :
  game_ok p -> gameOver (script p) = false -> 0 <= currentRow (script p) < 6 -> currentCol (script p) = 0 ->
  sessionId (script p) = Some (JStr id) -> re_five_letters g = true ->
  exists q, steps p (typed g) = q /\ game_ok q /\ script q = set_currentCol 5 (script p) /\
    awaited q = awaited p ++ [InSubmitRow g] /\ trace q = Fetch (guess_call id g) :: trace p.
Proof.
  intros Hp Ho Hr Hcol Hid Hg. unfold re_five_letters in Hg. apply andb_prop in Hg as [Hlen Hup]. bool_to_prop.
  destruct (type_letters (chars g) p Hp Ho Hr Hup ltac:(lia)) as (b & Es & Hok & Hb & _).
  eexists. split; [reflexivity|]. unfold typed, steps, split_chars. rewrite fold_left_app, map_map. fold (steps p (map (fun c => PressKey (of_chars [c])) (chars g))).
  rewrite Es, Hcol. replace (0 + Z.of_nat (length (chars g))) with 5 in * by lia. rewrite Hcol in Hok, Hb.
  replace (0 + Z.of_nat (length (chars g))) with 5 in Hok by lia. cbn [fold_left].
  split; [by apply step_ok|]. unfold step. cbn [handle]. rewrite bool_decide_eq_true_2 by (vm_compute; set_solver).
  unfold pressKey, submitRow, getCurrentGuess, act_bind, get, of_res. cbn -[cell_texts columns of_chars].
  rewrite Ho. cbn -[cell_texts columns of_chars]. rewrite (row_spells b (currentRow (script p)) (chars g)) by (try lia; done).
  cbn -[of_chars]. rewrite of_chars_chars, Hid. done.
Qed.

(** ** A guess served *)

Lemma upper_is_upper g : forallb is_upper (chars g) = true -> to_upper g = g.
Proof.
  intros H. unfold to_upper. rewrite <- (of_chars_chars g) at 2. f_equal. induction (chars g) as [|c l IH]; [done|].
  cbn [forallb] in H. apply andb_prop in H as [Hc Hl]. cbn [map]. rewrite mjoin_cons, IH by done.
  unfold is_upper, in_range in Hc. apply andb_prop in Hc as [H1 H2]. bool_to_prop.
  change (code "A") with 65 in H1. change (code "Z") with 90 in H2. unfold upper_char, is_lower, in_range.
  change (code "a") with 97. rewrite (proj2 (Z.leb_gt 97 (code c))) by lia. cbn [andb]. by rewrite (proj2 (Z.eqb_neq _ _)) by lia.
Qed.

Lemma five_upper g : re_five_letters g = true -> to_upper g = g.
Proof. intros H. unfold re_five_letters in H. apply andb_prop in H as [_ H]. by apply upper_is_upper. Qed.

(** The worker's answer to a guess on an open game, as the page gets it. *)
Lemma guess_served w e id ans n g :
  id <> ""%string -> In ans WORDS -> re_five_letters g = true -> faucet_readable w -> in_game w id ans (Open n) ->
  exists s r w', run sim_answer (Wordmine.fetch (request_of (guess_call id g)) e) w =
      (Ok (secured (guess_answer s (grade g ans) r (JStr id)) 200), w') /\
    progress_of s = advance ans (Open n) g /\ faucet_readable w' /\ in_game w' id ans (advance ans (Open n) g).
Proof.
  intros Hid Hans Hg Hf Hin. pose proof (five_upper g Hg) as Hu.
  destruct (guess_step w e id ans (Open n) g Hid Hans ltac:(by rewrite Hu) Hf Hin) as [Hf' Hin']. rewrite Hu in Hin'.
  assert (Wordmine.fetch (request_of (guess_call id g)) e = Wordmine.fetch (guess_request id g) e) as -> by reflexivity.
  destruct Hin as (s & Hs & Hw & Hp & Ho). unfold progress_of in Hp.
  destruct (won s) eqn:Ewon; [done|]. destruct (lost s) eqn:Elost; [done|].
  pose proof (run_guess_read w e id g s Hid ltac:(by rewrite Hu) Hs) as Hrun. rewrite Ewon, Elost, Hu, Hw in Hrun. cbn [orb] in Hrun.
  destruct (sim_reward w s g) as [[r|m] w1] eqn:Er.
  - exists (scored s g r), r. eexists. pose proof (run_fetch_plain sim_answer (guess_request id g) e _ _ _ 200 ltac:(lia) eq_refl Hrun) as Hr.
    rewrite Hr in *. cbn [snd] in *. split; [reflexivity|]. split; [|done].
    destruct Hin' as (s2 & Hs2 & _ & Hp2 & _). cbn [kv sim_put] in Hs2. rewrite lookup_insert_eq in Hs2. by injection Hs2 as <-.
  - exfalso. unfold sim_reward in Er. cbv zeta in Er. destruct (sim_faucet_ok w Hf) as [b Hb]. destruct (won (guessed s _)); [|done].
    destruct (sim_faucet w) as [[b'|]]; done.
Qed.

(** The page after the answer to a guess. *)
Definition over (p : progress) : bool := match p with Open _ => false | _ => true end.
Definition graded_of (ans g : string) : graded := mk_graded g (json_marks (grade g ans)).

Lemma answer_marks s ms r j : get_prop (Some (guess_answer s ms r j)) "marks" = Ok (json_marks ms).
Proof. unfold guess_answer. by destruct (won s), (lost s). Qed.

Lemma answer_won s ms r j : get_prop (Some (guess_answer s ms r j)) "won" = Ok (Some (JBool (won s))).
Proof. unfold guess_answer. by destruct (won s), (lost s). Qed.

Lemma answer_lost s ms r j : get_prop (Some (guess_answer s ms r j)) "lost" = Ok (Some (JBool (lost s))).
Proof. unfold guess_answer. by destruct (won s), (lost s). Qed.

Lemma length_grade g ans : length (grade g ans) = 5%nat.
Proof.
  assert (forall k i gs l counts, length (grade_pass2 k i gs l counts) = length l) as H2.
  { induction k as [|k IH]; intros i gs l counts; cbn [grade_pass2]; [done|]. repeat case_match; rewrite IH; [done|done|apply length_insert]. }
  assert (forall k i gs l ms counts, length (grade_pass1 k i gs l ms counts).1 = length ms) as H1.
  { induction k as [|k IH]; intros i gs l ms counts; cbn [grade_pass1]; [done|]. case_match; rewrite IH; [apply length_insert|done]. }
  unfold grade, grade_chars. specialize (H1 5%nat 0%nat (chars g) (chars ans) [Gray; Gray; Gray; Gray; Gray] ∅).
  destruct (grade_pass1 _ _ _ _ _ _) as [ms counts]. by rewrite H2.
Qed.

Lemma guess_shown p g s ans r j :
  game_ok p -> re_five_letters g = true ->
  let q := (submitRow_answer g 200 (guess_answer s (grade g ans) r j) p).2 in
  game_ok q /\ guesses (script q) = guesses (script p) ++ [graded_of ans g] /\ currentCol (script q) = 0 /\
  sessionId (script q) = sessionId (script p) /\ awaited q = awaited p /\
  gameOver (script q) = gameOver (script p) || over (progress_of s).
Proof.
  intros Hp Hg q. assert (graded_ok (graded_of ans g)) as Hok by (split; [done|by eexists; split; [apply length_grade|done]]).
  assert (game_ok q) as Hq.
  { apply guess_answer_ok; [done|done|]. intros _. exists (grade g ans). by rewrite answer_marks, length_grade. }
  split; [done|]. destruct (submitRow_graded (graded_of ans g) (guess_answer s (grade g ans) r j) p Hok (answer_marks _ _ _ _) (ok_best p Hp))
    as (st & E & _). cbn [graded_of g_word] in E. unfold q. rewrite E.
  unfold guess_finished, act_bind, of_res. rewrite answer_won, answer_lost. unfold progress_of, over.
  set (p1 := graded_page _ _ _).
  assert (guesses (script p1) = guesses (script p) ++ [graded_of ans g] /\ currentCol (script p1) = 0 /\
    sessionId (script p1) = sessionId (script p) /\ awaited p1 = awaited p /\ gameOver (script p1) = gameOver (script p)) as H by (split_and!; reflexivity).
  clearbody p1. clear -H. destruct H as (<- & H2 & <- & <- & <-).
  destruct (won s); [|destruct (lost s)]; cbn; rewrite ?orb_true_r, ?orb_false_r; by split_and!.
Qed.

(** ** A game played on the page *)

(** The last request is served and its answer delivered. *)
Definition served (e : env) (st : page * sim) : page * sim :=
  match trace st.1 with
  | Fetch c :: _ =>
      let '(r, w) := run sim_answer (Wordmine.fetch (request_of c) e) st.2 in (answer_last (answer_of r) st.1, w)
  | _ => st
  end.

(** A guess is typed and entered; if it was sent, it is served. *)
Definition play (e : env) (st : page * sim) (g : string) : page * sim :=
  let p := steps st.1 (typed g) in
  if (length (awaited st.1) <? length (awaited p))%nat then served e (p, st.2) else (p, st.2).

(** The page and the worker agree on a game of [id] on [ans] that stands at [o]. *)
Record in_step (id ans : string) (gs : list graded) (o : progress) (st : page * sim) : Prop := {
  step_page : game_ok st.1;
  step_session : sessionId (script st.1) = Some (JStr id);
  step_guesses : guesses (script st.1) = gs;
  step_over : gameOver (script st.1) = over o;
  step_open n : o = Open n -> currentCol (script st.1) = 0 /\ n = Z.of_nat (length gs) /\ 0 <= n < 6;
  step_worker : in_game st.2 id ans o;
  step_faucet : faucet_readable st.2;
}.

Lemma typed_over p g : gameOver (script p) = true -> steps p (typed g) = p.
Proof.
  intros Ho. unfold typed, steps. rewrite fold_left_app. assert (forall t, step p (PressKey t) = p) as H.
  { intros t. unfold step. cbn [handle]. case_test; [|done]. unfold pressKey. change (act_bind get ?k p) with (k p p). cbv beta. by rewrite Ho. }
  assert (forall l, fold_left step (map PressKey l) p = p) as Hl by (induction l as [|t l IH]; cbn; rewrite ?H; done).
  by rewrite Hl; cbn; rewrite H.
Qed.

Lemma play_over e id ans gs o st g : in_step id ans gs o st -> over o = true -> play e st g = st.
Proof.
  intros [H1 H2 H3 H4 H5 H6 H7] Ho. unfold play. rewrite typed_over by congruence. rewrite Nat.ltb_irrefl. by destruct st.
Qed.

Lemma play_open e id ans gs n st g :
  id <> ""%string -> In ans WORDS -> re_five_letters g = true -> in_step id ans gs (Open n) st ->
  in_step id ans (gs ++ [graded_of ans g]) (advance ans (Open n) g) (play e st g).
Proof.
  intros Hid Hans Hg [H1 H2 H3 H4 H5 H6 H7]. destruct st as [p w]. cbn [fst snd] in *. destruct (H5 n eq_refl) as (Hc & Hn & Hr).
  pose proof (ok_row p H1) as Hrow. rewrite H3 in Hrow.
  destruct (guess_typed p id g H1 H4 ltac:(lia) Hc H2 Hg) as (q & Eq & Hq & Es & Ea & Et).
  unfold play. cbn [fst snd]. rewrite Eq, Ea, length_app. cbn [length].
  rewrite (proj2 (Nat.ltb_lt _ _)) by lia. unfold served. cbn [fst snd]. rewrite Et.
  destruct (guess_served w e id ans n g Hid Hans Hg H7 H6) as (s & r & w' & -> & Hp & Hf & Hin). cbn [answer_of resp_body status secured].
  rewrite (answer_last_resume _ _ _ _ Ea). cbn [resume].
  assert (game_ok (mk_page (script q) (dom q) (board q) (kb q) (storage q) (timers q) (awaited p) (trace q))) as Hq'.
  { destruct Hq as [Q1 Q2 Q3 Q4 Q5 Q6 Q7 Q8 Q9 Q10 Q11 Q12]. split; try done. apply H1. }
  destruct (guess_shown _ g s ans r (JStr id) Hq' Hg) as (G1 & G2 & G3 & G4 & G5 & G6).
  set (p2 := (submitRow_answer _ _ _ _).2) in *. clearbody p2. rewrite Hp in G6.
  cbn [script] in *. rewrite Es in G2, G4, G6. cbn in G2, G4, G6. split; cbn [fst snd]; try congruence.
  - by rewrite G6, H4.
  - intros n' En. split; [done|]. rewrite length_app. cbn [length].
    unfold advance in En. destruct (String.eqb g ans); [done|]. destruct (Z.leb_spec 6 (n + 1)); [done|]. injection En as <-. lia.
Qed.

(** The guesses that counted. *)
Definition counted (o : progress) : nat := match o with Open n | Won n => Z.to_nat n | Lost => 6 end.

Lemma game_in_step e id ans st gs :
  id <> ""%string -> In ans WORDS -> Forall (fun g => re_five_letters g = true) gs -> in_step id ans [] (Open 0) st ->
  let o := fold_left (advance ans) gs (Open 0) in
  in_step id ans (map (graded_of ans) (take (counted o) gs)) o (fold_left (play e) gs st) /\ (counted o <= length gs)%nat.
Proof.
  intros Hid Hans Hgs H0. induction gs as [|g gs IH] using rev_ind; [done|]. apply Forall_app in Hgs as [Hgs Hg]. apply Forall_inv in Hg.
  destruct (IH Hgs) as [IHs IHc]. cbv zeta. rewrite !fold_left_app. cbn [fold_left].
  set (o := fold_left (advance ans) gs (Open 0)) in *. destruct (over o) eqn:Eo.
  - rewrite (play_over e _ _ _ _ _ g IHs Eo). assert (advance ans o g = o) as -> by (by destruct o).
    rewrite take_app_le by done. split; [done|]. rewrite length_app. cbn. lia.
  - destruct o as [n| |] eqn:En; try done. destruct (step_open _ _ _ _ _ IHs n eq_refl) as (_ & Hn & Hr).
    assert (n = Z.of_nat (length gs)) as Hlen.
    { pose proof (advance_outcome ans gs 0 ltac:(lia)) as E. fold o in E. rewrite En in E.
      destruct (position ans 0 gs) as [i|]; [by destruct (i <? 6)|]. destruct (6 <=? _); [done|]. by injection E as ->. }
    cbn [counted] in *.
    assert (counted (advance ans (Open n) g) = S (length gs)) as Hcount.
    { unfold advance. destruct (String.eqb g ans); [cbn; lia|]. destruct (Z.leb_spec 6 (n + 1)); cbn; lia. }
    rewrite Hcount, length_app, take_ge by (rewrite length_app; cbn; lia). cbn [length]. split; [|lia].
    rewrite map_app. cbn [map]. replace (map (graded_of ans) gs) with (map (graded_of ans) (take (Z.to_nat n) gs)) by (by rewrite take_ge by lia).
    by apply play_open.
Qed.

Lemma counted_outcome ans gs : (counted (outcome ans gs) <= 6)%nat.
Proof. unfold outcome. destruct (position ans 0 gs) as [i|]; [destruct (Z.ltb_spec i 6)|destruct (Z.leb_spec 6 (Z.of_nat (length gs)))]; cbn [counted]; lia. Qed.

Lemma json_marks_index ms c m : get_index (json_marks ms) c = Ok (Some (json_mark m)) -> ms !! Z.to_nat c = Some m.
Proof.
  unfold get_index, json_marks. intros [= E]. rewrite list_lookup_fmap in E. destruct (ms !! Z.to_nat c) as [m'|]; [|done].
  injection E as E. by destruct m, m'.
Qed.

(** C11: the page plays the game: on a fresh game, guesses are typed on the page, sent to the worker, graded there and shown.  Afterwards the timers
    that turn the rows run out after finitely many firings, in any order; once they have, the board shows, in the row of each guess the abstract
    game counts, its five letters with the colours of the marks of the rule.  The page takes no more keys exactly when the abstract game is
    over, and the worker's record of the game says the same. *)
Theorem page_plays e id ans st gs :
  id <> ""%string -> In ans WORDS -> Forall (fun g => re_five_letters g = true) gs -> in_step id ans [] (Open 0) st ->
  let o := outcome ans gs in
  let st' := fold_left (play e) gs st in
  (forall n q, nsteps turn n st'.1 q ->
    (n + turning q <= turning st'.1)%nat /\ (turning q <> 0%nat -> exists q', turn q q') /\
    (turning q = 0%nat -> forall i g c, take (counted o) gs !! i = Some g -> (c < 5)%nat ->
       exists L m, chars g !! c = Some L /\ grade g ans !! c = Some m /\
         board q !! (Z.of_nat i, Z.of_nat c) = Some (mk_cell (of_chars [L]) ["cell"%string; mark_name m]))) /\
  gameOver (script st'.1) = over o /\
  exists s, kv st'.2 !! ("session:" +:+ id) = Some (Session s) /\ word s = ans /\ progress_of s = o.
Proof.
  intros Hid Hans Hgs H0 o st'. destruct (game_in_step e id ans st gs Hid Hans Hgs H0) as [Hs _].
  assert (fold_left (advance ans) gs (Open 0) = o) as E by (by rewrite advance_outcome). rewrite E in Hs.
  destruct Hs as [H1 _ H3 H4 _ (s & Hs & Hw & Hp & _) _]. split; [|split; [done|by exists s]].
  intros n q Hn. destruct (turned_ok _ q n H1 Hn) as (_ & Hle & _ & Hb). split; [done|]. split; [apply turn_exists|].
  intros Hz i g c Hi Hc. assert (i < 6)%nat as Hi6.
  { apply lookup_take_Some in Hi as [_ Hi]. pose proof (counted_outcome ans gs). fold o in H. lia. }
  destruct (Hb Hz (Z.of_nat i) (Z.of_nat c) (graded_of ans g) ltac:(lia) ltac:(lia)) as (L & m & [HL Hm] & Hcell).
  { rewrite H3, Nat2Z.id, list_lookup_fmap, Hi. done. }
  cbn [graded_of g_word g_marks] in HL, Hm. apply json_marks_index in Hm. rewrite Nat2Z.id in HL, Hm. unfold split_chars in HL.
  rewrite list_lookup_fmap in HL. destruct (chars g !! c) as [a|]; [|done]. injection HL as <-. by exists a, m.
Qed.

(** A page whose game was just started, and the worker's record of it. *)
Definition demo_page : page :=
  steps (load None []) [CaptchaSolved "t"; ClickPlay; Answered 1 (Response 200 (JObj [("session", JStr (demo_id 1))]%string))].
Definition demo_worker : sim := (run sim_answer (Wordmine.fetch start_request demo_env) empty_sim).2.

Lemma demo_in_step : in_step (demo_id 1) (nth 0 WORDS ""%string) [] (Open 0) (demo_page, demo_worker).
Proof.
  assert (game_ok demo_page) as Hp.
  { unfold demo_page, steps. cbn [fold_left]. apply step_ok; [apply step_ok; [apply step_ok; [apply load_ok|exact I]|exact I]|].
    unfold answer_ok. match goal with |- context [awaited ?q !! ?i] => assert (awaited q !! i = Some InStartGame) as -> end; [|exact I].
    vm_compute. reflexivity. }
  split; [exact Hp|vm_compute; reflexivity|vm_compute; reflexivity|vm_compute; reflexivity| | |].
  - intros n [= <-]. split; [vm_compute; reflexivity|]. cbn. lia.
  - exists (new_session (nth 0 WORDS ""%string) 1700000000000). split_and!; [vm_compute; reflexivity|reflexivity|vm_compute; reflexivity|]. cbn. lia.
  - vm_compute. exact I.
Qed.

(** The flips of a page, the first due one first. *)
Fixpoint turn_all (n : nat) (p : page) : page :=
  match n with
  | O => p
  | S k => match list_find (fun t => 0 < turns t.2)%nat (timers p) with Some (i, _) => turn_all k (step p (Timeout i)) | None => p end
  end.

Lemma turn_all_turns n : forall p, exists k, nsteps turn k p (turn_all n p).
Proof.
  induction n as [|n IH]; intros p; cbn [turn_all]; [exists 0%nat; constructor|].
  destruct (list_find _ (timers p)) as [[i [ms t]]|] eqn:E; [|exists 0%nat; constructor]. apply list_find_Some in E as (Hi & Ht & _).
  destruct (IH (step p (Timeout i))) as [k Hk]. exists (S k). eapply nsteps_l; [|exact Hk]. by exists i, ms, t.
Qed.

Lemma page_plays_witness :
  let ans := nth 0 WORDS ""%string in
  let st' := fold_left (play demo_env) ["CRANE"; ans; "STORM"]%string (demo_page, demo_worker) in
  let q := turn_all 40 st'.1 in
  gameOver (script st'.1) = true /\ turning q = 0%nat /\
  exists L m, chars ans !! 2%nat = Some L /\ grade ans ans !! 2%nat = Some m /\ m = Green /\
    board q !! (1, 2) = Some (mk_cell (of_chars [L]) ["cell"%string; mark_name m]).
Proof.
  intros ans st' q. assert (Forall (fun g => re_five_letters g = true) ["CRANE"; ans; "STORM"]%string) as Hgs by (repeat (constructor; [vm_compute; reflexivity|]); constructor).
  destruct (page_plays demo_env (demo_id 1) ans (demo_page, demo_worker) ["CRANE"; ans; "STORM"]%string ltac:(vm_compute; discriminate)
    ltac:(apply nth_In; rewrite length_WORDS; lia) Hgs demo_in_step) as (Hturn & Hover & _).
  split; [etransitivity; [exact Hover|vm_compute; reflexivity]|]. assert (turning q = 0%nat) as Hz by (vm_compute; reflexivity). split; [exact Hz|].
  destruct (turn_all_turns 40 st'.1) as [k Hk]. destruct (Hturn k q Hk) as (_ & _ & Hb).
  destruct (Hb Hz 1%nat ans 2%nat ltac:(vm_compute; reflexivity) ltac:(lia)) as (L & m & HL & Hm & Hcell).
  exists L, m. split; [exact HL|]. split; [exact Hm|]. split; [|exact Hcell].
  assert (grade ans ans !! 2%nat = Some Green) as E by (vm_compute; reflexivity). rewrite E in Hm. by injection Hm as <-.
Defined.

(** ** A payout that failed *)

(** The timer of the win panel fires. *)
Definition is_win (t : Z * task) : bool := match t.2 with ShowWin _ => true | _ => false end.
Definition show_win (p : page) : page :=
  match list_find is_win (timers p) with Some (i, _) => step p (Timeout i) | None => p end.

(** The daemon gives up on every pending claim. *)
Definition daemon_fails (w : sim) : sim :=
  mk_sim (fmap (fun v => match v with Claim c => Claim (claim_failed c "no unlocked outputs") | _ => v end) (kv w))
    (history w) (clock w) (draws w) (log w).

Definition on_page (f : page -> page) (st : page * sim) : page * sim := (f st.1, st.2).

(** A won game whose claim the daemon could not pay, as the page learns of it. *)
Definition demo_refused : page * sim :=
  let won := play demo_env (demo_page, demo_worker) (nth 0 WORDS ""%string) in
  let claiming := on_page (fun p => steps (show_win p) [EditAddress demo_address; ClickClaim]) won in
  let polling := served demo_env claiming in
  served demo_env (polling.1, daemon_fails polling.2).

(** After a failed payout the page offers to retry, but the worker marked the game as claimed and refuses. *)
Theorem retry_refused :
  let st := demo_refused in
  let again := served demo_env (on_page (fun p => step p ClickClaim) st) in
  text (dom st.1 els_claimBtn) = "RETRY"%string /\ disabled (dom st.1 els_claimBtn) = false /\
  text (dom again.1 els_claimStatus) = "already_claimed"%string.
Proof. vm_compute. split_and!; reflexivity. Qed.

(** ** The displayed reward *)

Definition locked_faucet : sim :=
  mk_sim {["faucet:balance"%string := Faucet (mk_faucet (Some (num_of_Z 5000)) (Some (Some num_zero)) (Some 1700000000000))]}
    [] 1700000000000 0 [].

(** The page computes the reward on offer from the whole balance, the worker from what is unlocked. *)
Theorem reward_overstated :
  let st := served demo_env (step demo_page (Timeout 0), locked_faucet) in
  text (dom st.1 els_maxReward) = "1.000 GLAC"%string /\
  maxReward (Some num_zero) = num_zero.
Proof. vm_compute. split; reflexivity. Qed.
