(* ===== verification/Pool.v ===== *)
(** * Pool: the mining pool's edge worker (pool/cloudflare/pool-worker.js)

    The worker answers CORS preflights, passes everything outside /pool/ to the asset binding, and
    proxies /pool/ requests to the pool server, keeping successful answers to three read-only
    endpoints in the edge cache for a few seconds.  Bodies are byte strings.  The services (cache, pool
    server, assets) are the calls of [op]; the theorems hold whatever they answer. *)
From S2P Require Import Prelude JsCore Json Http Effects.
Local Open Scope Z_scope.
Local Open Scope glaciem_scope.

Definition ORIGIN : string := "http://static.34.142.105.178.clients.your-server.de:8088".

Definition CORS : list (string * string) :=
  [("Access-Control-Allow-Origin", "*");
   ("Access-Control-Allow-Methods", "GET, POST, OPTIONS");
   ("Access-Control-Allow-Headers", "Content-Type");
   ("Access-Control-Max-Age", "86400")]%string.

Definition GET_CACHE_TTL (path : string) : option Z :=
  if String.eqb path "/pool/stats" then Some 5
  else if String.eqb path "/pool/blocks" then Some 10
  else if String.eqb path "/pool/payouts" then Some 10
  else None.

Record request : Type := mk_request {
  method : string;
  pathname : string;
  search : string;             (** empty, or the query with its question mark *)
  req_headers : headers;
  req_bytes : string;
}.

(** The body of an error response the worker makes itself is a JSON value; the others are bytes. *)
Inductive content : Type :=
| Bytes (b : string)
| JsonText (j : json).

Abbreviation resp := (response content).

Inductive op : Type :=
| CacheMatch (key : string)                                   (** [caches.default.match] *)
| CachePut (key : string) (r : resp)                          (** [ctx.waitUntil(caches.default.put(...))] *)
| Origin (url method content_type : string) (body : option string)  (** [fetch] of the pool server *)
| ArrayBuffer (r : resp)                                      (** [resp.arrayBuffer()] *)
| Assets (r : request).                                       (** [env.ASSETS.fetch] *)

Definition ret (o : op) : Type :=
  match o with
  | CacheMatch _ => option resp
  | CachePut _ _ => unit
  | Origin _ _ _ _ => resp
  | ArrayBuffer _ => string
  | Assets _ => resp
  end.

Definition await (o : op) : prog ret (ret o) := call o.

Definition cache_key (req : request) : string := "https://pool-cache.local" +:+ pathname req +:+ search req.

(** The cached copy with the CORS headers added on the way out. *)
Definition serve_hit (hit : resp) : prog ret resp :=
  let! out := lift (new_response (resp_body hit) (status hit) (resp_headers hit)) in
  Ret (mk_response (status out)
         (header_set (headers_set_all CORS (resp_headers out)) "x-pool-cache" "HIT") (resp_body out)).

(** A rejected [fetch] is answered here; a rejected [arrayBuffer] is not caught. *)
Definition unreachable (message : string) : prog ret resp :=
  lift (new_response (Some (JsonText (JObj [("error", JStr ("pool server unreachable: " +:+ message))]%string))) 502
         (headers_set_all CORS (headers_set_all [("content-type", "application/json")]%string ∅))).

(** [cached] is the cache key with its time to live, when the request is cacheable. *)
Definition relay (resp0 : resp) (cached : option (string * Z)) : prog ret resp :=
  let! respBody := await (ArrayBuffer resp0) in
  let respCT := header_or (resp_headers resp0) "content-type" "application/json" in
  do! (match cached with
       | Some (key, ttl) =>
           if status resp0 <? 400 then
             let! cacheResp := lift (new_response (Some (Bytes respBody)) 200
               (headers_set_all [("content-type", respCT);
                                 ("cache-control", "public, max-age=" +:+ string_of_Z ttl)]%string ∅)) in
             await (CachePut key cacheResp)
           else Ret tt
       | None => Ret tt
       end) in
  lift (new_response (Some (Bytes respBody)) (status resp0)
    (headers_set_all CORS
      (headers_set_all [("content-type", respCT);
                        ("x-pool-cache", match cached with Some _ => "MISS" | None => "BYPASS" end)]%string ∅))).

Definition proxy (req : request) (cached : option (string * Z)) : prog ret resp :=
  let body := if String.eqb (method req) "POST" then Some (req_bytes req) else None in
  let ct := header_or (req_headers req) "content-type" "application/json" in
  Vis (Origin (ORIGIN +:+ pathname req +:+ search req) (method req) ct body)
    (fun r => match r with
              | Ok resp0 => relay resp0 cached
              | Err message => unreachable message
              end).

Definition fetch (req : request) : prog ret resp :=
  if String.eqb (method req) "OPTIONS" then
    lift (new_response None 204 (headers_set_all CORS ∅))
  else if negb (String.prefix "/pool/" (pathname req)) then await (Assets req)
  else
    match (if String.eqb (method req) "GET" then GET_CACHE_TTL (pathname req) else None) with
    | Some ttl =>
        let key := cache_key req in
        let! hit := await (CacheMatch key) in
        match hit with
        | Some hit => serve_hit hit
        | None => proxy req (Some (key, ttl))
        end
    | None => proxy req None
    end.

(** ** What the worker does *)

Lemma pool_CORS_names : NoDup (map (fun kv : string * string => to_lower kv.1) CORS).
Proof. vm_compute. apply (bool_decide_unpack (NoDup _)). vm_compute. done. Qed.

Definition has_cors (r : resp) : Prop := Forall (fun kv => header_get (resp_headers r) kv.1 = Some kv.2) CORS.

Lemma cors_set h : Forall (fun kv => header_get (headers_set_all CORS h) kv.1 = Some kv.2) CORS.
Proof.
  apply Forall_forall. intros [k v] Hin. apply headers_set_all_in; [apply pool_CORS_names|by apply list_elem_of_In].
Qed.

Definition in_pool (req : request) : bool := String.prefix "/pool/" (pathname req).

(** The calls a request may cause. *)
Definition call_ok (req : request) (o : op) : Prop :=
  match o with
  | CacheMatch key =>
      in_pool req = true /\ method req = "GET"%string /\ GET_CACHE_TTL (pathname req) <> None /\ key = cache_key req
  | CachePut key r =>
      in_pool req = true /\ method req = "GET"%string /\ key = cache_key req /\ status r = 200 /\
      header_get (resp_headers r) "Access-Control-Allow-Origin" = None /\
      exists ttl, GET_CACHE_TTL (pathname req) = Some ttl /\
                  header_get (resp_headers r) "cache-control" = Some ("public, max-age=" +:+ string_of_Z ttl)
  | Origin url m _ body =>
      in_pool req = true /\ method req <> "OPTIONS"%string /\
      url = ORIGIN +:+ pathname req +:+ search req /\ m = method req /\
      body = (if String.eqb (method req) "POST" then Some (req_bytes req) else None)
  | ArrayBuffer _ => in_pool req = true
  | Assets r => in_pool req = false /\ r = req
  end.

Definition answer_ok (req : request) (out : res resp) : Prop :=
  forall r, out = Ok r -> in_pool req = true \/ method req = "OPTIONS"%string -> has_cors r.

Definition cacheable (req : request) (cached : option (string * Z)) : Prop :=
  match cached with
  | Some (key, ttl) => method req = "GET"%string /\ key = cache_key req /\ GET_CACHE_TTL (pathname req) = Some ttl
  | None => True
  end.

Abbreviation keeps req := (paths (call_ok req) (fun _ _ => True) (answer_ok req)).

Lemma new_response_cors req (b : option content) st h :
  answer_ok req (new_response b st (headers_set_all CORS h)).
Proof.
  intros r Hr _. unfold has_cors. rewrite (new_response_headers _ _ _ _ Hr). apply cors_set.
Qed.

Lemma relay_keeps req resp0 cached : in_pool req = true -> cacheable req cached -> keeps req (relay resp0 cached).
Proof.
  intros Hp Hc. unfold relay. apply paths_bind; ask; [done|].
  intros [body|m] _; [|by intros ? [=]]. set (ct := header_or _ _ _). apply paths_bind.
  eapply paths_mono with (Q := fun _ => True).
  { intros [u|m] _; [apply paths_lift, new_response_cors|by intros ? [=]]. }
  destruct cached as [[key ttl]|]; [|done]. destruct Hc as (Hm & -> & Ht). case_test; [|done].
  apply paths_bind, paths_lift. destruct (new_response _ 200 _) as [cr|m] eqn:E; [|done].
  ask; [|done]. cbn [call_ok].
  rewrite (new_response_status _ _ _ _ E), (new_response_headers _ _ _ _ E). split_and!; try done. by exists ttl.
Qed.

Lemma proxy_keeps req cached :
  in_pool req = true -> method req <> "OPTIONS"%string -> cacheable req cached -> keeps req (proxy req cached).
Proof.
  intros Hp Hm Hc. split; [done|]. intros [r|m] _; [by apply relay_keeps|].
  apply paths_lift, new_response_cors.
Qed.

Lemma pool_fetch_keeps req : keeps req (fetch req).
Proof.
  unfold fetch. destruct (String.eqb_spec (method req) "OPTIONS") as [Hm|Hm].
  { apply paths_lift, new_response_cors. }
  destruct (String.prefix "/pool/" (pathname req)) eqn:Hp; cbn [negb].
  2: { ask; [done|]. intros r _ r' _ [Hp'|Hm']; [unfold in_pool in Hp'; congruence|done]. }
  destruct (String.eqb_spec (method req) "GET") as [Hg|Hg]; [|by apply proxy_keeps].
  destruct (GET_CACHE_TTL (pathname req)) as [ttl|] eqn:Ht; [|by apply proxy_keeps].
  apply paths_bind; ask.
  { split_and!; try done. by rewrite Ht. }
  intros [[hit|]|m] _; [|by apply proxy_keeps|by intros ? [=]]. unfold serve_hit.
  destruct (new_response (resp_body hit) (status hit) (resp_headers hit)) as [out|m]; cbn [lift bind paths]; [|by intros ? [=]].
  intros r [= <-] _. unfold has_cors. cbn [resp_headers]. apply Forall_forall. intros [k v] Hin. unfold header_get, header_set.
  rewrite lookup_insert_ne.
  - by apply (proj1 (Forall_forall _ _) (cors_set (resp_headers out)) (k, v)).
  - revert Hin. rewrite list_elem_of_In. cbn [CORS In]. intros Hin. repeat destruct Hin as [[= <- <-]|Hin]; done.
Qed.

(** Whatever the cache, the pool server and the assets answer, one request causes only these calls: the cache is
    consulted and filled only for GETs of the three listed endpoints, under a key made of path and query, with a
    status-200 copy that carries the endpoint's time to live and no CORS header; only /pool/ requests reach the pool server, at
    the same path and query, with the request's own method, and a POST with its body; all others reach only the assets.
    And every preflight or /pool/ request that is answered is answered with the four CORS headers. *)
Theorem pool_calls {W} (ans : W -> forall o, res (ret o) -> W -> Prop) req w tr w' out :
  exec ans (fetch req) w tr w' out -> Forall (call_ok req) tr /\ answer_ok req out.
Proof.
  intros He. destruct (exec_safe ans (fun _ => True) (call_ok req) (fun _ _ => True) (answer_ok req)
    ltac:(done) _ _ _ _ _ He I (pool_fetch_keeps req)) as (_ & Hq & Hpre). done.
Qed.

(** a POST to the pool always reaches the pool server, first and before anything else, with its body. *)
Theorem pool_post_reaches_origin {W} (ans : W -> forall o, res (ret o) -> W -> Prop) req w tr w' out :
  method req = "POST"%string -> in_pool req = true -> exec ans (fetch req) w tr w' out ->
  exists tr', tr = Origin (ORIGIN +:+ pathname req +:+ search req) "POST"
                     (header_or (req_headers req) "content-type" "application/json") (Some (req_bytes req)) :: tr'.
Proof.
  intros Hm Hp He. unfold fetch, in_pool in *. rewrite Hm, Hp in He. cbn [String.eqb Ascii.eqb Bool.eqb negb] in He.
  unfold proxy in He. rewrite Hm in He. inversion He; subst. by eexists.
Qed.

(** A path and query as the URL parser returns them: the path has no question mark, and the query is empty or starts with one. *)
Definition url_ok (req : request) : Prop :=
  ~ In "?"%char (chars (pathname req)) /\
  (search req = ""%string \/ exists q, search req = String "?" q).

Lemma split_at_mark (p q : list ascii) s t :
  ~ In "?"%char p -> ~ In "?"%char q ->
  (s = [] \/ exists s', s = "?"%char :: s') -> (t = [] \/ exists t', t = "?"%char :: t') ->
  p ++ s = q ++ t -> p = q /\ s = t.
Proof.
  revert q. induction p as [|c p IH]; intros q Hp Hq Hs Ht Heq.
  - destruct q as [|d q]; [done|]. exfalso. cbn in Heq. subst s. destruct Hs as [Hs|[s' [= -> _]]]; [done|].
    apply Hq. by left.
  - destruct q as [|d q].
    + exfalso. cbn in Heq. destruct Ht as [->|[t' ->]]; [done|]. injection Heq as -> _. apply Hp. by left.
    + injection Heq as -> Heq. destruct (IH q) as [-> ->]; auto.
      * intros Hin. apply Hp. by right.
      * intros Hin. apply Hq. by right.
Qed.

(** Cache entries of different endpoints or queries (the ?wallet=X of different miners) never mix: the
    cache key determines path and query. *)
Theorem cache_key_isolates r1 r2 :
  url_ok r1 -> url_ok r2 -> cache_key r1 = cache_key r2 -> pathname r1 = pathname r2 /\ search r1 = search r2.
Proof.
  intros [Hp1 Hs1] [Hp2 Hs2] Hk. apply (f_equal chars) in Hk. unfold cache_key in Hk. rewrite !chars_app in Hk.
  apply app_inv_head in Hk. apply split_at_mark in Hk as [Hp Hs]; [|done|done| |].
  - split; by apply chars_inj.
  - destruct Hs1 as [->|[q ->]]; [by left|right]. by eexists.
  - destruct Hs2 as [->|[q ->]]; [by left|right]. by eexists.
Qed.

(** ** Witnesses *)

Definition demo_request (m path query : string) : request := mk_request m path query ∅ "{}".

(** Services with an empty cache and a server that answers every request. *)
Definition demo_answer (w : list op) (o : op) : res (ret o) * list op :=
  (match o return res (ret o) with
   | CacheMatch _ => Ok None
   | CachePut _ _ => Ok tt
   | Origin _ _ _ _ => Ok (mk_response 200 ∅ (Some (Bytes "{}")))
   | ArrayBuffer _ => Ok "{}"%string
   | Assets _ => Err "not found"
   end, o :: w).

Lemma pool_calls_witness :
  let req := demo_request "GET" "/pool/stats" "" in
  length (run_trace demo_answer (fetch req) []) = 4%nat /\
  Forall (call_ok req) (run_trace demo_answer (fetch req) []) /\ answer_ok req (run demo_answer (fetch req) []).1.
Proof. intros req. split; [reflexivity|]. apply (pool_calls _ _ _ _ _ _ (run_exec demo_answer (fetch req) [])). Defined.

Lemma pool_post_reaches_origin_witness :
  let req := demo_request "POST" "/pool/job" "" in
  exists tr', run_trace demo_answer (fetch req) [] =
    Origin (ORIGIN +:+ pathname req +:+ search req) "POST"
      (header_or (req_headers req) "content-type" "application/json") (Some (req_bytes req)) :: tr'.
Proof.
  intros req. apply (pool_post_reaches_origin _ req _ _ _ _ eq_refl eq_refl (run_exec demo_answer (fetch req) [])).
Defined.

Lemma cache_key_isolates_witness :
  let r1 := demo_request "GET" "/pool/stats" "?wallet=X" in let r2 := demo_request "GET" "/pool/stats" "?wallet=X" in
  cache_key r1 = cache_key r2 /\ pathname r1 = pathname r2 /\ search r1 = search r2.
Proof.
  split; [reflexivity|]. apply (cache_key_isolates _ _); [| |reflexivity].
  all: split; [|right; by eexists]. all: cbn; intros H; repeat destruct H as [H|H]; try discriminate; done.
Defined.

