(* ===== verification/Rpc.v ===== *)
(** * Rpc: the node RPC proxy (cloudflare/glaciem-rpc-worker.js)

    The worker stands before two daemon nodes.  It refuses administrative paths, answers three kinds of read-only
    requests from the edge cache (binary endpoints by path and body digest, JSON-RPC methods by method and
    parameter digest, bare paths by name), and passes the rest to the nodes in order, moving on when a node
    fails.  Counters per node and per caller are kept in the STATS namespace by background tasks.

    Bodies are byte strings, one character a byte.  SHA-256 is the parameter [sha256] of the class [Digest].  A
    task given to [ctx.waitUntil] is a value of [task]; [background] is the program it runs. *)
From S2P Require Import Prelude JsCore Bytes Number Json JsonText Http Effects.
Local Open Scope Z_scope.
Local Open Scope glaciem_scope.

(** [crypto.subtle.digest('SHA-256', data)] *)
Class Digest : Type := sha256 : string -> list Z.

(** ** Configuration *)

Record origin : Type := mk_origin { origin_id : string; origin_url : string }.

Definition ORIGINS : list origin :=
  [mk_origin "node2" "http://static.197.125.225.46.clients.your-server.de";
   mk_origin "node1" "http://static.34.142.105.178.clients.your-server.de"].

(** The value of a property of an object literal: an own entry, or what [Object.prototype] has under the name. *)
Inductive ttl_value : Type :=
| Seconds (n : Z)
| Inherited (text : string).       (** converted to a string *)

Definition object_prototype : list (string * string) :=
  [("constructor", "function Object() { [native code] }");
   ("__proto__", "[object Object]");
   ("hasOwnProperty", "function hasOwnProperty() { [native code] }");
   ("isPrototypeOf", "function isPrototypeOf() { [native code] }");
   ("propertyIsEnumerable", "function propertyIsEnumerable() { [native code] }");
   ("toLocaleString", "function toLocaleString() { [native code] }");
   ("toString", "function toString() { [native code] }");
   ("valueOf", "function valueOf() { [native code] }");
   ("__defineGetter__", "function __defineGetter__() { [native code] }");
   ("__defineSetter__", "function __defineSetter__() { [native code] }");
   ("__lookupGetter__", "function __lookupGetter__() { [native code] }");
   ("__lookupSetter__", "function __lookupSetter__() { [native code] }")]%string.

Fixpoint assoc {A} (k : string) (l : list (string * A)) : option A :=
  match l with
  | [] => None
  | (n, v) :: l' => if String.eqb n k then Some v else assoc k l'
  end.

Definition table_get (table : list (string * Z)) (k : string) : option ttl_value :=
  match assoc k table with
  | Some n => Some (Seconds n)
  | None => option_map Inherited (assoc k object_prototype)
  end.

Definition CACHE_TTL : list (string * Z) :=
  [("get_info", 8); ("getinfo", 8); ("get_last_block_header", 8); ("getlastblockheader", 8);
   ("get_block_count", 8); ("getblockcount", 8); ("get_height", 8);
   ("get_block_header_by_height", 5); ("getblockheaderbyheight", 5);
   ("get_block_header_by_hash", 3600); ("getblockheaderbyhash", 3600); ("get_block", 3600)]%string.

Definition BIN_CACHE_TTL : list (string * Z) :=
  [("/getblocks.bin", 15); ("/get_blocks.bin", 15); ("/getblocks_by_height.bin", 15);
   ("/get_o_indexes.bin", 60); ("/get_outs.bin", 60); ("/get_transactions", 60); ("/gettransactions", 60)]%string.

Definition BLOCKED_PATHS : list string :=
  ["/get_peer_list"; "/get_public_nodes"; "/get_connections"; "/get_outputs.bin"; "/save_bc";
   "/stop_save_graph"; "/start_save_graph"; "/update"; "/set_log_level"; "/set_log_categories";
   "/set_bootstrap_daemon"; "/set_limit"]%string.

Definition CORS : list (string * string) :=
  [("Access-Control-Allow-Origin", "*");
   ("Access-Control-Allow-Methods", "GET, POST, OPTIONS");
   ("Access-Control-Allow-Headers", "Content-Type");
   ("Access-Control-Max-Age", "86400")]%string.

(** ** Requests and services *)

Record request : Type := mk_request {
  method : string;
  pathname : string;
  search : string;
  req_headers : headers;
  req_bytes : string;
}.

Record env : Type := mk_env { STATS : bool (** whether the namespace is bound *) }.

Abbreviation resp := (response string).

Inductive task : Type :=
| BumpHit (nodeId : string)
| BumpMiner (req : request)
| StoreResponse (key : string) (r : resp).

Inductive op : Type :=
| Today                                                          (** [new Date().toISOString().slice(0, 10)] *)
| StatsGet (k : string)
| StatsPut (k v : string) (ttl : Z)
| StatsList (prefix : string) (limit : Z)                        (** the keys of the list *)
| CacheMatch (key : string)
| CachePut (key : string) (r : resp)
| Node (url method content_type : string) (body : option string) (** [fetch] of a node *)
| ReadBody (r : resp)                                            (** [arrayBuffer()] or [text()] of a response *)
| WaitUntil (t : task).

Definition ret (o : op) : Type :=
  match o with
  | Today => string
  | StatsGet _ => option string
  | StatsPut _ _ _ => unit
  | StatsList _ _ => list string
  | CacheMatch _ => option resp
  | CachePut _ _ => unit
  | Node _ _ _ _ => resp
  | ReadBody _ => string
  | WaitUntil _ => unit
  end.

Definition await (o : op) : prog ret (ret o) := call o.

(** ** Counters *)

(** [parseInt(v || "0", 10) || 0] *)
Definition counter (v : option string) : Z :=
  match v with
  | None | Some ""%string => 0
  | Some t => default 0 (parse_int 10 (chars t))
  end.

Definition bumpHit (e : env) (nodeId : string) : prog ret unit :=
  if negb (STATS e) then Ret tt
  else
    let! day := await Today in
    let key := "nodehit:" +:+ nodeId +:+ ":" +:+ day in
    catch (let! v := await (StatsGet key) in
           await (StatsPut key (string_of_Z (counter v + 1)) (7 * 86400)))
          (fun _ => Ret tt).

(** The first [n] bytes of a digest in hex. *)
Definition hex_prefix (n : nat) (digest : list Z) : string := of_chars (mjoin (map hex_byte (take n digest))).

Section Worker.
Context `{Digest}.

Definition bumpMiner (e : env) (req : request) : prog ret unit :=
  if negb (STATS e) then Ret tt
  else match header_get (req_headers req) "cf-connecting-ip" with
       | None | Some ""%string => Ret tt
       | Some ip =>
           let! day := await Today in
           let digest := sha256 (utf8 ("glaciem-rpc-salt-" +:+ day +:+ "::" +:+ ip)) in
           let fp := hex_prefix 8 digest in
           catch (await (StatsPut ("miner:" +:+ day +:+ ":" +:+ fp) "1" (7 * 86400))) (fun _ => Ret tt)
       end.

Definition background (e : env) (t : task) : prog ret unit :=
  match t with
  | BumpHit nodeId => bumpHit e nodeId
  | BumpMiner req => bumpMiner e req
  | StoreResponse key r => await (CachePut key r)
  end.

(** ** Cache helpers *)

(** The fields of a request object with a string method. *)
Record rpc : Type := mk_rpc { rpc_method : string; rpc_params : jsval; rpc_id : jsval }.

Definition parseRpc (buf : string) : option rpc :=
  match parse (utf8_decode buf) with
  | Some (JObj fs) =>
      match field "method" fs with
      | Some (JStr m) => Some (mk_rpc m (field "params" fs) (field "id" fs))
      | _ => None
      end
  | _ => None
  end.

Definition cacheKeyFor (m : string) (params : jsval) : string :=
  let payload := m +:+ ":" +:+ stringify (default JNull params) in
  "https://rpc-cache.local/" +:+ m +:+ "/" +:+ hex_prefix 16 (sha256 (utf8 payload)).

(** A property set on anything but an object or an array throws, and the text is returned as it is. *)
Definition swapId (text : string) (newId : jsval) : string :=
  match parse text with
  | Some (JObj fs) =>
      stringify (JObj (match newId with Some id => set_field "id" id fs | None => drop_field "id" fs end))
  | Some (JArr l) => stringify (JArr l)
  | _ => text
  end.

(** ** The handler *)

Definition with_cors (h : list (string * string)) : headers := headers_set_all CORS (headers_set_all h ∅).

Definition stats_rate (cache totalAll : Z) : string :=
  if 0 <? totalAll then
    match num_div (num_of_Z (cache * 100)) (num_of_Z totalAll) with
    | S754_finite false m e =>
        (** [toFixed(1)]: the nearest tenth of the exact value, the larger of two *)
        let tenths := if 0 <=? e then Zpos m * 2 ^ e * 10 else (Zpos m * 10 * 2 + 2 ^ (- e)) / (2 * 2 ^ (- e)) in
        string_of_Z (tenths / 10) +:+ "." +:+ string_of_Z (tenths mod 10) +:+ "%"
    | _ => "0.0%"
    end
  else "0%".

Fixpoint node_counts (day : string) (origins : list origin) : prog ret (list (string * Z)) :=
  match origins with
  | [] => Ret []
  | o :: rest =>
      let! v := await (StatsGet ("nodehit:" +:+ origin_id o +:+ ":" +:+ day)) in
      let! counts := node_counts day rest in
      Ret ((origin_id o, counter v) :: counts)
  end.

Definition stats (e : env) : prog ret resp :=
  let! day := await Today in
  if negb (STATS e) then Throw "TypeError: Cannot read properties of undefined"
  else
    let! nodes := node_counts day ORIGINS in
    let! c := await (StatsGet ("nodehit:cache:" +:+ day)) in
    let cache := counter c in
    let totalAll := fold_left Z.add (map snd nodes) 0 + cache in
    let! miners := await (StatsList ("miner:" +:+ day +:+ ":") 1000) in
    let out := JObj [("day", JStr day);
                     ("nodes", JObj (map (fun nc => (nc.1, JNum (num_of_Z nc.2))) nodes));
                     ("cache", JNum (num_of_Z cache));
                     ("miners", JObj [("unique", JNum (num_of_Z (Z.of_nat (length miners))))]);
                     ("cache_hit_rate", JStr (stats_rate cache totalAll))]%string in
    lift (new_response (Some (utf8 (stringify_pretty out))) 200 (with_cors [("content-type", "application/json")]%string)).

(** Counting a hit: [ctx.waitUntil(bumpHit(...)); ctx.waitUntil(bumpMiner(...))]. *)
Definition count_hit (req : request) (nodeId : string) : prog ret unit :=
  do! await (WaitUntil (BumpHit nodeId)) in await (WaitUntil (BumpMiner req)).

(** The cache entry a request may use: its key and time to live. *)
Record cache_entry : Type := mk_entry { entry_key : string; entry_ttl : ttl_value }.

Definition bin_entry (req : request) (body : option string) : option cache_entry :=
  match table_get BIN_CACHE_TTL (pathname req), body with
  | Some ttl, Some b =>
      Some (mk_entry ("https://rpc-cache.local/bin" +:+ pathname req +:+ "/" +:+ hex_prefix 20 (sha256 b)) ttl)
  | _, _ => None
  end.

(** [s.endsWith(t)] *)
Definition ends_with (t s : string) : bool :=
  bool_decide (drop (length (chars s) - length (chars t)) (chars s) = chars t).

Definition json_rpc_of (req : request) (body : option string) : option rpc :=
  match body with
  | Some b => if String.eqb (method req) "POST" && ends_with "/json_rpc" (pathname req) then parseRpc b else None
  | None => None
  end.

Definition rpc_entry (r : option rpc) : option cache_entry :=
  match r with
  | Some r => match table_get CACHE_TTL (rpc_method r) with
              | Some ttl => Some (mk_entry (cacheKeyFor (rpc_method r) (rpc_params r)) ttl)
              | None => None
              end
  | None => None
  end.

(** [s.replace(/^\/+/, "")] *)
Fixpoint strip_slashes (l : list ascii) : list ascii :=
  match l with c :: l' => if code c =? 47 then strip_slashes l' else l | [] => [] end.

Definition path_entry (req : request) (body : option string) : option cache_entry :=
  if String.eqb (method req) "GET"
     || (String.eqb (method req) "POST" && match body with None | Some ""%string => true | _ => false end)
  then let urlMethod := to_lower (of_chars (strip_slashes (chars (pathname req)))) in
       match table_get CACHE_TTL urlMethod with
       | Some ttl => Some (mk_entry ("https://rpc-cache.local/path/" +:+ urlMethod) ttl)
       | None => None
       end
  else None.

(** Look an entry up and, on a hit, count it and answer with what [reply] makes of the cached response. *)
Definition try_cache (req : request) (entry : option cache_entry)
    (reply : resp -> prog ret resp) (otherwise : prog ret resp) : prog ret resp :=
  match entry with
  | None => otherwise
  | Some en =>
      let! hit := await (CacheMatch (entry_key en)) in
      match hit with
      | Some hit => reply hit
      | None => otherwise
      end
  end.

Definition reply_bin (req : request) (hit : resp) : prog ret resp :=
  let! bytes := await (ReadBody hit) in
  do! count_hit req "cache" in
  lift (new_response (Some bytes) 200
    (with_cors [("content-type", header_or (resp_headers hit) "content-type" "application/octet-stream");
                ("x-rpc-cache", "HIT")]%string)).

Definition reply_text (req : request) (rewrite : string -> string) (hit : resp) : prog ret resp :=
  let! cachedText := await (ReadBody hit) in
  let out := rewrite (utf8_decode cachedText) in
  do! count_hit req "cache" in
  lift (new_response (Some (utf8 out)) 200
    (with_cors [("content-type", "application/json"); ("x-rpc-cache", "HIT")]%string)).

Definition max_age (t : ttl_value) : string :=
  "public, max-age=" +:+ match t with Seconds n => string_of_Z n | Inherited s => s end.

(** Store a copy in the background and answer with the node's status. *)
Definition store_and_reply (r : resp) (en : cache_entry) (ct : string) (data : string) : prog ret resp :=
  let! cacheResp := lift (new_response (Some data) 200
    (headers_set_all [("content-type", ct); ("cache-control", max_age (entry_ttl en))]%string ∅)) in
  do! await (WaitUntil (StoreResponse (entry_key en) cacheResp)) in
  lift (new_response (Some data) (status r) (with_cors [("content-type", ct); ("x-rpc-cache", "MISS")]%string)).

(** [a || b] on entries. *)
Definition or_entry (a b : option cache_entry) : option cache_entry :=
  match a with Some _ => a | None => b end.

(** A node that answered below 500. *)
Definition node_answer (req : request) (o : origin) (r : resp) (bin json : option cache_entry) : prog ret resp :=
  do! count_hit req (origin_id o) in
  let cacheable := status r <? 400 in
  let isBin := match bin with Some _ => cacheable | None => false end in
  let ct := header_or (resp_headers r) "content-type"
              (if isBin then "application/octet-stream" else "application/json") in
  match bin, json with
  | Some en, _ =>
      if cacheable then let! data := await (ReadBody r) in store_and_reply r en ct data
      else lift (new_response (resp_body r) (status r) (with_cors [("content-type", ct); ("x-rpc-cache", "BYPASS")]%string))
  | None, Some en =>
      if cacheable then let! data := await (ReadBody r) in store_and_reply r en "application/json" (utf8 (utf8_decode data))
      else lift (new_response (resp_body r) (status r) (with_cors [("content-type", ct); ("x-rpc-cache", "BYPASS")]%string))
  | None, None =>
      lift (new_response (resp_body r) (status r) (with_cors [("content-type", ct); ("x-rpc-cache", "BYPASS")]%string))
  end.

(** The failover loop.  The [try] block gives a response or [None] for [continue]. *)
Fixpoint pass_through (req : request) (body : option string) (bin json : option cache_entry)
    (origins : list origin) : prog ret resp :=
  match origins with
  | [] =>
      lift (new_response
        (Some (stringify (JObj [("error", JObj [("code", JNum (num_of_Z (-1)));
                                                ("message", JStr "all nodes unreachable")])]%string)))
        502 (with_cors [("content-type", "application/json")]%string))
  | o :: rest =>
      let ct := header_or (req_headers req) "content-type" "application/octet-stream" in
      let! answer :=
        catch (let! r := await (Node (origin_url o +:+ pathname req +:+ search req) (method req) ct body) in
               if 500 <=? status r then Ret None
               else let! out := node_answer req o r bin json in Ret (Some out))
              (fun _ => Ret None) in
      match answer with
      | Some out => Ret out
      | None => pass_through req body bin json rest
      end
  end.

Definition blocked : prog ret resp :=
  lift (new_response
    (Some (stringify (JObj [("error", JObj [("code", JNum (num_of_Z (-32600)));
                                            ("message", JStr "endpoint not exposed")])]%string)))
    403 (with_cors [("content-type", "application/json")]%string)).

Definition fetch (req : request) (e : env) : prog ret resp :=
  if String.eqb (method req) "OPTIONS" then lift (new_response None 204 (headers_set_all CORS ∅))
  else if String.eqb (pathname req) "/stats" && String.eqb (method req) "GET" then stats e
  else
    let body := if String.eqb (method req) "GET" || String.eqb (method req) "HEAD" then None
                else Some (req_bytes req) in
    if bool_decide (pathname req ∈ BLOCKED_PATHS) then blocked
    else
      let bin := bin_entry req body in
      try_cache req bin (reply_bin req)
        (let r := json_rpc_of req body in
         let entry := rpc_entry r in
         try_cache req entry
           (reply_text req (fun text => swapId text (match r with Some r => rpc_id r | None => None end)))
           (let pentry := path_entry req body in
            try_cache req pentry (reply_text req (fun text => text))
              (pass_through req body bin (or_entry entry pentry) ORIGINS))).
End Worker.
