(* ===== verification/RpcSafety.v ===== *)
(** * RpcSafety: what the node RPC proxy guarantees

    The theorems hold for every behaviour of the cache, the nodes and the counters namespace, and for every digest
    function; those that speak of one answer take the services as a function [h]. *)
From S2P Require Import Prelude JsCore Bytes Number Json JsonText Http Effects Rpc.
Local Open Scope Z_scope.
Local Open Scope glaciem_scope.

(** ** Every call and every answer *)

Lemma rpc_CORS_names : NoDup (map (fun kv : string * string => to_lower kv.1) CORS).
Proof. vm_compute. apply (bool_decide_unpack (NoDup _)). vm_compute. done. Qed.

Definition has_cors (r : resp) : Prop := Forall (fun kv => header_get (resp_headers r) kv.1 = Some kv.2) CORS.

Section Calls.
Context `{Digest}.

Definition body_sent (req : request) : option string :=
  if String.eqb (method req) "GET" || String.eqb (method req) "HEAD" then None else Some (req_bytes req).

(** The cache entries a request can touch. *)
Definition entries (req : request) : list (option cache_entry) :=
  [bin_entry req (body_sent req); rpc_entry (json_rpc_of req (body_sent req)); path_entry req (body_sent req)].

Definition task_ok (req : request) (t : task) : Prop :=
  match t with
  | BumpHit nodeId => In nodeId ("cache" :: map origin_id ORIGINS)%string
  | BumpMiner r => r = req
  | StoreResponse key r =>
      exists en, In (Some en) (entries req) /\ key = entry_key en /\ status r = 200 /\
        header_get (resp_headers r) "cache-control" = Some (max_age (entry_ttl en)) /\
        header_get (resp_headers r) "Access-Control-Allow-Origin" = None
  end.

Definition call_ok (req : request) (o : op) : Prop :=
  match o with
  | Node url m _ body =>
      method req <> "OPTIONS"%string /\ (pathname req ∉ BLOCKED_PATHS) /\ m = method req /\ body = body_sent req /\
      In url (map (fun o => origin_url o +:+ pathname req +:+ search req) ORIGINS)
  | CacheMatch key => (pathname req ∉ BLOCKED_PATHS) /\ exists en, In (Some en) (entries req) /\ key = entry_key en
  | WaitUntil t => task_ok req t
  | StatsGet _ | StatsList _ _ | Today => pathname req = "/stats"%string
  | StatsPut _ _ _ | CachePut _ _ => False
  | ReadBody _ => True
  end.

Definition answer_ok (out : res resp) : Prop := forall r, out = Ok r -> has_cors r.

Abbreviation keeps req := (paths (ret := ret) (call_ok req) (fun _ _ => True) answer_ok).

Lemma cors_response (b : option string) st h : answer_ok (new_response b st (headers_set_all CORS h)).
Proof.
  intros r Hr. unfold has_cors. rewrite (new_response_headers _ _ _ _ Hr). apply Forall_forall. intros [k v] Hin.
  apply headers_set_all_in; [apply rpc_CORS_names|by apply list_elem_of_In].
Qed.

Lemma respond_keeps req (b : option string) st h : keeps req (lift (new_response b st (with_cors h))).
Proof. apply paths_lift, cors_response. Qed.

Lemma count_hit_bind {A} req id (Q : res A -> Prop) p :
  In id ("cache" :: map origin_id ORIGINS)%string -> (forall e, Q (Err e)) ->
  paths (call_ok req) (fun _ _ => True) Q p ->
  paths (call_ok req) (fun _ _ => True) Q (bind (count_hit req id) (fun _ => p)).
Proof.
  intros Hid He Hp. apply paths_bind. unfold count_hit. apply paths_bind; ask; [done|]. intros [[]|m] _; [|by apply He].
  ask; [done|]. intros [[]|m] _; [done|by apply He].
Qed.

Lemma no_answer m : answer_ok (Err m).
Proof. by intros ? [=]. Qed.
Hint Resolve no_answer : core.

Lemma stats_keeps req e : pathname req = "/stats"%string -> keeps req (stats e).
Proof.
  intros Hp. unfold stats. apply paths_bind; ask; [done|]. intros [day|m] _; [|done]. case_test; [done|].
  apply paths_bind. eapply paths_mono with (Q := fun _ => True).
  { intros [nodes|m] _; [|done]. apply paths_bind; ask; [done|]. intros [c|m] _; [|done].
    apply paths_bind; ask; [done|]. intros [miners|m] _; [|done]. apply respond_keeps. }
  induction ORIGINS as [|o os IH]; [done|]. cbn [node_counts]. apply paths_bind; ask; [done|]. intros [v|m] _; [|done].
  apply paths_bind. eapply paths_mono; [|apply IH]. by intros [c|m] _.
Qed.

Lemma try_cache_keeps req en reply otherwise :
  pathname req ∉ BLOCKED_PATHS -> In en (entries req) -> (forall hit, keeps req (reply hit)) ->
  keeps req otherwise -> keeps req (try_cache req en reply otherwise).
Proof.
  intros Hb Hin Hr Ho. unfold try_cache. destruct en as [en|]; [|done].
  apply paths_bind; ask; [split; [done|by exists en]|]. intros [[hit|]|m] _; [apply Hr|done|done].
Qed.

Lemma reply_bin_keeps req hit : keeps req (reply_bin req hit).
Proof.
  unfold reply_bin. apply paths_bind; ask; [done|]. intros [data|m] _; [|done].
  apply count_hit_bind; [by left|done|apply respond_keeps].
Qed.

Lemma reply_text_keeps req f hit : keeps req (reply_text req f hit).
Proof.
  unfold reply_text. apply paths_bind; ask; [done|]. intros [data|m] _; [|done].
  apply count_hit_bind; [by left|done|apply respond_keeps].
Qed.

Lemma store_and_reply_keeps req r en ct data : In (Some en) (entries req) -> keeps req (store_and_reply r en ct data).
Proof.
  intros Hin. unfold store_and_reply. apply paths_bind, paths_lift.
  destruct (new_response _ 200 _) as [cr|m] eqn:E; [|done].
  apply paths_bind; ask; [|intros [[]|m] _; [apply respond_keeps|done]].
  cbn [call_ok task_ok]. exists en. rewrite (new_response_status _ _ _ _ E), (new_response_headers _ _ _ _ E). done.
Qed.
Lemma node_answer_keeps req o r bin json :
  In o ORIGINS -> In bin (entries req) \/ bin = None -> In json (entries req) \/ json = None ->
  keeps req (node_answer req o r bin json).
Proof.
  intros Ho Hb Hj. unfold node_answer. apply count_hit_bind; [|done|].
  { right. by apply in_map. }
  destruct bin as [en|]; [|destruct json as [en|]; [|apply respond_keeps]].
  all: case_test; [|apply respond_keeps]; apply paths_bind; ask; [done|]; intros [data|m] _; [|done].
  all: apply store_and_reply_keeps; tauto || (destruct Hb, Hj; done).
Qed.

Lemma pass_through_keeps req bin json :
  method req <> "OPTIONS"%string -> pathname req ∉ BLOCKED_PATHS ->
  In bin (entries req) \/ bin = None -> In json (entries req) \/ json = None ->
  forall origins, (forall o, In o origins -> In o ORIGINS) ->
  keeps req (pass_through req (body_sent req) bin json origins).
Proof.
  intros Hm Hp Hb Hj. induction origins as [|o rest IH]; intros Hsub; cbn [pass_through]; [apply respond_keeps|].
  assert (In o ORIGINS) as Ho by (apply Hsub; by left).
  apply paths_bind, paths_catch, paths_bind; ask.
  { cbn [call_ok]. split_and!; try done. by apply in_map with (f := fun o => origin_url o +:+ _). }
  assert (keeps req (pass_through req (body_sent req) bin json rest)) as Hrest by (apply IH; intros; apply Hsub; by right).
  intros [r|m] _; [|done]. case_test; [done|]. apply paths_bind.
  eapply paths_mono; [|by apply (node_answer_keeps req o r bin json)]. intros [out|m] Hout; cbn [paths]; [|done]. done.
Qed.

Lemma rpc_fetch_keeps req e : keeps req (fetch req e).
Proof.
  unfold fetch. destruct (String.eqb_spec (method req) "OPTIONS") as [Hm|Hm]; [apply paths_lift, cors_response|].
  destruct (String.eqb (pathname req) "/stats" && String.eqb (method req) "GET") eqn:Hs.
  { apply andb_prop in Hs as [Hs _]. apply stats_keeps. by apply String.eqb_eq. }
  case_bool_decide as Hb; [apply respond_keeps|]. fold (body_sent req).
  apply try_cache_keeps; [done|by left|apply reply_bin_keeps|].
  apply try_cache_keeps; [done|right; by left|apply reply_text_keeps|].
  apply try_cache_keeps; [done|do 2 right; by left|apply reply_text_keeps|].
  apply pass_through_keeps; [done|done|left; by left| |done].
  unfold or_entry. destruct (rpc_entry _) eqn:E; left; right; [left; by rewrite <- E|right; by left].
Qed.

(** C26: one request causes only these calls, whatever the services answer: blocked paths reach neither cache nor node;
    a node is asked at its own address with the request's path, query, method and body; only the cache entries of the
    request are read, and written (in the background) with a status-200 copy that carries the entry's time to live and no
    CORS header; counters are only touched by the background tasks.  And every answer carries the CORS headers. *)
Theorem rpc_calls {W} (ans : W -> forall o, res (ret o) -> W -> Prop) req e w tr w' out :
  exec ans (fetch req e) w tr w' out -> Forall (call_ok req) tr /\ answer_ok out.
Proof.
  intros He. destruct (exec_safe ans (fun _ => True) (call_ok req) (fun _ _ => True) answer_ok
    ltac:(done) _ _ _ _ _ He I (rpc_fetch_keeps req e)) as (_ & Hq & Hpre). done.
Qed.

(** ** Failover *)

(** A node that cannot be reached or answers with a server error. *)
Definition fails {W} (h : W -> forall o, res (ret o) * W) (req : request) (o : origin) (w w' : W) : Prop :=
  exists r, h w (Node (origin_url o +:+ pathname req +:+ search req) (method req)
                  (header_or (req_headers req) "content-type" "application/octet-stream") (body_sent req)) = (r, w') /\
            match r with Ok r => 500 <= status r | Err _ => True end.

Inductive all_fail {W} (h : W -> forall o, res (ret o) * W) (req : request) : list origin -> W -> W -> Prop :=
| all_fail_nil w : all_fail h req [] w w
| all_fail_cons o rest w w1 w2 : fails h req o w w1 -> all_fail h req rest w1 w2 -> all_fail h req (o :: rest) w w2.

Lemma run_catch {A W} (h : W -> forall o, res (ret o) * W) (p : prog ret A) f : forall w,
  run h (catch p f) w = match run h p w with (Ok a, w') => (Ok a, w') | (Err m, w') => run h (f m) w' end.
Proof.
  induction p as [a|m|o k IH]; intros w; cbn [run catch]; [done|done|]. destruct (h w o) as [r w']. apply IH.
Qed.

Lemma pass_through_fails {W} (h : W -> forall o, res (ret o) * W) req bin json failed rest w w' :
  all_fail h req failed w w' ->
  run h (pass_through req (body_sent req) bin json (failed ++ rest)) w =
  run h (pass_through req (body_sent req) bin json rest) w'.
Proof.
  induction 1 as [w|o os w w1 w2 (r & Hr & Hf) _ IH]; [done|]. rewrite <- IH. cbn [app pass_through].
  rewrite run_bind, run_catch, run_bind.
  pose proof (run_call h (Node (origin_url o +:+ pathname req +:+ search req) (method req)
    (header_or (req_headers req) "content-type" "application/octet-stream") (body_sent req)) w) as Hc.
  rewrite Hr in Hc. unfold await. rewrite Hc. destruct r as [r|m]; [|done].
  by rewrite (proj2 (Z.leb_le _ _) Hf).
Qed.
(** A request the dispatcher sends past the preflight, the statistics and the blocked paths. *)
Record proxied (req : request) : Prop := {
  not_preflight : method req <> "OPTIONS"%string;
  not_stats : String.eqb (pathname req) "/stats" && String.eqb (method req) "GET" = false;
  not_blocked : pathname req ∉ BLOCKED_PATHS;
}.

Lemma fetch_proxied req e :
  proxied req ->
  fetch req e =
  try_cache req (bin_entry req (body_sent req)) (reply_bin req)
    (try_cache req (rpc_entry (json_rpc_of req (body_sent req)))
       (reply_text req (fun text => swapId text (match json_rpc_of req (body_sent req) with Some r => rpc_id r | None => None end)))
       (try_cache req (path_entry req (body_sent req)) (reply_text req (fun text => text))
          (pass_through req (body_sent req) (bin_entry req (body_sent req))
             (or_entry (rpc_entry (json_rpc_of req (body_sent req))) (path_entry req (body_sent req))) ORIGINS))).
Proof.
  intros [Hm Hs Hb]. unfold fetch. rewrite (proj2 (String.eqb_neq _ _) Hm), Hs. by rewrite bool_decide_eq_false_2.
Qed.

Definition node_call (req : request) (o : origin) : op :=
  Node (origin_url o +:+ pathname req +:+ search req) (method req)
    (header_or (req_headers req) "content-type" "application/octet-stream") (body_sent req).

Lemma run_count_hit {A W} (h : W -> forall o, res (ret o) * W) req id (p : prog ret A) w w1 w2 :
  h w (WaitUntil (BumpHit id)) = (Ok tt, w1) -> h w1 (WaitUntil (BumpMiner req)) = (Ok tt, w2) ->
  run h (bind (count_hit req id) (fun _ => p)) w = run h p w2.
Proof.
  intros H1 H2. rewrite run_bind. unfold count_hit. rewrite run_bind. unfold await. by rewrite run_call, H1, run_call, H2.
Qed.

(** Failover: for a request without a cache entry, if the nodes before [o] in the list fail (no connection, or a status of 500
    and above) and [o] answers below 500, the client gets [o]'s status and body with the CORS headers, the nodes
    after [o] are not asked, and the answer is counted for [o]. *)
Theorem failover {W} (h : W -> forall o, res (ret o) * W) req e failed o rest w w1 w2 w3 w4 r :
  proxied req -> entries req = [None; None; None] -> ORIGINS = failed ++ o :: rest ->
  all_fail h req failed w w1 -> h w1 (node_call req o) = (Ok r, w2) -> 200 <= status r < 500 ->
  (null_body_status (status r) = true -> resp_body r = None) ->
  h w2 (WaitUntil (BumpHit (origin_id o))) = (Ok tt, w3) -> h w3 (WaitUntil (BumpMiner req)) = (Ok tt, w4) ->
  run h (fetch req e) w =
  (Ok (mk_response (status r)
         (with_cors [("content-type", header_or (resp_headers r) "content-type" "application/json");
                     ("x-rpc-cache", "BYPASS")]%string) (resp_body r)), w4).
Proof.
  intros Hp He Ho Hf Hn Hst Hnull H1 H2. rewrite (fetch_proxied req e Hp). injection He as -> -> ->.
  cbn [try_cache or_entry]. rewrite Ho, (pass_through_fails h req None None failed (o :: rest) w w1 Hf).
  cbn [pass_through]. rewrite run_bind, run_catch, run_bind.
  pose proof (run_call h (node_call req o) w1) as Hc. rewrite Hn in Hc. unfold node_call in Hc. unfold await at 1. rewrite Hc.
  rewrite (proj2 (Z.leb_gt 500 (status r))) by lia. rewrite run_bind. unfold node_answer.
  rewrite (run_count_hit h req (origin_id o) _ w2 w3 w4 H1 H2). rewrite run_lift. unfold new_response.
  replace ((status r <? 200) || (599 <? status r)) with false by (symmetry; apply orb_false_iff; lia).
  destruct (resp_body r) as [b|]; [|done]. destruct (null_body_status (status r)); [|done]. by specialize (Hnull eq_refl).
Qed.

(** When every node fails the client gets status 502 with an error object and the CORS headers. *)
Theorem all_nodes_fail {W} (h : W -> forall o, res (ret o) * W) req e w w1 :
  proxied req -> entries req = [None; None; None] -> all_fail h req ORIGINS w w1 ->
  exists r, run h (fetch req e) w = (Ok r, w1) /\ status r = 502 /\ has_cors r /\
            resp_body r = Some (stringify (JObj [("error", JObj [("code", JNum (num_of_Z (-1)));
                                                 ("message", JStr "all nodes unreachable")])]%string)).
Proof.
  intros Hp He Hf. rewrite (fetch_proxied req e Hp). injection He as -> -> ->. cbn [try_cache or_entry].
  rewrite <- (app_nil_r ORIGINS), (pass_through_fails h req None None ORIGINS [] w w1 Hf). cbn [pass_through].
  eexists. split; [reflexivity|]. split; [done|]. split; [|done].
  refine (cors_response (Some _) 502 (headers_set_all [("content-type", "application/json")]%string ∅) _ eq_refl).
Qed.

(** A cached JSON-RPC answer is served without asking a node, and the client sees its own id: if the cache holds a JSON object
    for the request's method and parameters, the answer is that object with the id of this request in place of the one
    it was stored with (without an id if this request has none), and every other member as stored. *)
Theorem json_rpc_hit {W} (h : W -> forall o, res (ret o) * W) req e w w1 w2 w3 w4 r en hit data fs :
  proxied req -> bin_entry req (body_sent req) = None ->
  json_rpc_of req (body_sent req) = Some r -> rpc_entry (Some r) = Some en ->
  h w (CacheMatch (entry_key en)) = (Ok (Some hit), w1) -> h w1 (ReadBody hit) = (Ok data, w2) ->
  parse (utf8_decode data) = Some (JObj fs) ->
  h w2 (WaitUntil (BumpHit "cache")) = (Ok tt, w3) -> h w3 (WaitUntil (BumpMiner req)) = (Ok tt, w4) ->
  exists fs',
    run h (fetch req e) w =
    (Ok (mk_response 200 (with_cors [("content-type", "application/json"); ("x-rpc-cache", "HIT")]%string)
           (Some (utf8 (stringify (JObj fs'))))), w4) /\
    forall n, field n fs' = if String.eqb n "id" then rpc_id r else field n fs.
Proof.
  intros Hp Hb Hr Hen Hhit Hread Hparse H1 H2. rewrite (fetch_proxied req e Hp), Hb, Hr, Hen. cbn [try_cache].
  eexists. split.
  - refine (eq_trans (run_bind_call h (CacheMatch (entry_key en)) _ w) _). rewrite Hhit.
    refine (eq_trans (run_bind_call h (ReadBody hit) _ w1) _). rewrite Hread.
    rewrite (run_count_hit h req "cache" _ w2 w3 w4 H1 H2). unfold swapId. rewrite Hparse. reflexivity.
  - intros n. destruct (rpc_id r) as [id|]; [apply field_set|apply field_drop].
Qed.

(** ** Counters *)

(** a hit counter counts: the background task reads the node's counter of the day, where a missing or unreadable value counts
    as zero, and writes one more; a rejected write does not reject the task. *)
Theorem hit_counter {W} (h : W -> forall o, res (ret o) * W) nodeId w w1 w2 day v :
  h w Today = (Ok day, w1) ->
  h w1 (StatsGet ("nodehit:" +:+ nodeId +:+ ":" +:+ day)) = (Ok v, w2) ->
  run h (background (mk_env true) (BumpHit nodeId)) w =
  (Ok tt, (h w2 (StatsPut ("nodehit:" +:+ nodeId +:+ ":" +:+ day) (string_of_Z (counter v + 1)) 604800)).2) /\
  (forall n, 0 <= n -> v = Some (string_of_Z n) -> counter v = n).
Proof.
  intros Ht Hg. split.
  - cbn [background bumpHit STATS negb]. refine (eq_trans (run_bind_call h Today _ w) _). rewrite Ht, run_catch.
    unfold await. rewrite (run_bind_call h (StatsGet ("nodehit:" +:+ nodeId +:+ ":" +:+ day))), Hg.
    pose proof (run_call h (StatsPut ("nodehit:" +:+ nodeId +:+ ":" +:+ day) (string_of_Z (counter v + 1)) (7 * 86400)) w2) as Hc.
    cbn [ret] in Hc. rewrite Hc. change (7 * 86400) with 604800. by destruct (h w2 (StatsPut _ _ _)) as [[[]|m] w3].
  - intros n Hn ->. destruct (parse_int_of_Z n Hn) as [Hp He]. unfold counter. rewrite Hp.
    by destruct (string_of_Z n).
Qed.
End Calls.

(** ** Cache keys *)

(** The part of a list before its first slash. *)
Fixpoint before_slash (l : list ascii) : list ascii :=
  match l with [] => [] | c :: l' => if code c =? 47 then [] else c :: before_slash l' end.

Lemma before_slash_app a b : before_slash (a ++ "/"%char :: b) = before_slash (a ++ ["/"%char]).
Proof. induction a as [|c a IH]; [done|]. cbn [app before_slash]. case_test; [done|]. by rewrite IH. Qed.

Lemma same_head a x b y :
  a ++ "/"%char :: x = b ++ "/"%char :: y -> before_slash (a ++ ["/"%char]) = before_slash (b ++ ["/"%char]).
Proof. intros E. by rewrite <- (before_slash_app a x), E, before_slash_app. Qed.

Definition names (table : list (string * Z)) : list string := map fst table ++ map fst object_prototype.

Lemma assoc_In {A} k (l : list (string * A)) v : assoc k l = Some v -> In k (map fst l).
Proof.
  induction l as [|[n w] l IH]; cbn [assoc map In fst]; [done|].
  destruct (String.eqb_spec n k) as [->|]; [by left|]. intros E. right. by apply IH.
Qed.

Lemma table_get_In table k v : table_get table k = Some v -> In k (names table).
Proof.
  unfold table_get, names. rewrite in_app_iff. destruct (assoc k table) eqn:E1; [left; by eapply assoc_In|].
  destruct (assoc k object_prototype) eqn:E2; [right; by eapply assoc_In|done].
Qed.

Section Keys.
Context `{Digest}.

Lemma rpc_key_chars r en :
  rpc_entry (Some r) = Some en ->
  In (rpc_method r) (names CACHE_TTL) /\
  chars (entry_key en) = chars "https://rpc-cache.local/" ++ chars (rpc_method r) ++ "/"%char ::
    chars (hex_prefix 16 (sha256 (utf8 (rpc_method r +:+ ":" +:+ stringify (default JNull (rpc_params r)))))).
Proof.
  unfold rpc_entry. destruct (table_get CACHE_TTL (rpc_method r)) as [ttl|] eqn:E; [|done]. intros [= <-].
  split; [by eapply table_get_In|]. cbn [entry_key]. unfold cacheKeyFor. by rewrite !chars_app.
Qed.

Lemma bin_key_chars req body en :
  bin_entry req body = Some en ->
  exists hex, In (pathname req) (names BIN_CACHE_TTL) /\
  chars (entry_key en) = chars "https://rpc-cache.local/" ++ chars ("bin" +:+ pathname req) ++ "/"%char :: hex.
Proof.
  unfold bin_entry. destruct (table_get BIN_CACHE_TTL (pathname req)) as [ttl|] eqn:E; [|done]. destruct body as [b|]; [|done].
  intros [= <-]. exists (chars (hex_prefix 20 (sha256 b))). split; [by eapply table_get_In|]. cbn [entry_key].
  by rewrite !chars_app.
Qed.

Lemma path_key_chars req body en :
  path_entry req body = Some en ->
  exists rest, chars (entry_key en) = chars "https://rpc-cache.local/" ++ chars "path" ++ "/"%char :: rest.
Proof.
  unfold path_entry. case_test; [|done]. destruct (table_get _ _); [|done]. intros [= <-]. eexists.
  cbn [entry_key]. by rewrite chars_app.
Qed.

(** The heads of the three kinds of key are different. *)
Lemma heads_differ :
  forallb (fun m => let head := before_slash (chars m ++ ["/"%char]) in
    negb (bool_decide (head = chars "path")) &&
    forallb (fun p => negb (bool_decide (head = before_slash (chars ("bin" +:+ p) ++ ["/"%char])))) (names BIN_CACHE_TTL))
    (names CACHE_TTL) &&
  forallb (fun p => negb (bool_decide (chars "path" = before_slash (chars ("bin" +:+ p) ++ ["/"%char])))) (names BIN_CACHE_TTL)
  = true.
Proof. vm_compute. reflexivity. Qed.

(** The three kinds of cache entry never share a key: a binary endpoint's, a JSON-RPC method's and a bare path's entry
    are different whatever the requests. *)
Theorem cache_kinds_disjoint req1 body1 r2 req3 body3 e1 e2 e3 :
  bin_entry req1 body1 = Some e1 -> rpc_entry (Some r2) = Some e2 -> path_entry req3 body3 = Some e3 ->
  entry_key e1 <> entry_key e2 /\ entry_key e2 <> entry_key e3 /\ entry_key e1 <> entry_key e3.
Proof.
  intros H1 H2 H3. apply bin_key_chars in H1 as (x1 & I1 & C1). apply rpc_key_chars in H2 as (I2 & C2).
  apply path_key_chars in H3 as (x3 & C3). pose proof heads_differ as Hh. apply andb_prop in Hh as [Hh Hp].
  rewrite forallb_forall in Hh, Hp. specialize (Hh _ I2). specialize (Hp _ I1). apply andb_prop in Hh as [Hh Hb].
  rewrite forallb_forall in Hb. specialize (Hb _ I1). rewrite !negb_true_iff, !bool_decide_eq_false in *.
  split_and!; intros E; apply (f_equal chars) in E; rewrite ?C1, ?C2, ?C3 in E; apply app_inv_head, same_head in E;
    [exact (Hb (eq_sym E))|exact (Hh E)|exact (Hp (eq_sym E))].
Qed.

Lemma method_no_slash :
  forallb (fun m => bool_decide (before_slash (chars m ++ ["/"%char]) = chars m)) (names CACHE_TTL) = true.
Proof. vm_compute. reflexivity. Qed.

(** JSON-RPC requests share a cache entry only when they ask the same: equal keys mean the same method and, unless the truncated digest
    collides on the two payloads, parameters with the same JSON text. *)
Theorem rpc_key_isolates r1 r2 e1 e2 :
  rpc_entry (Some r1) = Some e1 -> rpc_entry (Some r2) = Some e2 ->
  let payload r := rpc_method r +:+ ":" +:+ stringify (default JNull (rpc_params r)) in
  (take 16 (sha256 (utf8 (payload r1))) = take 16 (sha256 (utf8 (payload r2))) -> payload r1 = payload r2) ->
  bytes_ok (sha256 (utf8 (payload r1))) -> bytes_ok (sha256 (utf8 (payload r2))) ->
  entry_key e1 = entry_key e2 ->
  rpc_method r1 = rpc_method r2 /\ stringify (default JNull (rpc_params r1)) = stringify (default JNull (rpc_params r2)).
Proof.
  intros H1 H2 payload Hinj B1 B2 E. apply rpc_key_chars in H1 as [I1 C1]. apply rpc_key_chars in H2 as [I2 C2].
  apply (f_equal chars) in E. rewrite C1, C2 in E. apply app_inv_head in E. pose proof method_no_slash as Hm.
  rewrite forallb_forall in Hm.
  assert (chars (rpc_method r1) = chars (rpc_method r2)) as Em.
  { pose proof (same_head _ _ _ _ E) as Eb.
    pose proof (Hm _ I1) as M1. pose proof (Hm _ I2) as M2. rewrite bool_decide_eq_true in M1, M2. congruence. }
  split; [by apply chars_inj|]. rewrite Em in E. apply app_inv_head in E. injection E as E.
  unfold hex_prefix in E. rewrite !chars_of_chars in E.
  assert (take 16 (sha256 (utf8 (payload r1))) = take 16 (sha256 (utf8 (payload r2)))) as Et.
  { apply hex_inj; [by apply Forall_take|by apply Forall_take|done]. }
  specialize (Hinj Et). unfold payload in Hinj. apply chars_inj in Em. rewrite Em in Hinj.
  apply (f_equal chars) in Hinj. rewrite !chars_app in Hinj. do 2 apply app_inv_head in Hinj. by apply chars_inj.
Qed.
End Keys.

(** ** What the proxy lets through *)

(** Administrative endpoints of the node (core_rpc_server.h, each behind its restricted flag) that BLOCKED_PATHS does not list. *)
Definition unlisted_admin : list string :=
  ["/stop_daemon"; "/pop_blocks"; "/start_mining"; "/stop_mining"; "/mining_status"; "/set_log_hash_rate";
   "/get_net_stats"; "/out_peers"; "/in_peers"]%string.

(** The proxy does not refuse all administrative endpoints: a POST to any of these is passed to the first node, with its body,
    before anything else happens. *)
Theorem admin_forwarded `{Digest} path hdrs body e :
  In path unlisted_admin ->
  exists k, fetch (mk_request "POST" path "" hdrs body) e =
    Vis (Node ("http://static.197.125.225.46.clients.your-server.de" +:+ path +:+ "") "POST"
           (header_or hdrs "content-type" "application/octet-stream") (Some body)) k.
Proof.
  intros Hin. cbn [In unlisted_admin] in Hin.
  repeat destruct Hin as [<-|Hin]; try done; unfold fetch; cbn [method pathname req_bytes].
  all: rewrite bool_decide_eq_false_2 by (intros Hb; vm_compute in Hb; repeat (apply elem_of_cons in Hb as [Hb|Hb]; [discriminate|]); by apply elem_of_nil in Hb).
  all: destruct body; eexists; reflexivity.
Qed.

(** Names every object inherits pass for cacheable methods: a JSON-RPC call of the method constructor is looked up in the cache and,
    on an answer below 400, stored with a text in place of the number of seconds. *)
Theorem inherited_method_cacheable `{Digest} params id :
  exists en, rpc_entry (Some (mk_rpc "constructor" params id)) = Some en /\
    max_age (entry_ttl en) = "public, max-age=function Object() { [native code] }"%string.
Proof. eexists. split; reflexivity. Qed.

(** ** Witnesses *)

#[local] Instance demo_digest : Digest := fun s => replicate 32 (Z.of_nat (length (chars s)) mod 256).

Definition demo_hit : resp :=
  mk_response 200 ∅ (Some (stringify (JObj [("id", JNum (num_of_Z 1)); ("result", JBool true)]%string))).

(** The first node is down; the cache holds [hit] for every key. *)
Definition demo_answer (hit : option resp) (w : list op) (o : op) : res (ret o) * list op :=
  (match o return res (ret o) with
   | Today => Ok "2026-01-01"%string
   | StatsGet _ => Ok (Some "41"%string)
   | StatsPut _ _ _ => Err "quota"
   | StatsList _ _ => Ok []
   | CacheMatch _ => Ok hit
   | CachePut _ _ => Ok tt
   | Node url _ _ _ =>
       if String.prefix "http://static.197" url then Err "connection refused"
       else Ok (mk_response 404 ∅ (Some "gone"%string))
   | ReadBody r => Ok (default ""%string (resp_body r))
   | WaitUntil _ => Ok tt
   end, o :: w).

Definition down_answer (w : list op) (o : op) : res (ret o) * list op :=
  match o return res (ret o) * list op with
  | Node _ _ _ _ => (Err "connection refused", o :: w)
  | o => demo_answer None w o
  end.

Definition demo_request (m path body : string) : request := mk_request m path "" ∅ body.

Definition info_request : request :=
  demo_request "POST" "/json_rpc" (stringify (JObj [("method", JStr "get_info"); ("id", JNum (num_of_Z 9))]%string)).

Lemma not_listed p : forallb (fun b => negb (String.eqb p b)) BLOCKED_PATHS = true -> p ∉ BLOCKED_PATHS.
Proof.
  rewrite forallb_forall. intros F Hin. apply list_elem_of_In, F in Hin. by rewrite String.eqb_refl in Hin.
Qed.

Lemma demo_proxied m path body :
  m <> "OPTIONS"%string -> String.eqb path "/stats" = false -> forallb (fun b => negb (String.eqb path b)) BLOCKED_PATHS = true ->
  proxied (demo_request m path body).
Proof. intros Hm Hs Hb. split; [done|cbn; by rewrite Hs|by apply not_listed]. Qed.

Lemma rpc_calls_witness :
  exists tr w' out, exec (fun w o r w' => demo_answer None w o = (r, w')) (fetch info_request (mk_env true)) [] tr w' out /\
    length tr = 5%nat /\ Forall (call_ok info_request) tr /\ answer_ok out.
Proof.
  eexists _, _, _. split; [apply (run_exec (demo_answer None))|]. split; [vm_compute; reflexivity|].
  apply (rpc_calls _ _ _ _ _ _ _ (run_exec (demo_answer None) (fetch info_request (mk_env true)) [])).
Defined.

Lemma failover_witness :
  let req := demo_request "POST" "/send_raw_transaction" "x" in
  let r := mk_response 404 ∅ (Some "gone"%string) in
  exists w, run (demo_answer None) (fetch req (mk_env true)) [] =
  (Ok (mk_response (status r)
         (with_cors [("content-type", header_or (resp_headers r) "content-type" "application/json");
                     ("x-rpc-cache", "BYPASS")]%string) (resp_body r)), w).
Proof.
  intros req r. eexists.
  refine (failover (demo_answer None) req (mk_env true)
    [mk_origin "node2" "http://static.197.125.225.46.clients.your-server.de"]
    (mk_origin "node1" "http://static.34.142.105.178.clients.your-server.de") [] [] _ _ _ _ r _ _ _ _ _ _ _ _ _).
  - by apply demo_proxied.
  - reflexivity.
  - reflexivity.
  - eapply all_fail_cons; [|apply all_fail_nil]. eexists. split; [reflexivity|]. done.
  - reflexivity.
  - cbn. lia.
  - done.
  - reflexivity.
  - reflexivity.
Defined.

Lemma all_nodes_fail_witness :
  let req := demo_request "POST" "/send_raw_transaction" "x" in
  exists r w, run down_answer (fetch req (mk_env true)) [] = (Ok r, w) /\ status r = 502 /\ has_cors r /\
            resp_body r = Some (stringify (JObj [("error", JObj [("code", JNum (num_of_Z (-1)));
                                                 ("message", JStr "all nodes unreachable")])]%string)).
Proof.
  intros req.
  edestruct (all_nodes_fail down_answer req (mk_env true) []) as (r & Hr); [by apply demo_proxied|reflexivity| |by exists r; eexists].
  do 2 (eapply all_fail_cons; [by eexists; split; [reflexivity|]|]). apply all_fail_nil.
Defined.

Lemma json_rpc_hit_witness :
  exists fs' w4,
    run (demo_answer (Some demo_hit)) (fetch info_request (mk_env true)) [] =
    (Ok (mk_response 200 (with_cors [("content-type", "application/json"); ("x-rpc-cache", "HIT")]%string)
           (Some (utf8 (stringify (JObj fs'))))), w4) /\
    field "id" fs' = Some (JNum (num_of_Z 9)) /\ field "result" fs' = Some (JBool true).
Proof.
  edestruct (json_rpc_hit (demo_answer (Some demo_hit)) info_request (mk_env true) []) as (fs' & Hrun & Hf).
  - by apply demo_proxied.
  - reflexivity.
  - vm_compute. reflexivity.
  - vm_compute. reflexivity.
  - reflexivity.
  - reflexivity.
  - vm_compute. reflexivity.
  - reflexivity.
  - reflexivity.
  - exists fs'. eexists. split; [exact Hrun|]. split; rewrite Hf; vm_compute; reflexivity.
Defined.

Lemma hit_counter_witness :
  run (demo_answer None) (background (mk_env true) (BumpHit "cache")) [] =
  (Ok tt, [StatsPut "nodehit:cache:2026-01-01" "42" 604800; StatsGet "nodehit:cache:2026-01-01"; Today]).
Proof.
  destruct (hit_counter (demo_answer None) "cache" [] [Today] _ "2026-01-01" (Some "41"%string) eq_refl eq_refl) as [-> _].
  reflexivity.
Defined.

Lemma cache_kinds_disjoint_witness :
  let e1 := mk_entry "https://rpc-cache.local/bin/getblocks.bin/0101010101010101010101010101010101010101" (Seconds 15) in
  let e3 := mk_entry "https://rpc-cache.local/path/get_info" (Seconds 8) in
  exists e2, rpc_entry (Some (mk_rpc "get_info" None None)) = Some e2 /\
  entry_key e1 <> entry_key e2 /\ entry_key e2 <> entry_key e3 /\ entry_key e1 <> entry_key e3.
Proof.
  eexists. split; [vm_compute; reflexivity|].
  apply (cache_kinds_disjoint (demo_request "POST" "/getblocks.bin" "x") (Some "x"%string) (mk_rpc "get_info" None None)
    (demo_request "GET" "/get_info" "") None); vm_compute; reflexivity.
Defined.

Lemma rpc_key_isolates_witness :
  let r1 := mk_rpc "get_info" None (Some JNull) in let r2 := mk_rpc "get_info" (Some JNull) None in
  exists e1 e2, rpc_entry (Some r1) = Some e1 /\ rpc_entry (Some r2) = Some e2 /\ entry_key e1 = entry_key e2 /\
  rpc_method r1 = rpc_method r2 /\ stringify (default JNull (rpc_params r1)) = stringify (default JNull (rpc_params r2)).
Proof.
  eexists _, _. split; [reflexivity|]. split; [reflexivity|]. split; [reflexivity|].
  apply (rpc_key_isolates (mk_rpc "get_info" None (Some JNull)) (mk_rpc "get_info" (Some JNull) None) _ _ eq_refl eq_refl).
  - done.
  - apply Forall_replicate. vm_compute. split; [intros [=]|done].
  - apply Forall_replicate. vm_compute. split; [intros [=]|done].
  - reflexivity.
Defined.

Lemma admin_forwarded_witness :
  exists k, fetch (mk_request "POST" "/stop_daemon" "" ∅ "{}") (mk_env true) =
    Vis (Node ("http://static.197.125.225.46.clients.your-server.de" +:+ "/stop_daemon" +:+ "") "POST"
           (header_or ∅ "content-type" "application/octet-stream") (Some "{}"%string)) k.
Proof. apply (admin_forwarded "/stop_daemon" ∅ "{}" (mk_env true)). by left. Defined.
