(* ===== verification/Python.v ===== *)
(** * Python: the part of Python and its standard library the pool server uses

    Python's integers are unbounded ([Z]) and its floats are binary64 numbers ([number]).  An exception is the error of a
    [res].  [pyval] is a value read from JSON text or written to it: in contrast to JavaScript, integers and floats are
    different values.  The section on rounding bounds the true division of two integers and the scaling of an integer
    by a quotient; both are computed in floats although the amounts are integers. *)
From S2P Require Import Prelude JsCore Number Bytes.
Local Open Scope Z_scope.
Local Open Scope glaciem_scope.

(** ** Values *)

#[warnings="-register-all"]
Inductive pyval : Type :=
| PNone
| PBool (b : bool)
| PInt (z : Z)
| PFloat (x : number)
| PStr (s : string)
| PList (l : list pyval)
| PDict (d : list (string * pyval)).

(** [bool(v)] *)
Definition py_truthy (v : pyval) : bool :=
  match v with
  | PNone => false
  | PBool b => b
  | PInt z => negb (z =? 0)
  | PFloat x => match x with S754_zero _ => false | _ => true end
  | PStr s => negb (String.eqb s "")
  | PList l => match l with [] => false | _ => true end
  | PDict d => match d with [] => false | _ => true end
  end.

Fixpoint assoc {V} (k : string) (d : list (string * V)) : option V :=
  match d with
  | [] => None
  | (k', v) :: d' => if String.eqb k k' then Some v else assoc k d'
  end.

(** [d[k] = v]: an existing key keeps its place. *)
Fixpoint assoc_set {V} (k : string) (v : V) (d : list (string * V)) : list (string * V) :=
  match d with
  | [] => [(k, v)]
  | (k', v') :: d' => if String.eqb k k' then (k', v) :: d' else (k', v') :: assoc_set k v d'
  end.

(** [v.get(k, dflt)] and [v[k]] for a string key. *)
Definition py_get (v : pyval) (k : string) (dflt : pyval) : res pyval :=
  match v with
  | PDict d => Ok (default dflt (assoc k d))
  | _ => Err "AttributeError: object has no attribute 'get'"
  end.

Definition py_item (v : pyval) (k : string) : res pyval :=
  match v with
  | PDict d => match assoc k d with Some x => Ok x | None => Err ("KeyError: " +:+ k) end
  | PList _ | PStr _ => Err "TypeError: indices must be integers"
  | _ => Err "TypeError: object is not subscriptable"
  end.

(** [for x in v]: the elements, for a dict its keys, for a string its characters. *)
Definition py_iter (v : pyval) : res (list pyval) :=
  match v with
  | PList l => Ok l
  | PDict d => Ok (map (fun kv => PStr kv.1) d)
  | PStr s => Ok (map (fun c => PStr (of_chars [c])) (chars s))
  | _ => Err "TypeError: object is not iterable"
  end.

(** [s in v] for a string. *)
Fixpoint is_prefix (p l : list ascii) : bool :=
  match p, l with
  | [], _ => true
  | c :: p', d :: l' => (code c =? code d) && is_prefix p' l'
  | _, [] => false
  end.

Fixpoint is_infix (p l : list ascii) : bool :=
  is_prefix p l || match l with [] => false | _ :: l' => is_infix p l' end.

Definition is_pstr (s : string) (v : pyval) : bool := match v with PStr t => String.eqb s t | _ => false end.

Definition py_in (s : string) (v : pyval) : res bool :=
  match v with
  | PDict d => Ok (match assoc s d with Some _ => true | None => false end)
  | PList l => Ok (existsb (is_pstr s) l)
  | PStr t => Ok (is_infix (chars s) (chars t))
  | _ => Err "TypeError: argument is not iterable"
  end.

(** ** Numbers *)

(** [int(x)] of a float: truncation. *)
Definition py_trunc (x : number) : res Z :=
  match x with
  | S754_zero _ => Ok 0
  | S754_finite s m e =>
      let a := if 0 <=? e then Zpos m * 2 ^ e else Zpos m / 2 ^ (- e) in
      Ok (if s then - a else a)
  | S754_infinity _ => Err "OverflowError: cannot convert float infinity to integer"
  | S754_nan => Err "ValueError: cannot convert float NaN to integer"
  end.

(** [int(s)]: white space around it, a sign, and digits with single underscores between them. *)
Definition py_space (c : ascii) : bool :=
  let n := code c in ((9 <=? n) && (n <=? 13)) || ((28 <=? n) && (n <=? 32)) || (n =? 133) || (n =? 160).

Fixpoint drop_space (l : list ascii) : list ascii :=
  match l with
  | c :: l' => if py_space c then drop_space l' else l
  | [] => []
  end.

Definition py_strip (l : list ascii) : list ascii := rev (drop_space (rev (drop_space l))).

(** Digits after a digit or an underscore; [None] unless the last one is a digit. *)
Fixpoint int_digits (after_digit : bool) (acc : Z) (l : list ascii) : option Z :=
  match l with
  | [] => if after_digit then Some acc else None
  | c :: l' =>
      if is_digit c then int_digits true (acc * 10 + (code c - 48)) l'
      else if (code c =? 95) && after_digit then int_digits false acc l'
      else None
  end.

Definition int_of_string (s : string) : option Z :=
  match py_strip (chars s) with
  | c :: l => if code c =? 45 then option_map Z.opp (int_digits false 0 l)
              else if code c =? 43 then int_digits false 0 l
              else int_digits false 0 (c :: l)
  | [] => None
  end.

(** [int(v)] *)
Definition py_int (v : pyval) : res Z :=
  match v with
  | PInt z => Ok z
  | PBool b => Ok (Z.b2z b)
  | PFloat x => py_trunc x
  | PStr s => match int_of_string s with
              | Some z => Ok z
              | None => Err "ValueError: invalid literal for int() with base 10"
              end
  | _ => Err "TypeError: int() argument must be a string, a bytes-like object or a real number"
  end.

(** [a / b] for integers: the exact quotient, rounded once. *)
Definition py_truediv (a b : Z) : res number :=
  match a, b with
  | _, Z0 => Err "ZeroDivisionError: division by zero"
  | Z0, _ => Ok (S754_zero (b <? 0))
  | _, _ =>
      let '(q, e, l) := SFdiv_core_binary 53 1024 (Z.abs a) 0 (Z.abs b) 0 in
      match binary_round_aux 53 1024 (xorb (a <? 0) (b <? 0)) q e l with
      | S754_infinity _ => Err "OverflowError: integer division result too large for a float"
      | x => Ok x
      end
  end.

(** The conversion of an integer that meets a float. *)
Definition py_float (z : Z) : res number :=
  match num_of_Z z with
  | S754_infinity _ => Err "OverflowError: int too large to convert to float"
  | x => Ok x
  end.

(** [a // b] *)
Definition py_floordiv (a b : Z) : res Z :=
  if b =? 0 then Err "ZeroDivisionError: integer division or modulo by zero" else Ok (a / b).

Definition num_sub (x y : number) : number := SFsub 53 1024 x y.
Definition num_leb (x y : number) : bool := SFleb x y.

(** [round(x)]: the nearest integer, ties to even. *)
Definition py_round (x : number) : res Z :=
  match x with
  | S754_finite s m e =>
      let a := if 0 <=? e then Zpos m * 2 ^ e
               else let q := Zpos m / 2 ^ (- e) in
                    let r := 2 * (Zpos m mod 2 ^ (- e)) in
                    if (2 ^ (- e) <? r) || ((r =? 2 ^ (- e)) && Z.odd q) then q + 1 else q in
      Ok (if s then - a else a)
  | _ => py_trunc x
  end.

(** ** Bytes *)

(** [bytes.fromhex(s)]: pairs of hexadecimal digits, with white space allowed between pairs. *)
Definition hex_space (c : ascii) : bool := let n := code c in ((9 <=? n) && (n <=? 13)) || (n =? 32).

Fixpoint fromhex_loop (l : list ascii) : res bytes :=
  match l with
  | [] => Ok []
  | c :: l' =>
      if hex_space c then fromhex_loop l'
      else match digit_value 16 c, l' with
           | Some h, d :: l'' =>
               match digit_value 16 d with
               | Some w => let* rest := fromhex_loop l'' in Ok (16 * h + w :: rest)
               | None => Err "ValueError: non-hexadecimal number found in fromhex() arg"
               end
           | _, _ => Err "ValueError: non-hexadecimal number found in fromhex() arg"
           end
  end.

Definition fromhex (s : string) : res bytes := fromhex_loop (chars s).

(** [bytes.fromhex(v)] and [len(v)] of a value. *)
Definition py_fromhex (v : pyval) : res bytes :=
  match v with PStr s => fromhex s | _ => Err "TypeError: fromhex() argument must be str" end.

Definition py_len (v : pyval) : res Z :=
  match v with
  | PStr s => Ok (Z.of_nat (String.length s))
  | PList l => Ok (Z.of_nat (length l))
  | PDict d => Ok (Z.of_nat (length d))
  | _ => Err "TypeError: object has no len()"
  end.

(** [except ValueError] *)
Definition is_value_error (e : string) : bool := is_prefix (chars "ValueError") (chars e).

(** [struct.pack("<I", n)] *)
Definition pack_u32le (n : Z) : res bytes :=
  if (0 <=? n) && (n <? 2 ^ 32) then Ok (bigIntToBytesLE n 4)
  else Err "struct.error: argument out of range".

(** ** Rounding upwards

    [at_most x P Q] bounds a non-negative float by the fraction P/Q; [truncates] below, [int] of the float keeps the bound. *)

Definition up (e : Z) : Z := 2 ^ Z.max 0 e.
Definition down (e : Z) : Z := 2 ^ Z.max 0 (- e).

Definition at_most (x : number) (P Q : Z) : Prop :=
  match x with
  | S754_zero _ => 0 <= P
  | S754_finite false m e => Zpos m * up e * Q <= P * down e
  | _ => False
  end.

Lemma up_pos e : 0 < up e.
Proof. apply Z.pow_pos_nonneg; lia. Qed.

Lemma down_pos e : 0 < down e.
Proof. apply Z.pow_pos_nonneg; lia. Qed.

(** Moving [n] bits from the mantissa to the exponent. *)
Lemma up_down_shift e n : 0 <= n -> up (e + n) * down e = up e * down (e + n) * 2 ^ n.
Proof. intros Hn. unfold up, down. rewrite <- !Z.pow_add_r by lia. f_equal. lia. Qed.

Lemma py_trunc_at_most x P Q z : 0 < Q -> at_most x P Q -> py_trunc x = Ok z -> 0 <= z /\ z * Q <= P.
Proof.
  intros HQ Hx. destruct x as [| | |[] m e]; cbn; try done; [intros [= <-]; cbn in Hx; lia|].
  cbn [at_most] in Hx. unfold up, down in Hx. intros [= <-]. destruct (Z.leb_spec 0 e) as [He|He].
  - rewrite Z.max_r, (Z.max_l 0 (- e)) in Hx by lia. change (2 ^ 0) with 1 in Hx.
    pose proof (Z.pow_pos_nonneg 2 e ltac:(lia) He). split; nia.
  - rewrite Z.max_l, (Z.max_r 0 (- e)) in Hx by lia. change (2 ^ 0) with 1 in Hx.
    pose proof (Z.pow_pos_nonneg 2 (- e) ltac:(lia) ltac:(lia)) as Hp.
    pose proof (Z.mul_div_le (Zpos m) (2 ^ (- e)) Hp). split; [apply Z.div_pos; lia|]. nia.
Qed.

(** What rounding makes of a mantissa: at most one unit in the last kept place more. *)
Lemma round_aux_up q e l :
  0 <= q ->
  let n := Z.max 0 (fexp 53 1024 (Zdigits2 q + e) - e) in
  let i := inexact l || negb (q mod 2 ^ n =? 0) in
  match binary_round_aux 53 1024 false q e l with
  | S754_zero _ | S754_infinity _ => True
  | S754_finite s m e' =>
      s = false /\ exists k, 0 <= k /\ e' = e + n + k /\ Zpos m * 2 ^ k <= q / 2 ^ n + Z.b2z i
  | S754_nan => False
  end.
Proof.
  intros Hq n i. unfold binary_round_aux. pose proof (shr_fexp_shift q e l Hq) as H1. fold n in H1. cbv zeta in H1.
  destruct (shr_fexp 53 1024 q e l) as [r1 e1]. destruct H1 as (He1 & Hm1 & Hs1 & Hr1). fold i in Hs1.
  pose proof (round_nearest_even_bound (shr_m r1) (loc_of_shr_record r1) ltac:(lia)) as H2.
  rewrite inexact_of_record, Hs1 in H2.
  set (m2 := round_nearest_even (shr_m r1) (loc_of_shr_record r1)) in *.
  assert (0 <= m2) as Hm2 by lia. rewrite Hm1 in H2.
  pose proof (shr_fexp_shift m2 e1 loc_Exact Hm2) as H3. cbv zeta in H3.
  destruct (shr_fexp 53 1024 m2 e1 loc_Exact) as [r3 e3]. destruct H3 as (He3 & Hm3 & _ & Hr3).
  set (k := Z.max 0 (fexp 53 1024 (Zdigits2 m2 + e1) - e1)) in *.
  destruct (shr_m r3) as [|p|p] eqn:Ep; [done| |lia].
  case_test; [|done]. split; [done|]. exists k. split_and!; [unfold k; lia|lia|].
  pose proof (Z.pow_pos_nonneg 2 k ltac:(lia) ltac:(unfold k; lia)) as Hk.
  rewrite Hm3. pose proof (Z.mul_div_le m2 (2 ^ k) Hk). lia.
Qed.

(** One rounding multiplies by at most 1 + 2^-52, unless the value is below 2^-1000. *)
Lemma round_aux_at_most q e l P Q :
  0 <= q -> 0 < Q -> l = loc_Exact \/ 2 ^ 52 <= q -> -1021 <= Zdigits2 q + e ->
  q * up e * Q <= P * down e ->
  match binary_round_aux 53 1024 false q e l with
  | S754_infinity _ => True
  | x => at_most x (P * (2 ^ 52 + 1)) (Q * 2 ^ 52)
  end.
Proof.
  intros Hq HQ Hl Hd HP. pose proof (round_aux_up q e l Hq) as H. cbv zeta in H.
  assert (0 <= P) as HP0. { pose proof (up_pos e). pose proof (down_pos e). nia. }
  destruct (binary_round_aux 53 1024 false q e l) as [s|s| |s m e']; [cbn; nia|done|done|].
  destruct H as [-> (k & Hk & -> & Hm)]. cbn [at_most].
  set (n := Z.max 0 (fexp 53 1024 (Zdigits2 q + e) - e)) in *.
  set (i := inexact l || negb (q mod 2 ^ n =? 0)) in *. set (m1 := q / 2 ^ n) in *.
  assert (0 <= n) as Hn by (unfold n; lia). pose proof (Z.pow_pos_nonneg 2 n ltac:(lia) Hn) as Hpn.
  assert (m1 * 2 ^ n <= q) as Hm1 by (unfold m1; rewrite Z.mul_comm; by apply Z.mul_div_le).
  assert ((m1 + Z.b2z i) * 2 ^ 52 <= m1 * (2 ^ 52 + 1)) as Hulp.
  { assert (0 <= m1) by (apply Z.div_pos; lia).
    assert (i = false \/ 2 ^ 52 <= m1) as [Ei|Hbig]; [|rewrite Ei; cbn [Z.b2z]; lia|destruct i; cbn [Z.b2z]; lia].
    destruct (Z.eq_dec n 0) as [E0|N0].
    - unfold i, m1. rewrite E0. change (2 ^ 0) with 1. rewrite Z.mod_1_r, Z.div_1_r. destruct Hl as [->|Hl]; [left; done|by right].
    - right. assert (n = Zdigits2 q - 53) as En by (unfold n, fexp, emin in *; lia).
      unfold m1. apply Z.div_le_lower_bound; [done|]. rewrite <- Z.pow_add_r by lia.
      destruct q as [|p|p]; [cbn in En; lia| |lia]. cbn [Zdigits2] in En.
      replace (n + 52) with (Zpos (digits2_pos p) - 1) by lia. apply digits_bounds. }
  pose proof (up_down_shift e (n + k) ltac:(lia)) as Hs. rewrite Z.add_assoc, (Z.pow_add_r 2 n k) in Hs by lia.
  pose proof (Z.pow_pos_nonneg 2 k ltac:(lia) Hk) as Hpk.
  pose proof (up_pos e) as U0. pose proof (down_pos e) as D0.
  pose proof (up_pos (e + n + k)) as U1. pose proof (down_pos (e + n + k)) as D1.
  set (U := up (e + n + k)) in *. set (D := down (e + n + k)) in *. set (u := up e) in *. set (d := down e) in *.
  assert (Zpos m * U * d * (Q * 2 ^ 52) <= P * d * (2 ^ 52 + 1) * D) as Hgoal; [|nia].
  transitivity (q * u * Q * (2 ^ 52 + 1) * D); [|apply Z.mul_le_mono_nonneg_r; [lia|]; apply Z.mul_le_mono_nonneg_r; lia].
  assert (Zpos m * U * d = u * D * (Zpos m * 2 ^ k * 2 ^ n)) as -> by (rewrite <- Z.mul_assoc, Hs; ring).
  assert (Zpos m * 2 ^ k * 2 ^ n * 2 ^ 52 <= q * (2 ^ 52 + 1)) as Hc.
  { transitivity ((m1 + Z.b2z i) * 2 ^ 52 * 2 ^ n); [nia|]. transitivity (m1 * (2 ^ 52 + 1) * 2 ^ n); [nia|]. nia. }
  transitivity (u * D * Q * (Zpos m * 2 ^ k * 2 ^ n * 2 ^ 52)); [apply Z.eq_le_incl; ring|].
  transitivity (u * D * Q * (q * (2 ^ 52 + 1))); [|apply Z.eq_le_incl; ring].
  apply Z.mul_le_mono_nonneg_l; [|done]. apply Z.mul_nonneg_nonneg; [|lia]. nia.
Qed.

(** A value below 2^-900 stays below one. *)
Lemma round_aux_tiny q e l z :
  0 <= q -> Zdigits2 q + e < -900 -> py_trunc (binary_round_aux 53 1024 false q e l) = Ok z -> z = 0.
Proof.
  intros Hq Hd. pose proof (round_aux_up q e l Hq) as H. cbv zeta in H.
  destruct (binary_round_aux 53 1024 false q e l) as [s|s| |s m e']; [by intros [= <-]|done|done|].
  destruct H as [-> (k & Hk & He' & Hm)]. set (n := Z.max 0 (fexp 53 1024 (Zdigits2 q + e) - e)) in *.
  assert (0 <= Zdigits2 q) by (destruct q; cbn; lia).
  assert (0 <= n /\ e + n <= -901) as [Hn Hen] by (unfold n, fexp, emin in *; lia).
  assert (q / 2 ^ n + 1 <= 2 ^ (-900 - (e + n))) as Hsmall.
  { enough (q / 2 ^ n < 2 ^ (-900 - (e + n))) by lia. apply Z.div_lt_upper_bound; [apply Z.pow_pos_nonneg; lia|].
    rewrite <- Z.pow_add_r by lia. eapply Z.lt_le_trans; [by apply lt_digits|]. apply Z.pow_le_mono_r; lia. }
  assert (Zpos m * 2 ^ k < 2 ^ (- (e + n))) as Hlt.
  { eapply Z.le_lt_trans; [exact Hm|]. apply Z.le_lt_trans with (q / 2 ^ n + 1).
    - match goal with |- context [Z.b2z ?b] => destruct b; cbn [Z.b2z] end; lia.
    - eapply Z.le_lt_trans; [exact Hsmall|]. apply Z.pow_lt_mono_r; lia. }
  assert (k < - (e + n)) as Hk'.
  { apply (Z.pow_lt_mono_r_iff 2); [lia|lia|]. pose proof (Z.pow_pos_nonneg 2 k ltac:(lia) Hk). nia. }
  cbn [py_trunc]. destruct (Z.leb_spec 0 e'); [lia|]. intros [= <-]. apply Z.div_small. split; [lia|].
  replace (- (e + n)) with (k + - e') in Hlt by lia. rewrite Z.pow_add_r in Hlt by lia.
  pose proof (Z.pow_pos_nonneg 2 k ltac:(lia) Hk). nia.
Qed.

Lemma trunc_round q e l P Q z :
  0 <= q -> 0 < Q -> l = loc_Exact \/ 2 ^ 52 <= q -> q * up e * Q <= P * down e ->
  py_trunc (binary_round_aux 53 1024 false q e l) = Ok z -> 0 <= z /\ z * (Q * 2 ^ 52) <= P * (2 ^ 52 + 1).
Proof.
  intros Hq HQ Hl HP Hz. destruct (Z.le_gt_cases (-1021) (Zdigits2 q + e)) as [Hd|Hd].
  - pose proof (round_aux_at_most q e l P Q Hq HQ Hl Hd HP) as H.
    destruct (binary_round_aux 53 1024 false q e l) eqn:E; try done; eapply py_trunc_at_most; [lia|exact H|exact Hz|lia|exact H|exact Hz..].
  - apply round_aux_tiny in Hz; [subst z|done|lia]. pose proof (up_pos e). pose proof (down_pos e). split; [lia|]. nia.
Qed.

(** The quotient of two positive integers before rounding: 53 bits, unless it is tiny. *)
Lemma div_core_int a b :
  0 < a -> 0 < b ->
  let '(q, e, l) := SFdiv_core_binary 53 1024 a 0 b 0 in
  0 <= q /\ q * up e * b <= a * down e /\ (2 ^ 52 <= q \/ Zdigits2 a - Zdigits2 b < -1021 /\ Zdigits2 q + e < -900).
Proof.
  intros Ha Hb. unfold SFdiv_core_binary. rewrite !Z.add_0_r, Z.sub_0_r. set (e := Z.min _ _).
  assert (e <= 0) as He by (unfold e; lia). rewrite Z.sub_0_l.
  assert (match - e with Z0 => a | Zpos _ => Z.shiftl a (- e) | Zneg _ => 0 end = a * 2 ^ (- e)) as ->.
  { destruct (- e) eqn:E; [cbn; lia| |lia]. by rewrite Z.shiftl_mul_pow2 by lia. }
  pose proof (Z_div_mod (a * 2 ^ (- e)) b ltac:(lia)) as Hdiv.
  destruct (Z.div_eucl _ _) as [q r]. destruct Hdiv as [Heq Hr].
  pose proof (Z.pow_pos_nonneg 2 (- e) ltac:(lia) ltac:(lia)) as Hp.
  assert (up e = 1 /\ down e = 2 ^ (- e)) as [-> ->].
  { unfold up, down. rewrite Z.max_l, Z.max_r by lia. done. }
  assert (0 <= q) as Hq by nia. split_and!; [done|nia|].
  assert (2 ^ (Zdigits2 a - 1) <= a < 2 ^ Zdigits2 a) as [Ha1 Ha2] by (destruct a; [lia|apply digits_bounds|lia]).
  assert (2 ^ (Zdigits2 b - 1) <= b < 2 ^ Zdigits2 b) as [Hb1 Hb2] by (destruct b; [lia|apply digits_bounds|lia]).
  assert (0 < Zdigits2 a /\ 0 < Zdigits2 b) as [Hda Hdb] by (destruct a, b; cbn; lia).
  destruct (Z.le_gt_cases (-1021) (Zdigits2 a - Zdigits2 b)) as [Hd|Hd].
  - left. assert (e <= Zdigits2 a - Zdigits2 b - 53) as Hle by (unfold e, fexp, emin; lia).
    enough (2 ^ 52 < q + 1) by lia. apply (Z.mul_lt_mono_pos_r b); [done|].
    apply Z.lt_le_trans with (a * 2 ^ (- e) + 1); [|nia].
    apply Z.lt_le_trans with (2 ^ 52 * 2 ^ Zdigits2 b); [nia|].
    rewrite <- Z.pow_add_r by lia. transitivity (2 ^ (Zdigits2 a - 1) * 2 ^ (- e)); [|nia].
    rewrite <- Z.pow_add_r by lia. apply Z.pow_le_mono_r; lia.
  - right. split; [done|]. assert (e = -1074) as -> by (unfold e, fexp, emin; lia).
    enough (Zdigits2 q <= 100) by lia. apply digits_lt; [done|lia|].
    apply (Z.mul_lt_mono_pos_r b); [done|]. apply Z.le_lt_trans with (a * 2 ^ 1074); [nia|].
    apply Z.lt_le_trans with (2 ^ Zdigits2 a * 2 ^ 1074); [nia|].
    transitivity (2 ^ 100 * 2 ^ (Zdigits2 b - 1)); [|nia].
    rewrite <- !Z.pow_add_r by lia. apply Z.pow_le_mono_r; lia.
Qed.

(** [int(a / b)] is at most the quotient, up to one rounding. *)
Lemma trunc_truediv a b x z :
  0 <= a -> 0 < b -> py_truediv a b = Ok x -> py_trunc x = Ok z -> 0 <= z /\ z * (b * 2 ^ 52) <= a * (2 ^ 52 + 1).
Proof.
  intros Ha Hb Hx Hz. destruct a as [|a|a], b as [|b|b]; try lia; cbn [py_truediv Z.abs Z.ltb Z.compare xorb] in Hx.
  - injection Hx as [= <-]. injection Hz as [= <-]. lia.
  - pose proof (div_core_int (Zpos a) (Zpos b) ltac:(lia) ltac:(lia)) as Hc.
    destruct (SFdiv_core_binary _ _ _ _ _ _) as [[q e] l]. destruct Hc as (Hq & Hle & Hbig).
    assert (py_trunc (binary_round_aux 53 1024 false q e l) = Ok z) as Hz'.
    { by destruct (binary_round_aux 53 1024 false q e l); simplify_eq. }
    destruct Hbig as [Hbig|[_ Htiny]]; [by eapply trunc_round; eauto; lia|].
    apply round_aux_tiny in Hz'; [lia|done..].
Qed.

Lemma truediv_at_most a b x :
  0 <= a -> 0 < b < 2 ^ 900 -> py_truediv a b = Ok x -> at_most x (a * (2 ^ 52 + 1)) (b * 2 ^ 52).
Proof.
  intros Ha Hb Hx. destruct a as [|a|a], b as [|b|b]; try lia; cbn [py_truediv Z.abs Z.ltb Z.compare xorb] in Hx.
  - injection Hx as [= <-]. cbn. lia.
  - pose proof (div_core_int (Zpos a) (Zpos b) ltac:(lia) ltac:(lia)) as Hc.
    assert (Zdigits2 (Zpos b) <= 900) as Hd by (apply digits_lt; lia).
    destruct (SFdiv_core_binary _ _ _ _ _ _) as [[q e] l] eqn:E. destruct Hc as (Hq & Hle & Hbig).
    assert (-953 <= e) as He.
    { unfold SFdiv_core_binary in E. destruct (Z.div_eucl _ _) as [q' r']. injection E as _ <- _.
      unfold fexp, emin. cbn [Zdigits2] in *. lia. }
    destruct Hbig as [Hbig|[Htiny _]]; [|cbn [Zdigits2] in *; lia].
    assert (52 <= Zdigits2 q) as Hdq.
    { apply Z.lt_le_incl, (Z.pow_lt_mono_r_iff 2); [lia|destruct q; cbn; lia|]. pose proof (lt_digits q Hq). lia. }
    pose proof (round_aux_at_most q e l (Zpos a) (Zpos b) Hq ltac:(lia) (or_intror Hbig) ltac:(lia) Hle) as H.
    by destruct (binary_round_aux 53 1024 false q e l); simplify_eq.
Qed.

Lemma iter_xO p d : Zpos (Pos.iter xO p d) = Zpos p * 2 ^ Zpos d.
Proof.
  induction d as [|d IH] using Pos.peano_ind; [cbn; lia|].
  rewrite Pos.iter_succ, Pos2Z.inj_xO, IH, Pos2Z.inj_succ, Z.pow_succ_r by lia. ring.
Qed.

Lemma float_at_most z x : 0 <= z -> py_float z = Ok x -> at_most x (z * (2 ^ 52 + 1)) (2 ^ 52).
Proof.
  intros Hz Hx. destruct z as [|p|p]; [injection Hx as [= <-]; cbn; lia| |lia].
  unfold py_float, num_of_Z, binary_normalize, binary_round in Hx.
  assert (exists mz ez, shl_align p 0 (fexp 53 1024 (Zpos (digits2_pos p) + 0)) = (mz, ez) /\ -1074 <= ez <= 0 /\
            Zpos mz = Zpos p * 2 ^ (- ez)) as (mz & ez & E & He & Hm).
  { unfold shl_align. rewrite Z.sub_0_r. destruct (fexp 53 1024 (Zpos (digits2_pos p) + 0)) as [|d|d] eqn:Ef.
    - exists p, 0. split_and!; [done|lia|lia|cbn; lia].
    - exists p, 0. split_and!; [done|lia|lia|cbn; lia].
    - exists (Pos.iter xO p d), (Zneg d). split_and!; [done|unfold fexp, emin in Ef; lia|lia|apply iter_xO]. }
  rewrite E in Hx. pose proof (Z.pow_pos_nonneg 2 (- ez) ltac:(lia) ltac:(lia)) as Hp.
  assert (up ez = 1 /\ down ez = 2 ^ (- ez)) as [Hu Hd] by (unfold up, down; rewrite Z.max_l, Z.max_r by lia; done).
  assert (- ez < Zdigits2 (Zpos mz)) as Hdig.
  { apply (Z.pow_lt_mono_r_iff 2); [lia|cbn; lia|]. pose proof (lt_digits (Zpos mz) ltac:(lia)). nia. }
  pose proof (round_aux_at_most (Zpos mz) ez loc_Exact (Zpos p) 1 ltac:(lia) ltac:(lia) (or_introl eq_refl) ltac:(lia)) as H.
  rewrite Hu, Hd in H. specialize (H ltac:(lia)). rewrite Z.mul_1_l in H.
  by destruct (binary_round_aux 53 1024 false (Zpos mz) ez loc_Exact); simplify_eq.
Qed.

(** [int(x * y)] for non-negative floats. *)
Lemma trunc_mul x y P1 Q1 P2 Q2 z :
  0 < Q1 -> 0 < Q2 -> at_most x P1 Q1 -> at_most y P2 Q2 -> py_trunc (num_mul x y) = Ok z ->
  0 <= z /\ z * (Q1 * Q2 * 2 ^ 52) <= P1 * P2 * (2 ^ 52 + 1).
Proof.
  intros HQ1 HQ2 Hx Hy Hz.
  assert (0 <= P1 /\ 0 <= P2) as [HP1 HP2].
  { split; [destruct x as [| | |[] mx ex]|destruct y as [| | |[] my ey]]; cbn in *; try done.
    - pose proof (up_pos ex). pose proof (down_pos ex). nia.
    - pose proof (up_pos ey). pose proof (down_pos ey). nia. }
  assert (0 <= P1 * P2) by nia.
  destruct x as [sx|[]| |[] mx ex], y as [sy|[]| |[] my ey]; cbn in Hx, Hy; try done; cbn in Hz;
    try (injection Hz as [= <-]; lia).
  refine (trunc_round _ _ _ _ _ _ _ _ (or_introl eq_refl) _ Hz); [lia|nia|].
  pose proof (up_pos ex) as U1. pose proof (down_pos ex) as D1. pose proof (up_pos ey) as U2. pose proof (down_pos ey) as D2.
  assert (up (ex + ey) * (down ex * down ey) = up ex * up ey * down (ex + ey)) as Hsum.
  { unfold up, down. rewrite <- !Z.pow_add_r by lia. f_equal. lia. }
  pose proof (down_pos (ex + ey)) as D. rewrite Pos2Z.inj_mul.
  assert ((Zpos mx * up ex * Q1) * (Zpos my * up ey * Q2) <= (P1 * down ex) * (P2 * down ey)) as Hprod.
  { apply Z.mul_le_mono_nonneg; try done; repeat apply Z.mul_nonneg_nonneg; lia. }
  apply (Z.mul_le_mono_pos_r _ _ (down ex * down ey)); [nia|].
  transitivity ((Zpos mx * up ex * Q1) * (Zpos my * up ey * Q2) * down (ex + ey)).
  - apply Z.eq_le_incl. transitivity (Zpos mx * Zpos my * (Q1 * Q2) * (up (ex + ey) * (down ex * down ey))); [ring|].
    rewrite Hsum. ring.
  - transitivity ((P1 * down ex) * (P2 * down ey) * down (ex + ey)); [|apply Z.eq_le_incl; ring].
    apply Z.mul_le_mono_nonneg_r; lia.
Qed.

(** [int(a * (n / d))]: three roundings. *)
Lemma trunc_scaled a n d fa s z :
  0 <= a -> 0 <= n -> 0 < d < 2 ^ 900 ->
  py_float a = Ok fa -> py_truediv n d = Ok s -> py_trunc (num_mul fa s) = Ok z ->
  0 <= z /\ z * (d * 2 ^ 156) <= a * n * (2 ^ 52 + 1) ^ 3.
Proof.
  intros Ha Hn Hd Hfa Hs Hz.
  destruct (trunc_mul fa s _ (2 ^ 52) _ (d * 2 ^ 52) z ltac:(lia) ltac:(lia) (float_at_most a fa Ha Hfa)
              (truediv_at_most n d s Hn Hd Hs) Hz) as [H0 H].
  split; [done|]. replace (z * (d * 2 ^ 156)) with (z * (2 ^ 52 * (d * 2 ^ 52) * 2 ^ 52)) by ring.
  eapply Z.le_trans; [exact H|]. apply Z.eq_le_incl. ring.
Qed.

(** ** Rounding does not cross an integer below 2^53 *)

Lemma truediv_total a b k : 0 <= a <= b * k -> 0 < b -> 0 < k < 2 ^ 53 -> exists x, py_truediv a b = Ok x /\ num_within x k.
Proof.
  intros Ha Hb Hk. destruct a as [|a|a], b as [|b|b]; try lia; cbn [py_truediv Z.abs Z.ltb Z.compare xorb].
  - eexists. split; [done|]. cbn. lia.
  - change (Z.abs (Zpos a)) with (Zpos a). change (Z.abs (Zpos b)) with (Zpos b).
    destruct (SFdiv_core_binary 53 1024 (Zpos a) 0 (Zpos b) 0) as [[q e] l] eqn:E.
    assert (below q e (inexact l) k) as Hbelow.
    { unfold SFdiv_core_binary in E. set (e0 := Z.min _ _) in E. set (s := 0 - 0 - e0) in E.
      assert (0 <= s) as Hs by (unfold s, e0; lia).
      assert (match s with Z0 => Zpos a | Zpos _ => Z.shiftl (Zpos a) s | Zneg _ => 0 end = Zpos a * 2 ^ s) as Hm.
      { destruct s; [cbn; lia|by rewrite Z.shiftl_mul_pow2 by lia|lia]. }
      rewrite Hm in E. pose proof (Z_div_mod (Zpos a * 2 ^ s) (Zpos b) ltac:(lia)) as Hdiv.
      destruct (Z.div_eucl _ _) as [q0 r0]. destruct Hdiv as [Heq Hr]. injection E as <- <- <-.
      pose proof (Z.pow_pos_nonneg 2 s ltac:(lia) Hs) as Hp. replace (- e0) with s in * by (unfold s; lia).
      assert (Zpos a * 2 ^ s <= Zpos b * (k * 2 ^ s)) by nia.
      split_and!; [nia|unfold s in Hs; lia|]. replace (- e0) with s by (unfold s; lia).
      rewrite new_location_inexact. destruct (Z.eqb_spec r0 0); cbn; nia. }
    pose proof (round_within q e l k Hk Hbelow) as H.
    destruct (binary_round_aux 53 1024 false q e l); try done; by eexists.
Qed.

Lemma truediv_within_one a b x : 0 <= a <= b -> 0 < b -> py_truediv a b = Ok x -> num_within x 1.
Proof. intros Ha Hb Hx. destruct (truediv_total a b 1) as (y & Hy & Hw); [lia..|]. rewrite Hx in Hy. by injection Hy as ->. Qed.

Lemma trunc_total x k : num_within x k -> exists z, py_trunc x = Ok z.
Proof. destruct x as [| | |[] m e]; try done; by eexists. Qed.

Lemma float_total z : 0 <= z < 2 ^ 53 -> exists x, py_float z = Ok x /\ num_within x z.
Proof.
  intros Hz. destruct z as [|p|p]; [eexists; split; [done|]; cbn; lia| |lia].
  unfold py_float, num_of_Z, binary_normalize, binary_round.
  destruct (shl_align p 0 _) as [mz ez] eqn:E.
  assert (ez <= 0 /\ Zpos mz = Zpos p * 2 ^ (- ez)) as [He Hm].
  { unfold shl_align in E. rewrite Z.sub_0_r in E. destruct (fexp _ _ _) as [|d|d]; injection E as <- <-.
    - split; [lia|cbn; lia].
    - split; [lia|cbn; lia].
    - split; [lia|apply iter_xO]. }
  assert (below (Zpos mz) ez (inexact loc_Exact) (Zpos p)) as Hb by (split_and!; cbn [inexact Z.b2z]; lia).
  pose proof (round_within _ _ _ (Zpos p) ltac:(lia) Hb) as H.
  destruct (binary_round_aux 53 1024 false (Zpos mz) ez loc_Exact); try done; by eexists.
Qed.

Lemma float_within z x : 0 <= z < 2 ^ 53 -> py_float z = Ok x -> num_within x z.
Proof. intros Hz Hx. destruct (float_total z Hz) as (y & Hy & Hw). rewrite Hx in Hy. by injection Hy as ->. Qed.

Lemma trunc_within x k z : 0 <= k -> num_within x k -> py_trunc x = Ok z -> 0 <= z <= k.
Proof.
  intros Hk Hx Hz. apply (math_floor_within x k z Hk Hx).
  destruct x as [| | |[] m e]; cbn in Hx, Hz |- *; try done; by injection Hz as <-.
Qed.

Lemma num_mul_comm x y : num_mul x y = num_mul y x.
Proof.
  unfold num_mul, SFmul. destruct x as [[]|[]| |sx mx ex], y as [[]|[]| |sy my ey]; try reflexivity.
  all: try (destruct sx; reflexivity). all: try (destruct sy; reflexivity).
  by rewrite xorb_comm, Pos.mul_comm, Z.add_comm.
Qed.
