(* ===== verification/PoolState.v ===== *)
(** * PoolState: data, shared memory and services of the pool server (pool/server/pool-server.py)

    The pool server hands mining jobs to miners, counts their shares, submits the blocks they find, credits the
    reward to them and pays the credits out.  It is one process: a thread per HTTP request and five background threads share
    the module's globals under locks, and keep the ledgers in JSON files that operators may edit.  A thread is a [prog]
    whose calls are the points where threads interleave: taking and releasing a lock, one access to the shared memory,
    one file operation, one request to the node or the wallet, one call of the verifier library.

    Job objects are shared between [current_job] and [recent_jobs]; they live in a heap and are named by their
    index.  Messages that quote an exception or an answer are abbreviated to the part before the quotation, and log lines are left out.  Files hold lists of records whose members can be missing, as far as the code gives them a default. *)
From S2P Require Import Prelude JsCore Number Bytes Python Effects.
Local Open Scope Z_scope.
Local Open Scope glaciem_scope.

(** ** Configuration: the environment variables, and what the verifier library exports *)

Record config : Type := mk_config {
  POOL_WALLET : string;
  POOL_FEE_PERCENT : number;
  SHARE_DIFF_DIVISOR : Z;
  JOB_WATCHDOG_S : Z;
  MIN_PAYOUT_ATOMIC : Z;
  PAYOUT_MIXIN : Z;
  PAYOUT_PRIORITY : Z;
  HASHRATE_WINDOW_S : Z;
  INVALID_SHARE_BAN_AT : Z;
  INVALID_SHARE_BAN_SEC : Z;
  MAX_SHARES_PER_SEC : number;
  COLD_ADDRESS : string;
  COLD_HOT_BUFFER_ATOMIC : Z;
  SETTLEMENT_DEPTH : Z;
  BLOCK_TIME_S : Z;
  RECONCILE_SAFETY_AGE : Z;
  lattice : bool;                 (** the library could be loaded *)
  lattice_has_fingerprint : bool;
}.

(** The defaults of the source. *)
Definition default_config : config :=
  mk_config "POOL_WALLET_NOT_CONFIGURED_set_POOL_WALLET_env_var" (S754_zero false) 1000 180 (10 ^ 11) 15 0 300 25 900
    (num_of_Z 60) "" (50 * 10 ^ 12) 60 120 10 true true.

Definition MAX_RECENT_JOBS : nat := 8.

(** ** Jobs and miners *)

Record job : Type := mk_job {
  job_id : string;
  blockhashing_blob : pyval;
  blocktemplate_blob : pyval;
  seed_hash : pyval;
  height : Z;
  network_difficulty : Z;
  share_difficulty : Z;
  target : string;
  created_at : number;
  submissions : gset string;
}.

Record miner : Type := mk_miner {
  shares_total : Z;
  shares_today : Z;
  shares_this_round : Z;
  last_share_ts : number;
  blocks_found : Z;
  share_hist : list (number * Z);
}.

Definition new_miner_stats : miner := mk_miner 0 0 0 (S754_zero false) 0 [].

(** ** Ledgers *)

Record block : Type := mk_block {
  b_height : option Z;
  b_ts : option Z;
  b_finder : option string;
  b_reward_atomic : option Z;
  b_round_shares : option Z;
  b_share_diff : option Z;
  b_net_diff : option Z;
  b_sponsorship_atomic : option Z;
  b_total_paid_atomic : option Z;
}.

Record credit : Type := mk_credit {
  c_ts : option Z;
  c_height : option Z;
  c_wallet : option string;
  c_atomic : option Z;
  c_shares : option Z;
  c_round_shares : option Z;
  c_sponsorship_atomic : option Z;
}.

Record payout : Type := mk_payout {
  p_ts : option Z;
  p_wallet : option string;
  p_atomic : option Z;
  p_tx_hash : pyval;
  p_tx_fee_atomic : option Z;
  p_round_fee_share : option Z;
  p_kind : option string;
}.

Record adjustment : Type := mk_adjustment {
  a_ts : option Z;
  a_wallet : option string;
  a_atomic : option Z;
  a_reason : option string;
}.

Record sponsorship : Type := mk_sponsorship {
  sp_active : bool;
  sp_label : string;
  sp_total_atomic : option Z;
  sp_remaining_atomic : option Z;
  sp_per_block_atomic : option Z;
  sp_blocks_seeded : option Z;
  sp_blocks_used : option Z;
  sp_started_at : option Z;
  sp_ended_at : option Z;
}.

(** Updates of one member. *)
Definition set_atomic (c : credit) (a : Z) : credit :=
  mk_credit (c_ts c) (c_height c) (c_wallet c) (Some a) (c_shares c) (c_round_shares c) (c_sponsorship_atomic c).
Definition set_reward (b : block) (a : Z) : block :=
  mk_block (b_height b) (b_ts b) (b_finder b) (Some a) (b_round_shares b) (b_share_diff b) (b_net_diff b)
    (b_sponsorship_atomic b) (b_total_paid_atomic b).

(** ** The globals of the module *)

Record stats : Type := mk_stats {
  ps_shares_total : Z;
  ps_shares_today : Z;
  ps_blocks_total : Z;
  ps_blocks_today : Z;
  ps_last_block : option block;
  ps_current_round_shares : Z;
  ps_started_at : number;
  ps_day_anchor : string;
  ps_submits_total : Z;
  ps_rejects_by_reason : list (string * Z);
  ps_orphan_dedupes : Z;
}.

Definition initial_stats (started_at : number) (day : string) : stats :=
  mk_stats 0 0 0 0 None 0 started_at day 0
    [("rate_limit", 0); ("stale_job", 0); ("duplicate", 0); ("invalid_share", 0); ("bad_request", 0); ("banned", 0)]%string 0.

Record maturity : Type := mk_maturity {
  m_ts : number;
  m_balance_atomic : option Z;
  m_unlocked_atomic : option Z;
  m_locked_atomic : option Z;
  m_blocks_to_next_unlock : option Z;
  m_seconds_to_next_unlock : option Z;
  m_unspent_outputs : option Z;
}.

Definition initial_maturity : maturity := mk_maturity (S754_zero false) None None None None None None.

Record pool : Type := mk_pool {
  jobs : list job;                              (** the heap of job objects *)
  current_job : option nat;
  recent_jobs : list (string * nat);            (** oldest first *)
  settled_heights : gset Z;
  miner_stats : list (string * miner);
  pool_stats : stats;
  wallet_bans : gset string;
  wallet_ban_time : gmap string number;
  wallet_bad_count : gmap string Z;
  wallet_last_acc : gmap string number;
  current_dataset : option (string * Z);        (** seed and pointer *)
  arrived_heights : gset Z;
  arrived_heights_ts : number;
  maturity_cache : maturity;
}.

Definition initial_pool (started_at : number) (day : string) : pool :=
  mk_pool [] None [] ∅ [] (initial_stats started_at day) ∅ ∅ ∅ ∅ None ∅ (S754_zero false) initial_maturity.

(** Updates of one global. *)
Definition set_jobs (v : list job) (s : pool) : pool :=
  mk_pool v (current_job s) (recent_jobs s) (settled_heights s) (miner_stats s) (pool_stats s) (wallet_bans s)
    (wallet_ban_time s) (wallet_bad_count s) (wallet_last_acc s) (current_dataset s) (arrived_heights s)
    (arrived_heights_ts s) (maturity_cache s).
Definition set_current (v : option nat) (recent : list (string * nat)) (s : pool) : pool :=
  mk_pool (jobs s) v recent (settled_heights s) (miner_stats s) (pool_stats s) (wallet_bans s)
    (wallet_ban_time s) (wallet_bad_count s) (wallet_last_acc s) (current_dataset s) (arrived_heights s)
    (arrived_heights_ts s) (maturity_cache s).
Definition set_settled (v : gset Z) (s : pool) : pool :=
  mk_pool (jobs s) (current_job s) (recent_jobs s) v (miner_stats s) (pool_stats s) (wallet_bans s)
    (wallet_ban_time s) (wallet_bad_count s) (wallet_last_acc s) (current_dataset s) (arrived_heights s)
    (arrived_heights_ts s) (maturity_cache s).
Definition set_miners (v : list (string * miner)) (s : pool) : pool :=
  mk_pool (jobs s) (current_job s) (recent_jobs s) (settled_heights s) v (pool_stats s) (wallet_bans s)
    (wallet_ban_time s) (wallet_bad_count s) (wallet_last_acc s) (current_dataset s) (arrived_heights s)
    (arrived_heights_ts s) (maturity_cache s).
Definition set_stats (v : stats) (s : pool) : pool :=
  mk_pool (jobs s) (current_job s) (recent_jobs s) (settled_heights s) (miner_stats s) v (wallet_bans s)
    (wallet_ban_time s) (wallet_bad_count s) (wallet_last_acc s) (current_dataset s) (arrived_heights s)
    (arrived_heights_ts s) (maturity_cache s).
Definition set_bans (bans : gset string) (times : gmap string number) (bad : gmap string Z) (s : pool) : pool :=
  mk_pool (jobs s) (current_job s) (recent_jobs s) (settled_heights s) (miner_stats s) (pool_stats s) bans times bad
    (wallet_last_acc s) (current_dataset s) (arrived_heights s) (arrived_heights_ts s) (maturity_cache s).
Definition set_last_acc (v : gmap string number) (s : pool) : pool :=
  mk_pool (jobs s) (current_job s) (recent_jobs s) (settled_heights s) (miner_stats s) (pool_stats s) (wallet_bans s)
    (wallet_ban_time s) (wallet_bad_count s) v (current_dataset s) (arrived_heights s) (arrived_heights_ts s)
    (maturity_cache s).
Definition set_dataset (v : option (string * Z)) (s : pool) : pool :=
  mk_pool (jobs s) (current_job s) (recent_jobs s) (settled_heights s) (miner_stats s) (pool_stats s) (wallet_bans s)
    (wallet_ban_time s) (wallet_bad_count s) (wallet_last_acc s) v (arrived_heights s) (arrived_heights_ts s)
    (maturity_cache s).
Definition set_arrived (v : gset Z) (ts : number) (s : pool) : pool :=
  mk_pool (jobs s) (current_job s) (recent_jobs s) (settled_heights s) (miner_stats s) (pool_stats s) (wallet_bans s)
    (wallet_ban_time s) (wallet_bad_count s) (wallet_last_acc s) (current_dataset s) v ts (maturity_cache s).
Definition set_maturity (v : maturity) (s : pool) : pool :=
  mk_pool (jobs s) (current_job s) (recent_jobs s) (settled_heights s) (miner_stats s) (pool_stats s) (wallet_bans s)
    (wallet_ban_time s) (wallet_bad_count s) (wallet_last_acc s) (current_dataset s) (arrived_heights s)
    (arrived_heights_ts s) v.

(** ** Calls *)

Inductive lock : Type := HARD | STATE | DATASETS | SPONSORSHIP | ARRIVED | MATURITY.
#[export] Instance lock_eq_dec : EqDecision lock.
Proof. solve_decision. Defined.

Inductive server : Type := Daemon | WalletRpc.

Inductive path : Type := CREDITS_FILE | BLOCKS_FILE | PAYOUTS_FILE | ADJUSTMENTS_FILE | SPONSORSHIP_FILE.

Definition content (p : path) : Type :=
  match p with
  | CREDITS_FILE => list credit
  | BLOCKS_FILE => list block
  | PAYOUTS_FILE => list payout
  | ADJUSTMENTS_FILE => list adjustment
  | SPONSORSHIP_FILE => sponsorship
  end.

Inductive op : Type :=
| Acquire (l : lock)
| Release (l : lock)
| Mem (f : pool -> pool)                                         (** one access to the globals: the value before *)
| Now                                                            (** [time.time()] *)
| Today                                                          (** [today_utc()] *)
| TokenHex                                                       (** [secrets.token_hex(6)] *)
| Post (s : server) (method : string) (params : pyval)           (** the decoded answer of a JSON-RPC server *)
| ReadBody (length : Z)                                          (** the decoded body; [None] when there is none *)
| Send (status : Z) (body : pyval)                               (** [_send_json] *)
| Load (p : path)                                                (** [None] when the file does not exist *)
| Save (p : path) (c : content p)                                (** write a temporary file and rename it *)
| BuildDataset (seed : bytes)                                    (** a pointer, or zero *)
| FreeDataset (ptr : Z)
| Fingerprint (ptr : Z)
| VerifyShare (blob : bytes) (off nonce ptr difficulty : Z)
| Exit.                                                          (** [os._exit(1)] *)

Definition ret (o : op) : Type :=
  match o with
  | Acquire _ | Release _ => unit
  | Mem _ => pool
  | Now => number
  | Today => string
  | TokenHex => string
  | Post _ _ _ => pyval
  | ReadBody _ => option pyval
  | Send _ _ => unit
  | Load p => option (content p)
  | Save _ _ => unit
  | BuildDataset _ => Z
  | FreeDataset _ => unit
  | Fingerprint _ => bytes
  | VerifyShare _ _ _ _ _ => Z
  | Exit => Empty_set
  end.

Abbreviation thread := (prog ret).

Definition await (o : op) : thread (ret o) := call o.

(** Read and change the globals. *)
Definition access {B} (f : pool -> B * pool) : thread B := let! s := await (Mem (fun s => (f s).2)) in Ret (f s).1.
Definition read {B} (f : pool -> B) : thread B := access (fun s => (f s, s)).
Definition modify (f : pool -> pool) : thread unit := access (fun s => (tt, f s)).

(** The outcome of a block of code as a value. *)
Definition attempt {A} (p : thread A) : thread (res A) := catch (let! a := p in Ret (Ok a)) (fun e => Ret (Err e)).

(** [with l: p] *)
Definition with_lock {A} (l : lock) (p : thread A) : thread A :=
  do! await (Acquire l) in
  let! r := attempt p in
  do! await (Release l) in
  lift r.

(** ** Answers *)

Definition reply_error (msg : string) : pyval := PDict [("error"%string, PStr msg)].
Definition send (status : Z) (body : pyval) : thread unit := await (Send status body).

(** [load_json_file(path, default)]: a file that cannot be read counts as missing. *)
Definition load_json_file (p : path) (dflt : content p) : thread (content p) :=
  catch (let! r := await (Load p) in Ret (default dflt r)) (fun _ => Ret dflt).

Definition save_json_atomic (p : path) (c : content p) : thread unit := await (Save p c).

(** [rpc] and [wallet_rpc]: a JSON-RPC answer with a truthy error raises. *)
Definition json_rpc (name : string) (s : server) (method : string) (params : pyval) : thread pyval :=
  let! resp := await (Post s method params) in
  let! has := lift (py_in "error" resp) in
  if has then
    let! err := lift (py_item resp "error") in
    if py_truthy err then
      do! lift (py_get err "message" err) in
      Throw ("RuntimeError: " +:+ name +:+ " " +:+ method)
    else lift (py_get resp "result" PNone)
  else lift (py_get resp "result" PNone).

Definition rpc := json_rpc "RPC" Daemon.
Definition wallet_rpc := json_rpc "wallet-rpc" WalletRpc.
