(* ===== verification/PoolShares.v ===== *)
(** * PoolShares: jobs, share verification, and the settlement of found blocks (pool/server/pool-server.py)

    Every read and every write of what [STATE_LOCK] protects is a call of its own, [x += 1] is two, and a loop over the miners looks at the
    dictionary again in each turn: what the lock is good for is a matter of proof. *)
From S2P Require Import Prelude JsCore Number Bytes Python Effects PoolState.
Local Open Scope Z_scope.
Local Open Scope glaciem_scope.

(** ** Helpers *)

(** [R_ADDR_RE.match(addr)]: the dollar also matches before a newline at the end. *)
Definition R_ADDR_RE (s : string) : bool :=
  let body l := match l with
                | c :: rest => (code c =? code "R") && (94 <=? Z.of_nat (length rest)) && (Z.of_nat (length rest) <=? 105)
                               && forallb is_base58 rest
                | [] => false
                end in
  body (chars s) ||
  match rev (chars s) with
  | c :: l => (code c =? 10) && body (rev l)
  | [] => false
  end.

(** [is_valid_wallet]; the string on success. *)
Definition is_valid_wallet (v : pyval) : option string :=
  match v with
  | PStr s => if R_ADDR_RE s then Some s else None
  | _ => None
  end.

Definition diff_to_target_hex (diff : Z) : res string :=
  let top := 2 ^ 32 / Z.max 1 diff in
  let top := if 2 ^ 32 <=? top then 2 ^ 32 - 1 else top in
  let* b := pack_u32le top in
  Ok (bytesToHex b).

(** [find_nonce_offset] and [find_nonce_offset_buf]: the same scan. *)
Definition four_zeros (buf : bytes) (off : Z) : bool :=
  let b i := nth (Z.to_nat (off + i)) buf 0 in
  (b 0 =? 0) && (b 1 =? 0) && (b 2 =? 0) && (b 3 =? 0).

Fixpoint find_nonce_loop (rounds : nat) (off : Z) (buf : bytes) : Z :=
  match rounds with
  | O => 39
  | S n => if four_zeros buf off then off else find_nonce_loop n (off + 1) buf
  end.

Definition find_nonce_offset (buf : bytes) : Z :=
  find_nonce_loop (Z.to_nat (Z.min (Z.of_nat (length buf) - 4) 80 - 34)) 34 buf.

(** [struct.pack_into("<I", buf, off, n)] *)
Definition pack_into (buf : bytes) (off : nat) (b : bytes) : bytes :=
  take off buf ++ b ++ drop (off + length b) buf.

Section Server.
Context (C : config).

(** ** Bans *)

Definition is_banned (wallet : string) : thread bool :=
  let! banned := read (fun s => bool_decide (wallet ∈ wallet_bans s)) in
  if negb banned then Ret false else
  let! issued := read (fun s => default (num_of_Z 0) (wallet_ban_time s !! wallet)) in
  let! now := await Now in
  if num_leb (num_of_Z (INVALID_SHARE_BAN_SEC C)) (num_sub now issued) then
    do! modify (fun s => set_bans (wallet_bans s ∖ {[ wallet ]}) (wallet_ban_time s) (wallet_bad_count s) s) in
    do! modify (fun s => set_bans (wallet_bans s) (delete wallet (wallet_ban_time s)) (wallet_bad_count s) s) in
    do! modify (fun s => set_bans (wallet_bans s) (wallet_ban_time s) (<[wallet := 0]> (wallet_bad_count s)) s) in
    Ret false
  else Ret true.

(** ** Datasets *)

Definition build_and_verify (seed : bytes) : thread (option Z) :=
  let! ptr := await (BuildDataset seed) in
  if ptr =? 0 then Ret None
  else if negb (lattice_has_fingerprint C) then Ret (Some ptr)
  else
    let! ptr2 := await (BuildDataset seed) in
    if ptr2 =? 0 then Ret (Some ptr)
    else
      let! fp1 := await (Fingerprint ptr) in
      let! fp2 := await (Fingerprint ptr2) in
      do! await (FreeDataset ptr2) in
      if bool_decide (fp1 = fp2) then Ret (Some ptr)
      else do! await (FreeDataset ptr) in
           let! never := await Exit in
           match never : Empty_set with end.

Definition get_dataset_for (seed_hash_hex : pyval) : thread (option Z) :=
  if negb (lattice C) then Ret None
  else if negb (py_truthy seed_hash_hex) then Ret None
  else
    let! len := lift (py_len seed_hash_hex) in
    if negb (len =? 64) then Ret None
    else
      match py_fromhex seed_hash_hex, seed_hash_hex with
      | Err e, _ => if is_value_error e then Ret None else Throw e
      | Ok seed, PStr hex =>
          with_lock DATASETS
            (let! cached := read current_dataset in
             let build :=
               let! new_ptr := build_and_verify seed in
               match new_ptr with
               | None => Ret None
               | Some new_ptr =>
                   let! old := read current_dataset in
                   do! modify (set_dataset (Some (hex, new_ptr))) in
                   match old with
                   | Some (_, old_ptr) => do! await (FreeDataset old_ptr) in Ret (Some new_ptr)
                   | None => Ret (Some new_ptr)
                   end
               end in
             match cached with
             | Some (seed_hex, ptr) => if String.eqb seed_hex hex then Ret (Some ptr) else build
             | None => build
             end)
      | Ok _, _ => Ret None
      end.

(** The snapshot of a job the verifier works on. *)
Definition verify_share_against_job (j : job) (nonce : Z) : thread bool :=
  if negb (lattice C) then Ret true
  else
    let! ds := get_dataset_for (seed_hash j) in
    match ds with
    | None => Ret true
    | Some ptr =>
        match py_fromhex (blockhashing_blob j) with
        | Err e => if is_value_error e then Ret false else Throw e
        | Ok blob =>
            let off := find_nonce_offset blob in
            let! r := await (VerifyShare blob off (Z.land nonce (2 ^ 32 - 1)) ptr (share_difficulty j mod 2 ^ 64)) in
            Ret (r =? 1)
        end
    end.

(** ** Jobs *)

(** [while len(recent_jobs) > MAX_RECENT_JOBS: recent_jobs.popitem(last=False)] *)
Fixpoint drop_old_jobs (fuel : nat) : thread unit :=
  let! n := read (fun s => length (recent_jobs s)) in
  if (n <=? MAX_RECENT_JOBS)%nat then Ret tt else
  match fuel with
  | O => Throw "out of fuel"
  | S fuel' =>
      do! modify (fun s => set_current (current_job s) (drop 1 (recent_jobs s)) s) in
      drop_old_jobs fuel'
  end.

(** The object is shared from the first statement on.  Each turn of the loop drops one entry, so the number of entries is enough fuel. *)
Definition push_job (j : job) : thread unit :=
  let! ref := access (fun s => (length (jobs s), set_current (Some (length (jobs s))) (recent_jobs s) (set_jobs (jobs s ++ [j]) s))) in
  do! modify (fun s => set_current (current_job s) (assoc_set (job_id j) ref (recent_jobs s)) s) in
  let! n := read (fun s => length (recent_jobs s)) in
  drop_old_jobs n.

Definition refresh_job : thread unit :=
  catch
    (let! t := rpc "get_block_template"
                 (PDict [("wallet_address", PStr (POOL_WALLET C)); ("reserve_size", PInt 8)]%string) in
     let! token := await TokenHex in
     let! net_diff := lift (let* d := py_item t "difficulty" in py_int d) in
     let! q := lift (py_floordiv net_diff (SHARE_DIFF_DIVISOR C)) in
     let share_diff := Z.max 1 q in
     let! hashing := lift (py_item t "blockhashing_blob") in
     let! template := lift (py_item t "blocktemplate_blob") in
     let! seed := lift (py_get t "seed_hash" (PStr "")) in
     let! h := lift (let* h := py_item t "height" in py_int h) in
     let! target := lift (diff_to_target_hex share_diff) in
     let! now := await Now in
     let j := mk_job ("j_" +:+ token) hashing template seed h net_diff share_diff target now ∅ in
     with_lock STATE (push_job j))
    (fun _ => Ret tt).

(** ** Counting shares *)

Definition update_stats (f : stats -> stats) (s : pool) : pool := set_stats (f (pool_stats s)) s.
Definition update_miner (w : string) (f : miner -> miner) (s : pool) : pool :=
  match assoc w (miner_stats s) with
  | Some m => set_miners (assoc_set w (f m) (miner_stats s)) s
  | None => s
  end.
Definition update_miners (f : miner -> miner) (s : pool) : pool :=
  set_miners (map (fun wm => (wm.1, f wm.2)) (miner_stats s)) s.

(** Updates of one member of [pool_stats]. *)
Definition set_shares_total (v : Z) (p : stats) : stats :=
  mk_stats v (ps_shares_today p) (ps_blocks_total p) (ps_blocks_today p) (ps_last_block p) (ps_current_round_shares p)
    (ps_started_at p) (ps_day_anchor p) (ps_submits_total p) (ps_rejects_by_reason p) (ps_orphan_dedupes p).
Definition set_shares_today (v : Z) (p : stats) : stats :=
  mk_stats (ps_shares_total p) v (ps_blocks_total p) (ps_blocks_today p) (ps_last_block p) (ps_current_round_shares p)
    (ps_started_at p) (ps_day_anchor p) (ps_submits_total p) (ps_rejects_by_reason p) (ps_orphan_dedupes p).
Definition set_blocks_total (v : Z) (p : stats) : stats :=
  mk_stats (ps_shares_total p) (ps_shares_today p) v (ps_blocks_today p) (ps_last_block p) (ps_current_round_shares p)
    (ps_started_at p) (ps_day_anchor p) (ps_submits_total p) (ps_rejects_by_reason p) (ps_orphan_dedupes p).
Definition set_blocks_today (v : Z) (p : stats) : stats :=
  mk_stats (ps_shares_total p) (ps_shares_today p) (ps_blocks_total p) v (ps_last_block p) (ps_current_round_shares p)
    (ps_started_at p) (ps_day_anchor p) (ps_submits_total p) (ps_rejects_by_reason p) (ps_orphan_dedupes p).
Definition set_last_block (b : block) (p : stats) : stats :=
  mk_stats (ps_shares_total p) (ps_shares_today p) (ps_blocks_total p) (ps_blocks_today p) (Some b)
    (ps_current_round_shares p) (ps_started_at p) (ps_day_anchor p) (ps_submits_total p) (ps_rejects_by_reason p)
    (ps_orphan_dedupes p).
Definition set_current_round_shares (v : Z) (p : stats) : stats :=
  mk_stats (ps_shares_total p) (ps_shares_today p) (ps_blocks_total p) (ps_blocks_today p) (ps_last_block p) v
    (ps_started_at p) (ps_day_anchor p) (ps_submits_total p) (ps_rejects_by_reason p) (ps_orphan_dedupes p).
Definition set_day_anchor (d : string) (p : stats) : stats :=
  mk_stats (ps_shares_total p) (ps_shares_today p) (ps_blocks_total p) (ps_blocks_today p) (ps_last_block p)
    (ps_current_round_shares p) (ps_started_at p) d (ps_submits_total p) (ps_rejects_by_reason p) (ps_orphan_dedupes
    p).
Definition set_submits_total (v : Z) (p : stats) : stats :=
  mk_stats (ps_shares_total p) (ps_shares_today p) (ps_blocks_total p) (ps_blocks_today p) (ps_last_block p)
    (ps_current_round_shares p) (ps_started_at p) (ps_day_anchor p) v (ps_rejects_by_reason p) (ps_orphan_dedupes p).
Definition set_rejects_by_reason (l : list (string * Z)) (p : stats) : stats :=
  mk_stats (ps_shares_total p) (ps_shares_today p) (ps_blocks_total p) (ps_blocks_today p) (ps_last_block p)
    (ps_current_round_shares p) (ps_started_at p) (ps_day_anchor p) (ps_submits_total p) l (ps_orphan_dedupes p).
Definition set_orphan_dedupes (v : Z) (p : stats) : stats :=
  mk_stats (ps_shares_total p) (ps_shares_today p) (ps_blocks_total p) (ps_blocks_today p) (ps_last_block p)
    (ps_current_round_shares p) (ps_started_at p) (ps_day_anchor p) (ps_submits_total p) (ps_rejects_by_reason p) v.

(** Updates of one member of a miner's record. *)
Definition put_shares_total (v : Z) (m : miner) : miner :=
  mk_miner v (shares_today m) (shares_this_round m) (last_share_ts m) (blocks_found m) (share_hist m).
Definition put_shares_today (v : Z) (m : miner) : miner :=
  mk_miner (shares_total m) v (shares_this_round m) (last_share_ts m) (blocks_found m) (share_hist m).
Definition put_shares_this_round (v : Z) (m : miner) : miner :=
  mk_miner (shares_total m) (shares_today m) v (last_share_ts m) (blocks_found m) (share_hist m).
Definition put_last_share_ts (t : number) (m : miner) : miner :=
  mk_miner (shares_total m) (shares_today m) (shares_this_round m) t (blocks_found m) (share_hist m).
Definition put_blocks_found (v : Z) (m : miner) : miner :=
  mk_miner (shares_total m) (shares_today m) (shares_this_round m) (last_share_ts m) v (share_hist m).
Definition put_share_hist (h : list (number * Z)) (m : miner) : miner :=
  mk_miner (shares_total m) (shares_today m) (shares_this_round m) (last_share_ts m) (blocks_found m) h.

(** [pool_stats[k] += 1]: a read and a write. *)
Definition bump (get : stats -> Z) (put : Z -> stats -> stats) : thread unit :=
  let! v := read (fun s => get (pool_stats s)) in
  modify (update_stats (put (v + 1))).

(** A member of the record of a wallet, and [s[k] += 1] on it. *)
Definition of_miner {A} (get : miner -> A) (w : string) (s : pool) : A := get (default new_miner_stats (assoc w (miner_stats s))).

Definition bump_miner (get : miner -> Z) (put : Z -> miner -> miner) (w : string) : thread unit :=
  let! v := read (of_miner get w) in
  modify (update_miner w (put (v + 1))).

(** [for wallet, s in miner_stats.items()]: each turn, and the end, check that the number of entries is that of the start. *)
Fixpoint each_miner {A} (n : nat) (ws : list string) (body : A -> string -> thread A) (a : A) : thread A :=
  let! n' := read (fun s => length (miner_stats s)) in
  if negb (n' =? n)%nat then Throw "RuntimeError: dictionary changed size during iteration" else
  match ws with
  | [] => Ret a
  | w :: ws' => let! a' := body a w in each_miner n ws' body a'
  end.

Definition for_miners {A} (body : A -> string -> thread A) (a : A) : thread A :=
  let! ws := read (fun s => map fst (miner_stats s)) in
  each_miner (length ws) ws body a.

(** [pool_stats["rejects_by_reason"][reason] += 1] *)
Definition count_reject (reason : string) : thread unit :=
  let! v := read (fun s => assoc reason (ps_rejects_by_reason (pool_stats s))) in
  match v with
  | None => Throw "KeyError"
  | Some v => modify (update_stats (fun p => set_rejects_by_reason (assoc_set reason (v + 1) (ps_rejects_by_reason p)) p))
  end.

Definition count_submit : thread unit := bump ps_submits_total set_submits_total.

Definition rollover_if_needed : thread unit :=
  let! d := await Today in
  let! anchor := read (fun s => ps_day_anchor (pool_stats s)) in
  if String.eqb d anchor then Ret tt else
  do! modify (update_stats (set_day_anchor d)) in
  do! modify (update_stats (set_shares_today 0)) in
  do! modify (update_stats (set_blocks_today 0)) in
  for_miners (fun _ w => modify (update_miner w (put_shares_today 0))) tt.

Definition ensure_miner (w : string) : thread unit :=
  let! m := read (fun s => assoc w (miner_stats s)) in
  match m with
  | Some _ => Ret tt
  | None => modify (fun s => set_miners (assoc_set w new_miner_stats (miner_stats s)) s)
  end.

Definition current (s : pool) : option job := current_job s ≫= fun ref => jobs s !! ref.

Definition credit_share (wallet : string) : thread unit :=
  do! rollover_if_needed in
  do! ensure_miner wallet in
  let! now := await Now in
  do! bump_miner shares_total put_shares_total wallet in
  do! bump_miner shares_today put_shares_today wallet in
  do! bump_miner shares_this_round put_shares_this_round wallet in
  let! j := read current in
  do! match j with
      | Some j => modify (update_miner wallet (fun m => put_share_hist (share_hist m ++ [(now, share_difficulty j)]) m))
      | None => Ret tt
      end in
  do! modify (update_miner wallet (put_last_share_ts now)) in
  do! bump ps_shares_total set_shares_total in
  do! bump ps_shares_today set_shares_today in
  bump ps_current_round_shares set_current_round_shares.

(** ** Settlement *)

Definition sponsorship_used (sp : sponsorship) (remaining : Z) (ended_at : option Z) : sponsorship :=
  mk_sponsorship (match ended_at with Some _ => false | None => sp_active sp end) (sp_label sp) (sp_total_atomic sp)
    (Some remaining) (sp_per_block_atomic sp) (sp_blocks_seeded sp) (Some (default 0 (sp_blocks_used sp) + 1))
    (sp_started_at sp) (match ended_at with Some t => Some t | None => sp_ended_at sp end).

(** [load_json_file(SPONSORSHIP_FILE, None)] *)
Definition load_sponsorship : thread (option sponsorship) :=
  catch (await (Load SPONSORSHIP_FILE)) (fun _ => Ret None).

Definition sponsorship_consume_block : thread Z :=
  with_lock SPONSORSHIP
    (let! state := load_sponsorship in
     match state with
     | None => Ret 0
     | Some sp =>
         if negb (sp_active sp) then Ret 0 else
         let per_block := default 0 (sp_per_block_atomic sp) in
         let remaining := default 0 (sp_remaining_atomic sp) in
         if (per_block <=? 0) || (remaining <=? 0) then Ret 0 else
         let bonus := Z.min per_block remaining in
         if remaining - bonus <=? 0 then
           let! now := await Now in
           let! ts := lift (py_trunc now) in
           do! save_json_atomic SPONSORSHIP_FILE (sponsorship_used sp (remaining - bonus) (Some ts)) in
           Ret bonus
         else
           do! save_json_atomic SPONSORSHIP_FILE (sponsorship_used sp (remaining - bonus) None) in
           Ret bonus
     end).

Definition append_credits (entries : list credit) : thread unit :=
  catch (let! arr := await (Load CREDITS_FILE) in
         await (Save CREDITS_FILE (default [] arr ++ entries)))
        (fun _ => Ret tt).

Definition append_block (b : block) : thread unit :=
  catch (let! arr := await (Load BLOCKS_FILE) in
         await (Save BLOCKS_FILE (take 200 (b :: default [] arr))))
        (fun _ => Ret tt).

(** [int(reward * POOL_FEE_PERCENT / 100.0)] *)
Definition pool_cut (reward : Z) : res Z :=
  let* r := py_float reward in
  py_trunc (num_div (num_mul r (POOL_FEE_PERCENT C)) (num_of_Z 100)).

(** [int(distributable * shares / total_shares)] *)
Definition credit_amount (distributable shares total_shares : Z) : res Z :=
  let* x := py_truediv (distributable * shares) total_shares in
  py_trunc x.

(** One turn of the loop over the miners. *)
Definition settle_entry (h distributable total_shares bonus : Z) (entries : list credit) (wallet : string) : thread (list credit) :=
  let shares := read (of_miner shares_this_round wallet) in
  let! s := shares in
  if s <=? 0 then Ret entries else
  let! s := shares in
  let! credit := lift (credit_amount distributable s total_shares) in
  if 0 <? credit then
    let! now := await Now in
    let! ts := lift (py_trunc now) in
    let! s := shares in
    Ret (entries ++ [mk_credit (Some ts) (Some h) (Some wallet) (Some credit) (Some s) (Some total_shares) (Some bonus)])
  else Ret entries.

Definition settle_entries (h distributable total_shares bonus : Z) : thread (list credit) :=
  for_miners (settle_entry h distributable total_shares bonus) [].

Definition stamp_bonus (b : block) (bonus : Z) : block :=
  mk_block (b_height b) (b_ts b) (b_finder b) (b_reward_atomic b) (b_round_shares b) (b_share_diff b) (b_net_diff b)
    (Some bonus) (b_total_paid_atomic b).
Definition stamp_total (b : block) (total : Z) : block :=
  mk_block (b_height b) (b_ts b) (b_finder b) (b_reward_atomic b) (b_round_shares b) (b_share_diff b) (b_net_diff b)
    (b_sponsorship_atomic b) (Some total).

(** The block record is the object [pool_stats] holds, so the stamps are seen there; the result is the stamped block. *)
Definition stamp_block (b : block) (reward bonus : Z) : thread block :=
  if 0 <? bonus then
    let b := stamp_bonus b bonus in
    do! modify (update_stats (set_last_block b)) in
    let b := stamp_total b (reward + bonus) in
    do! modify (update_stats (set_last_block b)) in
    Ret b
  else Ret b.

Definition settle_round (b : block) : thread block :=
  let reward := default 0 (b_reward_atomic b) in
  if reward =? 0 then Ret b else
  let! cut := lift (pool_cut reward) in
  let! bonus := sponsorship_consume_block in
  let distributable := if 0 <? bonus then reward - cut + bonus else reward - cut in
  let! b := stamp_block b reward bonus in
  let total_shares := default 0 (b_round_shares b) in
  if total_shares <=? 0 then Ret b else
  let! entries := settle_entries (default 0 (b_height b)) distributable total_shares bonus in
  match entries with
  | [] => Ret b
  | _ => do! append_credits entries in Ret b
  end.

(** ** Block submission *)

Definition submit_reply (found : bool) (reason : option string) : pyval :=
  PDict ([("accepted", PBool true); ("block", PBool found)]%string
         ++ match reason with Some r => [("reason"%string, PStr r)] | None => [] end).

(** First settlement of a height wins; the result says whether the height was settled before. *)
Definition claim_height (b : block) (finder : string) : thread bool :=
  let h := default 0 (b_height b) in
  let! settled := read (fun s => bool_decide (h ∈ settled_heights s)) in
  if settled then
    do! bump ps_orphan_dedupes set_orphan_dedupes in
    Ret true
  else
    do! modify (fun s => set_settled (settled_heights s ∪ {[ h ]}) s) in
    do! bump ps_blocks_total set_blocks_total in
    do! bump ps_blocks_today set_blocks_today in
    do! modify (update_stats (set_last_block b)) in
    let! fs_stats := read (fun s => assoc finder (miner_stats s)) in
    do! match fs_stats with
        | Some _ => bump_miner blocks_found put_blocks_found finder
        | None => Ret tt
        end in
    Ret false.

Definition end_round : thread unit :=
  do! modify (update_stats (set_current_round_shares 0)) in
  for_miners (fun _ w => modify (update_miner w (put_shares_this_round 0))) tt.

Definition is_ok_status (result : pyval) : bool :=
  match result with
  | PDict d => match assoc "status" d with Some (PStr s) => String.eqb s "OK" | _ => false end
  | _ => false
  end.

Definition submit_block (j : job) (nonce : Z) (finder : string) : thread pyval :=
  catch
    (let! tb := lift (py_fromhex (blocktemplate_blob j)) in
     let! hb := lift (py_fromhex (blockhashing_blob j)) in
     let off := find_nonce_offset hb in
     if Z.of_nat (length tb) <? off + 4 then Ret (submit_reply false (Some "nonce offset OOB"%string)) else
     let! packed := lift (pack_u32le (Z.land nonce (2 ^ 32 - 1))) in
     let tb := pack_into tb (Z.to_nat off) packed in
     let! result := attempt (rpc "submitblock" (PList [PStr (bytesToHex tb)])) in
     match result with
     | Err e => Ret (submit_reply false (Some e))
     | Ok result =>
         if negb (is_ok_status result) then Ret (submit_reply false (Some "daemon rejected: "%string)) else
         let! reward :=
           catch (let! hdr := rpc "get_block_header_by_height" (PDict [("height"%string, PInt (height j))]) in
                  lift (let* h := py_item hdr "block_header" in let* r := py_item h "reward" in py_int r))
                 (fun _ => Ret 0) in
         let! now := await Now in
         let! ts := lift (py_trunc now) in
         let! round_shares := read (fun s => ps_current_round_shares (pool_stats s)) in
         let b := mk_block (Some (height j)) (Some ts) (Some finder) (Some reward) (Some round_shares)
                    (Some (share_difficulty j)) (Some (network_difficulty j)) None None in
         let! settled :=
           with_lock STATE
             (let! settled := claim_height b finder in
              if settled then Ret true else
              let! b := settle_round b in
              do! end_round in
              do! append_block b in
              Ret false) in
         if settled then Ret (submit_reply true None) else
         do! lift (py_float reward) in
         Ret (submit_reply true None)
     end)
    (fun e => Ret (submit_reply false (Some e))).
End Server.
