(* ===== verification/PoolMoney.v ===== *)
(** * PoolMoney: balances, payouts, the cold sweep and the reconciliation of credits (pool/server/pool-server.py)

    Balances are computed from the ledger files at every use: what a wallet earned in mature blocks, minus what it was
    paid with its part of the fees, plus adjustments. *)
From S2P Require Import Prelude JsCore Number Bytes Python Effects PoolState PoolShares.
Local Open Scope Z_scope.
Local Open Scope glaciem_scope.

(** The order in which Python iterates over a set of strings varies from run to run. *)
Class SetOrder : Type := {
  set_order : list string -> list string;
  set_order_perm l : set_order l ≡ₚ l;
}.

Definition in_order : SetOrder := {| set_order := fun l => l; set_order_perm := fun l => Permutation_refl l |}.

(** ** Balances *)

(** A wallet member that is missing or empty is skipped. *)
Definition named (w : option string) : option string :=
  match w with
  | Some s => if String.eqb s "" then None else Some s
  | None => None
  end.

(** [m[w] = m.get(w, 0) + n] *)
Definition add_to (w : option string) (n : Z) (m : gmap string Z) : gmap string Z :=
  match named w with
  | Some w => <[w := default 0 (m !! w) + n]> m
  | None => m
  end.

(** [arrived] is [None] before the first refresh of the mature heights. *)
Definition counts (arrived : option (gset Z)) (c : credit) : bool :=
  match arrived with
  | Some hs => bool_decide (default 0 (c_height c) ∈ hs)
  | None => true
  end.

Definition earned_of (arrived : option (gset Z)) (credits : list credit) : gmap string Z :=
  fold_left (fun m c => if counts arrived c then add_to (c_wallet c) (default 0 (c_atomic c)) m else m) credits ∅.

Definition payout_cost (p : payout) : Z :=
  default 0 (p_atomic p) + default (default 0 (p_tx_fee_atomic p)) (p_round_fee_share p).

Definition paid_of (payouts : list payout) : gmap string Z :=
  fold_left (fun m p => add_to (p_wallet p) (payout_cost p) m) payouts ∅.

Definition adjusted_of (adjustments : list adjustment) : gmap string Z :=
  fold_left (fun m a => add_to (a_wallet a) (default 0 (a_atomic a)) m) adjustments ∅.

Section Money.
Context (C : config) `{SetOrder}.

Definition pending_of (arrived : option (gset Z)) (credits : list credit) (payouts : list payout)
    (adjustments : list adjustment) : list (string * Z) :=
  let earned := earned_of arrived credits in
  let paid := paid_of payouts in
  let adj := adjusted_of adjustments in
  let net w := default 0 (earned !! w) - default 0 (paid !! w) + default 0 (adj !! w) in
  filter (fun wa => 0 < wa.2) (map (fun w => (w, net w)) (set_order (elements (dom earned ∪ dom paid ∪ dom adj)))).

(** The mature heights, if they were ever fetched. *)
Definition arrived_now : thread (option (gset Z)) :=
  with_lock ARRIVED
    (read (fun s => if num_ltb num_zero (arrived_heights_ts s) then Some (arrived_heights s) else None)).

Definition compute_pending_balances : thread (list (string * Z)) :=
  let! credits := load_json_file CREDITS_FILE [] in
  let! payouts := load_json_file PAYOUTS_FILE [] in
  let! adjustments := load_json_file ADJUSTMENTS_FILE [] in
  let! arrived := arrived_now in
  Ret (pending_of arrived credits payouts adjustments).

Definition maturing_of (arrived : gset Z) (credits : list credit) : gmap string Z :=
  fold_left (fun m c => if negb (bool_decide (default 0 (c_height c) ∈ arrived))
                        then add_to (c_wallet c) (default 0 (c_atomic c)) m else m) credits ∅.

Definition compute_maturing_balances : thread (gmap string Z) :=
  let! credits := load_json_file CREDITS_FILE [] in
  let! arrived := arrived_now in
  Ret (match arrived with Some hs => maturing_of hs credits | None => ∅ end).

(** ** Payouts *)

Definition FEE_RESERVE_ATOMIC : Z := 5 * 10 ^ 10.

Fixpoint sum_amounts (l : list (string * Z)) : Z :=
  match l with [] => 0 | (_, a) :: l' => a + sum_amounts l' end.

(** [int(a * scale)] for each wallet; shares below the minimum wait for the next round. *)
Fixpoint scale_amounts (scale : number) (eligible : list (string * Z)) : res (list (string * Z)) :=
  match eligible with
  | [] => Ok []
  | (w, a) :: eligible' =>
      let* fa := py_float a in
      let* share := py_trunc (num_mul fa scale) in
      let* rest := scale_amounts scale eligible' in
      Ok (if MIN_PAYOUT_ATOMIC C <=? share then (w, share) :: rest else rest)
  end.

(** What one round sends, given the balances owed and what can be spent. *)
Definition payout_amounts (eligible : list (string * Z)) (available : Z) : res (list (string * Z)) :=
  let total_owed := sum_amounts eligible in
  if available <? total_owed then
    let* scale := py_truediv available total_owed in
    scale_amounts scale eligible
  else Ok eligible.

Definition transfer_params (dests : list (string * Z)) : pyval :=
  PDict [("destinations", PList (map (fun wa => PDict [("amount", PInt wa.2); ("address", PStr wa.1)]) dests));
         ("mixin", PInt (PAYOUT_MIXIN C)); ("ring_size", PInt (PAYOUT_MIXIN C + 1)); ("unlock_time", PInt 0);
         ("priority", PInt (PAYOUT_PRIORITY C)); ("get_tx_key", PBool true)]%string.

Definition eligible_of (pending : list (string * Z)) : list (string * Z) :=
  filter (fun wa => MIN_PAYOUT_ATOMIC C <= wa.2) pending.

Definition payout_entries (ts fee : Z) (tx_hash : pyval) (sent : list (string * Z)) : list payout :=
  map (fun wa => mk_payout (Some ts) (Some wa.1) (Some wa.2) tx_hash (Some fee)
                   (Some (fee / Z.max 1 (Z.of_nat (length sent)))) None) sent.

(** [tx_hash[:16]] in the log line. *)
Definition sliceable (v : pyval) : res unit :=
  match v with PStr _ | PList _ => Ok tt | _ => Err "TypeError: object is not subscriptable" end.

Definition int_member (v : pyval) (k : string) : res Z := let* x := py_get v k (PInt 0) in py_int x.

Definition payout_round : thread Z :=
  let! pending := compute_pending_balances in
  let eligible := eligible_of pending in
  match eligible with
  | [] => Ret 0
  | _ =>
      let! bal := attempt (wallet_rpc "get_balance" (PDict [])) in
      match bal with
      | Err _ => Ret 0
      | Ok bal =>
          let! unlocked := lift (int_member bal "unlocked_balance") in
          let available := unlocked - FEE_RESERVE_ATOMIC in
          if available <? MIN_PAYOUT_ATOMIC C then Ret 0 else
          let! sent := lift (payout_amounts eligible available) in
          match sent with
          | [] => Ret 0
          | _ =>
              let! r := attempt (wallet_rpc "transfer" (transfer_params sent)) in
              match r with
              | Err _ => Ret 0
              | Ok r =>
                  let! tx_hash := lift (py_get r "tx_hash" (PStr "")) in
                  let! tx_fee := lift (int_member r "fee") in
                  let! payouts_log := load_json_file PAYOUTS_FILE [] in
                  let! now := await Now in
                  let! ts := lift (py_trunc now) in
                  do! save_json_atomic PAYOUTS_FILE (payouts_log ++ payout_entries ts tx_fee tx_hash sent) in
                  do! lift (py_float (sum_amounts sent)) in
                  do! lift (py_float tx_fee) in
                  do! lift (sliceable tx_hash) in
                  Ret (Z.of_nat (length sent))
              end
          end
      end
  end.

(** ** The cold sweep *)

(** How much a sweep moves; zero when there is no surplus. *)
Definition sweep_amount (unlocked : Z) (pending : list (string * Z)) : Z :=
  let pending_owed := sum_amounts (eligible_of pending) in
  let available_for_sweep := Z.max 0 (unlocked - pending_owed) in
  if available_for_sweep <=? COLD_HOT_BUFFER_ATOMIC C then 0
  else available_for_sweep - COLD_HOT_BUFFER_ATOMIC C.

Definition sweep_entry (ts amount fee : Z) (tx : pyval) : payout :=
  mk_payout (Some ts) (Some (COLD_ADDRESS C)) (Some amount) tx (Some fee) None (Some "cold_sweep"%string).

Definition cold_sweep_once : thread unit :=
  if String.eqb (COLD_ADDRESS C) "" then Ret tt
  else if negb (R_ADDR_RE (COLD_ADDRESS C)) then Ret tt
  else
    let! bal := attempt (wallet_rpc "get_balance" (PDict [])) in
    match bal with
    | Err _ => Ret tt
    | Ok bal =>
        let! unlocked := lift (int_member bal "unlocked_balance") in
        let! pending := compute_pending_balances in
        let amount := sweep_amount unlocked pending in
        if amount =? 0 then Ret tt else
        let! r := attempt (wallet_rpc "transfer" (transfer_params [(COLD_ADDRESS C, amount)])) in
        match r with
        | Err _ => Ret tt
        | Ok r =>
            let! fee := lift (int_member r "fee") in
            let! tx := lift (py_get r "tx_hash" (PStr "")) in
            do! lift (py_float amount) in
            do! lift (py_float fee) in
            do! lift (sliceable tx) in
            let! payouts_log := load_json_file PAYOUTS_FILE [] in
            let! now := await Now in
            let! ts := lift (py_trunc now) in
            save_json_atomic PAYOUTS_FILE (payouts_log ++ [sweep_entry ts amount fee tx])
        end
    end.

(** ** Maturity *)

(** [v.get(k, dflt) or []], as the elements. *)
Definition members (v : pyval) (k : string) : res (list pyval) :=
  let* x := py_get v k PNone in
  if py_truthy x then py_iter x else Ok [].

Fixpoint sum_outputs (subs : list pyval) : res Z :=
  match subs with
  | [] => Ok 0
  | sub :: subs' =>
      let* n := int_member sub "num_unspent_outputs" in
      let* rest := sum_outputs subs' in
      Ok (n + rest)
  end.

Definition maturity_fields (bal : pyval) : res (number -> maturity) :=
  let* balance := int_member bal "balance" in
  let* unlocked := int_member bal "unlocked_balance" in
  let locked := Z.max 0 (balance - unlocked) in
  let* btu := if 0 <? locked then int_member bal "blocks_to_unlock" else Ok 0 in
  let* subs := members bal "per_subaddress" in
  let* outputs := sum_outputs subs in
  Ok (fun now => mk_maturity now (Some balance) (Some unlocked) (Some locked) (Some btu) (Some (btu * BLOCK_TIME_S C))
                   (Some outputs)).

Fixpoint mature_heights (wallet_height : Z) (ins : list pyval) : res (gset Z) :=
  match ins with
  | [] => Ok ∅
  | t :: ins' =>
      let* h := int_member t "height" in
      let* rest := mature_heights wallet_height ins' in
      Ok (if (0 <? h) && (SETTLEMENT_DEPTH C <=? wallet_height - h) then {[ h ]} ∪ rest else rest)
  end.

Definition transfers_in : pyval := PDict [("in", PBool true); ("pool", PBool false)]%string.

Definition maturity_refresh_once : thread unit :=
  let! bal := attempt (wallet_rpc "get_balance" (PDict [])) in
  match bal with
  | Err _ => Ret tt
  | Ok bal =>
      do! catch (let! fields := lift (maturity_fields bal) in
                 with_lock MATURITY
                   (let! now := await Now in modify (set_maturity (fields now))))
                (fun _ => Ret tt) in
      catch (let! ins := wallet_rpc "get_transfers" transfers_in in
             let! wh := wallet_rpc "get_height" (PDict []) in
             let! wallet_height := lift (int_member wh "height") in
             let! hs := lift (let* l := members ins "in" in mature_heights wallet_height l) in
             with_lock ARRIVED
               (do! modify (fun s => set_arrived hs (arrived_heights_ts s) s) in
                let! now := await Now in
                modify (fun s => set_arrived (arrived_heights s) now s)))
            (fun _ => Ret tt)
  end.

(** ** Reconciliation *)

(** [{int(t.get("height", 0)): int(t.get("amount", 0)) for t in ins}] *)
Fixpoint arrived_amounts (acc : gmap Z Z) (ins : list pyval) : res (gmap Z Z) :=
  match ins with
  | [] => Ok acc
  | t :: ins' =>
      let* h := int_member t "height" in
      let* a := int_member t "amount" in
      arrived_amounts (<[h := a]> acc) ins'
  end.

(** [by_height.setdefault(h, []).append(c)] *)
Fixpoint bucket (h : Z) (c : credit) (l : list (Z * list credit)) : list (Z * list credit) :=
  match l with
  | [] => [(h, [c])]
  | (h', g) :: l' => if h =? h' then (h', g ++ [c]) :: l' else (h', g) :: bucket h c l'
  end.

Definition by_height (credits : list credit) : list (Z * list credit) :=
  fold_left (fun l c => bucket (default 0 (c_height c)) c l) credits [].

Fixpoint sum_shares (g : list credit) : Z :=
  match g with [] => 0 | c :: g' => default 0 (c_shares c) + sum_shares g' end.

(** The credits of a group but the last get their rounded parts, the last one the remainder: kept and dropped credits. *)
Fixpoint distribute (actual total assigned : Z) (g : list credit) : res (list credit * list credit) :=
  match g with
  | [] => Ok ([], [])
  | [last] =>
      let a := Z.max 0 (actual - assigned) in
      Ok (if 0 <? a then ([set_atomic last a], []) else ([], [set_atomic last a]))
  | c :: g' =>
      let* x := py_truediv (actual * default 0 (c_shares c)) total in
      let* a := py_trunc x in
      let* (kept, dropped) := distribute actual total (assigned + a) g' in
      Ok (if 0 <? a then (set_atomic c a :: kept, dropped) else (kept, set_atomic c a :: dropped))
  end.

(** One height: the kept and dropped credits, and whether the group was rescaled. *)
Definition reconcile_group (arrived : gmap Z Z) (wallet_h h : Z) (g : list credit)
    : res (list credit * list credit * bool) :=
  match arrived !! h with
  | Some actual =>
      match g with
      | [] => Ok ([], [], true)
      | [c] => Ok ([set_atomic c actual], [], false)
      | c :: rest =>
          let total := sum_shares g in
          if 0 <? total then
            let* (kept, dropped) := distribute actual total 0 g in Ok (kept, dropped, true)
          else Ok ([set_atomic c actual], rest, true)
      end
  | None =>
      if wallet_h - h <? RECONCILE_SAFETY_AGE C then Ok (g, [], false)
      else Ok ([], g, false)
  end.

Fixpoint reconcile_groups (arrived : gmap Z Z) (wallet_h : Z) (l : list (Z * list credit))
    : res (list credit * list credit * bool) :=
  match l with
  | [] => Ok ([], [], false)
  | (h, g) :: l' =>
      let* (k1, d1, r1) := reconcile_group arrived wallet_h h g in
      let* (k2, d2, r2) := reconcile_groups arrived wallet_h l' in
      Ok (k1 ++ k2, d1 ++ d2, r1 || r2)
  end.

(** The log lines of the dropped credits divide their amounts by a float. *)
Fixpoint log_dropped (l : list credit) : res unit :=
  match l with
  | [] => Ok tt
  | c :: l' => let* _ := py_float (default 0 (c_atomic c)) in log_dropped l'
  end.

(** The block list: one row for each arrived height, and the rows that are too recent to judge. *)
Fixpoint reconcile_blocks (arrived : gmap Z Z) (wallet_h : Z) (seen : gset Z) (l : list block) : list block :=
  match l with
  | [] => []
  | b :: l' =>
      let h := default 0 (b_height b) in
      let too_recent := wallet_h - h <? RECONCILE_SAFETY_AGE C in
      let amount := arrived !! h in
      if (bool_decide (is_Some amount) && negb (bool_decide (h ∈ seen))) || too_recent then
        (match amount with Some a => set_reward b a | None => b end)
        :: reconcile_blocks arrived wallet_h ({[ h ]} ∪ seen) l'
      else reconcile_blocks arrived wallet_h seen l'
  end.

Definition reconcile_credits_once : thread unit :=
  let! ins := attempt (wallet_rpc "get_transfers" transfers_in) in
  match ins with
  | Err _ => Ret tt
  | Ok ins =>
      let! arrived := lift (let* l := members ins "in" in arrived_amounts ∅ l) in
      let! wallet_h :=
        catch (let! wh := wallet_rpc "get_height" (PDict []) in lift (int_member wh "height")) (fun _ => Ret 0) in
      let! credits := load_json_file CREDITS_FILE [] in
      let! (kept, dropped, rescaled) := lift (reconcile_groups arrived wallet_h (by_height credits)) in
      do! (if (match dropped with [] => false | _ => true end) || rescaled then
             do! lift (log_dropped dropped) in
             save_json_atomic CREDITS_FILE kept
           else Ret tt) in
      let! blocks := load_json_file BLOCKS_FILE [] in
      let bkept := reconcile_blocks arrived wallet_h ∅ blocks in
      if (length bkept =? length blocks)%nat then Ret tt
      else save_json_atomic BLOCKS_FILE bkept
  end.
End Money.
