(* ===== verification/PoolHttp.v ===== *)
(** * PoolHttp: request handlers, background threads and start-up of the pool server (pool/server/pool-server.py) *)
From S2P Require Import Prelude JsCore Number Bytes Python Effects PoolState PoolShares PoolMoney.
Local Open Scope Z_scope.
Local Open Scope glaciem_scope.

Record request : Type := mk_request {
  content_length : option string;
  url_path : string;                              (** [urlparse(self.path).path] *)
  query : list (string * list string);            (** [parse_qs(url.query)] *)
}.

(** [_read_json] *)
Definition read_json (rq : request) : thread pyval :=
  let header := match content_length rq with Some s => if String.eqb s "" then "0"%string else s | None => "0"%string end in
  let! length := lift (py_int (PStr header)) in
  if length <=? 0 then Ret (PDict []) else
  let! body := await (ReadBody length) in
  Ret (default (PDict []) body).

(** [with lock: ... return self._send_json(...)]: [None] when the request was answered. *)
Definition answered {A} (p : thread unit) : thread (option A) := do! p in Ret None.

Section Handlers.
Context (C : config) `{SetOrder}.

(** ** POST /pool/job *)

Definition job_payload (j : job) : pyval :=
  PDict [("job_id", PStr (job_id j)); ("blockhashing_blob", blockhashing_blob j);
         ("blocktemplate_blob", blocktemplate_blob j); ("seed_hash", seed_hash j); ("height", PInt (height j));
         ("network_difficulty", PInt (network_difficulty j)); ("share_difficulty", PInt (share_difficulty j));
         ("target", PStr (target j))]%string.

Definition banned_reply : pyval := reply_error "wallet banned for repeated invalid shares".

Definition handle_job (rq : request) : thread unit :=
  let! body := read_json rq in
  let! w := lift (py_get body "wallet" PNone) in
  match is_valid_wallet w with
  | None => send 400 (reply_error "invalid wallet address")
  | Some wallet =>
      let! go := with_lock HARD
                   (let! banned := is_banned C wallet in
                    if banned then answered (A := unit) (send 403 banned_reply) else Ret (Some tt)) in
      match go with
      | None => Ret tt
      | Some _ =>
          let! payload :=
            with_lock STATE
              (let! j := read current in
               match j with
               | None => answered (send 503 (reply_error "pool warming up; retry in a moment"))
               | Some j => do! ensure_miner wallet in Ret (Some (job_payload j))
               end) in
          match payload with
          | None => Ret tt
          | Some payload => send 200 payload
          end
      end
  end.

(** ** POST /pool/submit *)

Definition not_accepted (reason : string) : pyval := PDict [("accepted", PBool false); ("reason", PStr reason)]%string.

Definition count_rejected (reason : string) : thread unit :=
  with_lock STATE (count_reject reason).

(** [isinstance(nonce, int)]: a boolean is an integer too. *)
Definition is_int (v : pyval) : option Z :=
  match v with PInt z => Some z | PBool b => Some (Z.b2z b) | _ => None end.

(** [recent_jobs.get(job_id)] *)
Definition find_job (job_id : pyval) (s : pool) : res (option (nat * job)) :=
  match job_id with
  | PStr k => Ok (assoc k (recent_jobs s) ≫= fun ref => (fun j => (ref, j)) <$> jobs s !! ref)
  | PList _ | PDict _ => Err "TypeError: unhashable type"
  | _ => Ok None
  end.

Definition dedupe_key (wallet : string) (nonce : Z) : string := wallet +:+ ":" +:+ string_of_Z nonce.

(** The checks before verification: the ban list and the rate limit. *)
Definition hard_checks (wallet : string) (now : number) : thread (option unit) :=
  with_lock HARD
    (let! banned := is_banned C wallet in
     if banned then
       do! count_rejected "banned" in
       answered (send 403 banned_reply)
     else
       let! last := read (fun s => default num_zero (wallet_last_acc s !! wallet)) in
       let min_gap := num_div num_one (MAX_SHARES_PER_SEC C) in
       if num_ltb (num_sub now last) min_gap then
         do! count_rejected "rate_limit" in
         answered (send 429 (not_accepted "rate limit"))
       else Ret (Some tt)).

(** The job and the duplicate check. *)
Definition take_job (jid : pyval) (wallet : string) (nonce : Z) : thread (option (nat * job)) :=
  with_lock STATE
    (let! found := read (find_job jid) in
     let! found := lift found in
     match found with
     | None =>
         do! count_reject "stale_job" in
         answered (send 200 (not_accepted "stale job"))
     | Some (ref, j) =>
         if bool_decide (dedupe_key wallet nonce ∈ submissions j) then
           do! count_reject "duplicate" in
           answered (send 200 (not_accepted "duplicate"))
         else Ret (Some (ref, j))
     end).

(** A share that does not verify. *)
Definition set_bad (wallet : string) (v : Z) (s : pool) : pool :=
  set_bans (wallet_bans s) (wallet_ban_time s) (<[wallet := v]> (wallet_bad_count s)) s.

(** [_wallet_bad_count[wallet] += 1; bad = _wallet_bad_count[wallet]] *)
Definition add_bad (wallet : string) : thread Z :=
  let! v := read (fun s => default 0 (wallet_bad_count s !! wallet)) in
  do! modify (set_bad wallet (v + 1)) in
  read (fun s => default 0 (wallet_bad_count s !! wallet)).

Definition ban (wallet : string) : thread unit :=
  do! modify (fun s => set_bans ({[ wallet ]} ∪ wallet_bans s) (wallet_ban_time s) (wallet_bad_count s) s) in
  let! now := await Now in
  modify (fun s => set_bans (wallet_bans s) (<[wallet := now]> (wallet_ban_time s)) (wallet_bad_count s) s).

(** [pool_stats["rejects_by_reason"].setdefault(reason, 0)] *)
Definition default_reject (reason : string) (p : stats) : stats :=
  match assoc reason (ps_rejects_by_reason p) with
  | Some _ => p
  | None => set_rejects_by_reason (assoc_set reason 0 (ps_rejects_by_reason p)) p
  end.

Definition reject_invalid (jid : string) (wallet : string) : thread unit :=
  let! current_top := read (fun s => job_id <$> current s) in
  if negb (bool_decide (current_top = Some jid)) then
    do! with_lock STATE
          (do! modify (update_stats (default_reject "stale_against_old_job")) in
           count_reject "stale_against_old_job") in
    send 200 (not_accepted "stale -- newer job available")
  else
    do! with_lock HARD
          (let! bad := add_bad wallet in
           if INVALID_SHARE_BAN_AT C <=? bad then ban wallet else Ret tt) in
    do! count_rejected "invalid_share" in
    send 200 (not_accepted "invalid share").

(** A share that does: mark it, count it, and forget earlier invalid ones. *)
Definition mark_submission (ref : nat) (key : string) (s : pool) : pool :=
  match jobs s !! ref with
  | Some j => set_jobs (<[ref := mk_job (job_id j) (blockhashing_blob j) (blocktemplate_blob j) (seed_hash j) (height j)
                                   (network_difficulty j) (share_difficulty j) (target j) (created_at j)
                                   ({[ key ]} ∪ submissions j)]> (jobs s)) s
  | None => s
  end.

Definition accept_share (ref : nat) (wallet : string) (nonce : Z) (now : number) : thread unit :=
  do! with_lock STATE
        (do! modify (mark_submission ref (dedupe_key wallet nonce)) in
         credit_share wallet) in
  with_lock HARD
    (do! modify (fun s => set_last_acc (<[wallet := now]> (wallet_last_acc s)) s) in
     let! bad := read (fun s => default 0 (wallet_bad_count s !! wallet)) in
     if 0 <? bad then modify (set_bad wallet 0) else Ret tt).

Definition handle_submit (rq : request) : thread unit :=
  do! with_lock STATE count_submit in
  let! body := read_json rq in
  let! jid := lift (py_get body "job_id" PNone) in
  let! w := lift (py_get body "wallet" PNone) in
  let! n := lift (py_get body "nonce" PNone) in
  match (if py_truthy jid then is_int n else None) with
  | None =>
      do! count_rejected "bad_request" in
      send 400 (reply_error "job_id and nonce required")
  | Some n =>
      match is_valid_wallet w with
      | None =>
          do! count_rejected "bad_request" in
          send 400 (reply_error "invalid wallet address")
      | Some wallet =>
          let nonce := Z.land n (2 ^ 32 - 1) in
          let! now := await Now in
          let! go := hard_checks wallet now in
          match go with
          | None => Ret tt
          | Some _ =>
              let! found := take_job jid wallet nonce in
              match found with
              | None => Ret tt
              | Some (ref, j) =>
                  let! full := lift (py_get body "full_block" PNone) in
                  let! valid := verify_share_against_job C j nonce in
                  if negb valid then reject_invalid (match jid with PStr s => s | _ => "" end) wallet
                  else
                    do! accept_share ref wallet nonce now in
                    if py_truthy full then
                      let! r := submit_block C j nonce wallet in
                      send 200 r
                    else send 200 (PDict [("accepted"%string, PBool true)])
              end
          end
      end
  end.

(** ** GET requests *)

Definition glac (z : Z) : res pyval := let* x := py_float z in Ok (PFloat (num_div x (num_of_Z (10 ^ 12)))).

Definition opt_int (v : option Z) : pyval := match v with Some z => PInt z | None => PNone end.
Definition opt_str (v : option string) : pyval := match v with Some s => PStr s | None => PNone end.

(** The members a record has. *)
Definition present (l : list (string * option pyval)) : list (string * pyval) :=
  omap (fun kv => (fun v => (kv.1, v)) <$> kv.2) l.

Definition block_json (b : block) : pyval :=
  PDict (present [("height", PInt <$> b_height b); ("ts", PInt <$> b_ts b); ("finder", PStr <$> b_finder b);
                  ("reward_atomic", PInt <$> b_reward_atomic b); ("round_shares", PInt <$> b_round_shares b);
                  ("share_diff", PInt <$> b_share_diff b); ("net_diff", PInt <$> b_net_diff b);
                  ("sponsorship_atomic", PInt <$> b_sponsorship_atomic b);
                  ("total_paid_atomic", PInt <$> b_total_paid_atomic b)]%string).

Definition payout_json (p : payout) : pyval :=
  PDict (present [("ts", PInt <$> p_ts p); ("wallet", PStr <$> p_wallet p); ("atomic", PInt <$> p_atomic p);
                  ("tx_hash", Some (p_tx_hash p)); ("tx_fee_atomic", PInt <$> p_tx_fee_atomic p);
                  ("round_fee_share", PInt <$> p_round_fee_share p); ("kind", PStr <$> p_kind p)]%string).

(** [_compute_hashrate]: the trimmed history and the rate. *)
Fixpoint trim_hist (cutoff : number) (hist : list (number * Z)) : list (number * Z) :=
  match hist with
  | (ts, d) :: hist' => if num_ltb ts cutoff then trim_hist cutoff hist' else hist
  | [] => []
  end.

Definition hist_of (now : number) (m : miner) : list (number * Z) :=
  trim_hist (num_sub now (num_of_Z (HASHRATE_WINDOW_S C))) (share_hist m).

Definition hashrate_of (hist : list (number * Z)) : res number :=
  match hist with
  | [] => Ok num_zero
  | _ => py_truediv (fold_right (fun td acc => td.2 + acc) 0 hist) (HASHRATE_WINDOW_S C)
  end.

Definition trim_miner (now : number) (m : miner) : miner := put_share_hist (hist_of now m) m.

Definition compute_hashrate (now : number) (w : string) : thread number :=
  do! modify (update_miner w (trim_miner now)) in
  let! hist := read (of_miner share_hist w) in
  lift (hashrate_of hist).

(** [sum(1 for s in miner_stats.values() if ...)] and [sum(_compute_hashrate(s, now) for s in miner_stats.values())] *)
Definition count_active (now : number) : thread Z :=
  for_miners (fun n w => let! ts := read (of_miner last_share_ts w) in
                         Ret (if num_ltb (num_sub now (num_of_Z 300)) ts then n + 1 else n)) 0.

Definition sum_hashrates (now : number) : thread number :=
  for_miners (fun acc w => let! r := compute_hashrate now w in Ret (num_add acc r)) num_zero.

Definition maturity_snapshot : thread pyval :=
  let! snap := with_lock MATURITY
                 (read (fun s => if num_leb (m_ts (maturity_cache s)) num_zero then None else Some (maturity_cache s))) in
  match snap with
  | None => Ret PNone
  | Some m =>
      let! now := await Now in
      let! ago := lift (py_trunc (num_sub now (m_ts m))) in
      Ret (PDict [("balance_atomic", opt_int (m_balance_atomic m)); ("unlocked_atomic", opt_int (m_unlocked_atomic m));
                  ("locked_atomic", opt_int (m_locked_atomic m));
                  ("blocks_to_next_unlock", opt_int (m_blocks_to_next_unlock m));
                  ("seconds_to_next_unlock", opt_int (m_seconds_to_next_unlock m));
                  ("unspent_outputs", opt_int (m_unspent_outputs m)); ("refreshed_s_ago", PInt ago)]%string)
  end.

Definition sponsorship_snapshot : thread pyval :=
  let! state := load_sponsorship in
  match state with
  | None => Ret PNone
  | Some sp =>
      let remaining := default 0 (sp_remaining_atomic sp) in
      let per_block := default 0 (sp_per_block_atomic sp) in
      let total := default 0 (sp_total_atomic sp) in
      let seeded := default 0 (sp_blocks_seeded sp) in
      let used := default 0 (sp_blocks_used sp) in
      let estimate := if 0 <? per_block then remaining / per_block else 0 in
      lift (let* total_glac := glac total in
            let* remaining_glac := glac remaining in
            let* per_block_glac := glac per_block in
            Ok (PDict [("active", PBool (sp_active sp)); ("label", PStr (sp_label sp)); ("total_atomic", PInt total);
                       ("total_glac", total_glac); ("remaining_atomic", PInt remaining);
                       ("remaining_glac", remaining_glac); ("per_block_atomic", PInt per_block);
                       ("per_block_glac", per_block_glac); ("blocks_seeded", PInt seeded);
                       ("blocks_used", PInt used);
                       ("blocks_remaining_est", PInt estimate);
                       ("started_at", opt_int (sp_started_at sp)); ("ended_at", opt_int (sp_ended_at sp))]%string))
  end.

Definition current_job_json (now : number) (j : option job) : res pyval :=
  match j with
  | None => Ok PNone
  | Some j =>
      let* age := py_trunc (num_sub now (created_at j)) in
      Ok (PDict [("job_id", PStr (job_id j)); ("height", PInt (height j));
                 ("network_difficulty", PInt (network_difficulty j)); ("share_difficulty", PInt (share_difficulty j));
                 ("age_s", PInt age)]%string)
  end.

Definition handle_stats : thread unit :=
  let! payload :=
    with_lock STATE
      (do! rollover_if_needed in
       let! now := await Now in
       let! active := count_active now in
       let! hashrate := sum_hashrates now in
       let! rate := lift (py_round hashrate) in
       let! p := read pool_stats in
       let! uptime := lift (py_trunc (num_sub now (ps_started_at p))) in
       let! bans := read (fun s => Z.of_nat (size (wallet_bans s))) in
       let! j := read current in
       let! job := lift (current_job_json now j) in
       let! mat := maturity_snapshot in
       let! sp := sponsorship_snapshot in
       Ret (PDict [("pool_wallet", PStr (POOL_WALLET C)); ("pool_fee_percent", PFloat (POOL_FEE_PERCENT C));
                   ("share_diff_divisor", PInt (SHARE_DIFF_DIVISOR C)); ("min_payout_atomic", PInt (MIN_PAYOUT_ATOMIC C));
                   ("hashrate", PInt rate); ("active_miners", PInt active);
                   ("shares_today", PInt (ps_shares_today p)); ("shares_total", PInt (ps_shares_total p));
                   ("blocks_today", PInt (ps_blocks_today p)); ("blocks_total", PInt (ps_blocks_total p));
                   ("current_round_shares", PInt (ps_current_round_shares p));
                   ("last_block", match ps_last_block p with Some b => block_json b | None => PNone end);
                   ("uptime_s", PInt uptime); ("share_verification", PStr (if lattice C then "lattice" else "trust"));
                   ("cold_sweep_enabled", PBool (negb (String.eqb (COLD_ADDRESS C) "")));
                   ("banned_wallets_today", PInt bans); ("current_job", job); ("maturity", mat);
                   ("submits_total", PInt (ps_submits_total p));
                   ("rejects_by_reason", PDict (map (fun kv => (kv.1, PInt kv.2)) (ps_rejects_by_reason p)));
                   ("orphan_dedupes", PInt (ps_orphan_dedupes p)); ("sponsorship", sp)]%string)) in
  send 200 payload.

Definition miner_head (wallet : string) (m : miner) (now : number) (rate : Z) (ago : pyval) : list (string * pyval) :=
  [("wallet", PStr wallet); ("found", PBool true); ("hashrate", PInt rate); ("shares_total", PInt (shares_total m));
   ("shares_today", PInt (shares_today m)); ("shares_this_round", PInt (shares_this_round m));
   ("last_share_s_ago", ago); ("blocks_found", PInt (blocks_found m))]%string.

Fixpoint adjustments_json (wallet : string) (l : list adjustment) : res (list pyval) :=
  match l with
  | [] => Ok []
  | a :: l' =>
      if bool_decide (a_wallet a = Some wallet) then
        let* g := glac (default 0 (a_atomic a)) in
        let* rest := adjustments_json wallet l' in
        Ok (PDict [("ts", opt_int (a_ts a)); ("atomic", opt_int (a_atomic a)); ("glac", g);
                   ("reason", PStr (default "" (a_reason a)))]%string :: rest)
      else adjustments_json wallet l'
  end.

Definition handle_miner (wallet : string) : thread unit :=
  let! head :=
    with_lock STATE
      (let! m := read (fun s => assoc wallet (miner_stats s)) in
       match m with
       | None => answered (send 200 (PDict [("wallet", PStr wallet); ("found", PBool false)]%string))
       | Some m =>
           let! now := await Now in
           let! hashrate := compute_hashrate now wallet in
           let! rate := lift (py_round hashrate) in
           let! ago := lift (if num_ltb num_zero (last_share_ts m)
                             then let* d := py_trunc (num_sub now (last_share_ts m)) in Ok (PInt d) else Ok PNone) in
           Ret (Some (miner_head wallet m now rate ago))
       end) in
  match head with
  | None => Ret tt
  | Some head =>
      let! pendings := compute_pending_balances in
      let! maturings := compute_maturing_balances in
      let pending := default 0 (assoc wallet pendings) in
      let maturing := default 0 (maturings !! wallet) in
      let! money := lift (let* p := glac pending in let* m := glac maturing in let* t := glac (pending + maturing) in
                          Ok [("pending_atomic", PInt pending); ("pending_glac", p); ("maturing_atomic", PInt maturing);
                              ("maturing_glac", m); ("unpaid_total_glac", t)]%string) in
      let! adjustments := load_json_file ADJUSTMENTS_FILE [] in
      let! adj := lift (adjustments_json wallet adjustments) in
      send 200 (PDict (head ++ money ++ [("adjustments"%string, PList adj)]))
  end.

(** [min(hi, max(1, int(qs.get("limit", [dflt])[0])))], with the default when the text is not a number. *)
Definition limit_of (rq : request) (dflt hi : Z) : nat :=
  Z.to_nat match default [] (assoc "limit" (query rq)) with
           | s :: _ => match int_of_string s with Some n => Z.min hi (Z.max 1 n) | None => dflt end
           | [] => Z.min hi (Z.max 1 dflt)
           end.

Definition handle_blocks (rq : request) : thread unit :=
  let! arr := load_json_file BLOCKS_FILE [] in
  send 200 (PDict [("blocks"%string, PList (map block_json (take (limit_of rq 20 100) arr)))]).

Definition handle_payouts (rq : request) : thread unit :=
  let! arr := load_json_file PAYOUTS_FILE [] in
  let arr := take (limit_of rq 50 200) (rev arr) in
  let wallet := match default [] (assoc "wallet" (query rq)) with s :: _ => s | [] => ""%string end in
  let arr := if String.eqb wallet "" then arr
             else filter (fun p => p_wallet p = Some wallet) arr in
  send 200 (PDict [("payouts"%string, PList (map payout_json arr))]).

Definition service_info : pyval :=
  PDict [("service", PStr "glaciem-pool"); ("version", PStr "v1");
         ("endpoints", PList [PStr "/pool/job"; PStr "/pool/submit"; PStr "/pool/stats"; PStr "/pool/miner/<wallet>";
                              PStr "/pool/blocks"])]%string.

(** ** Dispatch *)

Definition do_POST (rq : request) : thread unit :=
  catch (if String.eqb (url_path rq) "/pool/job" then handle_job rq
         else if String.eqb (url_path rq) "/pool/submit" then handle_submit rq
         else send 404 (reply_error "not found"))
        (fun e => send 500 (reply_error e)).

Definition miner_prefix : list ascii := chars "/pool/miner/".

Definition do_GET (rq : request) : thread unit :=
  catch (if String.eqb (url_path rq) "/pool/stats" then handle_stats
         else if String.eqb (url_path rq) "/pool/blocks" then handle_blocks rq
         else if String.eqb (url_path rq) "/pool/payouts" then handle_payouts rq
         else if is_prefix miner_prefix (chars (url_path rq)) then
           handle_miner (of_chars (drop (length miner_prefix) (chars (url_path rq))))
         else if String.eqb (url_path rq) "/" then send 200 service_info
         else send 404 (reply_error "not found"))
        (fun e => send 500 (reply_error e)).

(** ** Background threads: one round of each loop *)

(** The watchdog; the result is the new [last_synced_ts]. *)
Definition refresh_round (last_synced : number) : thread number :=
  do! refresh_job C in
  let! synced :=
    catch (let! info := rpc "get_info" (PDict []) in
           let! chain_height := lift (let* h := py_item info "height" in py_int h) in
           let! pool_height := read (fun s => match current s with Some j => height j | None => 0 end) in
           if chain_height <=? pool_height then let! now := await Now in Ret (Some now) else Ret None)
          (fun _ => Ret None) in
  let last_synced := default last_synced synced in
  let! now := await Now in
  if num_ltb (num_of_Z (JOB_WATCHDOG_S C)) (num_sub now last_synced) then
    let! never := await Exit in
    match never : Empty_set with end
  else Ret last_synced.

Definition payout_iteration : thread unit := catch (do! payout_round C in Ret tt) (fun _ => Ret tt).
Definition cold_sweep_iteration : thread unit := catch (cold_sweep_once C) (fun _ => Ret tt).
Definition maturity_iteration : thread unit := catch (maturity_refresh_once C) (fun _ => Ret tt).
Definition reconcile_iteration : thread unit := catch (reconcile_credits_once C) (fun _ => Ret tt).

Fixpoint refresh_loop (rounds : nat) (last_synced : number) : thread unit :=
  match rounds with
  | O => Ret tt
  | S n => let! ts := refresh_round last_synced in refresh_loop n ts
  end.

Fixpoint loop (rounds : nat) (iteration : thread unit) : thread unit :=
  match rounds with
  | O => Ret tt
  | S n => do! iteration in loop n iteration
  end.

(** ** Start-up *)

Definition prime_heights (cs : list credit) (bs : list block) (s : pool) : pool :=
  set_settled (settled_heights s ∪ list_to_set (map (fun c => default 0 (c_height c)) cs)
                 ∪ list_to_set (map (fun b => default 0 (b_height b)) bs)) s.

Definition startup : thread unit :=
  let! cs := load_json_file CREDITS_FILE [] in
  let! bs := load_json_file BLOCKS_FILE [] in
  do! modify (prime_heights cs bs) in
  do! refresh_job C in
  catch (maturity_refresh_once C) (fun _ => Ret tt).
End Handlers.
