(* ===== verification/PoolLocks.v ===== *)
(** * PoolLocks: the pool server's threads on one machine, and why they cannot deadlock

    [world] is the state the threads share: the globals, the locks that are held, the ledger files and the live datasets.
    [answers] says how each call can be answered: a lock is granted when it is free, memory accesses are exact, a file
    operation may fail and then changes nothing, and the node, the wallet, the clock and the verifier may answer
    anything.

    Locks are taken in the order of [rank] and released in reverse order on every path, also when an exception passes:
    [orderly].  So some thread can always go on. *)
From stdpp Require Import relations.
From S2P Require Import Prelude JsCore Number Bytes Python Effects PoolState PoolShares PoolMoney PoolHttp.
Local Open Scope Z_scope.
Local Open Scope glaciem_scope.

Create HintDb locks.

(** ** The machine *)

Record files : Type := mk_files {
  f_credits : option (list credit);
  f_blocks : option (list block);
  f_payouts : option (list payout);
  f_adjustments : option (list adjustment);
  f_sponsorship : option sponsorship;
}.

Definition file_at (fs : files) (p : path) : option (content p) :=
  match p with
  | CREDITS_FILE => f_credits fs
  | BLOCKS_FILE => f_blocks fs
  | PAYOUTS_FILE => f_payouts fs
  | ADJUSTMENTS_FILE => f_adjustments fs
  | SPONSORSHIP_FILE => f_sponsorship fs
  end.

Definition put_file (fs : files) (p : path) : content p -> files :=
  match p with
  | CREDITS_FILE => fun c => mk_files (Some c) (f_blocks fs) (f_payouts fs) (f_adjustments fs) (f_sponsorship fs)
  | BLOCKS_FILE => fun c => mk_files (f_credits fs) (Some c) (f_payouts fs) (f_adjustments fs) (f_sponsorship fs)
  | PAYOUTS_FILE => fun c => mk_files (f_credits fs) (f_blocks fs) (Some c) (f_adjustments fs) (f_sponsorship fs)
  | ADJUSTMENTS_FILE => fun c => mk_files (f_credits fs) (f_blocks fs) (f_payouts fs) (Some c) (f_sponsorship fs)
  | SPONSORSHIP_FILE => fun c => mk_files (f_credits fs) (f_blocks fs) (f_payouts fs) (f_adjustments fs) (Some c)
  end.

Record world : Type := mk_world {
  mem : pool;
  held : list lock;
  disk : files;
  live : gmap Z bytes;                (** the datasets that are allocated, with their seeds *)
}.

Definition set_mem (s : pool) (w : world) : world := mk_world s (held w) (disk w) (live w).
Definition set_held (l : list lock) (w : world) : world := mk_world (mem w) l (disk w) (live w).
Definition set_disk (fs : files) (w : world) : world := mk_world (mem w) (held w) fs (live w).
Definition set_live (m : gmap Z bytes) (w : world) : world := mk_world (mem w) (held w) (disk w) m.

Definition answers (w : world) (o : op) : res (ret o) -> world -> Prop :=
  match o with
  | Acquire l => fun r w' => (l ∉ held w) /\ r = Ok tt /\ w' = set_held (l :: held w) w
  | Release l => fun r w' => r = Ok tt /\ w' = set_held (filter (fun l' => l' ≠ l) (held w)) w
  | Mem f => fun r w' => r = Ok (mem w) /\ w' = set_mem (f (mem w)) w
  | Now => fun r w' => w' = w /\ exists t, r = Ok t
  | Today => fun r w' => w' = w /\ exists d, r = Ok d
  | TokenHex => fun r w' => w' = w /\ exists t, r = Ok t
  | Load p => fun r w' => w' = w /\ (r = Ok (file_at (disk w) p) \/ exists e, r = Err e)
  | Save p c => fun r w' => (r = Ok tt /\ w' = set_disk (put_file (disk w) p c) w) \/ (w' = w /\ exists e, r = Err e)
  | BuildDataset seed => fun r w' =>
      (r = Ok 0 /\ w' = w) \/ exists ptr, 0 < ptr /\ live w !! ptr = None /\ r = Ok ptr /\ w' = set_live (<[ptr := seed]> (live w)) w
  | FreeDataset ptr => fun r w' => r = Ok tt /\ w' = set_live (delete ptr (live w)) w
  | Exit => fun _ _ => False
  | _ => fun _ w' => w' = w
  end.

(** The cases of an answer. *)
Ltac unpack_answer Hr :=
  cbn in Hr;
  repeat match goal with
         | H : _ /\ _ |- _ => destruct H
         | H : _ \/ _ |- _ => destruct H
         | H : exists _, _ |- _ => destruct H
         end; subst.

(** ** Lock order *)

Definition rank (l : lock) : Z :=
  match l with HARD => 0 | STATE => 1 | DATASETS => 2 | SPONSORSHIP => 3 | ARRIVED => 4 | MATURITY => 5 end.

Definition above (l : lock) (hs : list lock) : Prop := Forall (fun h => rank h < rank l) hs.

(** A program that holds the locks [hs], innermost first; [Q] speaks of the locks and the outcome at the end. *)
Fixpoint orderly {A} (Q : list lock -> res A -> Prop) (hs : list lock) (p : thread A) : Prop :=
  match p with
  | Ret a => Q hs (Ok a)
  | Throw e => Q hs (Err e)
  | Vis o k =>
      match o as o0 return (res (ret o0) -> thread A) -> Prop with
      | Acquire l => fun k => above l hs /\ orderly Q (l :: hs) (k (Ok tt))
      | Release l => fun k => exists hs', hs = l :: hs' /\ orderly Q hs' (k (Ok tt))
      | Exit => fun _ => True
      | _ => fun k => forall r, orderly Q hs (k r)
      end k
  end.

(** The same locks at the end. *)
Definition balanced {A} (hs : list lock) (p : thread A) : Prop := orderly (fun hs' _ => hs' = hs) hs p.

(** Induction over a program: only the calls need an argument. *)
Ltac orderly_induction p :=
  induction p as [?|?|o k IH]; intros hs;
  [cbn..|cbn; destruct o;
    first [ done | intros Hk r; by apply IH, Hk
          | intros [Ha Hk]; split; [done|by apply IH]
          | intros (hs' & -> & Hk); exists hs'; split; [done|by apply IH] ]].

Lemma orderly_bind {A B} Q (p : thread A) (f : A -> thread B) : forall hs,
  orderly (fun hs' r => match r with Ok a => orderly Q hs' (f a) | Err e => Q hs' (Err e) end) hs p ->
  orderly Q hs (bind p f).
Proof. orderly_induction p; done. Qed.

Lemma orderly_catch {A} Q (p : thread A) (h : string -> thread A) : forall hs,
  orderly (fun hs' r => match r with Ok a => Q hs' (Ok a) | Err e => orderly Q hs' (h e) end) hs p ->
  orderly Q hs (catch p h).
Proof. orderly_induction p; done. Qed.

Lemma orderly_mono {A} (Q Q' : list lock -> res A -> Prop) (p : thread A) :
  (forall hs r, Q hs r -> Q' hs r) -> forall hs, orderly Q hs p -> orderly Q' hs p.
Proof. intros HQ. orderly_induction p; apply HQ. Qed.

Section Balanced.
Context (hs : list lock).

Lemma balanced_ret {A} (a : A) : balanced hs (Ret a : thread A).
Proof. done. Qed.

Lemma balanced_throw {A} e : balanced hs (Throw e : thread A).
Proof. done. Qed.

Lemma balanced_lift {A} (r : res A) : balanced hs (lift r : thread A).
Proof. by destruct r. Qed.

Lemma balanced_bind {A B} (p : thread A) (f : A -> thread B) :
  balanced hs p -> (forall a, balanced hs (f a)) -> balanced hs (bind p f).
Proof. intros Hp Hf. apply orderly_bind. eapply orderly_mono; [|exact Hp]. intros hs' [a|e] ->; [apply Hf|done]. Qed.

Lemma balanced_catch {A} (p : thread A) (h : string -> thread A) :
  balanced hs p -> (forall e, balanced hs (h e)) -> balanced hs (catch p h).
Proof. intros Hp Hf. apply orderly_catch. eapply orderly_mono; [|exact Hp]. intros hs' [a|e] ->; [done|apply Hf]. Qed.

(** A call that is no lock operation. *)
Definition lock_free (o : op) : bool := match o with Acquire _ | Release _ => false | _ => true end.

Lemma balanced_await o : lock_free o = true -> balanced hs (await o).
Proof. destruct o; try done; intros _ [r|e]; done. Qed.

Lemma balanced_access {B} (f : pool -> B * pool) : balanced hs (access f).
Proof. apply balanced_bind; [by apply balanced_await|done]. Qed.
End Balanced.

(** The block releases the lock however it ends. *)
Lemma orderly_attempt {A} hs (p : thread A) :
  balanced hs p -> orderly (fun hs' r => hs' = hs /\ exists a, r = Ok a) hs (attempt p).
Proof.
  intros Hp. apply orderly_catch, orderly_bind. eapply orderly_mono; [|exact Hp]. intros hs' [a|e] ->; cbn; eauto.
Qed.

Lemma balanced_attempt {A} hs (p : thread A) : balanced hs p -> balanced hs (attempt p).
Proof. intros Hp. eapply orderly_mono; [|by apply orderly_attempt]. by intros hs' r [-> _]. Qed.

Lemma balanced_with_lock {A} hs l (p : thread A) : above l hs -> balanced (l :: hs) p -> balanced hs (with_lock l p).
Proof.
  intros Ha Hp. unfold balanced, with_lock, await, call. cbn [bind orderly lift]. split; [done|].
  apply orderly_bind. eapply orderly_mono; [|by apply orderly_attempt].
  intros hs' r [-> [a ->]]. exists hs. split; [done|]. apply balanced_lift.
Qed.

(** Walk through a program; locks must be above the held ones. *)
Ltac orderly_step :=
  match goal with
  | |- balanced _ (Ret _) => apply balanced_ret
  | |- balanced _ (Throw _) => apply balanced_throw
  | |- balanced _ (lift _) => apply balanced_lift
  | |- balanced ?hs (await ?o) => exact (balanced_await hs o eq_refl)
  | |- balanced _ (access _) => apply balanced_access
  | |- balanced _ (read _) => apply balanced_access
  | |- balanced _ (modify _) => apply balanced_access
  | |- balanced ?hs (send ?s ?b) => exact (balanced_await hs (Send s b) eq_refl)
  | |- balanced ?hs (save_json_atomic ?p ?c) => exact (balanced_await hs (Save p c) eq_refl)
  | |- balanced _ (bind _ _) => apply balanced_bind; [|intros ?]
  | |- balanced _ (catch _ _) => apply balanced_catch; [|intros ?]
  | |- balanced _ (attempt _) => apply balanced_attempt
  | |- balanced _ (with_lock _ _) => apply balanced_with_lock; [solve [assumption | repeat constructor; cbn; lia]|]
  | |- balanced _ (match ?x with _ => _ end) => destruct x
  end.
Ltac walk_locks := repeat (cbv beta zeta; first [solve [eauto with locks] | orderly_step]).

Section Threads.
Context (C : config) `{SetOrder}.

Lemma load_json_file_balanced hs p d : balanced hs (load_json_file p d).
Proof. unfold load_json_file. walk_locks. Qed.

Lemma json_rpc_balanced hs n s m ps : balanced hs (json_rpc n s m ps).
Proof. unfold json_rpc. walk_locks. Qed.
#[local] Hint Resolve load_json_file_balanced : locks.
#[local] Hint Extern 1 (balanced _ (rpc _ _)) => apply json_rpc_balanced : locks.
#[local] Hint Extern 1 (balanced _ (wallet_rpc _ _)) => apply json_rpc_balanced : locks.

Lemma is_banned_balanced hs w : balanced hs (is_banned C w).
Proof. unfold is_banned. walk_locks. Qed.

Lemma for_miners_balanced {A} hs (body : A -> string -> thread A) a :
  (forall a w, balanced hs (body a w)) -> balanced hs (for_miners body a).
Proof.
  intros Hb. apply balanced_bind; [apply balanced_access|]. intros ws. generalize (length ws). intros n. revert a.
  induction ws as [|w ws IH]; intros a; cbn [each_miner]; (apply balanced_bind; [apply balanced_access|]); intros n'; case_test; try done.
  by apply balanced_bind.
Qed.
#[local] Hint Extern 1 (balanced _ (for_miners _ _)) => apply for_miners_balanced; intros; walk_locks : locks.

Lemma bump_balanced hs get put : balanced hs (bump get put).
Proof. unfold bump. walk_locks. Qed.
Lemma bump_miner_balanced hs get put w : balanced hs (bump_miner get put w).
Proof. unfold bump_miner. walk_locks. Qed.
Lemma count_reject_balanced hs r : balanced hs (count_reject r).
Proof. unfold count_reject. walk_locks. Qed.
Lemma ensure_miner_balanced hs w : balanced hs (ensure_miner w).
Proof. unfold ensure_miner. walk_locks. Qed.
Lemma rollover_balanced hs : balanced hs rollover_if_needed.
Proof. unfold rollover_if_needed. walk_locks. Qed.
#[local] Hint Resolve bump_balanced bump_miner_balanced count_reject_balanced ensure_miner_balanced rollover_balanced : locks.

Lemma push_job_balanced hs j : balanced hs (push_job j).
Proof.
  unfold push_job. walk_locks. match goal with n : nat |- _ => induction n as [|n IH] end; cbn [drop_old_jobs]; walk_locks.
Qed.
#[local] Hint Resolve push_job_balanced : locks.

Lemma credit_share_balanced hs w : balanced hs (credit_share w).
Proof. unfold credit_share. walk_locks. Qed.

Lemma claim_height_balanced hs b w : balanced hs (claim_height b w).
Proof. unfold claim_height. walk_locks. Qed.

Lemma end_round_balanced hs : balanced hs end_round.
Proof. unfold end_round. walk_locks. Qed.

Lemma verify_balanced j n : balanced [] (verify_share_against_job C j n).
Proof. unfold verify_share_against_job, get_dataset_for, build_and_verify. walk_locks. Qed.

Lemma refresh_job_balanced : balanced [] (refresh_job C).
Proof. unfold refresh_job. walk_locks. Qed.

Lemma settle_entries_balanced hs h d t b : balanced hs (settle_entries h d t b).
Proof. unfold settle_entries, settle_entry. walk_locks. Qed.
#[local] Hint Resolve is_banned_balanced credit_share_balanced verify_balanced refresh_job_balanced
  settle_entries_balanced claim_height_balanced end_round_balanced : locks.

Lemma settle_round_balanced b : balanced [STATE] (settle_round C b).
Proof. unfold settle_round, stamp_block, sponsorship_consume_block, load_sponsorship, append_credits. walk_locks. Qed.
#[local] Hint Resolve settle_round_balanced : locks.

Lemma submit_block_balanced j n w : balanced [] (submit_block C j n w).
Proof. unfold submit_block, append_block. walk_locks. Qed.
#[local] Hint Resolve submit_block_balanced : locks.

Lemma pending_balanced : balanced [] compute_pending_balances.
Proof. unfold compute_pending_balances, arrived_now. walk_locks. Qed.
#[local] Hint Resolve pending_balanced : locks.

Lemma count_rejected_balanced hs r : above STATE hs -> balanced hs (count_rejected r).
Proof. intros Ha. unfold count_rejected. walk_locks. Qed.
#[local] Hint Extern 2 (balanced _ (count_rejected _)) => apply count_rejected_balanced; repeat constructor : locks.

Lemma do_POST_balanced rq : balanced [] (do_POST C rq).
Proof.
  unfold do_POST, handle_job, handle_submit, count_submit, read_json, hard_checks, take_job, reject_invalid, add_bad, accept_share, ban,
    answered.
  walk_locks.
Qed.

Lemma do_GET_balanced rq : balanced [] (do_GET C rq).
Proof.
  unfold do_GET, handle_stats, handle_miner, handle_blocks, handle_payouts, maturity_snapshot, sponsorship_snapshot,
    load_sponsorship, count_active, sum_hashrates, compute_hashrate, compute_maturing_balances, arrived_now, answered.
  walk_locks.
Qed.

Lemma maturity_balanced : balanced [] (maturity_refresh_once C).
Proof. unfold maturity_refresh_once. walk_locks. Qed.

Lemma rounds_balanced :
  balanced [] (payout_iteration C) /\ balanced [] (cold_sweep_iteration C) /\ balanced [] (maturity_iteration C) /\
  balanced [] (reconcile_iteration C) /\ forall t, balanced [] (refresh_round C t).
Proof.
  pose proof maturity_balanced.
  unfold payout_iteration, payout_round, cold_sweep_iteration, cold_sweep_once, maturity_iteration,
    reconcile_iteration, reconcile_credits_once, refresh_round.
  split_and!; intros; walk_locks.
Qed.
End Threads.

(** ** No deadlock *)

Section Deadlock.
Context (C : config) `{SetOrder}.

(** The threads of the server: one for each request, and the loops for any number of rounds. *)
Inductive server_thread : thread unit -> Prop :=
| run_post rq : server_thread (do_POST C rq)
| run_get rq : server_thread (do_GET C rq)
| run_refresh n t : server_thread (refresh_loop C n t)
| run_payout n : server_thread (loop n (payout_iteration C))
| run_sweep n : server_thread (loop n (cold_sweep_iteration C))
| run_maturity n : server_thread (loop n (maturity_iteration C))
| run_reconcile n : server_thread (loop n (reconcile_iteration C)).

(** Operators edit the ledger files. *)
Definition edited (w w' : world) : Prop := exists fs, w' = set_disk fs w.

Definition server_step : relation (world * list (thread unit)) := pool_step answers edited server_thread.

Definition done_orderly (hs : list lock) (p : thread unit) : Prop := orderly (fun hs' _ => hs' = []) hs p.

Lemma loop_balanced n p : balanced [] p -> balanced [] (loop n p).
Proof. intros Hp. induction n as [|n IH]; cbn [loop]; walk_locks. Qed.

Lemma server_thread_orderly p : server_thread p -> done_orderly [] p.
Proof.
  pose proof (rounds_balanced C) as (H1 & H2 & H3 & H4 & H5).
  destruct 1 as [rq|rq|n t|n|n|n|n]; [apply do_POST_balanced|apply do_GET_balanced| |by apply loop_balanced..].
  revert t. induction n as [|n IH]; intros t; [done|]. cbn [refresh_loop]. apply balanced_bind; [done|]. apply IH.
Qed.

(** The locks each thread holds are disjoint and together the held ones. *)
Definition owned (w : world) (ps : list (thread unit)) (hss : list (list lock)) : Prop :=
  Forall2 done_orderly hss ps /\ NoDup (mjoin hss) /\ forall l, l ∈ held w <-> l ∈ mjoin hss.

Lemma mjoin_insert (hss : list (list lock)) i hs hs' :
  hss !! i = Some hs -> exists rest, mjoin hss ≡ₚ hs ++ rest /\ mjoin (<[i := hs']> hss) ≡ₚ hs' ++ rest.
Proof.
  intros Hi. exists (mjoin (delete i hss)). rewrite <- !mjoin_cons. split; apply join_Permutation.
  - by apply delete_Permutation.
  - rewrite insert_take_drop by (by eapply lookup_lt_Some). rewrite delete_take_drop. by rewrite Permutation_middle.
Qed.

(** A call other than a lock operation leaves the locks alone. *)
Lemma answers_held w o r w' : lock_free o = true -> answers w o r w' -> held w' = held w.
Proof.
  destruct o; try done; intros _ Hr; by unpack_answer Hr.
Qed.

Lemma step_owned w ps w' ps' hss :
  server_step (w, ps) (w', ps') -> owned w ps hss -> exists hss', owned w' ps' hss'.
Proof.
  intros Hs (Hf & Hnd & Hh). inversion Hs as [w0 ps0 i o k r w1 Hi Hr|w0 ps0 p Hp|w0 ps0 w1 [fs ->]]; subst.
  - destruct (Forall2_lookup_r _ _ _ _ _ Hf Hi) as (hs & Hhs & Ho).
    destruct (lock_free o) eqn:Hlf.
    + exists hss. unfold owned. rewrite (answers_held _ _ _ _ Hlf Hr). split_and!; [|done|done].
      rewrite <- (list_insert_id hss i hs Hhs). apply Forall2_insert; [done|]. destruct o; try done; apply Ho.
    + destruct o as [l|l| | | | | | | | | | | | | |]; try done.
      * destruct Ho as [_ Ho], Hr as (Hl & -> & ->). exists (<[i := l :: hs]> hss).
        destruct (mjoin_insert hss i hs (l :: hs) Hhs) as (rest & E & E').
        split_and!; [by apply Forall2_insert|rewrite E'; cbn; constructor; [|by rewrite <- E]; by rewrite <- E, <- Hh|].
        intros l'. cbn. rewrite E'. cbn. rewrite !elem_of_cons, Hh, E. done.
      * destruct Ho as (hs' & -> & Ho), Hr as (-> & ->). exists (<[i := hs']> hss).
        destruct (mjoin_insert hss i _ hs' Hhs) as (rest & E & E'). rewrite E in Hnd. cbn in Hnd.
        apply NoDup_cons in Hnd as [Hl Hnd].
        split_and!; [by apply Forall2_insert|by rewrite E'|]. intros l'. cbn. rewrite list_elem_of_filter, Hh, E, E'. cbn.
        rewrite elem_of_cons. split; [by intros [? [?|?]]|]. intros Hin. split; [by intros ->|by right].
  - exists (hss ++ [[]]). split_and!.
    + apply Forall2_app; [done|]. constructor; [by apply server_thread_orderly|done].
    + by rewrite join_app, app_nil_r.
    + intros l. by rewrite join_app, app_nil_r.
  - exists hss. done.
Qed.

Lemma reachable_owned s s' :
  rtc server_step s s' -> (exists hss, owned s.1 s.2 hss) -> exists hss, owned s'.1 s'.2 hss.
Proof.
  induction 1 as [s|[w1 ps1] [w2 ps2] s Hst _ IH]; [done|]. intros [hss Hown]. apply IH. by eapply step_owned.
Qed.

(** A call that is not a request for a held lock, nor the end of the process, has an answer. *)
Definition enabled (w : world) (o : op) : Prop :=
  match o with Acquire l => l ∉ held w | Exit => False | _ => True end.

Lemma enabled_answer w o : enabled w o -> exists r w', answers w o r w'.
Proof.
  destruct o; cbn; intros He; try done.
  all: try (eexists (Err ""%string), w; by eauto).
  all: eexists (Ok _), _; eauto 6.
  Unshelve. all: first [exact num_zero|exact ""%string].
Qed.

Lemma blocked_or_enabled w o : enabled w o \/ (exists l, o = Acquire l /\ l ∈ held w) \/ o = Exit.
Proof.
  destruct o as [l| | | | | | | | | | | | | | |]; cbn; auto. destruct (decide (l ∈ held w)); eauto.
Qed.

Definition can_step (s : world * list (thread unit)) : Prop :=
  exists i o k r w', s.2 !! i = Some (Vis o k) /\ answers s.1 o r w'.

Definition exiting (ps : list (thread unit)) : Prop := exists i k, ps !! i = Some (Vis Exit k).
Definition finished (p : thread unit) : Prop := match p with Vis _ _ => False | _ => True end.
#[local] Instance finished_dec p : Decision (finished p).
Proof. destruct p; solve_decision. Defined.

(** Waiting for a lock: its holder can go on, or waits for a higher one. *)
Lemma waiting_steps w ps hss n : forall i l k,
  owned w ps hss -> ps !! i = Some (Vis (Acquire l) k) -> 5 - rank l <= Z.of_nat n -> exiting ps \/ can_step (w, ps).
Proof.
  induction n as [|n IH]; intros i l k Hown Hi Hn.
  all: destruct (decide (l ∈ held w)) as [Hl|Hl];
    [|right; destruct (enabled_answer w (Acquire l) Hl) as (r & w' & Hr); by exists i, (Acquire l), k, r, w'].
  all: destruct Hown as (Hf & Hnd & Hh); pose proof Hl as Hl'; apply Hh in Hl';
    apply list_elem_of_join in Hl' as (hs & Hin & Hhs); apply list_elem_of_lookup in Hhs as [j Hj];
    destruct (Forall2_lookup_l _ _ _ _ _ Hf Hj) as (p & Hp & Ho).
  all: destruct p as [?|?|o k']; [cbn in Ho; subst hs; by apply not_elem_of_nil in Hin..|].
  all: destruct (blocked_or_enabled w o) as [He|[(l' & -> & _)| ->]];
    [right; destruct (enabled_answer w o He) as (r & w' & Hr); by exists j, o, k', r, w'| |left; by exists j, k'].
  all: destruct Ho as [Hab _]; pose proof (proj1 (Forall_forall _ _) Hab l Hin) as Hlt; cbn in Hlt.
  - destruct l, l'; cbn in *; lia.
  - apply (IH j l' k' (conj Hf (conj Hnd Hh)) Hp). lia.
Qed.

(** C4: whatever the requests, the answers of node and wallet, the failures of file operations and the edits of operators: at
    every moment of every schedule the server is exiting, or all its threads have finished, or some thread can go on.  In particular
    there is no deadlock, although handlers hold locks while they write to files, call other handlers' code and answer requests. *)
Theorem no_deadlock w s :
  held w = [] -> rtc server_step (w, []) s -> exiting s.2 \/ Forall finished s.2 \/ can_step s.
Proof.
  intros Hw Hs.
  assert (exists hss, owned s.1 s.2 hss) as [hss Hown].
  { apply (reachable_owned (w, []) s Hs). exists []. split_and!; [constructor..|]. intros l. cbn. by rewrite Hw. }
  destruct s as [w' ps]. cbn [fst snd] in *.
  destruct (decide (Forall finished ps)) as [Hfin|Hfin]; [by right; left|].
  apply not_Forall_Exists in Hfin; [|apply _]. apply Exists_exists in Hfin as (p & Hin & Hp).
  apply list_elem_of_lookup in Hin as [i Hi]. destruct p as [?|?|o k]; [by destruct Hp|by destruct Hp|].
  destruct (blocked_or_enabled w' o) as [He|[(l & -> & _)| ->]].
  - right; right. destruct (enabled_answer w' o He) as (r & w1 & Hr). by exists i, o, k, r, w1.
  - destruct (waiting_steps w' ps hss 5 i l k Hown Hi) as [?|?]; [destruct l; cbn; lia|by left|by right; right].
  - left. by exists i, k.
Qed.
End Deadlock.

(** A request for the statistics has arrived at a server that has just started. *)
Lemma no_deadlock_witness :
  let w := mk_world (initial_pool num_one "2026-05-01") [] (mk_files None None None None None) ∅ in
  let get := do_GET (H := in_order) default_config (mk_request None "/pool/stats" []) in
  exiting [get] \/ Forall finished [get] \/ can_step (w, [get]).
Proof.
  intros w get. apply (no_deadlock (H := in_order) default_config w (w, [get]) eq_refl). apply rtc_once.
  apply (step_arrive _ _ _ w []). constructor.
Defined.
