(* ===== verification/PoolSections.v ===== *)
(** * PoolSections: what the statements under [STATE_LOCK] amount to

    The server changes its counters statement by statement, and [x += 1] is a read and a write.  A [section] is a piece of such code
    while no other thread touches what the lock protects: the other globals may change at any moment, the clock may answer anything.
    Each group of statements is shown to have the effect of one function on the globals ([rolled], [enrolled], [share_added],
    [height_claimed], [round_ended], [job_pushed]). *)
From S2P Require Import Prelude JsCore Number Bytes Python Effects PoolState PoolShares PoolMoney PoolHttp PoolLocks.
Local Open Scope Z_scope.
Local Open Scope glaciem_scope.

(** ** What the lock protects *)

Definition protected (s : pool) : list job * option nat * list (string * nat) * gset Z * list (string * miner) * stats :=
  (jobs s, current_job s, recent_jobs s, settled_heights s, miner_stats s, pool_stats s).

Definition agree (s s' : pool) : Prop := protected s = protected s'.

#[export] Instance agree_equivalence : Equivalence agree.
Proof. unfold agree. split; [done|by intros s s'|by intros s1 s2 s3 -> ->]. Qed.

(** An access that looks at nothing else and changes nothing else. *)
Definition local {B} (f : pool -> B * pool) : Prop :=
  forall s s', agree s s' -> agree (f s).2 (f s').2 /\ (f s').1 = (f s).1.

Ltac agree_eq E :=
  unfold agree, protected in E; cbn in E; rewrite !pair_equal_spec in E; destruct E as (((((-> & ->) & ->) & ->) & ->) & ->).

Ltac solve_local :=
  let E := fresh in intros [] [] E; agree_eq E; split; [|reflexivity]; try reflexivity.

(** ** Sections *)

Fixpoint section {A} (Q : res A -> pool -> Prop) (p : thread A) (s : pool) {struct p} : Prop :=
  match p with
  | Ret a => Q (Ok a) s
  | Throw e => Q (Err e) s
  | Vis o k =>
      match o as o0 return (res (ret o0) -> thread A) -> Prop with
      | Mem f => fun k => (forall s', agree s s' -> agree (f s) (f s') /\ k (Ok s') = k (Ok s)) /\ section Q (k (Ok s)) (f s)
      | Now => fun k => forall t, section Q (k (Ok t)) s
      | Today => fun k => forall d, section Q (k (Ok d)) s
      | _ => fun _ => False
      end k
  end.

Ltac section_induction p :=
  induction p as [?|?|o k IH]; intros s; [cbn..|cbn; destruct o; try done].

Lemma section_mono {A} (Q Q' : res A -> pool -> Prop) (p : thread A) :
  (forall r s, Q r s -> Q' r s) -> forall s, section Q p s -> section Q' p s.
Proof.
  intros HQ. section_induction p; [by apply HQ..| | |].
  - intros [Hl Hk]. split; [exact Hl|by apply IH].
  - intros Hk t. by apply IH.
  - intros Hk t. by apply IH.
Qed.

Lemma section_bind {A B} Q (p : thread A) (f : A -> thread B) : forall s,
  section (fun r s' => match r with Ok a => section Q (f a) s' | Err e => Q (Err e) s' end) p s -> section Q (bind p f) s.
Proof.
  section_induction p; [done..| | |].
  - intros [Hl Hk]. split; [|by apply IH]. intros s' Hs. destruct (Hl s' Hs) as [H1 H2]. by rewrite H2.
  - intros Hk t. by apply IH.
  - intros Hk t. by apply IH.
Qed.

Lemma section_then {A B} Q (p : thread A) (f : A -> thread B) s a s' :
  section (fun r s1 => r = Ok a /\ s1 = s') p s -> section Q (f a) s' -> section Q (bind p f) s.
Proof. intros Hp Hf. apply section_bind. eapply section_mono; [|exact Hp]. by intros r s1 [-> ->]. Qed.

Lemma section_lift {A} Q (r : res A) s : Q r s -> section Q (lift r) s.
Proof. by destruct r. Qed.

Lemma section_access {B} Q (f : pool -> B * pool) s : local f -> Q (Ok (f s).1) (f s).2 -> section Q (access f) s.
Proof.
  intros Hf HQ. split; [|exact HQ]. intros s' Hs. destruct (Hf s s' Hs) as [H1 H2]. split; [done|]. cbn. by rewrite H2.
Qed.

Lemma section_read {B} Q (f : pool -> B) s : (forall s s', agree s s' -> f s' = f s) -> Q (Ok (f s)) s -> section Q (read f) s.
Proof. intros Hf HQ. apply section_access; [|done]. intros s1 s2 Hs. split; [done|by apply Hf]. Qed.

Lemma section_modify Q (f : pool -> pool) s : local (fun s => (tt, f s)) -> Q (Ok tt) (f s) -> section Q (modify f) s.
Proof. intros Hf HQ. by apply section_access. Qed.

Lemma section_now {Q : res number -> pool -> Prop} s : (forall t, Q (Ok t) s) -> section Q (await Now) s.
Proof. intros HQ t. apply HQ. Qed.

Lemma section_today {Q : res string -> pool -> Prop} s : (forall d, Q (Ok d) s) -> section Q (await Today) s.
Proof. intros HQ d. apply HQ. Qed.

(** A section that runs alone. *)
Lemma section_alone {A} (Q : res A -> pool -> Prop) (Q' : res A -> world -> Prop) (p : thread A) : forall w,
  section Q p (mem w) -> (forall r s, Q r s -> Q' r (set_mem s w)) -> ends answers Q' p w.
Proof.
  induction p as [a|e|o k IH]; intros w Hp HQ; [by destruct w; apply (HQ (Ok a))|by destruct w; apply (HQ (Err e))|].
  destruct o; try done; cbn in Hp |- *; intros r w' Hr.
  - destruct Hr as [-> ->], Hp as [_ Hp]. by apply (IH (Ok (mem w)) (set_mem (f (mem w)) w)).
  - destruct Hr as [-> [t ->]]. by apply IH.
  - destruct Hr as [-> [t ->]]. by apply IH.
Qed.

(** ** Statements *)

Lemma local_stats f : local (fun s => (tt, update_stats f s)).
Proof. solve_local. Qed.

Lemma local_miner w f : local (fun s => (tt, update_miner w f s)).
Proof. solve_local. unfold agree, update_miner. cbn. by destruct (assoc _ _). Qed.

Lemma of_miner_agree {A} (get : miner -> A) w s s' : agree s s' -> of_miner get w s' = of_miner get w s.
Proof. revert s s'. intros [] [] E. by agree_eq E. Qed.

Ltac reads_protected := let E := fresh in intros [] [] E; agree_eq E; reflexivity.

Lemma section_bump Q get put s :
  Q (Ok tt) (update_stats (fun p => put (get p + 1) p) s) -> section Q (bump get put) s.
Proof.
  intros HQ. eapply section_then; [apply section_read; [reads_protected|done]|]. by apply section_modify; [apply local_stats|].
Qed.

Lemma assoc_assoc_set {V} k (v : V) l : assoc k (assoc_set k v l) = Some v.
Proof. induction l as [|[k' v'] l IH]; cbn; [by rewrite String.eqb_refl|]. destruct (String.eqb k k') eqn:E; cbn; rewrite E; done. Qed.

Lemma assoc_set_twice {V} k (v v' : V) l : assoc_set k v' (assoc_set k v l) = assoc_set k v' l.
Proof.
  induction l as [|[k1 v1] l IH]; cbn; [by rewrite String.eqb_refl|]. destruct (String.eqb k k1) eqn:E; cbn; rewrite E; [done|by rewrite IH].
Qed.

Lemma update_miner_twice w f g s : update_miner w g (update_miner w f s) = update_miner w (fun m => g (f m)) s.
Proof.
  unfold update_miner. destruct (assoc w (miner_stats s)) as [m|] eqn:E; [|by rewrite E]. cbn. by rewrite assoc_assoc_set, assoc_set_twice.
Qed.

Lemma section_bump_miner Q get put w s :
  Q (Ok tt) (update_miner w (fun m => put (get m + 1) m) s) -> section Q (bump_miner get put w) s.
Proof.
  intros HQ. eapply section_then; [apply section_read; [apply of_miner_agree|done]|].
  apply section_modify; [apply local_miner|]. unfold of_miner, update_miner in *. by destruct (assoc w (miner_stats s)).
Qed.

(** ** Loops over the miners *)

Definition keys_once (s : pool) : Prop := NoDup (map fst (miner_stats s)).

Lemma assoc_app {V} k (l l' : list (string * V)) : k ∉ map fst l -> assoc k (l ++ l') = assoc k l'.
Proof.
  induction l as [|[k' v'] l IH]; cbn; [done|]. intros Hk. rewrite not_elem_of_cons in Hk. destruct Hk as [Hne Hk].
  rewrite (proj2 (String.eqb_neq k k') Hne). by apply IH.
Qed.

Lemma assoc_set_app {V} k (v : V) (l l' : list (string * V)) : k ∉ map fst l -> assoc_set k v (l ++ l') = l ++ assoc_set k v l'.
Proof.
  induction l as [|[k' v'] l IH]; cbn; [done|]. intros Hk. rewrite not_elem_of_cons in Hk. destruct Hk as [Hne Hk].
  rewrite (proj2 (String.eqb_neq k k') Hne). by rewrite IH.
Qed.

(** A turn that leaves the globals alone; [J] speaks of the miners seen and the accumulator. *)
Lemma section_reading {A} (J : list (string * miner) -> A -> Prop) (body : A -> string -> thread A) a s :
  keys_once s -> J [] a ->
  (forall pre w m post a, miner_stats s = pre ++ (w, m) :: post -> J pre a -> of_miner id w s = m ->
     section (fun r s' => s' = s /\ match r with Ok a' => J (pre ++ [(w, m)]) a' | Err _ => True end) (body a w) s) ->
  section (fun r s' => s' = s /\ match r with Ok a' => J (miner_stats s) a' | Err _ => True end) (for_miners body a) s.
Proof.
  intros Hk HJ Hb. eapply section_then; [apply section_read; [reads_protected|done]|].
  assert (forall post pre a, miner_stats s = pre ++ post -> J pre a ->
    section (fun r s' => s' = s /\ match r with Ok a' => J (miner_stats s) a' | Err _ => True end)
      (each_miner (length (map fst (miner_stats s))) (map fst post) body a) s) as Hloop; [|by apply (Hloop _ [])].
  induction post as [|[w m] post IH]; intros pre a' E Ha; cbn [each_miner map fst].
  all: eapply section_then; [apply section_read; [reads_protected|done]|]; rewrite length_map, Nat.eqb_refl; cbn [negb].
  - split; [done|]. by rewrite E, app_nil_r.
  - assert (w ∉ map fst pre) as Hw.
    { unfold keys_once in Hk. rewrite E, map_app in Hk. apply NoDup_app in Hk as (_ & Hk & _). intros Hin. apply (Hk w Hin). by left. }
    assert (of_miner id w s = m) as Hm by (unfold of_miner; rewrite E, assoc_app by done; cbn; by rewrite String.eqb_refl).
    apply section_bind. eapply section_mono; [|by apply (Hb pre w m post)]. intros [a1|e] s1 [-> Ha1]; [|done].
    rewrite <- (length_map fst). apply (IH (pre ++ [(w, m)])); [by rewrite <- app_assoc|done].
Qed.

(** A turn that changes the record of its miner. *)
Lemma section_updating Q f s :
  keys_once s -> Q (Ok tt) (update_miners f s) -> section Q (for_miners (fun _ w => modify (update_miner w f)) tt) s.
Proof.
  intros Hk HQ. eapply section_then; [apply section_read; [reads_protected|done]|].
  set (g := fun wm : string * miner => (wm.1, f wm.2)).
  assert (forall post pre, NoDup (map fst (pre ++ post)) -> length (map fst (miner_stats s)) = length (pre ++ post) ->
    section (fun r s' => r = Ok tt /\ s' = set_miners (pre ++ map g post) s)
      (each_miner (length (map fst (miner_stats s))) (map fst post) (fun _ w => modify (update_miner w f)) tt) (set_miners (pre ++ post) s))
    as Hloop.
  2:{ assert (s = set_miners ([] ++ miner_stats s) s) as Es by (by destruct s). rewrite Es at 3.
      eapply section_mono; [|apply (Hloop (miner_stats s) [])].
      - intros r s' [-> ->]. exact HQ.
      - exact Hk.
      - by rewrite length_map. }
  induction post as [|[w m] post IH]; intros pre Hnd Hlen; cbn [each_miner map fst].
  all: eapply section_then; [apply section_read; [reads_protected|done]|]; cbn [miner_stats set_miners]; rewrite Hlen, Nat.eqb_refl; cbn [negb].
  - done.
  - assert (w ∉ map fst pre) as Hw.
    { rewrite map_app in Hnd. apply NoDup_app in Hnd as (_ & Hnd & _). intros Hin. apply (Hnd w Hin). by left. }
    eapply section_then; [apply section_modify; [apply local_miner|split; reflexivity]|].
    assert (update_miner w f (set_miners (pre ++ (w, m) :: post) s) = set_miners ((pre ++ [(w, f m)]) ++ post) s) as ->.
    { unfold update_miner. cbn [miner_stats set_miners]. rewrite assoc_app by done. cbn [assoc]. rewrite String.eqb_refl.
      rewrite assoc_set_app by done. cbn [assoc_set]. by rewrite String.eqb_refl, <- app_assoc. }
    rewrite <- Hlen. eapply section_mono; [|apply (IH (pre ++ [(w, f m)]))].
    + intros r s' [-> ->]. by rewrite <- app_assoc.
    + rewrite !map_app in *. cbn in *. by rewrite <- app_assoc.
    + rewrite Hlen, !length_app. cbn. lia.
Qed.

(** ** What the groups of statements do *)

Definition rolled (d : string) (s : pool) : pool :=
  if String.eqb d (ps_day_anchor (pool_stats s)) then s
  else update_miners (put_shares_today 0) (update_stats (fun p => set_blocks_today 0 (set_shares_today 0 (set_day_anchor d p))) s).

Definition enrolled (w : string) (s : pool) : pool :=
  match assoc w (miner_stats s) with
  | Some _ => s
  | None => set_miners (assoc_set w new_miner_stats (miner_stats s)) s
  end.

Definition miner_share (now : number) (diff : option Z) (m : miner) : miner :=
  mk_miner (shares_total m + 1) (shares_today m + 1) (shares_this_round m + 1) now (blocks_found m)
    (match diff with Some d => share_hist m ++ [(now, d)] | None => share_hist m end).

Definition share_seen (p : stats) : stats :=
  set_current_round_shares (ps_current_round_shares p + 1) (set_shares_today (ps_shares_today p + 1) (set_shares_total (ps_shares_total p + 1) p)).

Definition share_added (w : string) (now : number) (s : pool) : pool :=
  update_stats share_seen (update_miner w (miner_share now (share_difficulty <$> current s)) s).

Definition block_counted (b : block) (p : stats) : stats :=
  set_last_block b (set_blocks_today (ps_blocks_today p + 1) (set_blocks_total (ps_blocks_total p + 1) p)).

Definition height_claimed (b : block) (finder : string) (s : pool) : bool * pool :=
  let h := default 0 (b_height b) in
  if bool_decide (h ∈ settled_heights s) then (true, update_stats (fun p => set_orphan_dedupes (ps_orphan_dedupes p + 1) p) s)
  else (false, update_miner finder (fun m => put_blocks_found (blocks_found m + 1) m)
                 (update_stats (block_counted b) (set_settled (settled_heights s ∪ {[ h ]}) s))).

Definition round_ended (s : pool) : pool :=
  update_miners (put_shares_this_round 0) (update_stats (set_current_round_shares 0) s).

Definition job_pushed (j : job) (s : pool) : pool :=
  let ref := length (jobs s) in
  let recent := assoc_set (job_id j) ref (recent_jobs s) in
  set_current (Some ref) (drop (length recent - MAX_RECENT_JOBS) recent) (set_jobs (jobs s ++ [j]) s).

Lemma rollover_section Q s :
  keys_once s -> (forall d, Q (Ok tt) (rolled d s)) -> section Q rollover_if_needed s.
Proof.
  intros Hk HQ. apply section_bind, section_today. intros d. specialize (HQ d). unfold rolled in HQ.
  eapply section_then; [apply section_read; [reads_protected|done]|]. destruct (String.eqb _ _); [exact HQ|].
  do 3 (eapply section_then; [apply section_modify; [apply local_stats|split; reflexivity]|]).
  apply section_updating; [exact Hk|exact HQ].
Qed.

Lemma enroll_section Q w s : Q (Ok tt) (enrolled w s) -> section Q (ensure_miner w) s.
Proof.
  intros HQ. eapply section_then; [apply section_read; [reads_protected|done]|]. unfold enrolled in HQ.
  destruct (assoc w (miner_stats s)); [exact HQ|]. apply section_modify; [solve_local|exact HQ].
Qed.

Lemma update_miner_ext w f g s : (forall m, f m = g m) -> update_miner w f s = update_miner w g s.
Proof. intros H. unfold update_miner. destruct (assoc w (miner_stats s)); [by rewrite H|done]. Qed.

Lemma credit_section Q w s :
  keys_once s -> (forall d now, Q (Ok tt) (share_added w now (enrolled w (rolled d s)))) -> section Q (credit_share w) s.
Proof.
  intros Hk HQ. apply section_bind, rollover_section; [exact Hk|]. intros d. apply section_bind, enroll_section.
  apply section_bind, section_now. intros now. specialize (HQ d now). set (s1 := enrolled w (rolled d s)) in *.
  do 3 apply section_bind, section_bump_miner. rewrite !update_miner_twice.
  eapply section_then; [apply section_read; [reads_protected|done]|].
  assert (forall f, current (update_miner w f s1) = current s1) as ->
    by (intros f; unfold update_miner; by destruct (assoc w (miner_stats s1))).
  apply section_bind. eapply (section_mono (fun r s2 => r = Ok tt /\ s2 = update_miner w (fun m => put_share_hist
    (match current s1 with Some j => share_hist m ++ [(now, share_difficulty j)] | None => share_hist m end)
    (mk_miner (shares_total m + 1) (shares_today m + 1) (shares_this_round m + 1) (last_share_ts m) (blocks_found m) (share_hist m))) s1)).
  - intros r s2 [-> ->]. eapply section_then; [apply section_modify; [apply local_miner|split; reflexivity]|].
    do 2 apply section_bind, section_bump. apply section_bump. rewrite update_miner_twice.
    erewrite update_miner_ext; [exact HQ|]. intros m. by destruct (current s1).
  - destruct (current s1) as [j|].
    + apply section_modify; [apply local_miner|]. split; [done|]. rewrite update_miner_twice. by apply update_miner_ext.
    + split; [done|]. apply update_miner_ext. by intros [].
Qed.

Lemma claim_section Q b finder s :
  Q (Ok (height_claimed b finder s).1) (height_claimed b finder s).2 -> section Q (claim_height b finder) s.
Proof.
  unfold height_claimed. intros HQ. eapply section_then; [apply section_read; [reads_protected|done]|].
  case_bool_decide; cbn [fst snd] in HQ; [by apply section_bind, section_bump|].
  eapply section_then; [apply section_modify; [solve_local|split; reflexivity]|].
  do 2 apply section_bind, section_bump. eapply section_then; [apply section_modify; [apply local_stats|split; reflexivity]|].
  eapply section_then; [apply section_read; [reads_protected|done]|]. apply section_bind.
  set (s1 := update_stats _ _) in *. change (update_stats (block_counted b) _) with s1 in HQ.
  destruct (assoc finder (miner_stats s1)) as [m|] eqn:E; [by apply section_bump_miner|].
  unfold update_miner in HQ. by rewrite E in HQ.
Qed.

Lemma end_section Q s : keys_once s -> Q (Ok tt) (round_ended s) -> section Q end_round s.
Proof.
  intros Hk HQ. eapply section_then; [apply section_modify; [apply local_stats|split; reflexivity]|]. by apply section_updating.
Qed.

Lemma drop_old_section Q fuel : forall s,
  (length (recent_jobs s) <= fuel)%nat ->
  Q (Ok tt) (set_current (current_job s) (drop (length (recent_jobs s) - MAX_RECENT_JOBS) (recent_jobs s)) s) ->
  section Q (drop_old_jobs fuel) s.
Proof.
  induction fuel as [|fuel IH]; intros s Hf HQ; cbn [drop_old_jobs].
  all: eapply section_then; [apply section_read; [reads_protected|done]|].
  all: destruct (Nat.leb_spec (length (recent_jobs s)) MAX_RECENT_JOBS) as [Hle|Hgt];
    [rewrite (proj2 (Nat.sub_0_le _ _) Hle) in HQ; by destruct s|].
  - lia.
  - eapply section_then; [apply section_modify; [solve_local|split; reflexivity]|]. apply IH; cbn [recent_jobs current_job set_current].
    + rewrite length_drop. lia.
    + rewrite length_drop, drop_drop. by replace (1 + (length (recent_jobs s) - 1 - MAX_RECENT_JOBS))%nat with
        (length (recent_jobs s) - MAX_RECENT_JOBS)%nat by lia.
Qed.

Lemma push_section Q j s : Q (Ok tt) (job_pushed j s) -> section Q (push_job j) s.
Proof.
  intros HQ. eapply section_then; [apply section_access; [solve_local|split; reflexivity]|].
  eapply section_then; [apply section_modify; [solve_local|split; reflexivity]|].
  eapply section_then; [apply section_read; [reads_protected|done]|]. by apply drop_old_section.
Qed.
