(* ===== verification/PoolRun.v ===== *)
(** * PoolRun: schedules of the pool server as computations

    [handle] answers one call in a given environment (the clock, the replies of node and wallet, the body of the request, which file
    operations fail); it is one of the ways [answers] allows.  A schedule runs threads in turn, each for a number of
    calls, so a concrete interleaving can be evaluated.  The examples use a small pool with two jobs. *)
From stdpp Require Import relations.
From S2P Require Import Prelude JsCore Number Bytes Python Effects PoolState PoolShares PoolMoney PoolHttp PoolLocks PoolSections.
Local Open Scope Z_scope.
Local Open Scope glaciem_scope.

Record environment : Type := mk_env {
  clock : number;
  day : string;
  token : string;
  replies : server -> string -> pyval -> res pyval;
  body : option pyval;
  verdict : Z;
  unreadable : path -> bool;
  unwritable : path -> bool;
}.

Definition fresh_ptr (m : gmap Z bytes) : Z := 1 + fold_right Z.max 0 (map fst (map_to_list m)).

Lemma fresh_ptr_spec m : 0 < fresh_ptr m /\ m !! fresh_ptr m = None.
Proof.
  assert (forall l : list Z, 0 <= fold_right Z.max 0 l /\ Forall (fun p => p <= fold_right Z.max 0 l) l) as H.
  { induction l as [|p l [IH1 IH2]]; cbn; [by split|]. split; [lia|]. constructor; [lia|].
    eapply Forall_impl; [exact IH2|]. cbn. lia. }
  unfold fresh_ptr. destruct (H (map fst (map_to_list m))) as [H1 H2]. split; [lia|].
  destruct (m !! _) as [s|] eqn:E; [|done]. apply elem_of_map_to_list in E.
  rewrite Forall_forall in H2. specialize (H2 _ (list_elem_of_fmap_2 fst _ _ E)). cbn in H2. lia.
Qed.

Section Handle.
Context (e : environment).

(** [None] when the call has to wait, or ends the process. *)
Definition handle (w : world) (o : op) : option (res (ret o) * world) :=
  match o with
  | Acquire l => if bool_decide (l ∈ held w) then None else Some (Ok tt, set_held (l :: held w) w)
  | Release l => Some (Ok tt, set_held (filter (fun l' => l' ≠ l) (held w)) w)
  | Mem f => Some (Ok (mem w), set_mem (f (mem w)) w)
  | Now => Some (Ok (clock e), w)
  | Today => Some (Ok (day e), w)
  | TokenHex => Some (Ok (token e), w)
  | Post s m ps => Some (replies e s m ps, w)
  | ReadBody _ => Some (Ok (body e), w)
  | Send _ _ => Some (Ok tt, w)
  | Load p => Some (if unreadable e p then Err "OSError" else Ok (file_at (disk w) p), w)
  | Save p c => Some (if unwritable e p then (Err "OSError", w) else (Ok tt, set_disk (put_file (disk w) p c) w))
  | BuildDataset seed => let ptr := fresh_ptr (live w) in Some (Ok ptr, set_live (<[ptr := seed]> (live w)) w)
  | FreeDataset ptr => Some (Ok tt, set_live (delete ptr (live w)) w)
  | Fingerprint ptr => Some (Ok (default [] (live w !! ptr)), w)
  | VerifyShare _ _ _ _ _ => Some (Ok (verdict e), w)
  | Exit => None
  end.

Lemma handle_answers w o r w' : handle w o = Some (r, w') -> answers w o r w'.
Proof.
  destruct o; cbn; try (intros [= <- <-]; by eauto).
  - case_bool_decide; [done|]. by intros [= <- <-].
  - destruct (unreadable e p); intros [= <- <-]; eauto.
  - destruct (unwritable e p); intros [= <- <-]; eauto.
  - intros [= <- <-]. right. destruct (fresh_ptr_spec (live w)). eauto 10.
Qed.

(** A thread until its next call satisfies [stop], or until it ends; at least one call, and at most [n]. *)
Fixpoint run_until {A} (n : nat) (stop : op -> bool) (p : thread A) (w : world) : option (thread A * world) :=
  match p with
  | Vis o k =>
      match n with
      | O => None
      | S n' =>
          match handle w o with
          | Some (r, w') =>
              match k r with
              | Vis o' k' => if stop o' then Some (Vis o' k', w') else run_until n' stop (Vis o' k') w'
              | p' => Some (p', w')
              end
          | None => None
          end
      end
  | _ => Some (p, w)
  end.
End Handle.

(** Four hundred calls are more than any example makes. *)
Definition most_calls : nat := 400.

(** Turns of threads, each with its environment. *)
Definition turn : Type := nat * (op -> bool) * environment.

Fixpoint schedule {A} (l : list turn) (ps : list (thread A)) (w : world) : option (list (thread A) * world) :=
  match l with
  | [] => Some (ps, w)
  | (i, stop, e) :: l' =>
      match ps !! i with
      | Some p => match run_until e most_calls stop p w with
                  | Some (p', w') => schedule l' (<[i := p']> ps) w'
                  | None => None
                  end
      | None => None
      end
  end.

Section Reach.
Context (C : config) `{SetOrder}.

Lemma run_until_reach e stop n : forall p w p' w' ps i,
  run_until e n stop p w = Some (p', w') -> ps !! i = Some p ->
  rtc (server_step C) (w, ps) (w', <[i := p']> ps).
Proof.
  induction n as [|n IH]; intros p w p' w' ps i Hrun Hi.
  { destruct p; [injection Hrun as <- <-; by rewrite list_insert_id..|done]. }
  destruct p as [a|m|o k]; [injection Hrun as <- <-; by rewrite list_insert_id..|].
  cbn [run_until] in Hrun. destruct (handle e w o) as [[r w1]|] eqn:Eh; [|done].
  eapply rtc_l; [eapply step_call; [exact Hi|by apply (handle_answers e)]|].
  destruct (k r) as [a|m|o' k'] eqn:Ek; [injection Hrun as <- <-; done..|].
  destruct (stop o'); [injection Hrun as <- <-; done|].
  rewrite <- (list_insert_insert_eq ps i p' (Vis o' k')). apply (IH (Vis o' k')); [done|].
  apply list_lookup_insert_eq. by eapply lookup_lt_Some.
Qed.

Lemma schedule_reach l : forall ps w ps' w',
  schedule l ps w = Some (ps', w') -> rtc (server_step C) (w, ps) (w', ps').
Proof.
  induction l as [|[[i stop] e] l IH]; intros ps w ps' w'; cbn [schedule]; [by intros [= <- <-]|].
  destruct (ps !! i) as [p|] eqn:Hi; [|done]. destruct (run_until e _ stop p w) as [[p1 w1]|] eqn:Hr; [|done].
  intros Hs. etrans; [by eapply run_until_reach|by apply IH].
Qed.

Lemma arrive_all ps : Forall (server_thread C) ps -> forall w, rtc (server_step C) (w, []) (w, ps).
Proof.
  intros Hps w. induction ps as [|p ps IH] using rev_ind; [done|]. apply Forall_app in Hps as [Hps Hp].
  apply Forall_cons in Hp as [Hp _]. eapply rtc_r; [by apply IH|]. by apply step_arrive.
Qed.

(** A checked run of a schedule is reachable. *)
Lemma schedule_check l ps w (check : list (thread unit) -> world -> bool) :
  Forall (server_thread C) ps ->
  match schedule l ps w with Some (ps', w') => check ps' w' | None => false end = true ->
  exists w' ps', rtc (server_step C) (w, []) (w', ps') /\ check ps' w' = true.
Proof.
  intros Hps Hc. destruct (schedule l ps w) as [[ps' w']|] eqn:E; [|done]. exists w', ps'. split; [|done].
  etrans; [by apply arrive_all|by eapply schedule_reach].
Qed.
End Reach.

(** A single thread to its end. *)
Definition alone {A} (e : environment) (p : thread A) (w : world) : option (res A * world) :=
  match run_until e most_calls (fun _ => false) p w with
  | Some (Ret a, w') => Some (Ok a, w')
  | Some (Throw m, w') => Some (Err m, w')
  | _ => None
  end.

Lemma alone_exec {A} e (p : thread A) w out w' : alone e p w = Some (out, w') -> exists tr, exec answers p w tr w' out.
Proof.
  unfold alone. generalize most_calls. intros n. revert p w. induction n as [|n IH]; intros p w.
  { destruct p; [intros [= <- <-]; eexists; constructor..|done]. }
  destruct p as [a|m|o k]; [intros [= <- <-]; eexists; constructor..|].
  cbn [run_until]. destruct (handle e w o) as [[r w1]|] eqn:Eh; [|done]. intros Hr.
  assert (exists tr, exec answers (k r) w1 tr w' out) as [tr Htr].
  { destruct (k r) as [a|m|o' k']; [injection Hr as <- <-; eexists; constructor..|]. by apply IH. }
  eexists. eapply exec_vis; [by apply (handle_answers e)|exact Htr].
Qed.

(** ** A small pool *)

Definition alice : string := of_chars ("R"%char :: replicate 94 "1"%char).
Definition bob : string := of_chars ("R"%char :: replicate 94 "2"%char).

Definition zeros (n : nat) : pyval := PStr (of_chars (replicate (2 * n) "0"%char)).
Definition seed (c : ascii) : pyval := PStr (of_chars (replicate 64 c)).

Definition a_job (id : string) (s : pyval) : job := mk_job id (zeros 76) (zeros 76) s 7 1000 1 "ffffffff" num_one ∅.

Definition pool0 : pool := job_pushed (a_job "j_b" (seed "b")) (job_pushed (a_job "j_a" (seed "a")) (initial_pool num_one "2026-05-01")).
Definition no_files : files := mk_files None None None None None.
Definition world0 : world := mk_world pool0 [] no_files ∅.

Definition result (v : pyval) : res pyval := Ok (PDict [("result"%string, v)]).

(** The node accepts every block and reports a reward of 1000; the wallet has ten coins unlocked and accepts every transfer. *)
Definition kind_replies (s : server) (m : string) (_ : pyval) : res pyval :=
  if String.eqb m "submitblock" then result (PDict [("status", PStr "OK")]%string)
  else if String.eqb m "get_block_header_by_height" then result (PDict [("block_header", PDict [("reward", PInt 1000)])]%string)
  else if String.eqb m "get_balance" then result (PDict [("unlocked_balance", PInt (10 ^ 13))]%string)
  else if String.eqb m "transfer" then result (PDict [("tx_hash", PStr "ab"); ("fee", PInt 1000)]%string)
  else Err "URLError".

Definition submission (jid wallet : string) (full : bool) : pyval :=
  PDict [("job_id", PStr jid); ("wallet", PStr wallet); ("nonce", PInt 5); ("full_block", PBool full)]%string.

Definition env (b : pyval) : environment :=
  mk_env (num_of_Z 1000) "2026-05-01" "cc" kind_replies (Some b) 1 (fun _ => false) (fun _ => false).

Definition post_submit : request := mk_request (Some "200"%string) "/pool/submit" [].

Definition a_credit (w : string) (h a shares : Z) : credit :=
  mk_credit (Some 1) (Some h) (Some w) (Some a) (Some shares) (Some 2) (Some 0).
Definition a_payout (w : string) (a : Z) : payout := mk_payout (Some 1) (Some w) (Some a) (PStr "aa") (Some 0) (Some 0) None.

Definition to_end (_ : op) : bool := false.
