(* ===== verification/PoolInv.v ===== *)
(** * PoolInv: what holds of the pool server's globals under every interleaving

    [pool_ok] relates the counters that are kept twice: the pool's share counters are the sums of the miners' counters, and the
    blocks counted are the heights settled since the start.  The code changes these counters one after another, so [pool_ok] is broken
    between its statements; that it holds whenever [STATE_LOCK] is free, in every schedule, is because every such statement is made
    under the lock, and because the statements of each locked section together keep it, also when an exception ends the section.

    [owns] is a program that changes what the lock protects only while it holds the lock, may assume [pool_ok] when it gets the lock and
    has to establish it before the release. *)
From stdpp Require Import relations.
From S2P Require Import Prelude JsCore Number Bytes Python Effects PoolState PoolShares PoolMoney PoolHttp PoolLocks PoolSections PoolRun.
Local Open Scope Z_scope.
Local Open Scope glaciem_scope.

Create HintDb pool_ok.

(** ** Sums over the miners *)

Fixpoint sum_by (f : miner -> Z) (l : list (string * miner)) : Z :=
  match l with [] => 0 | (_, m) :: l' => f m + sum_by f l' end.

Lemma sum_by_assoc_set f w m l :
  sum_by f (assoc_set w m l) = sum_by f l + f m - match assoc w l with Some m' => f m' | None => 0 end.
Proof.
  induction l as [|[w' m'] l IH]; cbn; [lia|]. destruct (String.eqb w w'); cbn; [lia|]. rewrite IH. lia.
Qed.

Lemma sum_by_map f g l : (forall m, f (g m) = f m) -> sum_by f (map (fun wm => (wm.1, g wm.2)) l) = sum_by f l.
Proof. intros H. induction l as [|[w m] l IH]; cbn; [done|]. by rewrite H, IH. Qed.

Lemma sum_by_zero f (g : miner -> miner) l : (forall m, f (g m) = 0) -> sum_by f (map (fun wm => (wm.1, g wm.2)) l) = 0.
Proof. intros H. induction l as [|[w m] l IH]; cbn; [done|]. by rewrite H, IH. Qed.

Lemma length_assoc_set {V} k (v : V) l : (length (assoc_set k v l) <= S (length l))%nat.
Proof. induction l as [|[k' v'] l IH]; cbn; [lia|]. destruct (String.eqb k k'); cbn; lia. Qed.

Lemma assoc_set_forall {V} (P : string * V -> Prop) k v l :
  Forall P l -> P (k, v) -> Forall (fun kv => P kv \/ kv.2 = v) (assoc_set k v l).
Proof.
  intros Hl Hv. induction Hl as [|[k' v'] l Hk Hl IH]; cbn; [by repeat constructor; left|].
  destruct (String.eqb k k'); constructor; [by right|by eapply Forall_impl; [exact Hl|left]|by left|done].
Qed.

Lemma size_settle (X Y : gset Z) h : Y ⊆ X -> h ∉ X -> size ((X ∪ {[ h ]}) ∖ Y) = S (size (X ∖ Y)).
Proof.
  intros HY Hh. assert ((X ∪ {[ h ]}) ∖ Y = (X ∖ Y) ∪ {[ h ]}) as -> by set_solver.
  rewrite size_union by set_solver. rewrite size_singleton. lia.
Qed.

(** ** The invariant *)

Definition job_ok (j : job) : Prop := 1 <= share_difficulty j.

Record pool_ok (primed : gset Z) (s : pool) : Prop := mk_pool_ok {
  ok_round : ps_current_round_shares (pool_stats s) = sum_by shares_this_round (miner_stats s);
  ok_total : ps_shares_total (pool_stats s) = sum_by shares_total (miner_stats s);
  ok_today : ps_shares_today (pool_stats s) = sum_by shares_today (miner_stats s);
  ok_primed : primed ⊆ settled_heights s;
  ok_blocks : ps_blocks_total (pool_stats s) = Z.of_nat (size (settled_heights s ∖ primed));
  ok_nonneg : Forall (fun wm => 0 <= shares_this_round wm.2) (miner_stats s);
  ok_recent : (length (recent_jobs s) <= MAX_RECENT_JOBS)%nat;
  ok_refs : Forall (fun kr => (kr.2 < length (jobs s))%nat) (recent_jobs s);
  ok_current : forall ref, current_job s = Some ref -> (ref < length (jobs s))%nat;
  ok_jobs : Forall job_ok (jobs s);
  ok_keys : keys_once s;
}.

Lemma pool_ok_agree primed s s' : agree s s' -> pool_ok primed s -> pool_ok primed s'.
Proof. destruct s, s'. intros E. agree_eq E. by intros []. Qed.

Section Keep.
Context (primed : gset Z).
Abbreviation ok := (pool_ok primed).

(** Statistics that are no sums. *)
Lemma ok_update_stats f s :
  (forall p, ps_current_round_shares (f p) = ps_current_round_shares p /\ ps_shares_total (f p) = ps_shares_total p /\
             ps_shares_today (f p) = ps_shares_today p /\ ps_blocks_total (f p) = ps_blocks_total p) ->
  ok s -> ok (update_stats f s).
Proof. intros Hf []. destruct (Hf (pool_stats s)) as (E1 & E2 & E3 & E4). split; cbn; by rewrite ?E1, ?E2, ?E3, ?E4. Qed.

Lemma ok_set_rejects f s : ok s -> ok (update_stats (fun p => set_rejects_by_reason (f p) p) s).
Proof. by apply ok_update_stats. Qed.
Lemma ok_default_reject r s : ok s -> ok (update_stats (default_reject r) s).
Proof. apply ok_update_stats. intros p. unfold default_reject. by destruct (assoc r _). Qed.
Lemma ok_set_submits v s : ok s -> ok (update_stats (set_submits_total v) s).
Proof. by apply ok_update_stats. Qed.
Lemma ok_set_last_block b s : ok s -> ok (update_stats (set_last_block b) s).
Proof. by apply ok_update_stats. Qed.

Lemma keys_map (g : miner -> miner) l : map fst (map (fun wm : string * miner => (wm.1, g wm.2)) l) = map fst l.
Proof. rewrite map_map. by apply map_ext. Qed.

Lemma keys_of_assoc_set {V} k (v : V) l x : x ∈ map fst (assoc_set k v l) <-> x = k \/ x ∈ map fst l.
Proof.
  induction l as [|[k' v'] l IH]; cbn; [set_solver|].
  destruct (String.eqb_spec k k') as [->|]; cbn; [set_solver|]. rewrite !elem_of_cons, IH. tauto.
Qed.

Lemma keys_assoc_set {V} k (v : V) l : NoDup (map fst l) -> NoDup (map fst (assoc_set k v l)).
Proof.
  induction l as [|[k' v'] l IH]; cbn; [intros; apply NoDup_singleton|]. intros [Hk Hl]%NoDup_cons.
  destruct (String.eqb_spec k k') as [->|Hne]; cbn; constructor; [done|done| |by apply IH].
  rewrite keys_of_assoc_set. by intros [?|?].
Qed.

Lemma ok_rolled d s : ok s -> ok (rolled d s).
Proof.
  intros Hok. unfold rolled. destruct (String.eqb _ _); [done|]. destruct Hok. split; cbn; try done.
  - by rewrite sum_by_map.
  - by rewrite sum_by_map.
  - by rewrite sum_by_zero.
  - apply Forall_map. by eapply Forall_impl; [eassumption|].
  - unfold keys_once. cbn. by rewrite keys_map.
Qed.

Lemma ok_round_ended s : ok s -> ok (round_ended s).
Proof.
  intros []. split; cbn; try done.
  - by rewrite sum_by_zero.
  - by rewrite sum_by_map.
  - by rewrite sum_by_map.
  - apply Forall_map. eapply Forall_impl; [eassumption|]. done.
  - unfold keys_once. cbn. by rewrite keys_map.
Qed.

Lemma forall_assoc {V} (P : string * V -> Prop) k (v : V) l : Forall P l -> assoc k l = Some v -> exists k', P (k', v).
Proof.
  induction 1 as [|[k' v'] l Hk _ IH]; cbn; [done|]. destruct (String.eqb k k'); [intros [= <-]; by exists k'|done].
Qed.

Lemma ok_set_miner w m s :
  0 <= shares_this_round m ->
  let m0 := default new_miner_stats (assoc w (miner_stats s)) in
  forall p, ok s ->
  ps_current_round_shares p = ps_current_round_shares (pool_stats s) + shares_this_round m - shares_this_round m0 ->
  ps_shares_total p = ps_shares_total (pool_stats s) + shares_total m - shares_total m0 ->
  ps_shares_today p = ps_shares_today (pool_stats s) + shares_today m - shares_today m0 ->
  ps_blocks_total p = ps_blocks_total (pool_stats s) ->
  ok (set_stats p (set_miners (assoc_set w m (miner_stats s)) s)).
Proof.
  intros Hm m0 p [] E1 E2 E3 E4. split; cbn; try done.
  1-3: rewrite sum_by_assoc_set, ?E1, ?E2, ?E3, ?ok_round0, ?ok_total0, ?ok_today0; unfold m0;
       destruct (assoc w (miner_stats s)); cbn; lia.
  - congruence.
  - pose proof (assoc_set_forall _ w m _ ok_nonneg0 Hm) as H. eapply Forall_impl; [exact H|]. by intros [w' m'] [?| ->].
  - by apply keys_assoc_set.
Qed.

Lemma old_nonneg w s : ok s -> 0 <= shares_this_round (default new_miner_stats (assoc w (miner_stats s))).
Proof.
  intros []. destruct (assoc w (miner_stats s)) as [m|] eqn:E; cbn; [|done].
  by destruct (forall_assoc _ _ _ _ ok_nonneg0 E).
Qed.

Lemma ok_enrolled w s : ok s -> ok (enrolled w s).
Proof.
  intros Hok. unfold enrolled. destruct (assoc w (miner_stats s)) eqn:E; [done|].
  apply (ok_set_miner w new_miner_stats s ltac:(done) (pool_stats s)); rewrite ?E; cbn; [done|lia..].
Qed.

(** A share for a miner that has a record, as the lookup before has seen to. *)
Lemma ok_share_added w now s : ok s -> is_Some (assoc w (miner_stats s)) -> ok (share_added w now s).
Proof.
  intros Hok [m Hm]. pose proof (old_nonneg w s Hok) as Hn. rewrite Hm in Hn. cbn in Hn. unfold share_added, update_miner. rewrite Hm.
  apply (ok_set_miner w (miner_share _ _ _) s); rewrite ?Hm; cbn; [lia|done|lia..].
Qed.

Lemma enrolled_some w s : is_Some (assoc w (miner_stats (enrolled w s))).
Proof. unfold enrolled. destruct (assoc w (miner_stats s)) eqn:E; cbn; [by rewrite E|]. rewrite assoc_assoc_set. by eexists. Qed.

Lemma ok_update_miner w f s :
  (forall m, shares_this_round (f m) = shares_this_round m /\ shares_total (f m) = shares_total m /\
             shares_today (f m) = shares_today m) -> ok s -> ok (update_miner w f s).
Proof.
  intros Hf Hok. unfold update_miner. destruct (assoc w (miner_stats s)) as [m|] eqn:E; [|done].
  pose proof (old_nonneg w s Hok) as Hm. rewrite E in Hm. destruct (Hf m) as (E1 & E2 & E3).
  apply (ok_set_miner w (f m) s ltac:(cbn in Hm; lia) (pool_stats s)); rewrite ?E; cbn; [done|lia..].
Qed.

Lemma ok_update_miners f s :
  (forall m, shares_this_round (f m) = shares_this_round m /\ shares_total (f m) = shares_total m /\
             shares_today (f m) = shares_today m) -> ok s -> ok (update_miners f s).
Proof.
  intros Hf []. split; cbn; try done.
  1-3: rewrite sum_by_map; [done|]; intros m; apply Hf.
  - apply Forall_map. eapply Forall_impl; [eassumption|]. intros [w m]. cbn. by rewrite (proj1 (Hf m)).
  - unfold keys_once. cbn. by rewrite keys_map.
Qed.

Lemma ok_job_pushed j s : job_ok j -> ok s -> ok (job_pushed j s).
Proof.
  intros Hj []. unfold job_pushed. set (recent := assoc_set _ _ _). split; cbn; try done.
  - rewrite length_drop. unfold MAX_RECENT_JOBS. lia.
  - apply Forall_drop. rewrite length_app. cbn.
    assert (Forall (fun kr => (kr.2 < length (jobs s) + 1)%nat) recent) as H; [|done].
    eapply Forall_impl; [apply (assoc_set_forall (fun kr => (kr.2 < length (jobs s) + 1)%nat))|]; cbn; [|lia|].
    + eapply Forall_impl; [eassumption|]. cbn. lia.
    + intros [k r] [?|?]; cbn in *; lia.
  - intros ref [= <-]. rewrite length_app. cbn. lia.
  - apply Forall_app. by repeat constructor.
Qed.

Lemma ok_mark_submission ref k s : ok s -> ok (mark_submission ref k s).
Proof.
  intros Hok. unfold mark_submission. destruct (jobs s !! ref) as [j|] eqn:E; [|done]. destruct Hok.
  split; cbn; rewrite ?length_insert; try done. apply Forall_insert; [done|]. by apply (Forall_lookup_1 _ _ _ _ ok_jobs0 E).
Qed.

(** Settling a height: the count grows by the one new height. *)
Lemma ok_height_claimed b finder s : ok s -> ok (height_claimed b finder s).2.
Proof.
  intros Hok. unfold height_claimed. case_bool_decide as Hin; cbn; [by apply ok_update_stats|].
  apply ok_update_miner; [done|]. destruct Hok. split; cbn; try done; [set_solver|]. rewrite ok_blocks0.
  rewrite (size_settle _ _ _ ok_primed0 Hin). lia.
Qed.
End Keep.

(** ** Programs that change the protected globals under the lock only *)

Section Owns.
Context (I : pool -> Prop) (I_agree : forall s s', agree s s' -> I s -> I s').

(** [h] is the globals while the program holds the lock: what the lock protects is exactly that. *)
Fixpoint owns {A} (Q : option pool -> res A -> Prop) (h : option pool) (p : thread A) {struct p} : Prop :=
  match p with
  | Ret a => Q h (Ok a)
  | Throw e => Q h (Err e)
  | Vis o k =>
      match o as o0 return (res (ret o0) -> thread A) -> Prop with
      | Acquire STATE => fun k => h = None /\ forall s, I s -> owns Q (Some s) (k (Ok tt))
      | Release STATE => fun k => exists s, h = Some s /\ I s /\ owns Q None (k (Ok tt))
      | Mem f => fun k =>
          match h with
          | None => forall s, agree s (f s) /\ owns Q None (k (Ok s))
          | Some s0 => forall s, agree s0 s -> owns Q (Some (f s)) (k (Ok s))
          end
      | Now => fun k => forall t, owns Q h (k (Ok t))
      | Today => fun k => forall d, owns Q h (k (Ok d))
      | Exit => fun _ => True
      | _ => fun k => forall r, owns Q h (k r)
      end k
  end.

(** Induction over a program. *)
Ltac owns_induction p :=
  induction p as [?|?|o k IH]; intros h;
  [cbn..|cbn; destruct o as [l|l|m| | | | | | | | | | | | |]; [destruct l|destruct l|destruct h as [s0|]|..];
    first [ intros Hk r; by apply IH, Hk
          | intros [Hh Hk]; split; [done|]; intros s Hs; by apply IH, Hk
          | intros (s & Hh & Hs & Hk); exists s; split_and!; [done|done|by apply IH]
          | intros Hk s Hs; by apply IH, Hk
          | intros Hk s; destruct (Hk s); split; [done|by apply IH]
          | done ]].

Lemma owns_mono {A} (Q Q' : option pool -> res A -> Prop) (p : thread A) :
  (forall h r, Q h r -> Q' h r) -> forall h, owns Q h p -> owns Q' h p.
Proof. intros HQ. owns_induction p; apply HQ. Qed.

Lemma owns_bind {A B} Q (p : thread A) (f : A -> thread B) : forall h,
  owns (fun h r => match r with Ok a => owns Q h (f a) | Err e => Q h (Err e) end) h p -> owns Q h (bind p f).
Proof. owns_induction p; done. Qed.

Lemma owns_catch {A} Q (p : thread A) (g : string -> thread A) : forall h,
  owns (fun h r => match r with Ok a => Q h (Ok a) | Err e => owns Q h (g e) end) h p -> owns Q h (catch p g).
Proof. owns_induction p; done. Qed.

(** A section, whatever the rest of the globals is. *)
Lemma section_owns {A} (Q : res A -> pool -> Prop) (Q' : option pool -> res A -> Prop) (p : thread A) :
  (forall r s s', Q r s -> agree s s' -> Q' (Some s') r) -> forall s0 s, section Q p s0 -> agree s0 s -> owns Q' (Some s) p.
Proof.
  intros HQ. induction p as [a|e|o k IH]; intros s0 s Hp Hs; [by eapply HQ..|].
  destruct o; try done; cbn in Hp |- *; [|intros t; by apply (IH _ s0)..].
  intros s' Hs'. destruct Hp as [Hl Hp]. destruct (Hl s' (transitivity Hs Hs')) as [H1 H2]. rewrite H2. by apply (IH _ (f s0)).
Qed.

(** [keeps inside p]: code that runs with the lock, or without it, and leaves the invariant as it was. *)
Definition held_ok (inside : bool) (h : option pool) : Prop :=
  match h with None => inside = false | Some s => inside = true /\ I s end.

Definition keeps (inside : bool) {A} (p : thread A) : Prop :=
  forall h, held_ok inside h -> owns (fun h' _ => held_ok inside h') h p.

Context {inside : bool}.

Lemma keeps_ret {A} (a : A) : keeps inside (Ret a : thread A).
Proof. by intros h Hh. Qed.

Lemma keeps_throw {A} e : keeps inside (Throw e : thread A).
Proof. by intros h Hh. Qed.

Lemma keeps_lift {A} (r : res A) : keeps inside (lift r).
Proof. destruct r; [apply keeps_ret|apply keeps_throw]. Qed.

Lemma keeps_bind {A B} (p : thread A) (f : A -> thread B) :
  keeps inside p -> (forall a, keeps inside (f a)) -> keeps inside (bind p f).
Proof. intros Hp Hf h Hh. apply owns_bind. eapply owns_mono; [|by apply Hp]. intros h' [a|e] Hh'; [by apply Hf|done]. Qed.

Lemma keeps_catch {A} (p : thread A) (g : string -> thread A) :
  keeps inside p -> (forall e, keeps inside (g e)) -> keeps inside (catch p g).
Proof. intros Hp Hf h Hh. apply owns_catch. eapply owns_mono; [|by apply Hp]. intros h' [a|e] Hh'; [done|by apply Hf]. Qed.

Lemma keeps_attempt {A} (p : thread A) : keeps inside p -> keeps inside (attempt p).
Proof. intros Hp. apply keeps_catch; [|intros e; apply keeps_ret]. apply keeps_bind; [done|]. intros a. apply keeps_ret. Qed.

(** Calls that do not touch the globals. *)
Definition elsewhere (o : op) : bool := match o with Acquire STATE | Release STATE | Mem _ => false | _ => true end.

Lemma keeps_await o : elsewhere o = true -> keeps inside (await o).
Proof.
  intros Ho h Hh. destruct o as [[]|[]|f| | | | | | | | | | | | |]; try done; cbn; try done; by intros [r|e].
Qed.

(** Globals that the lock does not protect can be changed at any time. *)
Lemma keeps_access {B} (f : pool -> B * pool) : (forall s, agree s (f s).2) -> keeps inside (access f).
Proof.
  intros Hf [s0|] Hh; cbn; [|by intros s]. intros s Hs. destruct Hh as [-> Hi]. split; [done|].
  eapply I_agree; [|exact Hi]. by transitivity s.
Qed.

Lemma keeps_lock {A} l (p : thread A) : elsewhere (Acquire l) = true -> keeps inside p -> keeps inside (with_lock l p).
Proof.
  intros Hl Hp. apply keeps_bind; [by apply keeps_await|]. intros _. apply keeps_bind; [by apply keeps_attempt|].
  intros r. apply keeps_bind; [by apply keeps_await; destruct l|]. intros _. apply keeps_lift.
Qed.

Lemma keeps_each {A} (body : A -> string -> thread A) n ws : (forall a w, keeps inside (body a w)) -> forall a,
  keeps inside (each_miner n ws body a).
Proof.
  intros Hb. induction ws as [|w ws IH]; intros a; cbn [each_miner]; (apply keeps_bind; [by apply keeps_access|]); intros n'.
  - destruct (negb _); [apply keeps_throw|apply keeps_ret].
  - destruct (negb _); [apply keeps_throw|by apply keeps_bind].
Qed.

Lemma keeps_for {A} (body : A -> string -> thread A) a : (forall a w, keeps inside (body a w)) -> keeps inside (for_miners body a).
Proof. intros Hb. apply keeps_bind; [by apply keeps_access|]. intros ws. by apply keeps_each. Qed.
End Owns.

Section Inside.
Context (I : pool -> Prop) (I_agree : forall s s', agree s s' -> I s -> I s').

Lemma keeps_section {A} (p : thread A) : (forall s, I s -> section (fun _ s' => I s') p s) -> keeps I true p.
Proof.
  intros Hp [s|] Hh; [|done]. destruct Hh as [_ Hh]. eapply section_owns; [|by apply Hp|done].
  intros r s1 s2 H1 H2. split; [done|]. by eapply I_agree.
Qed.

Lemma keeps_change (f : pool -> pool) : (forall s, I s -> I (f s)) -> keeps I true (modify f).
Proof.
  intros Hf [s0|] Hh; [|done]. intros s Hs. destruct Hh as [_ Hi]. split; [done|]. apply Hf. by eapply I_agree.
Qed.

(** The invariant is there when the lock is taken, and has to be there when it is released. *)
Lemma keeps_state {A} (p : thread A) : keeps I true p -> keeps I false (with_lock STATE p).
Proof.
  intros Hp [s|] Hh; [by destruct Hh|]. split; [done|]. intros s Hs.
  change (owns I (fun h' _ => held_ok I false h') (Some s) (let! r := attempt p in do! await (Release STATE) in lift r)).
  apply owns_bind, owns_catch, owns_bind. eapply owns_mono; [|by apply (Hp (Some s))].
  intros [s'|] r Hh'; [|done]. destruct Hh' as [_ Hs']. by destruct r; exists s'.
Qed.
End Inside.

(** Walk through a program; the accesses that remain are left to the hints. *)
Ltac keep_step :=
  match goal with
  | |- keeps _ _ (Ret _) => apply keeps_ret
  | |- keeps _ _ (Throw _) => apply keeps_throw
  | |- keeps _ _ (lift _) => apply keeps_lift
  | |- keeps ?J _ (await ?o) => exact (keeps_await J o eq_refl)
  | |- keeps ?J ?b (send ?s ?c) => exact (keeps_await J (Send s c) eq_refl)
  | |- keeps ?J ?b (save_json_atomic ?p ?c) => exact (keeps_await J (Save p c) eq_refl)
  | |- keeps _ _ (read _) => apply keeps_access; [apply pool_ok_agree|done]
  | |- keeps _ _ (modify _) => apply keeps_access; [apply pool_ok_agree|done]
  | |- keeps _ true (modify _) => apply keeps_change; [apply pool_ok_agree|intros]
  | |- keeps _ _ (bind _ _) => apply keeps_bind; [|intros ?]
  | |- keeps _ _ (catch _ _) => apply keeps_catch; [|intros ?]
  | |- keeps _ _ (attempt _) => apply keeps_attempt
  | |- keeps _ _ (for_miners _ _) => apply keeps_for; [apply pool_ok_agree|intros ? ?]
  | |- keeps _ _ (with_lock STATE _) => apply keeps_state
  | |- keeps _ _ (with_lock _ _) => apply keeps_lock; [reflexivity|]
  | |- keeps _ _ (match ?x with _ => _ end) => destruct x
  end.
Ltac walk_keeps := repeat (cbv beta zeta; first [solve [eauto with pool_ok] | keep_step]).

#[export] Hint Resolve ok_set_rejects ok_default_reject ok_set_submits ok_set_last_block ok_mark_submission : pool_ok.

Section Threads.
Context (C : config) `{SetOrder} (primed : gset Z).
Abbreviation keep := (keeps (pool_ok primed)).

(** The sections. *)
Lemma rollover_keeps : keep true rollover_if_needed.
Proof. apply keeps_section; [apply pool_ok_agree|]. intros s Hs. apply rollover_section; [apply Hs|]. intros d. by apply ok_rolled. Qed.

Lemma ensure_miner_keeps w : keep true (ensure_miner w).
Proof. apply keeps_section; [apply pool_ok_agree|]. intros s Hs. by apply enroll_section, ok_enrolled. Qed.

Lemma credit_share_keeps w : keep true (credit_share w).
Proof.
  apply keeps_section; [apply pool_ok_agree|]. intros s Hs. apply credit_section; [apply Hs|]. intros d now.
  apply ok_share_added; [by apply ok_enrolled, ok_rolled|apply enrolled_some].
Qed.

Lemma claim_height_keeps b w : keep true (claim_height b w).
Proof. apply keeps_section; [apply pool_ok_agree|]. intros s Hs. by apply claim_section, ok_height_claimed. Qed.

Lemma end_round_keeps : keep true end_round.
Proof. apply keeps_section; [apply pool_ok_agree|]. intros s Hs. apply end_section; [apply Hs|]. by apply ok_round_ended. Qed.

Lemma push_job_keeps j : job_ok j -> keep true (push_job j).
Proof. intros Hj. apply keeps_section; [apply pool_ok_agree|]. intros s Hs. by apply push_section, ok_job_pushed. Qed.

Lemma count_reject_keeps r : keep true (count_reject r).
Proof. unfold count_reject. walk_keeps. Qed.

Lemma count_submit_keeps : keep true count_submit.
Proof. unfold count_submit, bump. walk_keeps. Qed.
#[local] Hint Resolve rollover_keeps ensure_miner_keeps credit_share_keeps claim_height_keeps end_round_keeps count_reject_keeps
  count_submit_keeps : pool_ok.

Lemma json_rpc_keeps b n s m ps : keep b (json_rpc n s m ps).
Proof. unfold json_rpc. walk_keeps. Qed.

Lemma load_json_file_keeps b p d : keep b (load_json_file p d).
Proof. unfold load_json_file. walk_keeps. Qed.
#[local] Hint Resolve load_json_file_keeps : pool_ok.
#[local] Hint Extern 1 (keeps _ _ (rpc _ _)) => apply json_rpc_keeps : pool_ok.
#[local] Hint Extern 1 (keeps _ _ (wallet_rpc _ _)) => apply json_rpc_keeps : pool_ok.

Lemma refresh_job_keeps : keep false (refresh_job C).
Proof. unfold refresh_job. walk_keeps. apply push_job_keeps. unfold job_ok. cbn. lia. Qed.

Lemma verify_keeps j n : keep false (verify_share_against_job C j n).
Proof. unfold verify_share_against_job, get_dataset_for, build_and_verify. walk_keeps. Qed.

Lemma settle_round_keeps b : keep true (settle_round C b).
Proof.
  unfold settle_round, stamp_block, settle_entries, settle_entry, sponsorship_consume_block, load_sponsorship, append_credits.
  walk_keeps.
Qed.
#[local] Hint Resolve refresh_job_keeps verify_keeps settle_round_keeps : pool_ok.

Lemma submit_block_keeps j n w : keep false (submit_block C j n w).
Proof. unfold submit_block, append_block. walk_keeps. Qed.
#[local] Hint Resolve submit_block_keeps : pool_ok.

Lemma reject_invalid_keeps j w : keep false (reject_invalid C j w).
Proof. unfold reject_invalid, count_rejected, add_bad, ban. walk_keeps. Qed.

Lemma is_banned_keeps w : keep false (is_banned C w).
Proof. unfold is_banned. walk_keeps. Qed.

Lemma accept_share_keeps r w n t : keep false (accept_share r w n t).
Proof. unfold accept_share. walk_keeps. Qed.
#[local] Hint Resolve reject_invalid_keeps is_banned_keeps accept_share_keeps : pool_ok.

Lemma do_POST_keeps rq : keep false (do_POST C rq).
Proof.
  unfold do_POST, handle_job, handle_submit, read_json, hard_checks, take_job, count_rejected, answered. walk_keeps.
Qed.

Lemma compute_hashrate_keeps now w : keep true (compute_hashrate C now w).
Proof. unfold compute_hashrate. walk_keeps. by apply ok_update_miner. Qed.
#[local] Hint Resolve compute_hashrate_keeps : pool_ok.

Lemma do_GET_keeps rq : keep false (do_GET C rq).
Proof.
  unfold do_GET, handle_stats, handle_miner, handle_blocks, handle_payouts, count_active, sum_hashrates, maturity_snapshot,
    sponsorship_snapshot, load_sponsorship, compute_maturing_balances, compute_pending_balances, arrived_now, answered.
  walk_keeps.
Qed.

Lemma maturity_keeps : keep false (maturity_refresh_once C).
Proof. unfold maturity_refresh_once. walk_keeps. Qed.

Lemma rounds_keep :
  keep false (payout_iteration C) /\ keep false (cold_sweep_iteration C) /\ keep false (maturity_iteration C) /\
  keep false (reconcile_iteration C) /\ forall t, keep false (refresh_round C t).
Proof.
  pose proof maturity_keeps.
  unfold payout_iteration, payout_round, cold_sweep_iteration, cold_sweep_once, maturity_iteration,
    reconcile_iteration, reconcile_credits_once, compute_pending_balances, arrived_now, refresh_round.
  split_and!; intros; walk_keeps.
Qed.

Lemma loop_keeps n p : keep false p -> keep false (loop n p).
Proof. intros Hp. induction n as [|n IH]; cbn [loop]; walk_keeps. Qed.

Lemma server_thread_keeps p : server_thread C p -> keep false p.
Proof.
  pose proof rounds_keep as (H1 & H2 & H3 & H4 & H5).
  destruct 1 as [rq|rq|n t|n|n|n|n]; [apply do_POST_keeps|apply do_GET_keeps| |by apply loop_keeps..].
  revert t. induction n as [|n IH]; intros t; cbn [refresh_loop]; walk_keeps.
Qed.
End Threads.

(** ** Every schedule *)

Lemma ok_initial cs bs t d :
  let s := prime_heights cs bs (initial_pool t d) in pool_ok (settled_heights s) s.
Proof.
  split; cbn; try done; try (unfold MAX_RECENT_JOBS; lia); [|apply NoDup_nil_2].
  by rewrite difference_diag_L, size_empty.
Qed.

Section Schedules.
Context (C : config) `{SetOrder} (I : pool -> Prop) (I_agree : forall s s', agree s s' -> I s -> I s').
Abbreviation finishes := (owns I (fun h (_ : res unit) => h = None)).

(** Nobody holds the lock and the invariant holds, or one thread holds it and knows what it protects. *)
Inductive guarded (w : world) (hs : list (option pool)) : Prop :=
| guard_free : STATE ∉ held w -> I (mem w) -> (forall j s, hs !! j <> Some (Some s)) -> guarded w hs
| guard_held i s :
    STATE ∈ held w -> hs !! i = Some (Some s) -> agree s (mem w) -> (forall j s', hs !! j = Some (Some s') -> j = i) -> guarded w hs.

Lemma answers_elsewhere w o r w' :
  elsewhere o = true -> answers w o r w' -> mem w' = mem w /\ (STATE ∈ held w' <-> STATE ∈ held w).
Proof.
  destruct o as [l|l| | | | | | | | | | | | | |]; try done; intros Ho Hr; try (by unpack_answer Hr).
  - destruct Hr as (_ & -> & ->). cbn. rewrite elem_of_cons. split; [done|]. split; [intros [<-|]; done|by right].
  - destruct Hr as (-> & ->). cbn. rewrite list_elem_of_filter. split; [done|]. split; [by intros [_ ?]|].
    intros Hin. split; [|done]. by intros <-.
Qed.

Lemma owns_elsewhere w o k r w' h : elsewhere o = true -> answers w o r w' -> finishes h (Vis o k) -> finishes h (k r).
Proof.
  destruct o as [[]|[]| | | | | | | | | | | | | |]; try done; intros _ Hr Hk; try apply Hk.
  - by destruct Hr as [_ [t ->]].
  - by destruct Hr as [_ [t ->]].
Qed.

Lemma call_guarded w hs i h o k r w' :
  guarded w hs -> hs !! i = Some h -> answers w o r w' -> finishes h (Vis o k) ->
  exists h', finishes h' (k r) /\ guarded w' (<[i := h']> hs).
Proof.
  intros Hg Hi Hr Hk. pose proof (lookup_lt_Some _ _ _ Hi) as Hlen. destruct (elsewhere o) eqn:Ho.
  { exists h. split; [by eapply owns_elsewhere|]. rewrite list_insert_id by done.
    destruct (answers_elsewhere _ _ _ _ Ho Hr) as [Em Eh]. destruct Hg as [Hf Hs Hn|j s Hf Hj Hs Hn].
    - apply guard_free; [by rewrite Eh|by rewrite Em|done].
    - apply (guard_held _ _ j s); [by rewrite Eh|done|by rewrite Em|done]. }
  destruct o as [[]|[]|f| | | | | | | | | | | | |]; try done.
  - destruct Hk as [-> Hk], Hr as (Hf & -> & ->). destruct Hg as [_ Hs Hn|j s Hin]; [|done].
    exists (Some (mem w)). split; [by apply Hk|]. apply (guard_held _ _ i (mem w)); [by left|by apply list_lookup_insert_eq|done|].
    intros j s' Hj. destruct (decide (i = j)) as [->|Hne]; [done|]. rewrite list_lookup_insert_ne in Hj by done. by apply Hn in Hj.
  - destruct Hk as (s & -> & Hs & Hk), Hr as (-> & ->). destruct Hg as [_ _ Hn|j s' _ Hj Ha Hn]; [by apply Hn in Hi|].
    assert (j = i) as -> by (symmetry; by eapply Hn). rewrite Hi in Hj. injection Hj as <-.
    exists None. split; [done|]. apply guard_free; [cbn; rewrite list_elem_of_filter; by intros [? _]|by eapply I_agree|].
    intros j s' Hj. destruct (decide (i = j)) as [->|Hne]; [by rewrite list_lookup_insert_eq in Hj|].
    rewrite list_lookup_insert_ne in Hj by done. by apply Hne, eq_sym, (Hn j s').
  - destruct Hr as (-> & ->). destruct h as [s0|]; cbn in Hk.
    + destruct Hg as [_ _ Hn|j s' Hin Hj Ha Hn]; [by apply Hn in Hi|].
      assert (j = i) as -> by (symmetry; by eapply Hn). rewrite Hi in Hj. injection Hj as <-.
      exists (Some (f (mem w))). split; [by apply Hk|].
      apply (guard_held _ _ i (f (mem w))); [done|by apply list_lookup_insert_eq|done|].
      intros j s' Hj. destruct (decide (i = j)) as [->|Hne]; [done|]. rewrite list_lookup_insert_ne in Hj by done. by eapply Hn.
    + destruct (Hk (mem w)) as [Ha Hk']. exists None. split; [done|]. rewrite list_insert_id by done.
      destruct Hg as [Hf Hs Hn|j s Hin Hj Hs Hn].
      * apply guard_free; [done|by eapply I_agree|done].
      * apply (guard_held _ _ j s); [done|done|by transitivity (mem w)|done].
Qed.

Lemma schedule_guarded s s' :
  (forall p, server_thread C p -> keeps I false p) -> rtc (server_step C) s s' ->
  (exists hs, Forall2 finishes hs s.2 /\ guarded s.1 hs) -> exists hs, Forall2 finishes hs s'.2 /\ guarded s'.1 hs.
Proof.
  intros Hp. induction 1 as [s|s1 s2 s3 Hs _ IH]; [done|]. intros (hs & Hf & Hg). apply IH.
  destruct Hs as [w ps i o k r w' Hi Hr|w ps p Hin|w ps w' [fs ->]]; cbn [fst snd] in *.
  - destruct (Forall2_lookup_r _ _ _ _ _ Hf Hi) as (h & Hh & Hk). destruct (call_guarded _ _ _ _ _ _ _ _ Hg Hh Hr Hk) as (h' & Hk' & Hg').
    exists (<[i := h']> hs). split; [by apply Forall2_insert|done].
  - exists (hs ++ [None]). split.
    + apply Forall2_app; [done|]. constructor; [|done]. eapply owns_mono; [|by apply (Hp p Hin None)]. by intros [s|] r Hh; [destruct Hh|].
    + destruct Hg as [H1 H2 Hn|i s H1 Hi H2 Hn].
      * apply guard_free; [done|done|]. intros j s Hj. apply lookup_app_Some in Hj as [Hj|[_ Hj]]; [by apply Hn in Hj|].
        by apply list_lookup_singleton_Some in Hj as [_ ?].
      * apply (guard_held _ _ i s); [done|by apply lookup_app_l_Some|done|]. intros j s' Hj.
        apply lookup_app_Some in Hj as [Hj|[_ Hj]]; [by eapply Hn|]. by apply list_lookup_singleton_Some in Hj as [_ ?].
  - exists hs. split; [done|]. destruct Hg as [H1 H2 Hn|i s H1 Hi H2 Hn]; [by apply guard_free|by apply (guard_held _ _ i s)].
Qed.

Lemma memory_kept w w' ps :
  (forall p, server_thread C p -> keeps I false p) -> STATE ∉ held w -> I (mem w) -> rtc (server_step C) (w, []) (w', ps) ->
  STATE ∉ held w' -> I (mem w').
Proof.
  intros Hp Hw Hi Hs Hw'. destruct (schedule_guarded _ _ Hp Hs) as (hs & _ & Hg).
  - exists []. split; [constructor|]. by apply guard_free.
  - by destruct Hg.
Qed.
End Schedules.

(** C13: the counters agree whenever nobody holds [STATE_LOCK], in every schedule of requests, background rounds, failures and edits of
    the ledgers, although the code changes them one statement at a time: the shares of the round, of the day and in total are the sums of
    the miners' counters; the blocks counted are as many as the heights settled since the start, so no height is settled
    twice; at most eight jobs can be submitted to, and every one of them exists and has a difficulty of at least one. *)
Theorem counters_agree C `{SetOrder} cs bs t d w w' ps :
  mem w = prime_heights cs bs (initial_pool t d) -> held w = [] ->
  rtc (server_step C) (w, []) (w', ps) -> STATE ∉ held w' ->
  let p := pool_stats (mem w') in
  let l := miner_stats (mem w') in
  ps_current_round_shares p = sum_by shares_this_round l /\
  ps_shares_total p = sum_by shares_total l /\
  ps_shares_today p = sum_by shares_today l /\
  ps_blocks_total p = Z.of_nat (size (settled_heights (mem w') ∖ settled_heights (mem w))) /\
  (length (recent_jobs (mem w')) <= MAX_RECENT_JOBS)%nat /\
  Forall (fun kr => exists j, jobs (mem w') !! kr.2 = Some j /\ 1 <= share_difficulty j) (recent_jobs (mem w')).
Proof.
  intros Hw Hl Hs Hl'. pose proof (ok_initial cs bs t d) as H0. cbv zeta in H0. rewrite <- Hw in H0.
  destruct (memory_kept C (pool_ok (settled_heights (mem w))) (pool_ok_agree _) w w' ps (server_thread_keeps C _)); try done.
  { rewrite Hl. apply not_elem_of_nil. }
  split_and!; try done.
  eapply Forall_impl; [exact ok_refs0|]. intros [k r] Hr. destruct (lookup_lt_is_Some_2 _ _ Hr) as [j Hj].
  exists j. split; [done|]. by apply (Forall_lookup_1 _ _ _ _ ok_jobs0 Hj).
Qed.

(** A server that fetches a job and then receives a share for it. *)
Definition template_replies (s : server) (m : string) (ps : pyval) : res pyval :=
  if String.eqb m "get_block_template" then
    result (PDict [("difficulty", PInt 1000); ("blockhashing_blob", zeros 76); ("blocktemplate_blob", zeros 76);
                   ("seed_hash", seed "a"); ("height", PInt 7)]%string)
  else kind_replies s m ps.

Definition job_env (b : pyval) : environment :=
  mk_env (num_of_Z 1000) "2026-05-01" "a" template_replies (Some b) 1 (fun _ => false) (fun _ => false).

Definition started : world := mk_world (initial_pool num_one "2026-05-01") [] no_files ∅.

Definition one_share (w : world) : bool :=
  (ps_current_round_shares (pool_stats (mem w)) =? 1) && negb (bool_decide (recent_jobs (mem w) = [])).

Lemma counters_agree_witness :
  exists w' ps, rtc (server_step (H := in_order) default_config) (started, []) (w', ps) /\ one_share w' = true /\
    sum_by shares_this_round (miner_stats (mem w')) = 1.
Proof.
  destruct (schedule_check (H := in_order) default_config [(0%nat, to_end, job_env PNone); (1%nat, to_end, job_env (submission "j_a" alice false))]
              [refresh_loop default_config 1 (num_of_Z 1000); do_POST default_config post_submit] started (fun _ w => one_share w && bool_decide (held w = [])))
    as (w & ps & Hr & Hc).
  - repeat constructor.
  - vm_compute. reflexivity.
  - apply andb_prop in Hc as [Hc Hl]. apply bool_decide_eq_true in Hl. exists w, ps. split; [exact Hr|]. split; [exact Hc|].
    assert (mem started = prime_heights [] [] (initial_pool num_one "2026-05-01")) as Hi by (vm_compute; reflexivity).
    destruct (counters_agree (H := in_order) default_config [] [] num_one "2026-05-01" started w ps Hi eq_refl Hr) as [Hs _];
      [rewrite Hl; apply not_elem_of_nil|].
    rewrite <- Hs. apply andb_prop in Hc as [Hc _]. by apply Z.eqb_eq.
Defined.
