(* ===== verification/PoolSettle.v ===== *)
(** * PoolSettle: a found block is credited once, and for what it earned

    [after] is the weakest precondition ([ends]) of a thread that runs without interleaving.  Settlement divides in floats; the rounding
    lemmas of Python show that the credits of a block never add up to more than was to be distributed.  When another
    share arrives between the unlocked read of the round's share count and the settlement they can: [settlement_race]. *)
From S2P Require Import Prelude JsCore Number Bytes Python Effects PoolState PoolShares PoolMoney PoolHttp PoolLocks PoolSections PoolRun PoolInv.
Local Open Scope Z_scope.
Local Open Scope glaciem_scope.

(** ** Threads that run alone *)

Abbreviation after := (ends answers).

(** Step into a call. *)
Ltac ask_call :=
  lazymatch goal with
  | |- ends ?ans _ (save_json_atomic ?p ?c) _ => apply (ends_call ans (Save p c))
  | |- ends ?ans _ (await ?o) _ => apply (ends_call ans o)
  end.

Lemma after_access {B} (f : pool -> B * pool) (Q : res B -> world -> Prop) w :
  Q (Ok (f (mem w)).1) (set_mem (f (mem w)).2 w) -> after Q (access f) w.
Proof. intros H. apply ends_bind; ask_call. intros r w' [-> ->]. exact H. Qed.

Lemma ends_attempt {W A} (ans : W -> forall o, res (ret o) -> W -> Prop) (Q : res (res A) -> W -> Prop) (p : thread A) w :
  ends ans (fun r w => Q (Ok r) w) p w -> ends ans Q (attempt p) w.
Proof. intros H. apply ends_catch, ends_bind. eapply ends_mono; [|exact H]. by intros [a|e] w'. Qed.

Lemma after_with_lock {A} (Q : res A -> world -> Prop) l (p : thread A) w :
  (forall r w hs, Q r w -> Q r (set_held hs w)) -> after Q p (set_held (l :: held w) w) -> after Q (with_lock l p) w.
Proof.
  intros HQ Hp. apply ends_bind; ask_call. intros r w' (_ & -> & ->).
  apply ends_bind, ends_attempt. eapply ends_mono; [|exact Hp]. intros r w' Hr.
  apply ends_bind; ask_call. intros r' w'' [-> ->]. destruct r; by apply HQ.
Qed.

(** Calls that change nothing here: requests, the clock, reading files, the verifier. *)
Definition quiet (o : op) : Prop :=
  match o with
  | Now | Today | TokenHex | Post _ _ _ | ReadBody _ | Send _ _ | Load _ | Fingerprint _ | VerifyShare _ _ _ _ _ => True
  | _ => False
  end.

Definition quietly {A} (R : res A -> Prop) (p : thread A) : Prop := paths quiet (fun _ _ => True) R p.

Lemma after_quietly {A} (R : res A -> Prop) (Q : res A -> world -> Prop) p :
  forall w, quietly R p -> (forall r, R r -> Q r w) -> after Q p w.
Proof.
  induction p as [a|e|o k IH]; intros w; cbn; [auto|auto|].
  intros [Hq Hk] HQ r w' Hr. assert (w' = w) as -> by (destruct o; unpack_answer Hr; done). by apply IH; [apply Hk|].
Qed.

(** The parts of the server that are quiet. *)
Lemma json_rpc_quiet n s m ps : quietly (fun _ => True) (json_rpc n s m ps).
Proof.
  unfold json_rpc. apply paths_bind, paths_call; [done|]. intros [resp|e] _; [|done].
  apply paths_bind, paths_lift. destruct (py_in "error" resp) as [[]|e]; [|by apply paths_lift|done].
  apply paths_bind, paths_lift. destruct (py_item resp "error") as [err|e]; [|done].
  destruct (py_truthy err); [|by apply paths_lift]. apply paths_bind, paths_lift. by destruct (py_get err "message" err).
Qed.

(** ** The credits of a block *)

Fixpoint atomic_sum (l : list credit) : Z :=
  match l with [] => 0 | c :: l' => default 0 (c_atomic c) + atomic_sum l' end.

Lemma credit_amount_bound d s t a :
  0 <= d -> 0 <= s -> 0 < t -> credit_amount d s t = Ok a -> 0 <= a /\ a * (t * 2 ^ 52) <= d * s * (2 ^ 52 + 1).
Proof.
  intros Hd Hs Ht. unfold credit_amount. destruct (py_truediv (d * s) t) as [x|e] eqn:E; [|done]. cbn.
  apply trunc_truediv; [lia|done|done].
Qed.

Lemma atomic_sum_app l l' : atomic_sum (l ++ l') = atomic_sum l + atomic_sum l'.
Proof. induction l as [|c l IH]; cbn; [done|]. rewrite IH. lia. Qed.

Lemma sum_by_app f l l' : sum_by f (l ++ l') = sum_by f l + sum_by f l'.
Proof. induction l as [|[w m] l IH]; cbn; [done|]. rewrite IH. lia. Qed.

(** The entries for some of the miners.  Rounding up can happen for each of them, but the sum stays within one rounding of the whole. *)
Definition entries_ok (h d t : Z) (l : list (string * miner)) (es : list credit) : Prop :=
  (0 <= d -> atomic_sum es * (t * 2 ^ 52) <= d * sum_by shares_this_round l * (2 ^ 52 + 1)) /\
  Forall (fun c => c_height c = Some h /\ exists a, c_atomic c = Some a /\ 0 < a) es.

Lemma entries_ok_skip h d t l es w m : 0 <= shares_this_round m -> entries_ok h d t l es -> entries_ok h d t (l ++ [(w, m)]) es.
Proof. intros Hm [H1 H2]. split; [|done]. intros Hd. specialize (H1 Hd). rewrite sum_by_app. cbn. nia. Qed.

Lemma entries_ok_add h d t l es w m a c :
  (0 <= d -> a * (t * 2 ^ 52) <= d * shares_this_round m * (2 ^ 52 + 1)) -> 0 < a -> c_height c = Some h -> c_atomic c = Some a ->
  entries_ok h d t l es -> entries_ok h d t (l ++ [(w, m)]) (es ++ [c]).
Proof.
  intros Ha Hpos Hh Hc [H1 H2]. split.
  - intros Hd. specialize (H1 Hd). specialize (Ha Hd). rewrite sum_by_app, atomic_sum_app. cbn. rewrite Hc. cbn. lia.
  - apply Forall_app. split; [done|]. constructor; [|done]. eauto.
Qed.

Lemma settle_entry_section h d t bonus s pre w m es :
  0 < t -> 0 <= shares_this_round m -> of_miner id w s = m -> entries_ok h d t pre es ->
  section (fun r s' => s' = s /\ match r with Ok es' => entries_ok h d t (pre ++ [(w, m)]) es' | Err _ => True end)
    (settle_entry h d t bonus es w) s.
Proof.
  intros Ht Hm Hw Hes. unfold settle_entry.
  assert (forall Q : res Z -> pool -> Prop, Q (Ok (shares_this_round m)) s -> section Q (read (of_miner shares_this_round w)) s) as Hread.
  { intros Q HQ. apply section_read; [apply of_miner_agree|]. unfold of_miner, id in *. by rewrite Hw. }
  apply section_bind, Hread. destruct (_ <=? 0); [by split; [|apply entries_ok_skip]|]. apply section_bind, Hread.
  apply section_bind, section_lift. destruct (credit_amount d (shares_this_round m) t) as [a|e] eqn:Ea; [|done].
  pose proof (fun Hd => credit_amount_bound d _ t a Hd Hm Ht Ea) as Ha.
  destruct (Z.ltb_spec 0 a); [|by split; [|apply entries_ok_skip]].
  apply section_bind, section_now. intros now. apply section_bind, section_lift. destruct (py_trunc now) as [ts|e]; [|done].
  apply section_bind, Hread. split; [done|]. eapply entries_ok_add; [apply Ha|done|done|done|done].
Qed.

Lemma settle_entries_section h d t bonus s :
  0 < t -> keys_once s -> Forall (fun wm => 0 <= shares_this_round wm.2) (miner_stats s) ->
  section (fun r s' => s' = s /\ match r with Ok es => entries_ok h d t (miner_stats s) es | Err _ => True end)
    (settle_entries h d t bonus) s.
Proof.
  intros Ht Hk Hn. apply (section_reading (entries_ok h d t)); [done|split; [cbn; lia|constructor]|].
  intros pre w m post es E Hes Hw. apply settle_entry_section; try done.
  rewrite E in Hn. apply Forall_app in Hn as [_ Hn]. by apply Forall_cons in Hn as [Hn _].
Qed.

(** The whole of the shares, and amounts below 2^52. *)
Lemma within_whole a t d : 0 < t -> 0 <= d < 2 ^ 52 -> a * (t * 2 ^ 52) <= d * t * (2 ^ 52 + 1) -> a <= d.
Proof.
  intros Ht Hd H. assert (a * 2 ^ 52 <= d * (2 ^ 52 + 1)); [|lia]. apply (Z.mul_le_mono_pos_r _ _ t Ht). lia.
Qed.

(** ** One block *)

(** What is left of the growth fund. *)
Definition fund (w : world) : Z := default 0 (f_sponsorship (disk w) ≫= sp_remaining_atomic).

(** What submitting a block of height [h] does to the credits: nothing, or it appends entries for that block.  Their sum is at most
    the reward without the pool's cut, plus what the growth fund has lost. *)
Definition credited (C : config) (h : Z) (w w' : world) : Prop :=
  f_credits (disk w') = f_credits (disk w) \/
  exists entries b reward cut,
    f_credits (disk w') = Some (default [] (f_credits (disk w)) ++ entries) /\
    ps_last_block (pool_stats (mem w')) = Some b /\ b_height b = Some h /\ b_reward_atomic b = Some reward /\
    pool_cut C reward = Ok cut /\
    Forall (fun c => c_height c = Some h /\ exists a, c_atomic c = Some a /\ 0 < a) entries /\
    (0 <= reward - cut -> reward - cut + (fund w - fund w') < 2 ^ 52 ->
     atomic_sum entries <= reward - cut + (fund w - fund w')).

(** Later steps that leave the credits, the fund and the last block alone. *)
Definition leaves (w w' : world) : Prop :=
  f_credits (disk w') = f_credits (disk w) /\ fund w' = fund w /\
  ps_last_block (pool_stats (mem w')) = ps_last_block (pool_stats (mem w)).

Lemma credited_leaves C h w w1 w2 : credited C h w w1 -> leaves w1 w2 -> credited C h w w2.
Proof. intros Hc (E1 & E2 & E3). unfold credited. by rewrite E1, E2, E3. Qed.

Lemma load_sponsorship_spec (Q : res (option sponsorship) -> world -> Prop) w :
  Q (Ok (f_sponsorship (disk w))) w -> Q (Ok None) w -> after Q load_sponsorship w.
Proof. intros H1 H2. apply ends_catch; ask_call. intros r w' [-> [-> |[e ->]]]; done. Qed.

Definition consumed (w : world) (r : res Z) (w' : world) : Prop :=
  mem w' = mem w /\ f_credits (disk w') = f_credits (disk w) /\
  match r with Ok bonus => 0 <= bonus /\ fund w' = fund w - bonus | Err _ => True end.

Lemma consumed_none w hs : consumed w (Ok 0) (set_held hs w).
Proof. split_and!; [done|done|lia|]. change (fund (set_held hs w)) with (fund w). lia. Qed.

Lemma consume_spec w : after (consumed w) sponsorship_consume_block w.
Proof.
  apply after_with_lock; [by intros r w1 hs|]. apply ends_bind, load_sponsorship_spec; [|by apply consumed_none].
  destruct (f_sponsorship (disk _)) as [sp|] eqn:Esp; [|by apply consumed_none]. cbn in Esp.
  destruct (sp_active sp); cbn [negb]; [|by apply consumed_none].
  set (per := default 0 (sp_per_block_atomic sp)). set (rem := default 0 (sp_remaining_atomic sp)).
  destruct (Z.leb_spec per 0), (Z.leb_spec rem 0); cbn [orb]; try (by apply consumed_none).
  assert (forall e, consumed w (Ok (Z.min per rem)) (set_disk (put_file (disk w) SPONSORSHIP_FILE
            (sponsorship_used sp (rem - Z.min per rem) e)) (set_held (SPONSORSHIP :: held w) w))) as Hsave.
  { intros e. split_and!; [done|done|lia|]. unfold fund. by rewrite Esp. }
  destruct (Z.leb_spec (rem - Z.min per rem) 0).
  - apply ends_bind; ask_call. intros r w1 [-> [t ->]]. apply ends_bind. destruct (py_trunc t) as [ts|e]; [|done].
    apply ends_bind. ask_call. intros r w1 [[-> ->]|[-> [e ->]]]; [apply Hsave|done].
  - apply ends_bind. ask_call. intros r w1 [[-> ->]|[-> [e ->]]]; [apply Hsave|done].
Qed.

Lemma append_credits_spec es w :
  after (fun _ w' => mem w' = mem w /\ fund w' = fund w /\
                     (f_credits (disk w') = f_credits (disk w) \/
                      f_credits (disk w') = Some (default [] (f_credits (disk w)) ++ es))) (append_credits es) w.
Proof.
  apply ends_catch, ends_bind; ask_call. intros r w1 [-> [-> |[e ->]]]; [|by cbn; auto].
  ask_call. intros r w1 [[-> ->]|[-> [e ->]]]; cbn; auto.
Qed.

Lemma append_block_spec b w : after (fun _ w' => mem w' = mem w /\ leaves w w') (append_block b) w.
Proof.
  apply ends_catch, ends_bind; ask_call. intros r w1 [-> [-> |[e ->]]]; [|done].
  ask_call. intros r w1 [[-> ->]|[-> [e ->]]]; done.
Qed.

Lemma stats_update_miner w g s : pool_stats (update_miner w g s) = pool_stats s.
Proof. unfold update_miner. by destruct (assoc w (miner_stats s)). Qed.

Lemma end_round_spec w : after (fun _ w' => leaves w w') end_round w.
Proof.
  apply ends_bind, after_access, ends_bind, after_access. cbn [fst snd].
  assert (forall n ws w1, leaves w w1 ->
    after (fun _ w' => leaves w w') (each_miner n ws (fun _ w => modify (update_miner w (put_shares_this_round 0))) tt) w1) as Hloop.
  { intros n. induction ws as [|x ws IH]; intros w1 Hl; cbn [each_miner]; apply ends_bind, after_access; cbn [fst snd].
    all: destruct (negb _); [done|]. all: try done.
    apply ends_bind, after_access, IH. unfold leaves. cbn. by rewrite stats_update_miner. }
  by apply Hloop.
Qed.

(** Counting the block changes no share. *)
Lemma sum_by_update_miner f g w s : (forall m, f (g m) = f m) -> sum_by f (miner_stats (update_miner w g s)) = sum_by f (miner_stats s).
Proof.
  intros H. unfold update_miner. destruct (assoc w (miner_stats s)) as [m|] eqn:E; [|done]. cbn.
  rewrite sum_by_assoc_set, E, H. lia.
Qed.

Definition found_one (m : miner) : miner := put_blocks_found (blocks_found m + 1) m.

Lemma keys_update_miner w f s : keys_once s -> keys_once (update_miner w f s).
Proof. intros Hk. unfold update_miner. destruct (assoc w (miner_stats s)); [|done]. by apply keys_assoc_set. Qed.

Lemma nonneg_update_miner w s :
  Forall (fun wm => 0 <= shares_this_round wm.2) (miner_stats s) ->
  Forall (fun wm => 0 <= shares_this_round wm.2) (miner_stats (update_miner w found_one s)).
Proof.
  intros Hs. unfold update_miner. destruct (assoc w (miner_stats s)) as [m|] eqn:E; [|done]. cbn.
  destruct (forall_assoc _ _ _ _ Hs E) as [k Hk].
  pose proof (assoc_set_forall _ w (found_one m) _ Hs Hk) as H. eapply Forall_impl; [exact H|]. by intros [w' m'] [?| ->].
Qed.

Section Settle.
Context (C : config).

(** The stamps of the block, which leave the miners alone. *)
Lemma stamp_block_spec b reward bonus w :
  ps_last_block (pool_stats (mem w)) = Some b ->
  after (fun r w' => exists b', r = Ok b' /\ ps_last_block (pool_stats (mem w')) = Some b' /\ b_height b' = b_height b /\
           b_reward_atomic b' = b_reward_atomic b /\ b_round_shares b' = b_round_shares b /\
           miner_stats (mem w') = miner_stats (mem w) /\ disk w' = disk w) (stamp_block b reward bonus) w.
Proof.
  intros Hl. unfold stamp_block. destruct (0 <? bonus); [|by exists b].
  apply ends_bind, after_access, ends_bind, after_access. by eexists.
Qed.

(** The settlement inside the lock, when the share count of the block is that of the miners. *)
Lemma settle_round_spec b h reward w :
  b_height b = Some h -> b_reward_atomic b = Some reward ->
  b_round_shares b = Some (sum_by shares_this_round (miner_stats (mem w))) ->
  Forall (fun wm => 0 <= shares_this_round wm.2) (miner_stats (mem w)) -> keys_once (mem w) ->
  ps_last_block (pool_stats (mem w)) = Some b ->
  after (fun _ w' => credited C h w w') (settle_round C b) w.
Proof.
  intros Hh Hr Hs Hn Hk Hl. unfold settle_round. rewrite Hr. cbn [from_option id]. unfold id.
  destruct (reward =? 0); [by left|]. apply ends_bind. destruct (pool_cut C reward) as [cut|e] eqn:Ecut; [|by left].
  cbn [lift ends]. apply ends_bind. eapply ends_mono; [|apply consume_spec].
  intros [bonus|e] w1 (Em & Ec & Hb); [|by left]. destruct Hb as [Hb0 Hfund].
  set (d := if 0 <? bonus then reward - cut + bonus else reward - cut).
  assert (d = reward - cut + bonus) as Ed by (unfold d; destruct (Z.ltb_spec 0 bonus); lia).
  apply ends_bind. eapply ends_mono; [|by apply (stamp_block_spec b reward bonus); rewrite Em].
  intros r w2 (b' & -> & Hl2 & Hh' & Hr' & Hs' & Hm2 & Hd2). rewrite Hh in Hh'. rewrite Hr in Hr'. rewrite Em in Hm2.
  assert (credited C h w w2) as Hearly by (left; by rewrite Hd2).
  rewrite Hs', Hs, Hh'. cbn [from_option]. unfold id.
  destruct (Z.leb_spec (sum_by shares_this_round (miner_stats (mem w))) 0) as [|Hpos]; [done|]. apply ends_bind.
  eapply section_alone; [apply settle_entries_section; [done|unfold keys_once; by rewrite Hm2|by rewrite Hm2]|].
  intros r s [-> Hes]. assert (set_mem (mem w2) w2 = w2) as -> by (by destruct w2).
  destruct r as [es|e]; [|done]. destruct Hes as [Hsum Hes]. rewrite Hm2 in Hsum.
  assert (forall w', mem w' = mem w2 -> fund w' = fund w2 ->
            f_credits (disk w') = f_credits (disk w2) \/
            f_credits (disk w') = Some (default [] (f_credits (disk w2)) ++ es) -> credited C h w w') as Hdone.
  { intros w' Em' Ef' [Ec'|Ec']; [left; by rewrite Ec', Hd2|right]. exists es, b', reward, cut.
    assert (fund w - fund w' = bonus) as Eb by (rewrite Ef'; unfold fund at 2; rewrite Hd2; fold (fund w1); lia).
    rewrite Ec', Hd2, Ec, Em', Eb, <- Ed. split_and!; try done. intros Hd0 Hd. apply (within_whole _ _ _ Hpos); [lia|].
    apply Hsum. lia. }
  destruct es as [|c es]; [done|]. apply ends_bind. eapply ends_mono; [|apply append_credits_spec].
  intros [r|e] w' (Em' & Ef' & Ec'); by apply Hdone.
Qed.

Lemma reward_quiet j :
  quietly (fun _ => True)
    (catch (let! hdr := rpc "get_block_header_by_height" (PDict [("height"%string, PInt (height j))]) in
            lift (let* h := py_item hdr "block_header" in let* r := py_item h "reward" in py_int r)) (fun _ => Ret 0)).
Proof.
  apply paths_catch, paths_bind. eapply paths_mono; [|apply json_rpc_quiet]. intros [hdr|e] _; [|done].
  apply paths_lift. by destruct (_ : res Z).
Qed.

(** C2: a block submission that runs without interleaving, on counters that agree, credits a height at most once, and never more than
    there is to distribute: the entries appended to the ledger are for the submitted height, which was not settled before, and when the sum to
    distribute is below 2^52 atomic units (4503 coins) they add up to at most the reward without the pool's cut plus what the growth
    fund lost, although each amount is computed in floats.  With interleaving they can be more: [settlement_race]. *)
Theorem settlement_conserves primed j nonce finder w tr w' out :
  pool_ok primed (mem w) ->
  exec answers (submit_block C j nonce finder) w tr w' out ->
  credited C (height j) w w' /\ (height j ∈ settled_heights (mem w) -> f_credits (disk w') = f_credits (disk w)).
Proof.
  intros Hok Hex. set (G := fun w' => credited C (height j) w w' /\
    (height j ∈ settled_heights (mem w) -> f_credits (disk w') = f_credits (disk w))).
  apply (ends_exec answers (fun _ w' => G w') _ _ _ _ _ Hex). clear Hex.
  assert (forall w', disk w' = disk w -> G w') as Hearly by (intros w1 Ew; unfold G; rewrite Ew; by split; [left; rewrite Ew|]).
  apply ends_catch, (ends_mono answers (fun _ w' => G w')); [by intros [a|e] w1|].
  apply ends_bind, ends_lift. destruct (py_fromhex (blocktemplate_blob j)) as [tb|e]; [|by apply Hearly].
  apply ends_bind, ends_lift. destruct (py_fromhex (blockhashing_blob j)) as [hb|e]; [|by apply Hearly].
  cbv zeta. destruct (Z.of_nat (length tb) <? _); [by apply Hearly|].
  apply ends_bind, ends_lift. destruct (pack_u32le _) as [packed|e]; [|by apply Hearly].
  apply ends_bind, ends_attempt. eapply after_quietly; [apply json_rpc_quiet|]. intros [result|e] _; [|by apply Hearly].
  destruct (is_ok_status result); [|by apply Hearly]. cbn [negb]. apply ends_bind.
  eapply (after_quietly (fun _ => True)); [apply reward_quiet|]. intros [reward|e] _; [|by apply Hearly].
  apply ends_bind; ask_call. intros r w1 [-> [now ->]]. apply ends_bind, ends_lift.
  destruct (py_trunc now) as [ts|e]; [|by apply Hearly]. apply ends_bind, after_access. cbn [fst snd].
  set (b := mk_block _ _ _ _ _ _ _ _ _). apply ends_bind.
  apply (ends_mono answers (fun _ w' => G w')).
  { intros [[]|e] w1 Hg; cbn [ends]; [done| |done]. apply ends_bind, ends_lift. by destruct (py_float reward). }
  apply after_with_lock; [by intros r w1 hs|]. apply ends_bind.
  apply (section_alone (fun r s => r = Ok (height_claimed b finder (mem w)).1 /\ s = (height_claimed b finder (mem w)).2)); [by apply claim_section|].
  intros r s [-> ->]. cbn [mem set_held].
  unfold height_claimed. cbn [b_height b from_option]. unfold id. case_bool_decide as Hin; [by apply Hearly|]. cbn [fst snd].
  set (w1 := set_mem _ _).
  assert (forall w', credited C (height j) w1 w' -> G w') as Hg by (intros w2 Hc; split; [exact Hc|done]).
  apply ends_bind. eapply ends_mono; [|apply (settle_round_spec b (height j) reward); [done|done|..]].
  - intros [b'|e] w2 Hc; [|by apply Hg]. apply ends_bind.
    eapply ends_mono; [|apply end_round_spec]. intros [[]|e] w3 Hl; [|by apply Hg; eapply credited_leaves].
    apply ends_bind. eapply ends_mono; [|apply append_block_spec].
    intros [[]|e] w4 [_ Hl']; apply Hg; (eapply credited_leaves; [by eapply credited_leaves|done]).
  - cbn [b_round_shares b]. rewrite (ok_round _ _ Hok). f_equal. unfold w1. cbn. by rewrite sum_by_update_miner.
  - unfold w1. cbn. by apply nonneg_update_miner, Hok.
  - unfold w1. cbn. by apply keys_update_miner, Hok.
  - unfold w1. cbn. by rewrite stats_update_miner.
Qed.
End Settle.

(** A share of a wallet. *)
Definition share_of (w : string) (s : pool) : pool := share_added w num_one (enrolled w s).

Lemma ok_share_of primed w s : pool_ok primed s -> pool_ok primed (share_of w s).
Proof. intros Hs. apply ok_share_added; [by apply ok_enrolled|apply enrolled_some]. Qed.

(** Two miners with a share each, and no ledger yet. *)
Definition two_shares : world := mk_world (share_of bob (share_of alice pool0)) [] no_files ∅.

Lemma two_shares_ok : pool_ok ∅ (mem two_shares).
Proof.
  apply ok_share_of, ok_share_of, ok_job_pushed; [done|]. apply ok_job_pushed; [done|].
  exact (ok_initial [] [] num_one "2026-05-01").
Qed.

Lemma settlement_conserves_witness :
  exists tr w' out, exec answers (submit_block default_config (a_job "j_a" (seed "a")) 5 alice) two_shares tr w' out /\
    atomic_sum (default [] (f_credits (disk w'))) = 1000 /\ credited default_config 7 two_shares w'.
Proof.
  assert (match alone (env PNone) (submit_block default_config (a_job "j_a" (seed "a")) 5 alice) two_shares with
          | Some (_, w') => atomic_sum (default [] (f_credits (disk w'))) =? 1000
          | None => false
          end = true) as Hc by (vm_compute; reflexivity).
  destruct (alone (env PNone) _ _) as [[out w']|] eqn:Hrun; [|discriminate Hc].
  apply alone_exec in Hrun as [tr Hex]. exists tr, w', out. split; [exact Hex|]. split; [by apply Z.eqb_eq|].
  apply (settlement_conserves default_config ∅ (a_job "j_a" (seed "a")) 5 alice two_shares tr w' out two_shares_ok Hex).
Defined.
