(* ===== verification/PoolPay.v ===== *)
(** * PoolPay: balances, payouts and the reconciliation of credits

    The balance computation is the difference of sums over the ledgers ([pending_exact]).  A round of payouts sends no wallet
    more than it is owed and no more than the wallet can spend, although it scales in floats; over any number of rounds no wallet
    receives more than it was owed, but for transfers whose answer is lost, which are paid again ([never_overpaid], [lost_answer_paid_again]).
    A reconciliation that finds a disputed height gives every arrived block exactly its reward, and any other leaves the ledger alone
    ([reconcile_exact]). *)
From S2P Require Import Prelude JsCore Number Bytes Python Effects PoolState PoolShares PoolMoney PoolHttp PoolLocks PoolRun PoolInv PoolSettle.
Local Open Scope Z_scope.
Local Open Scope glaciem_scope.

(** ** Balances *)

(** The sum of the entries of one wallet. *)
Fixpoint total_for {A} (name : A -> option string) (amount : A -> Z) (w : string) (l : list A) : Z :=
  match l with
  | [] => 0
  | x :: l' => (if bool_decide (named (name x) = Some w) then amount x else 0) + total_for name amount w l'
  end.

Lemma add_to_lookup name n m w :
  default 0 (add_to name n m !! w) = default 0 (m !! w) + (if bool_decide (named name = Some w) then n else 0).
Proof.
  unfold add_to. destruct (named name) as [w'|]; [|rewrite bool_decide_false by done; lia].
  case_bool_decide as E.
  - injection E as ->. by rewrite lookup_insert_eq.
  - rewrite lookup_insert_ne by congruence. lia.
Qed.

Lemma fold_add_lookup {A} (f : gmap string Z -> A -> gmap string Z) (g : A -> Z) w :
  (forall m x, default 0 (f m x !! w) = default 0 (m !! w) + g x) ->
  forall l m, default 0 (fold_left f l m !! w) = default 0 (m !! w) + fold_right (fun x acc => g x + acc) 0 l.
Proof. intros H l. induction l as [|x l IH]; intros m; cbn; [lia|]. rewrite IH, H. lia. Qed.

Lemma total_for_fold {A} (name : A -> option string) amount w l :
  total_for name amount w l = fold_right (fun x acc => (if bool_decide (named (name x) = Some w) then amount x else 0) + acc) 0 l.
Proof. induction l as [|x l IH]; cbn; [done|]. by rewrite IH. Qed.

Definition earned_by (arrived : option (gset Z)) (w : string) (cs : list credit) : Z :=
  total_for c_wallet (fun c => default 0 (c_atomic c)) w (filter (fun c => counts arrived c = true) cs).
Definition paid_to (w : string) (ps : list payout) : Z := total_for p_wallet payout_cost w ps.
Definition adjusted_by (w : string) (l : list adjustment) : Z := total_for a_wallet (fun a => default 0 (a_atomic a)) w l.

Lemma earned_of_lookup arrived cs w : default 0 (earned_of arrived cs !! w) = earned_by arrived w cs.
Proof.
  unfold earned_of.
  rewrite (fold_add_lookup _ (fun c => if counts arrived c then
             if bool_decide (named (c_wallet c) = Some w) then default 0 (c_atomic c) else 0 else 0)).
  - rewrite lookup_empty. change (default 0 None) with 0. unfold earned_by. rewrite Z.add_0_l.
    induction cs as [|c cs IH]; [done|]. rewrite filter_cons. cbn [fold_right]. rewrite IH.
    destruct (counts arrived c); [rewrite decide_True by done; cbn [total_for]|rewrite decide_False by done]; lia.
  - intros m c. destruct (counts arrived c); [apply add_to_lookup|lia].
Qed.

Lemma paid_of_lookup ps w : default 0 (paid_of ps !! w) = paid_to w ps.
Proof. unfold paid_of. erewrite fold_add_lookup; [|intros; apply add_to_lookup]. unfold paid_to, adjusted_by. rewrite total_for_fold, lookup_empty. done. Qed.

Lemma adjusted_of_lookup l w : default 0 (adjusted_of l !! w) = adjusted_by w l.
Proof. unfold adjusted_of. erewrite fold_add_lookup; [|intros; apply add_to_lookup]. unfold paid_to, adjusted_by. rewrite total_for_fold, lookup_empty. done. Qed.

(** What a wallet is owed. *)
Definition owed (arrived : option (gset Z)) (cs : list credit) (ps : list payout) (l : list adjustment) (w : string) : Z :=
  earned_by arrived w cs - paid_to w ps + adjusted_by w l.

Section Pending.
Context `{SetOrder}.

Lemma elem_of_pending arrived cs ps l w a :
  (w, a) ∈ pending_of arrived cs ps l <-> a = owed arrived cs ps l w /\ 0 < a.
Proof.
  unfold pending_of, owed. rewrite list_elem_of_filter, list_elem_of_fmap. cbn. split.
  - intros [Ha (w' & [= -> ->] & _)]. by rewrite earned_of_lookup, paid_of_lookup, adjusted_of_lookup in *.
  - intros [-> Ha]. split; [done|]. exists w. rewrite <- earned_of_lookup, <- paid_of_lookup, <- adjusted_of_lookup in *.
    split; [done|]. rewrite set_order_perm, elem_of_elements, !elem_of_union, !elem_of_dom.
    destruct (earned_of arrived cs !! w), (paid_of ps !! w), (adjusted_of l !! w); cbn in *; eauto. lia.
Qed.

Lemma pending_nodup arrived cs ps l : NoDup (pending_of arrived cs ps l).*1.
Proof.
  unfold pending_of. set (net := fun w => _). set (ws := set_order _).
  assert (NoDup ws) as Hws by (unfold ws; rewrite set_order_perm; apply NoDup_elements).
  induction Hws as [|w ws Hw _ IH]; [constructor|]. cbn [map]. rewrite filter_cons. case_decide; [|done].
  cbn [fmap list_fmap]. constructor; [|done]. intros Hin. apply list_elem_of_fmap in Hin as ([w' a] & E & Hin). cbn in E. subst w'.
  apply list_elem_of_filter in Hin as [_ Hin]. by apply list_elem_of_fmap in Hin as (w'' & [= -> _] & Hin).
Qed.

(** C22: the pending balances are exactly what the ledgers say: a wallet is listed, once, with an amount if and only if the
    amount is positive and is what the wallet earned in blocks that count, minus its payments with their part of the fees, plus its
    adjustments.  The order in which Python iterates over the wallets does not matter. *)
Theorem pending_exact arrived cs ps l :
  NoDup (pending_of arrived cs ps l).*1 /\
  forall w a, (w, a) ∈ pending_of arrived cs ps l <-> a = owed arrived cs ps l w /\ 0 < a.
Proof. split; [apply pending_nodup|intros; apply elem_of_pending]. Qed.
End Pending.

(** ** The amounts of a round *)

Section Amounts.
Context (C : config).

(** What holds of each amount, and of their sum. *)
Lemma scale_amounts_each scale av tot eligible : forall sent,
  py_truediv av tot = Ok scale -> 0 <= av < tot -> Forall (fun wa => 0 < wa.2) eligible ->
  scale_amounts C scale eligible = Ok sent ->
  sublist sent.*1 eligible.*1 /\
  forall w s, (w, s) ∈ sent -> MIN_PAYOUT_ATOMIC C <= s /\ exists a, (w, a) ∈ eligible /\ (a < 2 ^ 53 -> s <= a).
Proof.
  intros sent Hs Hav. revert sent. induction eligible as [|[w a] eligible IH]; intros sent Hpos; cbn [scale_amounts].
  { intros [= <-]. split; [done|]. by intros w s ?%not_elem_of_nil. }
  apply Forall_cons in Hpos as [Ha Hpos]. cbn [snd] in Ha.
  destruct (py_float a) as [fa|] eqn:Efa; [|done]. cbn [res_bind].
  destruct (py_trunc (num_mul fa scale)) as [s|] eqn:Es; [|done]. cbn [res_bind].
  destruct (scale_amounts C scale eligible) as [rest|]; [|done]. cbn [res_bind]. intros [= <-].
  destruct (IH rest Hpos eq_refl) as (Hsub & Hin).
  assert (a < 2 ^ 53 -> s <= a) as Hle.
  { intros Hlt. apply (trunc_within (num_mul fa scale) a s); [lia| |done]. rewrite num_mul_comm.
    apply num_mul_within; [lia|apply (truediv_within_one av tot); [lia|lia|done]|apply float_within; [lia|done]]. }
  assert (forall w' s', (w', s') ∈ rest -> MIN_PAYOUT_ATOMIC C <= s' /\ exists a', (w', a') ∈ (w, a) :: eligible /\ (a' < 2 ^ 53 -> s' <= a'))
    as Hrest.
  { intros w' s' Hin'. destruct (Hin w' s' Hin') as [? (a' & ? & ?)]. split; [done|]. exists a'. split; [by right|done]. }
  destruct (Z.leb_spec (MIN_PAYOUT_ATOMIC C) s); split; [cbn; by constructor| |cbn; by constructor|done].
  intros w' s' [[= -> ->]|Hin']%elem_of_cons; [|by apply Hrest]. split; [done|]. exists a. split; [by left|done].
Qed.


Definition eligible_ok (eligible : list (string * Z)) : Prop :=
  Forall (fun wa => 0 < wa.2 /\ MIN_PAYOUT_ATOMIC C <= wa.2) eligible.

Lemma eligible_pos eligible : eligible_ok eligible -> Forall (fun wa => 0 < wa.2) eligible.
Proof. intros H. eapply Forall_impl; [exact H|]. by intros wa [? _]. Qed.

Lemma payout_amounts_each eligible available sent :
  eligible_ok eligible -> 0 <= available -> payout_amounts C eligible available = Ok sent ->
  sublist sent.*1 eligible.*1 /\
  forall w s, (w, s) ∈ sent -> MIN_PAYOUT_ATOMIC C <= s /\ exists a, (w, a) ∈ eligible /\ (a < 2 ^ 53 -> s <= a).
Proof.
  intros Hok Hav. unfold payout_amounts. destruct (Z.ltb_spec available (sum_amounts eligible)) as [Hlt|Hge].
  - destruct (py_truediv available (sum_amounts eligible)) as [scale|] eqn:E; [|done]. cbn [res_bind]. intros Hs.
    by apply (scale_amounts_each scale available (sum_amounts eligible)); [|lia|apply eligible_pos|].
  - intros [= <-]. split; [done|]. intros w s Hin. unfold eligible_ok in Hok. rewrite Forall_forall in Hok.
    destruct (Hok _ Hin) as [_ Hmin]. split; [done|]. exists s. split; [done|lia].
Qed.


End Amounts.

Lemma nodup_filter {A} (P : string * A -> Prop) `{!forall x, Decision (P x)} (l : list (string * A)) :
  NoDup l.*1 -> NoDup (filter P l).*1.
Proof.
  induction l as [|[k v] l IH]; [done|]. rewrite fmap_cons. intros [Hk Hnd]%NoDup_cons. rewrite filter_cons.
  case_decide; [|by apply IH]. rewrite fmap_cons. constructor; [|by apply IH]. intros Hin. apply Hk.
  apply list_elem_of_fmap in Hin as ([k' v'] & -> & Hin). apply list_elem_of_filter in Hin as [_ Hin].
  by apply (list_elem_of_fmap_2 fst) in Hin.
Qed.

(** ** What the server makes of an answer *)

(** The value or the error [json_rpc] gives for the decoded answer. *)
Definition rpc_result (name method : string) (resp : pyval) : res pyval :=
  let* has := py_in "error" resp in
  if has : bool then
    let* err := py_item resp "error" in
    if py_truthy err then let* _ := py_get err "message" err in Err ("RuntimeError: " +:+ name +:+ " " +:+ method)
    else py_get resp "result" PNone
  else py_get resp "result" PNone.

Lemma ends_rpc {W} (R : W -> forall o, res (ret o) -> W -> Prop) name s m ps (Q : res pyval -> W -> Prop) w :
  (forall r w', R w (Post s m ps) r w' -> Q (let* resp := r in rpc_result name m resp) w') -> ends R Q (json_rpc name s m ps) w.
Proof.
  intros HQ. apply ends_bind. apply (ends_call R (Post s m ps)). intros r w' Hr. specialize (HQ r w' Hr).
  destruct r as [resp|e]; [|exact HQ]. cbn [res_bind] in HQ. unfold rpc_result in HQ. apply ends_bind, ends_lift.
  destruct (py_in "error" resp) as [[]|e]; cbn [res_bind] in HQ; [|by apply ends_lift|done]. apply ends_bind, ends_lift.
  destruct (py_item resp "error") as [err|e]; cbn [res_bind] in HQ; [|done]. destruct (py_truthy err); [|by apply ends_lift].
  apply ends_bind, ends_lift. by destruct (py_get err "message" err).
Qed.

(** ** Rounds of payouts with any wallet *)

Section Rounds.
Context (C : config) `{SetOrder}.

(** The payments the wallet has made: those whose answer the server could record, and those whose answer was lost: a timeout, a
    closed connection, an error after the transfer, or a result without a fee that is a number. *)
Record payments : Type := mk_payments { acknowledged : list (string * Z); lost : list (string * Z) }.
Definition no_payments : payments := mk_payments [] [].
Definition books : Type := world * payments.

Definition recorded (r : res pyval) : bool :=
  match (let* resp := r in let* v := rpc_result "wallet-rpc" "transfer" resp in int_member v "fee") with Ok _ => true | Err _ => false end.

Definition paid_out (r : res pyval) (sent : list (string * Z)) (p : payments) : payments :=
  if recorded r then mk_payments (acknowledged p ++ sent) (lost p) else mk_payments (acknowledged p) (lost p ++ sent).

(** A fee is an unsigned number. *)
Definition fee_unsigned (r : res pyval) : Prop :=
  forall resp v fee, r = Ok resp -> rpc_result "wallet-rpc" "transfer" resp = Ok v -> int_member v "fee" = Ok fee -> 0 <= fee.

(** Files can be read and written and the clock shows a finite time.  The wallet may answer anything to anything, and whatever it answers to
    a transfer it may have made it or not. *)
Definition working (x : books) (o : op) : res (ret o) -> books -> Prop :=
  match o with
  | Load p => fun r y => y = x /\ r = Ok (file_at (disk x.1) p)
  | Save p c => fun r y => r = Ok tt /\ y = (set_disk (put_file (disk x.1) p c) x.1, x.2)
  | Now => fun r y => y = x /\ exists t z, r = Ok t /\ py_trunc t = Ok z
  | Post s m params => fun r y =>
      if String.eqb m "transfer" then
        fee_unsigned r /\ (y = x \/ exists sent, params = transfer_params C sent /\ y = (x.1, paid_out r sent x.2))
      else y = x
  | o => fun r y => answers x.1 o r y.1 /\ y.2 = x.2
  end.

Abbreviation after_working := (ends working).

Definition owed_in (x : books) : string -> Z :=
  owed (if num_ltb num_zero (arrived_heights_ts (mem x.1)) then Some (arrived_heights (mem x.1)) else None)
    (default [] (f_credits (disk x.1))) (default [] (f_payouts (disk x.1))) (default [] (f_adjustments (disk x.1))).

Fixpoint sent_to (w : string) (l : list (string * Z)) : Z :=
  match l with [] => 0 | (w', a) :: l' => (if String.eqb w' w then a else 0) + sent_to w l' end.

(** What one round does: nothing to the files, or it records payments, which the wallet has made or not. *)
Definition same_books (x y : books) : Prop := mem y.1 = mem x.1 /\ disk y.1 = disk x.1 /\ acknowledged y.2 = acknowledged x.2.

Definition round_done (x y : books) : Prop :=
  same_books x y \/
  exists sent made ts fee tx,
    mem y.1 = mem x.1 /\
    disk y.1 = put_file (disk x.1) PAYOUTS_FILE (default [] (f_payouts (disk x.1)) ++ payout_entries ts fee tx sent) /\
    acknowledged y.2 = acknowledged x.2 ++ made /\ (made = sent \/ made = []) /\ 0 <= fee /\ NoDup sent.*1 /\
    forall w s, (w, s) ∈ sent -> 0 <= s /\ (owed_in x w < 2 ^ 53 -> s <= owed_in x w).

Lemma load_json_file_working p d x (Q : res (content p) -> books -> Prop) :
  Q (Ok (default d (file_at (disk x.1) p))) x -> after_working Q (load_json_file p d) x.
Proof. intros HQ. apply ends_catch, ends_bind. ask_call. intros r y [-> ->]. exact HQ. Qed.

Lemma arrived_working x (Q : res (option (gset Z)) -> books -> Prop) :
  (forall y, same_books x y ->
     Q (Ok (if num_ltb num_zero (arrived_heights_ts (mem x.1)) then Some (arrived_heights (mem x.1)) else None)) y) ->
  after_working Q arrived_now x.
Proof.
  intros HQ. destruct x as [w l]. apply ends_bind. ask_call. intros r [w1 l1] Hr. cbn in Hr. destruct Hr as [(_ & -> & ->) ->].
  apply ends_bind, ends_catch, ends_bind, ends_bind. ask_call. intros r [w2 l2] Hr. cbn in Hr. destruct Hr as [[-> ->] ->].
  cbn [ends fst snd]. apply ends_bind. ask_call. intros r [w3 l3] Hr. cbn in Hr. destruct Hr as [[-> ->] ->]. by apply HQ.
Qed.

Lemma pending_working x (Q : res (list (string * Z)) -> books -> Prop) :
  (forall y pending, same_books x y -> NoDup pending.*1 ->
     (forall w a, (w, a) ∈ pending -> a = owed_in x w /\ 0 < a) -> Q (Ok pending) y) ->
  after_working Q compute_pending_balances x.
Proof.
  intros HQ. unfold compute_pending_balances. do 3 (apply ends_bind, load_json_file_working).
  apply ends_bind, arrived_working. intros y Hy. apply HQ; [done|apply pending_nodup|].
  intros w a Hin. by apply elem_of_pending in Hin.
Qed.

(** A request other than a transfer. *)
Lemma wallet_rpc_working m ps x (Q : res pyval -> books -> Prop) :
  String.eqb m "transfer" = false -> (forall r, Q r x) -> after_working Q (wallet_rpc m ps) x.
Proof. intros Hm HQ. apply ends_rpc. intros r y Hr. cbn in Hr. rewrite Hm in Hr. by subst y. Qed.

Lemma transfer_params_inj a b : transfer_params C a = transfer_params C b -> a = b.
Proof.
  intros [= E]. revert b E. induction a as [|[w n] a IH]; intros [|[w' n'] b] E; try done.
  cbn in E. injection E as -> -> E. f_equal. by apply IH.
Qed.

(** What a transfer can do: it is lost or not made and the answer is of no use, or its result has a fee. *)
Lemma transfer_working sent x (Q : res pyval -> books -> Prop) :
  (forall r y, same_books x y -> match r with Ok v => match int_member v "fee" with Ok _ => False | Err _ => True end | Err _ => True end -> Q r y) ->
  (forall v fee made p, int_member v "fee" = Ok fee -> 0 <= fee -> made = sent \/ made = [] -> acknowledged p = acknowledged x.2 ++ made -> Q (Ok v) (x.1, p)) ->
  after_working Q (wallet_rpc "transfer" (transfer_params C sent)) x.
Proof.
  intros Hbad Hok. apply ends_rpc. intros r y. cbn [working String.eqb Ascii.eqb Bool.eqb]. intros [Hfee Hy].
  destruct (let* resp := r in rpc_result "wallet-rpc" "transfer" resp) as [v|e] eqn:Ev; [destruct (int_member v "fee") as [fee|e] eqn:Ef|].
  - assert (recorded r = true) as Hrec by (unfold recorded; destruct r as [resp|]; [|done]; cbn [res_bind] in *; by rewrite Ev; cbn [res_bind]; rewrite Ef).
    assert (0 <= fee) as Hf by (destruct r as [resp|]; [|done]; by eapply Hfee).
    destruct Hy as [->|(sent' & Ep & ->)]; [destruct x as [w p]; apply (Hok v fee []); [done..|by right|by rewrite app_nil_r]|].
    apply transfer_params_inj in Ep as <-. apply (Hok v fee sent); [done..|by left|]. unfold paid_out. by rewrite Hrec.
  - apply Hbad; [|by rewrite Ef]. destruct Hy as [->|(sent' & Ep & ->)]; [done|]. unfold paid_out.
    assert (recorded r = false) as -> by (unfold recorded; destruct r as [resp|]; [|done]; cbn [res_bind] in *; by rewrite Ev; cbn [res_bind]; rewrite Ef). done.
  - apply Hbad; [|done]. destruct Hy as [->|(sent' & Ep & ->)]; [done|]. unfold paid_out.
    assert (recorded r = false) as -> by (unfold recorded; destruct r as [resp|]; [|done]; cbn [res_bind] in *; by rewrite Ev). done.
Qed.

(** The part of a round after the transfer. *)
Definition record_payments (sent : list (string * Z)) (r : pyval) : thread Z :=
  let! tx_hash := lift (py_get r "tx_hash" (PStr "")) in
  let! tx_fee := lift (int_member r "fee") in
  let! payouts_log := load_json_file PAYOUTS_FILE [] in
  let! now := await Now in
  let! ts := lift (py_trunc now) in
  do! save_json_atomic PAYOUTS_FILE (payouts_log ++ payout_entries ts tx_fee tx_hash sent) in
  do! lift (py_float (sum_amounts sent)) in
  do! lift (py_float tx_fee) in
  do! lift (sliceable tx_hash) in
  Ret (Z.of_nat (length sent)).

Lemma record_lost sent r x0 x : same_books x0 x -> match int_member r "fee" with Ok _ => False | Err _ => True end ->
  after_working (fun _ y => round_done x0 y) (record_payments sent r) x.
Proof.
  intros Hx Hf. apply ends_bind, ends_lift. destruct (py_get r "tx_hash" (PStr "")); [|by left]. apply ends_bind, ends_lift.
  destruct (int_member r "fee"); [done|by left].
Qed.

Lemma record_working sent r fee made p x0 x :
  same_books x0 x -> int_member r "fee" = Ok fee -> 0 <= fee -> NoDup sent.*1 ->
  (forall w s, (w, s) ∈ sent -> 0 <= s /\ (owed_in x0 w < 2 ^ 53 -> s <= owed_in x0 w)) ->
  made = sent \/ made = [] -> acknowledged p = acknowledged x.2 ++ made ->
  after_working (fun _ y => round_done x0 y) (record_payments sent r) (x.1, p).
Proof.
  intros (Em & Ed & El) Efee Hfee Hnd Hin Hmade Hack. apply ends_bind, ends_lift.
  assert (exists tx, py_get r "tx_hash" (PStr "") = Ok tx) as [tx ->] by (destruct r; try done; by eexists).
  apply ends_bind, ends_lift. rewrite Efee.
  apply ends_bind, load_json_file_working. apply ends_bind. ask_call. intros r' y [-> (t & z & -> & Et)].
  apply ends_bind, ends_lift. rewrite Et. apply ends_bind. ask_call. intros r' y [-> ->].
  assert (forall y : books, y = (set_disk (put_file (disk x.1) PAYOUTS_FILE
            (default [] (f_payouts (disk x.1)) ++ payout_entries z fee tx sent)) x.1, p) -> round_done x0 y) as Hdone.
  { intros y ->. right. exists sent, made, z, fee, tx. cbn. rewrite Em, Ed, Hack, El. done. }
  apply ends_bind, ends_lift. destruct (py_float (sum_amounts sent)); [|by apply Hdone].
  apply ends_bind, ends_lift. destruct (py_float fee); [|by apply Hdone]. apply ends_bind, ends_lift. destruct (sliceable tx); by apply Hdone.
Qed.

Lemma payout_round_working x :
  0 <= MIN_PAYOUT_ATOMIC C -> after_working (fun _ y => round_done x y) (payout_round C) x.
Proof.
  intros Hmin. unfold payout_round. apply ends_bind, pending_working. intros y pending Hy Hnd Hp. cbv zeta.
  assert (round_done x y) as Hnone by (by left).
  destruct (eligible_of C pending) as [|wa rest] eqn:Eel; [done|]. rewrite <- Eel. clear wa rest Eel.
  apply ends_bind, ends_attempt, wallet_rpc_working; [done|]. intros [bal|e]; [|done].
  apply ends_bind, ends_lift. destruct (int_member bal "unlocked_balance") as [unlocked|e]; [|done].
  destruct (Z.ltb_spec (unlocked - FEE_RESERVE_ATOMIC) (MIN_PAYOUT_ATOMIC C)); [done|].
  apply ends_bind, ends_lift. destruct (payout_amounts C (eligible_of C pending) (unlocked - FEE_RESERVE_ATOMIC)) as [sent|e] eqn:Es; [|done].
  assert (forall w a, (w, a) ∈ eligible_of C pending -> a = owed_in x w /\ 0 < a) as Hel.
  { intros w a [_ Hin]%list_elem_of_filter. by apply Hp. }
  assert (eligible_ok C (eligible_of C pending)) as Hok.
  { apply Forall_forall. intros [w a] Hwa. split; [by destruct (Hel w a Hwa)|by apply list_elem_of_filter in Hwa as [? _]]. }
  destruct (payout_amounts_each C _ (unlocked - FEE_RESERVE_ATOMIC) sent Hok ltac:(lia) Es) as [Hsub Hin].
  destruct sent as [|wa rest]; [done|]. set (sent := wa :: rest) in *. clearbody sent. clear wa rest.
  assert (NoDup sent.*1) as Hsnd by (by refine (sublist_NoDup _ _ (nodup_filter _ pending Hnd) Hsub)).
  apply ends_bind, ends_attempt, transfer_working.
  - intros r z Hz Hr. assert (same_books x z) as Hxz by (destruct Hy as (Y1 & Y2 & Y3), Hz as (Z1 & Z2 & Z3); split_and!; congruence).
    destruct r as [v|e]; [by apply (record_lost sent v x z)|by left].
  - intros v fee made p Ef Hfee Hmade Hack. apply (record_working sent v fee made p x y); [done..| |done|done].
    intros w s Hs. destruct (Hin w s Hs) as [Hs0 (a & Ha & Hle)]. destruct (Hel w a Ha) as [-> Hpos]. split; [lia|done].
Qed.

(** ** Any number of rounds *)

Lemma sent_to_app w a b : sent_to w (a ++ b) = sent_to w a + sent_to w b.
Proof. induction a as [|[w' n] a IH]; cbn; [done|]. rewrite IH. lia. Qed.

Lemma sent_to_none w l : w ∉ l.*1 -> sent_to w l = 0.
Proof.
  induction l as [|[w' n] l IH]; [done|]. rewrite fmap_cons, not_elem_of_cons. cbn [fst sent_to]. intros [Hne Hl].
  rewrite IH by done. destruct (String.eqb_spec w' w); [by subst|lia].
Qed.

(** A round pays a wallet at most what it is owed. *)
Lemma sent_to_bound w l k :
  NoDup l.*1 -> 0 <= k -> (forall s, (w, s) ∈ l -> s <= k) -> sent_to w l <= k.
Proof.
  induction l as [|[w' n] l IH]; cbn [fmap list_fmap]; intros Hnd Hk Hin; [done|].
  apply NoDup_cons in Hnd as [Hw Hnd]. cbn [fst sent_to] in *. destruct (String.eqb_spec w' w) as [->|Hne].
  - rewrite (sent_to_none w l Hw). specialize (Hin n ltac:(by left)). lia.
  - rewrite Z.add_0_l. apply IH; [done|done|]. intros s Hs. apply Hin. by right.
Qed.

Lemma total_for_app {A} (name : A -> option string) amount w a b :
  total_for name amount w (a ++ b) = total_for name amount w a + total_for name amount w b.
Proof. induction a as [|x a IH]; cbn; [done|]. rewrite IH. lia. Qed.

(** The records of a round count at least what was sent. *)
Lemma paid_entries w ts fee tx sent :
  w <> ""%string -> 0 <= fee -> sent_to w sent <= paid_to w (payout_entries ts fee tx sent).
Proof.
  intros Hw Hfee. unfold payout_entries, paid_to. set (share := fee / _).
  assert (0 <= share) as Hs by (apply Z.div_pos; lia). clearbody share.
  induction sent as [|[w' a] sent IH]; [done|]. cbn [map total_for p_wallet fst snd sent_to].
  unfold payout_cost at 1, named. cbn [p_atomic p_round_fee_share from_option snd fst]. unfold id.
  destruct (String.eqb_spec w' w) as [->|Hne].
  - destruct (String.eqb_spec w ""); [done|]. rewrite bool_decide_true by done. lia.
  - rewrite bool_decide_false; [lia|]. destruct (String.eqb w' ""); congruence.
Qed.

Lemma sent_to_nonneg w l : (forall s, (w, s) ∈ l -> 0 <= s) -> 0 <= sent_to w l.
Proof.
  induction l as [|[w' n] l IH]; intros Hin; cbn [sent_to]; [done|].
  assert (0 <= sent_to w l) by (apply IH; intros s Hs; apply Hin; by right).
  destruct (String.eqb_spec w' w) as [->|]; [|lia]. specialize (Hin n ltac:(by left)). lia.
Qed.

(** What a round pays a wallet with an answer that could be recorded. *)
Definition round_pays (x y : books) (w : string) : Z := sent_to w (acknowledged y.2) - sent_to w (acknowledged x.2).

Lemma round_sends x y w : round_done x y -> 0 <= round_pays x y w.
Proof.
  unfold round_pays. intros [(_ & _ & ->)|(sent & made & ts & fee & tx & _ & _ & -> & Hmade & _ & _ & Hin)]; [lia|]. rewrite sent_to_app.
  assert (0 <= sent_to w sent) by (apply sent_to_nonneg; intros s Hs; by destruct (Hin w s Hs)). destruct Hmade as [->| ->]; cbn [sent_to]; lia.
Qed.

(** What a round leaves owed. *)
Lemma round_owed x y w :
  w <> ""%string -> round_done x y -> owed_in x w < 2 ^ 53 ->
  round_pays x y w <= Z.max 0 (owed_in x w) /\ owed_in y w <= owed_in x w - round_pays x y w.
Proof.
  unfold round_pays. intros Hw [(Em & Ed & El)|(sent & made & ts & fee & tx & Em & Ed & El & Hmade & Hfee & Hnd & Hin)] Hb.
  - unfold owed_in. rewrite Em, Ed, El. lia.
  - rewrite El, sent_to_app. replace (sent_to w (acknowledged x.2) + sent_to w made - sent_to w (acknowledged x.2)) with (sent_to w made) by lia.
    assert (0 <= sent_to w sent) as Hs0 by (apply sent_to_nonneg; intros s Hs; by destruct (Hin w s Hs)).
    assert (sent_to w made <= sent_to w sent) as Hle by (destruct Hmade as [->| ->]; cbn [sent_to]; lia).
    assert (sent_to w sent <= Z.max 0 (owed_in x w)) as Hmax.
    { apply sent_to_bound; [done|lia|]. intros s Hs. destruct (Hin w s Hs) as [_ Hso]. specialize (Hso Hb). lia. }
    split; [lia|]. unfold owed_in at 1, owed. rewrite Em, Ed. cbn [put_file f_credits f_payouts f_adjustments].
    change (default [] (Some ?l)) with l. unfold paid_to at 1. rewrite total_for_app. pose proof (paid_entries w ts fee tx sent Hw Hfee) as Hp.
    unfold owed_in, owed, paid_to in *. lia.
Qed.

Lemma loop_working n : forall x,
  0 <= MIN_PAYOUT_ATOMIC C -> (forall w, w <> ""%string -> owed_in x w < 2 ^ 53) ->
  after_working (fun _ y => forall w, w <> ""%string -> round_pays x y w <= Z.max 0 (owed_in x w)) (loop n (payout_iteration C)) x.
Proof.
  induction n as [|n IH]; intros x Hmin Hb; cbn [loop]; [intros w _; unfold round_pays; lia|].
  assert (forall y, round_done x y -> after_working (fun _ y => forall w, w <> ""%string -> round_pays x y w <= Z.max 0 (owed_in x w))
            (loop n (payout_iteration C)) y) as Hnext.
  { intros y Hr. assert (forall w, w <> ""%string -> owed_in y w < 2 ^ 53) as Hb'.
    { intros w Hw. pose proof (Hb w Hw). pose proof (round_owed x y w Hw Hr (Hb w Hw)). pose proof (round_sends x y w Hr). lia. }
    eapply ends_mono; [|by apply IH]. cbn beta. intros _ z Hz w Hw. specialize (Hz w Hw).
    pose proof (round_owed x y w Hw Hr (Hb w Hw)). pose proof (round_sends x y w Hr). unfold round_pays in *. lia. }
  apply ends_bind, ends_catch, ends_bind. eapply ends_mono; [|by apply payout_round_working].
  intros [r|e] y Hr; by apply Hnext.
Qed.

(** All a wallet has received. *)
Definition received (w : string) (x : books) : Z := sent_to w (acknowledged x.2) + sent_to w (lost x.2).

(** C3: no wallet is overpaid but by transfers whose answer the server lost.  The payout thread runs alone, files and clock work, and the wallet
    daemon may answer anything, and make or not make a transfer whatever it answers, as long as no fee is negative.  After any number of
    rounds each wallet has received at most what the ledgers said it was owed before the first round (below 2^53 atomic units), plus what went
    to it in transfers that the daemon made without an answer with a fee: if no such answer was lost, at most what it was owed. *)
Theorem never_overpaid n x tr y out w :
  0 <= MIN_PAYOUT_ATOMIC C -> (forall w, w <> ""%string -> owed_in x w < 2 ^ 53) ->
  exec working (loop n (payout_iteration C)) x tr y out -> w <> ""%string ->
  received w y - received w x <= Z.max 0 (owed_in x w) + (sent_to w (lost y.2) - sent_to w (lost x.2)).
Proof.
  intros Hmin Hb Hex Hw. pose proof (ends_exec working _ _ _ _ _ _ Hex (loop_working n x Hmin Hb) w Hw) as Hp.
  unfold received, round_pays in *. lia.
Qed.
End Rounds.

(** ** Reconciliation *)

Section Reconcile.
Context (C : config).

Definition credit_height (c : credit) : Z := default 0 (c_height c).
Definition credits_at (h : Z) (l : list credit) : list credit := filter (fun c => credit_height c = h) l.
Definition shares_ok (l : list credit) : Prop := Forall (fun c => 0 <= default 0 (c_shares c)) l.

Lemma distribute_cons actual total assigned c c' g :
  distribute actual total assigned (c :: c' :: g) =
  (let* x := py_truediv (actual * default 0 (c_shares c)) total in
   let* a := py_trunc x in
   let* (kept, dropped) := distribute actual total (assigned + a) (c' :: g) in
   Ok (if 0 <? a then (set_atomic c a :: kept, dropped) else (kept, set_atomic c a :: dropped))).
Proof. reflexivity. Qed.

(** The parts before the last stay below the whole; the last gets the rest. *)
Lemma distribute_sum actual total g : forall assigned kept dropped,
  0 <= actual -> 0 < total -> shares_ok g -> g <> [] -> distribute actual total assigned g = Ok (kept, dropped) ->
  exists s, 0 <= s /\ s * (total * 2 ^ 52) <= actual * sum_shares g * (2 ^ 52 + 1) /\
            atomic_sum kept = s + Z.max 0 (actual - assigned - s).
Proof.
  induction g as [|c g IH]; intros assigned kept dropped Ha Ht Hg Hne; [done|].
  apply Forall_cons in Hg as [Hc Hg]. destruct g as [|c' g].
  - cbn [distribute sum_shares]. intros E. exists 0.
    assert (0 <= actual * (default 0 (c_shares c) + 0) * (2 ^ 52 + 1)) by nia. split_and!; [lia|lia|].
    destruct (Z.ltb_spec 0 (Z.max 0 (actual - assigned))); injection E as <- _; cbn; lia.
  - rewrite distribute_cons.
    destruct (py_truediv (actual * default 0 (c_shares c)) total) as [x|] eqn:Ex; [|done]. cbn [res_bind].
    destruct (py_trunc x) as [a|] eqn:Ea; [|done]. cbn [res_bind].
    destruct (trunc_truediv (actual * default 0 (c_shares c)) total x a ltac:(nia) Ht Ex Ea) as [Ha0 Ha1].
    destruct (distribute actual total (assigned + a) (c' :: g)) as [[k d]|] eqn:Ed; [|done]. cbn [res_bind].
    destruct (IH (assigned + a) k d Ha Ht Hg ltac:(done) Ed) as (s & Hs0 & Hs & Hk).
    intros E. exists (a + s). change (sum_shares (c :: c' :: g)) with (default 0 (c_shares c) + sum_shares (c' :: g)).
    split_and!; [lia|lia|].
    destruct (Z.ltb_spec 0 a); injection E as <- _; cbn [atomic_sum set_atomic c_atomic from_option]; unfold id; lia.
Qed.

Lemma sum_shares_nonneg g : shares_ok g -> 0 <= sum_shares g.
Proof. induction 1 as [|c g Hc _ IH]; cbn; lia. Qed.

(** One height. *)
Definition expected (arrived : gmap Z Z) (wallet_h h : Z) (g : list credit) : Z :=
  match arrived !! h with
  | Some actual => match g with [] => 0 | _ => actual end
  | None => if wallet_h - h <? RECONCILE_SAFETY_AGE C then atomic_sum g else 0
  end.

Lemma reconcile_group_sum arrived wallet_h h g kept dropped r :
  (forall a, arrived !! h = Some a -> 0 <= a < 2 ^ 52) -> shares_ok g ->
  reconcile_group C arrived wallet_h h g = Ok (kept, dropped, r) -> atomic_sum kept = expected arrived wallet_h h g.
Proof.
  intros Harr Hg. unfold reconcile_group, expected. destruct (arrived !! h) as [actual|].
  2:{ case_test; by intros [= <- _ _]. }
  specialize (Harr actual eq_refl). destruct g as [|c [|c' g]]; [by intros [= <- _ _]|intros [= <- _ _]; cbn; lia|].
  pose proof (sum_shares_nonneg _ Hg) as Hs0. destruct (Z.ltb_spec 0 (sum_shares (c :: c' :: g))) as [Hpos|_].
  2:{ intros [= <- _ _]. cbn. lia. }
  destruct (distribute actual _ 0 _) as [[k d]|] eqn:Ed; [|done]. cbn [res_bind]. intros [= <- _ _].
  destruct (distribute_sum actual (sum_shares (c :: c' :: g)) (c :: c' :: g) 0 k d ltac:(lia) Hpos Hg ltac:(done) Ed)
    as (s & Hs & Hle & ->).
  pose proof (within_whole s _ actual Hpos Harr Hle). lia.
Qed.

Lemma distribute_heights actual total h g : forall assigned kept dropped,
  Forall (fun c => credit_height c = h) g -> distribute actual total assigned g = Ok (kept, dropped) ->
  Forall (fun c => credit_height c = h) kept.
Proof.
  induction g as [|c g IH]; intros assigned kept dropped Hg; [intros [= <- _]; constructor|].
  apply Forall_cons in Hg as [Hc Hg]. destruct g as [|c' g].
  - cbn [distribute]. case_test; intros [= <- _]; by repeat constructor.
  - rewrite distribute_cons. destruct (py_truediv _ total) as [x|]; [|done]. cbn [res_bind].
    destruct (py_trunc x) as [a|]; [|done]. cbn [res_bind].
    destruct (distribute actual total (assigned + a) (c' :: g)) as [[k d]|] eqn:Ed; [|done]. cbn [res_bind].
    pose proof (IH _ _ _ Hg Ed) as Hk. case_test; intros [= <- _]; [by constructor|done].
Qed.

Lemma reconcile_group_heights arrived wallet_h h g kept dropped r :
  Forall (fun c => credit_height c = h) g ->
  reconcile_group C arrived wallet_h h g = Ok (kept, dropped, r) -> Forall (fun c => credit_height c = h) kept.
Proof.
  intros Hg. unfold reconcile_group. destruct (arrived !! h) as [actual|].
  2:{ case_test; intros [= <- _ _]; [done|constructor]. }
  destruct g as [|c [|c' g]]; [intros [= <- _ _]; constructor|intros [= <- _ _]|].
  { apply Forall_cons in Hg as [Hc _]. by repeat constructor. }
  destruct (0 <? _).
  - destruct (distribute actual _ 0 _) as [[k d]|] eqn:Ed; [|done]. cbn [res_bind]. intros [= <- _ _].
    by eapply distribute_heights.
  - intros [= <- _ _]. apply Forall_cons in Hg as [Hc _]. by repeat constructor.
Qed.

(** The groups: each height once, with its credits. *)
Definition grouped (l : list (Z * list credit)) : Prop :=
  NoDup l.*1 /\ Forall (fun hg => Forall (fun c => credit_height c = hg.1) hg.2) l.

Fixpoint group_at (h : Z) (l : list (Z * list credit)) : list credit :=
  match l with [] => [] | (h', g) :: l' => if h =? h' then g else group_at h l' end.

Lemma bucket_keys h c l : (bucket h c l).*1 = if bool_decide (h ∈ l.*1) then l.*1 else l.*1 ++ [h].
Proof.
  induction l as [|[h' g] l IH]; [done|]. cbn [bucket]. rewrite !fmap_cons. cbn [fst].
  destruct (Z.eqb_spec h h') as [->|Hne]; [rewrite bool_decide_true by (by left); done|].
  rewrite fmap_cons, IH. cbn [fst]. case_bool_decide as H1; case_bool_decide as H2; try done.
  - destruct H2. by right.
  - apply elem_of_cons in H2 as [?|?]; done.
Qed.

Lemma bucket_grouped c l : grouped l -> grouped (bucket (credit_height c) c l).
Proof.
  intros [Hnd Hf]. split.
  - rewrite bucket_keys. case_bool_decide as Hin; [done|]. apply NoDup_app. split_and!; [done| |apply NoDup_singleton].
    intros x Hx Hc%list_elem_of_singleton. by subst.
  - clear Hnd. induction Hf as [|[h g] l Hg Hl IH]; cbn [bucket]; [by repeat constructor|].
    destruct (Z.eqb_spec (credit_height c) h) as [E|]; constructor; [|done|done|done].
    cbn. apply Forall_app. split; [done|by repeat constructor].
Qed.

Lemma group_at_bucket h c l :
  group_at h (bucket (credit_height c) c l) = if credit_height c =? h then group_at h l ++ [c] else group_at h l.
Proof.
  induction l as [|[h' g] l IH]; cbn [bucket group_at].
  - rewrite Z.eqb_sym. by case_test.
  - destruct (Z.eqb_spec (credit_height c) h') as [<-|Hne]; cbn [group_at].
    + rewrite (Z.eqb_sym h). by destruct (credit_height c =? h).
    + destruct (Z.eqb_spec h h') as [->|]; [|done]. by destruct (Z.eqb_spec (credit_height c) h').
Qed.

Lemma by_height_from cs : forall l, grouped l ->
  let l' := fold_left (fun l c => bucket (credit_height c) c l) cs l in
  grouped l' /\ forall h, group_at h l' = group_at h l ++ credits_at h cs.
Proof.
  induction cs as [|c cs IH]; intros l Hl; cbn [fold_left]; cbv zeta.
  - split; [done|]. intros h. by rewrite app_nil_r.
  - destruct (IH _ (bucket_grouped c l Hl)) as [H1 H2]. split; [done|]. intros h. rewrite H2, group_at_bucket.
    unfold credits_at. rewrite filter_cons. destruct (Z.eqb_spec (credit_height c) h).
    + rewrite decide_True by done. by rewrite <- app_assoc.
    + by rewrite decide_False.
Qed.

Lemma by_height_spec cs : grouped (by_height cs) /\ forall h, group_at h (by_height cs) = credits_at h cs.
Proof.
  destruct (by_height_from cs []) as [H1 H2]; [by repeat constructor|]. split; [exact H1|]. intros h. apply (H2 h).
Qed.

Lemma credits_at_same h l : Forall (fun c => credit_height c = h) l -> credits_at h l = l.
Proof.
  unfold credits_at. induction 1 as [|c l Hc _ IH]; [done|]. by rewrite filter_cons, decide_True, IH.
Qed.

Lemma credits_at_forall (P : credit -> Prop) h l : Forall P l -> Forall P (credits_at h l).
Proof. intros Hl. apply Forall_forall. intros c [_ Hc]%list_elem_of_filter. by apply (proj1 (Forall_forall _ _) Hl). Qed.

Lemma credits_at_other h h' l : h <> h' -> Forall (fun c => credit_height c = h') l -> credits_at h l = [].
Proof.
  unfold credits_at. intros Hne. induction 1 as [|c l Hc _ IH]; [done|]. rewrite filter_cons, decide_False; [done|congruence].
Qed.

Lemma group_at_not_in h l : h ∉ l.*1 -> group_at h l = [].
Proof.
  induction l as [|[h' g] l IH]; [done|]. rewrite fmap_cons, not_elem_of_cons. cbn [fst group_at]. intros [Hne Hl].
  destruct (Z.eqb_spec h h'); [done|by apply IH].
Qed.

Lemma group_at_in h g l : NoDup l.*1 -> (h, g) ∈ l -> group_at h l = g.
Proof.
  induction l as [|[h' g'] l IH]; [by intros _ ?%not_elem_of_nil|]. rewrite fmap_cons. intros [Hh Hnd]%NoDup_cons Hin.
  cbn [group_at fst] in *. apply elem_of_cons in Hin as [[= -> ->]|Hin]; [by rewrite Z.eqb_refl|].
  destruct (Z.eqb_spec h h') as [->|]; [|by apply IH]. destruct Hh. by apply (list_elem_of_fmap_2 fst) in Hin.
Qed.

Lemma group_at_elem h l : group_at h l <> [] -> (h, group_at h l) ∈ l.
Proof.
  induction l as [|[h' g] l IH]; [done|]. cbn [group_at]. destruct (Z.eqb_spec h h') as [->|]; [by left|]. intros Hne. right. by apply IH.
Qed.

Lemma reconcile_groups_sum arrived wallet_h l : forall kept dropped r,
  (forall h a, arrived !! h = Some a -> 0 <= a < 2 ^ 52) -> grouped l -> Forall (fun hg => shares_ok hg.2) l ->
  reconcile_groups C arrived wallet_h l = Ok (kept, dropped, r) ->
  forall h, atomic_sum (credits_at h kept) = expected arrived wallet_h h (group_at h l).
Proof.
  intros kept dropped r Harr. revert kept dropped r. induction l as [|[h' g] l IH]; intros kept dropped r [Hnd Hf] Hs.
  { intros [= <- _ _] h. cbn. unfold expected. destruct (arrived !! h); [done|]. by case_test. }
  rewrite fmap_cons in Hnd. apply NoDup_cons in Hnd as [Hh' Hnd]. cbn [fst] in Hh'.
  apply Forall_cons in Hf as [Hg Hf]. apply Forall_cons in Hs as [Hsg Hs]. cbn [fst snd] in *.
  cbn [reconcile_groups]. destruct (reconcile_group C arrived wallet_h h' g) as [[[k1 d1] r1]|] eqn:E1; [|done]. cbn [res_bind].
  destruct (reconcile_groups C arrived wallet_h l) as [[[k2 d2] r2]|] eqn:E2; [|done]. cbn [res_bind].
  intros [= <- _ _] h. unfold credits_at. rewrite filter_app, atomic_sum_app. fold (credits_at h k1). fold (credits_at h k2).
  rewrite (IH k2 d2 r2 (conj Hnd Hf) Hs eq_refl h). cbn [group_at].
  pose proof (reconcile_group_heights _ _ _ _ _ _ _ Hg E1) as Hk1. destruct (Z.eqb_spec h h') as [->|Hne].
  - rewrite (credits_at_same _ _ Hk1), (reconcile_group_sum _ _ _ _ _ _ _ (Harr h') Hsg E1), (group_at_not_in _ _ Hh').
    unfold expected. destruct (arrived !! h'); [lia|]. case_test; cbn; lia.
  - rewrite (credits_at_other h h' k1 Hne Hk1). cbn. lia.
Qed.

(** ** The ledger after a run *)

(** What the wallet's answers say. *)
Definition arrived_in (transfers : res pyval) : res (gmap Z Z) :=
  let* resp := transfers in let* v := rpc_result "wallet-rpc" "get_transfers" resp in let* l := members v "in" in arrived_amounts ∅ l.
Definition height_in (height : res pyval) : Z :=
  match (let* resp := height in let* v := rpc_result "wallet-rpc" "get_height" resp in int_member v "height") with Ok h => h | Err _ => 0 end.

(** Files work, and the wallet gives these two answers. *)
Definition reading (transfers height : res pyval) (w : world) (o : op) : res (ret o) -> world -> Prop :=
  match o with
  | Load p => fun r w' => w' = w /\ r = Ok (file_at (disk w) p)
  | Save p c => fun r w' => r = Ok tt /\ w' = set_disk (put_file (disk w) p c) w
  | Post _ m _ => fun r w' => w' = w /\ (m = "get_transfers"%string -> r = transfers) /\ (m = "get_height"%string -> r = height)
  | o => answers w o
  end.

(** The heights a run has something to say about: several credits for one arrived block, or credits for an old block that never arrived. *)
Definition disputed (arrived : gmap Z Z) (wallet_h h : Z) (g : list credit) : Prop :=
  match arrived !! h with
  | Some _ => (2 <= length g)%nat
  | None => g <> [] /\ RECONCILE_SAFETY_AGE C <= wallet_h - h
  end.

Definition amounts_ok (l : list credit) : Prop := Forall (fun c => 0 <= default 0 (c_atomic c) < 2 ^ 53) l.

Lemma distribute_total actual total g : forall assigned,
  0 <= actual < 2 ^ 52 -> 0 < total -> shares_ok g -> sum_shares g <= total ->
  exists kept dropped, distribute actual total assigned g = Ok (kept, dropped) /\ amounts_ok dropped.
Proof.
  induction g as [|c g IH]; intros assigned Ha Ht Hg Hs; [by exists [], []; split; [|constructor]|].
  apply Forall_cons in Hg as [Hc Hg]. pose proof (sum_shares_nonneg g Hg) as Hs0. cbn [sum_shares] in Hs. destruct g as [|c' g].
  - cbn [distribute]. case_test; do 2 eexists; (split; [done|]); repeat constructor; cbn; lia.
  - rewrite distribute_cons.
    assert (0 <= actual * default 0 (c_shares c) <= total * Z.max 1 actual) as Hq.
    { split; [nia|]. rewrite Z.mul_comm. apply Z.mul_le_mono_nonneg; lia. }
    destruct (truediv_total _ total (Z.max 1 actual) Hq Ht ltac:(lia)) as (x & -> & Hx). cbn [res_bind].
    destruct (trunc_total x _ Hx) as [a Ea]. rewrite Ea. cbn [res_bind]. pose proof (trunc_within x (Z.max 1 actual) a ltac:(lia) Hx Ea) as Hab.
    destruct (IH (assigned + a) Ha Ht Hg ltac:(lia)) as (k & d & -> & Hd). cbn [res_bind].
    case_test; do 2 eexists; (split; [done|]); [done|]. constructor; [cbn; lia|done].
Qed.

Lemma reconcile_group_total arrived wallet_h h g :
  (forall a, arrived !! h = Some a -> 0 <= a < 2 ^ 52) -> shares_ok g -> amounts_ok g -> g <> [] ->
  exists kept dropped r, reconcile_group C arrived wallet_h h g = Ok (kept, dropped, r) /\ amounts_ok dropped /\
    (dropped <> [] \/ r = true <-> disputed arrived wallet_h h g).
Proof.
  intros Harr Hg Hamt Hne. unfold reconcile_group, disputed. destruct (arrived !! h) as [actual|].
  2:{ destruct (Z.ltb_spec (wallet_h - h) (RECONCILE_SAFETY_AGE C)); do 3 eexists; (split; [done|]).
      - split; [constructor|]. split; [intros [?|?]; done|]. intros [_ ?]. lia.
      - split; [done|]. split; [intros [?|?]; [by split|done]|]. intros _. by left. }
  destruct g as [|c [|c' g]]; [done|do 3 eexists; split; [done|]; split; [constructor|]; split; [intros [?|?]; done|cbn; lia]|].
  destruct (Z.ltb_spec 0 (sum_shares (c :: c' :: g))) as [Hpos|].
  - destruct (distribute_total actual (sum_shares (c :: c' :: g)) (c :: c' :: g) 0 (Harr actual eq_refl) Hpos Hg ltac:(lia)) as (k & d & -> & Hd).
    cbn [res_bind]. do 3 eexists. split; [done|]. split; [done|]. split; [intros _; cbn; lia|by right].
  - do 3 eexists. split; [done|]. split; [by apply Forall_cons in Hamt as [_ ?]|]. split; [intros _; cbn; lia|by right].
Qed.

Lemma reconcile_groups_total arrived wallet_h l :
  (forall h a, arrived !! h = Some a -> 0 <= a < 2 ^ 52) ->
  Forall (fun hg => shares_ok hg.2 /\ amounts_ok hg.2 /\ hg.2 <> []) l ->
  exists kept dropped r, reconcile_groups C arrived wallet_h l = Ok (kept, dropped, r) /\ amounts_ok dropped /\
    (dropped <> [] \/ r = true <-> exists hg, hg ∈ l /\ disputed arrived wallet_h hg.1 hg.2).
Proof.
  intros Harr. induction 1 as [|[h g] l (Hs & Ha & Hne) _ IH]; cbn [reconcile_groups fst snd] in *.
  { do 3 eexists. split; [done|]. split; [constructor|]. split; [by intros [?|?]|]. by intros (hg & ?%not_elem_of_nil & _). }
  destruct (reconcile_group_total arrived wallet_h h g (Harr h) Hs Ha Hne) as (k1 & d1 & r1 & -> & Hd1 & H1). cbn [res_bind].
  destruct IH as (k2 & d2 & r2 & -> & Hd2 & H2). cbn [res_bind]. do 3 eexists. split; [done|]. split; [by apply Forall_app|].
  assert (d1 ++ d2 <> [] \/ r1 || r2 = true <-> (d1 <> [] \/ r1 = true) \/ d2 <> [] \/ r2 = true) as -> by (destruct d1, d2, r1, r2; naive_solver).
  rewrite H1, H2. split.
  - intros [Hd|(hg & Hin & Hd)]; [exists (h, g); split; [by left|done]|exists hg; split; [by right|done]].
  - intros (hg & [->|Hin]%elem_of_cons & Hd); [by left|right; by exists hg].
Qed.

Lemma by_height_nonempty cs : Forall (fun hg => hg.2 <> []) (by_height cs).
Proof.
  unfold by_height. assert (forall l, Forall (fun hg : Z * list credit => hg.2 <> []) l ->
    Forall (fun hg => hg.2 <> []) (fold_left (fun l c => bucket (default 0 (c_height c)) c l) cs l)) as Hf; [|by apply Hf].
  induction cs as [|c cs IH]; intros l Hl; [done|]. cbn [fold_left]. apply IH. generalize (default 0 (c_height c)). intros h.
  induction Hl as [|[h' g] l Hg Hl IHl]; cbn [bucket]; [by repeat constructor|]. destruct (h =? h'); constructor; try done. cbn. by destruct g.
Qed.

(** The groups of a ledger: total, judged as [disputed] says, and the sums. *)
Lemma reconcile_ledger arrived wallet_h cs :
  (forall h a, arrived !! h = Some a -> 0 <= a < 2 ^ 52) -> shares_ok cs -> amounts_ok cs ->
  exists kept dropped r, reconcile_groups C arrived wallet_h (by_height cs) = Ok (kept, dropped, r) /\ amounts_ok dropped /\
    (dropped <> [] \/ r = true <-> exists h, disputed arrived wallet_h h (credits_at h cs)) /\
    forall h, atomic_sum (credits_at h kept) = expected arrived wallet_h h (credits_at h cs).
Proof.
  intros Harr Hs Ha. destruct (by_height_spec cs) as [Hgr Hat].
  assert (forall hg, hg ∈ by_height cs -> credits_at hg.1 cs = hg.2) as Hin by (intros [h g] Hin; cbn [fst snd]; by rewrite <- Hat, (group_at_in h g _ (proj1 Hgr) Hin)).
  assert (Forall (fun hg => shares_ok hg.2 /\ amounts_ok hg.2 /\ hg.2 <> []) (by_height cs)) as Hall.
  { apply Forall_forall. intros hg Hhg. rewrite <- (Hin hg Hhg) at 1 2. split; [by apply credits_at_forall|]. split; [by apply credits_at_forall|].
    by apply (proj1 (Forall_forall _ _) (by_height_nonempty cs)). }
  destruct (reconcile_groups_total arrived wallet_h (by_height cs) Harr Hall) as (k & d & r & E & Hd & Hr). exists k, d, r. split; [exact E|]. split; [done|]. split.
  - rewrite Hr. split; [intros (hg & Hhg & Hdis); exists hg.1; by rewrite (Hin hg Hhg)|]. intros (h & Hdis). rewrite <- Hat in Hdis.
    exists (h, group_at h (by_height cs)). split; [|done]. apply group_at_elem. unfold disputed in Hdis. destruct (arrived !! h); [|by destruct Hdis].
    intros E0. rewrite E0 in Hdis. cbn in Hdis. lia.
  - intros h. rewrite <- Hat. apply (reconcile_groups_sum arrived wallet_h (by_height cs) k d r Harr Hgr); [|exact E].
    eapply Forall_impl; [exact Hall|]. by intros hg [? _].
Qed.

Lemma log_dropped_total l : amounts_ok l -> log_dropped l = Ok tt.
Proof. induction 1 as [|c l Hc _ IH]; [done|]. cbn [log_dropped]. destruct (float_total _ Hc) as (x & -> & _). exact IH. Qed.

(** The ledger of credits. *)
Definition ledger (w : world) : list credit := default [] (f_credits (disk w)).

Lemma load_json_file_reading ts hr p d w (Q : res (content p) -> world -> Prop) :
  Q (Ok (default d (file_at (disk w) p))) w -> ends (reading ts hr) Q (load_json_file p d) w.
Proof. intros HQ. apply ends_catch, ends_bind. ask_call. intros r y [-> ->]. exact HQ. Qed.

(** What a run has done to the ledger. *)
Definition reconciled (arrived : gmap Z Z) (wallet_h : Z) (w w' : world) : Prop :=
  ((exists h, disputed arrived wallet_h h (credits_at h (ledger w))) ->
   forall h, atomic_sum (credits_at h (ledger w')) = expected arrived wallet_h h (credits_at h (ledger w))) /\
  ((forall h, ~ disputed arrived wallet_h h (credits_at h (ledger w))) -> f_credits (disk w') = f_credits (disk w)).

(** The part of a run after the wallet's answers. *)
Lemma reconcile_rest ts hr arrived wallet_h w :
  (forall h a, arrived !! h = Some a -> 0 <= a < 2 ^ 52) -> shares_ok (ledger w) -> amounts_ok (ledger w) ->
  ends (reading ts hr) (fun out w' => out = Ok tt /\ reconciled arrived wallet_h w w')
    (let! credits := load_json_file CREDITS_FILE [] in
     let! (kept, dropped, rescaled) := lift (reconcile_groups C arrived wallet_h (by_height credits)) in
     do! (if (match dropped with [] => false | _ => true end) || rescaled then do! lift (log_dropped dropped) in save_json_atomic CREDITS_FILE kept else Ret tt) in
     let! blocks := load_json_file BLOCKS_FILE [] in
     let bkept := reconcile_blocks C arrived wallet_h ∅ blocks in
     if (length bkept =? length blocks)%nat then Ret tt else save_json_atomic BLOCKS_FILE bkept) w.
Proof.
  intros Harr Hs Ha. destruct (reconcile_ledger arrived wallet_h (ledger w) Harr Hs Ha) as (kept & dropped & r & E & Hd & Hr & Hsum).
  apply ends_bind, load_json_file_reading. change (default [] (file_at (disk w) CREDITS_FILE)) with (ledger w). apply ends_bind, ends_lift. rewrite E.
  apply ends_bind. apply (ends_mono _ (fun out w' => out = Ok tt /\ reconciled arrived wallet_h w w')).
  { intros o w1 [-> Hw1]. apply ends_bind, load_json_file_reading. cbv zeta. case_test; [by split|]. ask_call. intros r1 w2 [-> ->]. split; [done|].
    destruct Hw1 as [H1 H2]. split; [exact H1|exact H2]. }
  destruct ((match dropped with [] => false | _ => true end) || r) eqn:Esave.
  - assert (dropped <> [] \/ r = true) as Hdr by (destruct dropped, r; naive_solver). apply ends_bind, ends_lift. rewrite log_dropped_total by done.
    ask_call. intros r1 w1 [-> ->]. split; [done|]. split; [intros _; exact Hsum|]. intros Hno. apply Hr in Hdr as [h Hh]. by destruct (Hno h).
  - split; [done|]. split; [|done]. intros Hdis. apply Hr in Hdis. destruct dropped, r; naive_solver.
Qed.

(** C21: a run of the reconciliation on its own makes the ledger of credits agree with the wallet, if it changes it at all.  The run always
    finishes.  When some height is disputed, i.e. has several credits for a block that arrived, or credits for an old block that never arrived, then
    afterwards the credits of every height add up to exactly the amount that arrived for it, to what they were when the block is too
    recent to judge, and to nothing when an older block never arrived; the parts are rounded in floats, the last one takes the remainder.  When no
    height is disputed the ledger stays as it was, also where a single credit differs from the amount that arrived.  (The wallet's
    answers are [transfers] and [height], files work, arrived amounts are below 2^52 and credits below 2^53.) *)
Theorem reconcile_exact transfers height arrived w tr w' out :
  arrived_in transfers = Ok arrived -> (forall h a, arrived !! h = Some a -> 0 <= a < 2 ^ 52) ->
  shares_ok (ledger w) -> amounts_ok (ledger w) ->
  exec (reading transfers height) (reconcile_credits_once C) w tr w' out ->
  let wallet_h := height_in height in
  out = Ok tt /\
  ((exists h, disputed arrived wallet_h h (credits_at h (ledger w))) ->
   forall h, atomic_sum (credits_at h (ledger w')) =
     match arrived !! h with
     | Some actual => match credits_at h (ledger w) with [] => 0 | _ => actual end
     | None => if wallet_h - h <? RECONCILE_SAFETY_AGE C then atomic_sum (credits_at h (ledger w)) else 0
     end) /\
  ((forall h, ~ disputed arrived wallet_h h (credits_at h (ledger w))) -> f_credits (disk w') = f_credits (disk w)).
Proof.
  intros Earr Harr Hs Ha Hex. cbv zeta.
  apply (ends_exec (reading transfers height) (fun out w' => out = Ok tt /\ reconciled arrived (height_in height) w w') _ _ _ _ _ Hex). clear Hex.
  apply ends_bind, ends_attempt, ends_rpc. intros r1 w1 (-> & -> & _); [|done]. unfold arrived_in in Earr.
  destruct transfers as [resp|]; [|done]. cbn [res_bind] in *. destruct (rpc_result _ _ resp) as [v|]; [|done]. cbn [res_bind] in Earr.
  apply ends_bind, ends_lift. rewrite Earr. apply ends_bind, ends_catch, ends_bind, ends_rpc. intros r2 w2 (-> & _ & ->); [|done].
  pose proof (fun h => reconcile_rest (Ok resp) height arrived h w Harr Hs Ha) as Hrest. unfold height_in.
  destruct height as [hr|e]; cbn [res_bind]; [|apply Hrest]. destruct (rpc_result _ _ hr) as [hv|e]; cbn [res_bind]; [|apply Hrest].
  apply ends_lift. destruct (int_member hv "height") as [h|e]; apply Hrest.
Qed.
End Reconcile.

(** ** Examples *)


(** Alice is owed a coin. *)
Definition owed_world : world := mk_world pool0 [] (mk_files (Some [a_credit alice 7 (10 ^ 12) 1]) None None None None) ∅.

Lemma owed_alice w : owed_in (owed_world, no_payments) w < 2 ^ 53.
Proof. unfold owed_in, owed, earned_by, paid_to, adjusted_by. cbn. rewrite decide_True by done. cbn. case_bool_decide; lia. Qed.

(** Answer the next call: the wallet has ten coins, makes the transfer and answers [answer]. *)
Ltac working_call answer :=
  lazymatch goal with
  | |- exec _ ?p ?x _ _ _ =>
      let q := eval hnf in p in change p with q;
      lazymatch q with
      | Vis (Load ?f) ?k => eapply (exec_vis _ (Load f) k _ (Ok (file_at (disk x.1) f))); [by split|]
      | Vis (Save ?f ?c) ?k => eapply (exec_vis _ (Save f c) k _ (Ok tt)); [by split|]
      | Vis Now ?k => eapply (exec_vis _ Now k _ (Ok num_one)); [by split; [|exists num_one, 1]|]
      | Vis (Mem ?f) ?k => eapply (exec_vis _ (Mem f) k _ (Ok (mem x.1)) (_, _)); [by split|]
      | Vis (Acquire ?l) ?k => eapply (exec_vis _ (Acquire l) k _ (Ok tt) (_, _)); [by repeat split; apply not_elem_of_nil|]
      | Vis (Release ?l) ?k => eapply (exec_vis _ (Release l) k _ (Ok tt) (_, _)); [by split|]
      | Vis (Post ?s "get_balance"%string ?ps) ?k =>
          eapply (exec_vis _ (Post s "get_balance" ps) k _ (result (PDict [("unlocked_balance"%string, PInt (10 ^ 13))]))); [reflexivity|]
      | Vis (Post ?s ?m ?ps) ?k =>
          eapply (exec_vis _ (Post s m ps) k _ answer);
          [split; [intros ??? E1 E2 E3; vm_compute in E1; simplify_eq; vm_compute in E2; simplify_eq; vm_compute in E3; by simplify_eq
                  |right; eexists; split; reflexivity]|]
      end
  end.
Definition sent_result : res pyval := result (PDict [("tx_hash", PStr "ab"); ("fee", PInt 1000)]%string).
Definition timed_out : res pyval := Err "timeout".

(** A round up to the answer of the transfer of Alice's coin. *)
Ltac working_round answer :=
  do 6 (working_call answer); cbn -[pending_of loop eligible_of attempt payout_amounts];
  match goal with |- context [pending_of ?a ?b ?c ?d] =>
    replace (pending_of a b c d) with [(alice, 10 ^ 12)] by (vm_compute; reflexivity) end;
  replace (eligible_of default_config [(alice, 10 ^ 12)]) with [(alice, 10 ^ 12)] by (vm_compute; reflexivity);
  working_call answer; cbn -[loop payout_amounts Z.ltb Z.pow];
  replace (payout_amounts default_config [(alice, 10 ^ 12)] (10 ^ 13 - FEE_RESERVE_ATOMIC)) with (Ok [(alice, 10 ^ 12)]) by (vm_compute; reflexivity);
  replace (10 ^ 13 - FEE_RESERVE_ATOMIC <? MIN_PAYOUT_ATOMIC default_config) with false by (vm_compute; reflexivity);
  working_call answer.

Lemma one_payment :
  exists tr y out, exec (working default_config) (loop 1 (payout_iteration (H := in_order) default_config)) (owed_world, no_payments) tr y out /\
    received alice y = 10 ^ 12 /\ lost y.2 = [].
Proof.
  do 3 eexists. split; [|split].
  - working_round sent_result. do 3 (working_call sent_result).
    match goal with |- exec _ ?p _ _ _ _ => replace p with (Ret tt : thread unit) by (vm_compute; reflexivity) end. apply exec_ret.
  - vm_compute. reflexivity.
  - vm_compute. reflexivity.
Qed.

Lemma never_overpaid_witness :
  exists tr y out, exec (working default_config) (loop 1 (payout_iteration (H := in_order) default_config)) (owed_world, no_payments) tr y out /\
    received alice y = 10 ^ 12 /\ lost y.2 = [] /\ received alice y - 0 <= Z.max 0 (owed_in (owed_world, no_payments) alice) + 0.
Proof.
  destruct one_payment as (tr & y & out & Hex & Hs & Hl). exists tr, y, out. split; [exact Hex|]. split; [exact Hs|]. split; [exact Hl|].
  assert (forall w, w <> ""%string -> owed_in (owed_world, no_payments) w < 2 ^ 53) as Hb by (intros w _; apply owed_alice).
  pose proof (never_overpaid (H := in_order) default_config 1 (owed_world, no_payments) tr y out alice ltac:(cbn; lia) Hb Hex ltac:(discriminate)) as Hp.
  rewrite Hl in Hp. exact Hp.
Defined.

(** A lost answer is paid again: the wallet makes the first transfer and the request times out; the next round pays Alice her coin once more. *)
Lemma lost_answer_paid_again :
  exists tr y out, exec (working default_config) (loop 2 (payout_iteration (H := in_order) default_config)) (owed_world, no_payments) tr y out /\
    owed_in (owed_world, no_payments) alice = 10 ^ 12 /\ received alice y = 2 * 10 ^ 12.
Proof.
  do 3 eexists. split; [|split].
  - working_round timed_out.
    match goal with |- exec _ ?p _ _ _ _ => replace p with (loop 1 (payout_iteration (H := in_order) default_config)) by reflexivity end.
    working_round sent_result. do 3 (working_call sent_result).
    match goal with |- exec _ ?p _ _ _ _ => replace p with (Ret tt : thread unit) by (vm_compute; reflexivity) end. apply exec_ret.
  - vm_compute. reflexivity.
  - vm_compute. reflexivity.
Qed.

(** Two credits for the block at height 7, for which 901 units arrived, and one at height 8 that is a unit too high. *)
Definition two_credits : list credit := [a_credit alice 7 500 1; a_credit bob 7 500 2; a_credit bob 8 400 2].
Definition credits_world (cs : list credit) : world := mk_world pool0 [] (mk_files (Some cs) None None None None) ∅.
Definition transfer_of (h a : Z) : pyval := PDict [("height", PInt h); ("amount", PInt a)]%string.
Definition wallet_transfers : res pyval := result (PDict [("in", PList [transfer_of 7 901; transfer_of 8 399])]%string).
Definition wallet_height : res pyval := result (PDict [("height", PInt 100)]%string).

(** Answer the next call as [reading] says. *)
Ltac reading_call :=
  lazymatch goal with
  | |- exec _ ?p ?w _ _ _ =>
      let q := eval hnf in p in change p with q;
      lazymatch q with
      | Vis (Load ?f) ?k => eapply (exec_vis _ (Load f) k _ (Ok (file_at (disk w) f))); [by split|]
      | Vis (Save ?f ?c) ?k => eapply (exec_vis _ (Save f c) k _ (Ok tt)); [by split|]
      | Vis (Post ?s "get_height"%string ?ps) ?k => eapply (exec_vis _ (Post s "get_height" ps) k _ wallet_height); [by split_and!|]
      | Vis (Post ?s ?m ?ps) ?k => eapply (exec_vis _ (Post s m ps) k _ wallet_transfers); [by split_and!|]
      end
  end.

Lemma one_run : exists tr w' out,
  exec (reading wallet_transfers wallet_height) (reconcile_credits_once default_config) (credits_world two_credits) tr w' out.
Proof.
  do 3 eexists. reading_call. reading_call. reading_call.
  cbn -[reconcile_groups by_height reconcile_blocks log_dropped].
  match goal with |- context [reconcile_groups ?c ?a ?h ?l] =>
    let v := eval vm_compute in (reconcile_groups c a h l) in replace (reconcile_groups c a h l) with v by (vm_compute; reflexivity) end.
  cbn -[reconcile_blocks log_dropped]. match goal with |- context [log_dropped ?l] => replace (log_dropped l) with (Ok tt : res unit) by (vm_compute; reflexivity) end.
  cbn -[reconcile_blocks]. reading_call. reading_call. apply exec_ret.
Qed.

Lemma reconcile_exact_witness : exists tr w' out,
  exec (reading wallet_transfers wallet_height) (reconcile_credits_once default_config) (credits_world two_credits) tr w' out /\
  atomic_sum (credits_at 7 (ledger w')) = 901 /\ atomic_sum (credits_at 8 (ledger w')) = 399.
Proof.
  destruct one_run as (tr & w' & out & Hex). exists tr, w', out. split; [exact Hex|].
  destruct (reconcile_exact default_config wallet_transfers wallet_height {[ 8 := 399; 7 := 901 ]} (credits_world two_credits) tr w' out) as (_ & Hsum & _);
    [vm_compute; reflexivity| | | |exact Hex|].
  - intros h a [[<- <-]|[_ [<- <-]%lookup_singleton_Some]]%lookup_insert_Some; lia.
  - repeat constructor; cbn; lia.
  - repeat constructor; cbn; lia.
  - assert (exists h, disputed default_config {[ 8 := 399; 7 := 901 ]} (height_in wallet_height) h (credits_at h (ledger (credits_world two_credits)))) as Hd.
    { exists 7. vm_compute. lia. }
    split; [rewrite (Hsum Hd 7)|rewrite (Hsum Hd 8)]; vm_compute; reflexivity.
Defined.

(** The reconciliation is said to be idempotent.  When a part rounds to zero it is dropped, and the next run divides the same amount
    among the others in another way. *)
Lemma reconcile_not_idempotent :
  let run := fun cs => match reconcile_groups default_config {[ 7 := 10 ]} 100 (by_height cs) with Ok (kept, _, _) => kept | _ => [] end in
  let once := run [a_credit alice 7 5 2; a_credit bob 7 5 14; a_credit "c" 7 5 14] in
  map c_atomic once = [Some 4; Some 6] /\ map c_atomic (run once) = [Some 5; Some 5].
Proof. vm_compute. split; reflexivity. Qed.
