(* ===== verification/PoolRaces.v ===== *)
(** * PoolRaces: interleavings and failures the pool server does not handle

    Each theorem is a concrete reachable state: a share counted twice, a reward credited twice, a dataset used after it was freed, credits
    and records of payments that are overwritten, a payment repeated, one address that blocks every payout, and a bonus that is taken
    from the fund and then from the miners. *)
From stdpp Require Import relations.
From S2P Require Import Prelude JsCore Number Bytes Python Effects PoolState PoolShares PoolMoney PoolHttp PoolLocks PoolInv PoolSettle PoolRun.
Local Open Scope Z_scope.
Local Open Scope glaciem_scope.

#[local] Existing Instance in_order.

Definition shares_of (w : string) (x : world) : Z :=
  match assoc w (miner_stats (mem x)) with Some m => shares_total m | None => 0 end.

(** Where a turn ends. *)
Definition before_verify (o : op) : bool := match o with VerifyShare _ _ _ _ _ => true | _ => false end.
Definition before_header (o : op) : bool :=
  match o with Post _ m _ => String.eqb m "get_block_header_by_height" | _ => false end.
Definition before_state (o : op) : bool := match o with Acquire STATE => true | _ => false end.

Definition submit_thread : thread unit := do_POST default_config post_submit.

(** ** Races *)

(** Two copies of one submission that are in flight together are both credited, although the job remembers a single
    submission: the duplicate check and the insertion are in different critical sections. *)
Theorem duplicate_share_race :
  exists w ps, rtc (server_step default_config) (world0, []) (w, ps) /\
    shares_of alice w = 2 /\ (size <$> (submissions <$> jobs (mem w) !! 0%nat)) = Some 1%nat.
Proof.
  pose (e := env (submission "j_a" alice false)).
  destruct (schedule_check default_config [(0%nat, before_verify, e); (1%nat, to_end, e); (0%nat, to_end, e)]
              [submit_thread; submit_thread] world0
              (fun _ w => (shares_of alice w =? 2) && bool_decide ((size <$> (submissions <$> jobs (mem w) !! 0%nat)) = Some 1%nat)))
    as (w & ps & Hr & Hc).
  - repeat constructor.
  - vm_compute. reflexivity.
  - exists w, ps. apply andb_prop in Hc as [H1 H2]. apply Z.eqb_eq in H1. apply bool_decide_eq_true in H2. done.
Qed.

(** A share that is counted while a found block is on its way from the unlocked read of the round's share count to the settlement
    makes the credits exceed the reward: here two miners are credited the whole of it. *)
Theorem settlement_race :
  exists w ps credits b, rtc (server_step default_config) (world0, []) (w, ps) /\
    f_credits (disk w) = Some credits /\ ps_last_block (pool_stats (mem w)) = Some b /\
    b_reward_atomic b = Some 1000 /\ atomic_sum credits = 2000.
Proof.
  pose (ea := env (submission "j_a" alice true)). pose (eb := env (submission "j_a" bob false)).
  destruct (schedule_check default_config
              [(0%nat, before_header, ea); (0%nat, before_state, ea); (1%nat, to_end, eb); (0%nat, to_end, ea)]
              [submit_thread; submit_thread] world0
              (fun _ w => match f_credits (disk w), ps_last_block (pool_stats (mem w)) with
                          | Some cs, Some b => bool_decide (b_reward_atomic b = Some 1000) && (atomic_sum cs =? 2000)
                          | _, _ => false
                          end)) as (w & ps & Hr & Hc).
  - repeat constructor.
  - vm_compute. reflexivity.
  - exists w, ps. destruct (f_credits (disk w)) as [cs|], (ps_last_block (pool_stats (mem w))) as [b|]; try done.
    exists cs, b. apply andb_prop in Hc as [H1 H2]. apply bool_decide_eq_true in H1. apply Z.eqb_eq in H2. done.
Qed.

(** The cache of a single dataset does not stop a thread from using a dataset after another thread has freed it: the pointer
    leaves the critical section before it is used. *)
Theorem dataset_used_after_free :
  exists w ps blob off nonce ptr diff k, rtc (server_step default_config) (world0, []) (w, ps) /\
    ps !! 0%nat = Some (Vis (VerifyShare blob off nonce ptr diff) k) /\ live w !! ptr = None.
Proof.
  pose (ea := env (submission "j_a" alice false)). pose (eb := env (submission "j_b" bob false)).
  destruct (schedule_check default_config [(0%nat, before_verify, ea); (1%nat, to_end, eb)]
              [submit_thread; submit_thread] world0
              (fun ps w => match ps !! 0%nat with
                           | Some (Vis (VerifyShare _ _ _ ptr _) _) => bool_decide (live w !! ptr = None)
                           | _ => false
                           end)) as (w & ps & Hr & Hc).
  - repeat constructor.
  - vm_compute. reflexivity.
  - destruct (ps !! 0%nat) as [[|  |[] k]|] eqn:E; try done. apply bool_decide_eq_true in Hc. by eauto 12.
Qed.

Definition before_save (o : op) : bool := match o with Save _ _ => true | _ => false end.

(** A credit of a block that never arrived, and a share of Alice. *)
Definition phantom_world : world :=
  mk_world (share_of alice pool0) [] (mk_files (Some [a_credit bob 1 500 1]) None None None None) ∅.

(** The wallet has received nothing; the chain is at height 100. *)
Definition nothing_arrived (b : option pyval) : environment :=
  mk_env (num_of_Z 1000) "2026-05-01" "cc"
    (fun s m ps => if String.eqb m "get_transfers" then result (PDict [("in", PList [])]%string)
                   else if String.eqb m "get_height" then result (PDict [("height", PInt 100)]%string)
                   else kind_replies s m ps) b 1 (fun _ => false) (fun _ => false).

(** The reconciliation rewrites the ledger of credits without a lock: a block that is settled between its read and its write is
    counted, its round is over and its height is closed for good, and the credits of everybody who mined it are gone. *)
Theorem credits_lost_race :
  exists w ps, rtc (server_step default_config) (phantom_world, []) (w, ps) /\
    ps_blocks_total (pool_stats (mem w)) = 1 /\ 7 ∈ settled_heights (mem w) /\
    ps_current_round_shares (pool_stats (mem w)) = 0 /\ f_credits (disk w) = Some [].
Proof.
  pose (ea := env (submission "j_a" alice true)). pose (er := nothing_arrived None).
  destruct (schedule_check default_config [(0%nat, before_save, er); (1%nat, to_end, ea); (0%nat, to_end, er)]
              [loop 1 (reconcile_iteration default_config); submit_thread] phantom_world
              (fun _ w => (ps_blocks_total (pool_stats (mem w)) =? 1) && bool_decide (7 ∈ settled_heights (mem w)) &&
                          (ps_current_round_shares (pool_stats (mem w)) =? 0) &&
                          match f_credits (disk w) with Some [] => true | _ => false end)) as (w & ps & Hr & Hc).
  - repeat constructor.
  - vm_compute. reflexivity.
  - exists w, ps. destruct (f_credits (disk w)) as [[|c l]|]; rewrite ?andb_false_r in Hc; [|done..].
    rewrite andb_true_r in Hc. split_hyps. bool_to_prop. by case_bool_decide.
Qed.

(** The cold sweep is configured. *)
Definition cold_config : config :=
  mk_config "POOL_WALLET_NOT_CONFIGURED_set_POOL_WALLET_env_var" (S754_zero false) 1000 180 (10 ^ 11) 15 0 300 25 900
    (num_of_Z 60) bob (10 ^ 12) 60 120 10 true true.

(** Alice is owed two coins. *)
Definition two_coins : world := mk_world pool0 [] (mk_files (Some [a_credit alice 7 (2 * 10 ^ 12) 1]) None None None None) ∅.

Definition owed_alice_in (log : list payout) (w : world) : bool :=
  bool_decide (pending_of None (default [] (f_credits (disk w))) log [] = [(alice, 2 * 10 ^ 12)]).

(** The payout thread and the sweep thread both read, extend and replace the log of payments: a payment that is recorded while a
    sweep is between its read and its write loses its record, and the wallet that was paid is owed the whole sum again. *)
Theorem payout_record_lost :
  exists w1 ps1 w2 ps2 paid log,
    rtc (server_step cold_config) (two_coins, []) (w1, ps1) /\ rtc (server_step cold_config) (w1, ps1) (w2, ps2) /\
    f_payouts (disk w1) = Some [paid] /\ p_wallet paid = Some alice /\ p_atomic paid = Some (2 * 10 ^ 12) /\
    f_payouts (disk w2) = Some [log] /\ p_wallet log = Some bob /\ owed_alice_in [log] w2 = true.
Proof.
  pose (e := env PNone).
  assert (match schedule [(0%nat, before_save, e); (1%nat, to_end, e)]
                  [loop 1 (cold_sweep_iteration cold_config); loop 1 (payout_iteration cold_config)] two_coins with
          | Some (ps1, w1) =>
              match f_payouts (disk w1), schedule [(0%nat, to_end, e)] ps1 w1 with
              | Some [paid], Some (_, w2) =>
                  bool_decide (p_wallet paid = Some alice) && bool_decide (p_atomic paid = Some (2 * 10 ^ 12)) &&
                  match f_payouts (disk w2) with
                  | Some [log] => bool_decide (p_wallet log = Some bob) && owed_alice_in [log] w2
                  | _ => false
                  end
              | _, _ => false
              end
          | None => false
          end = true) as Hc by (vm_compute; reflexivity).
  destruct (schedule _ _ two_coins) as [[ps1 w1]|] eqn:S1; [|discriminate Hc].
  destruct (f_payouts (disk w1)) as [[|paid [|]]|] eqn:F1; try discriminate Hc.
  destruct (schedule _ ps1 w1) as [[ps2 w2]|] eqn:S2; [|discriminate Hc].
  destruct (f_payouts (disk w2)) as [[|log [|]]|] eqn:F2; rewrite ?andb_false_r in Hc; try discriminate Hc.
  split_hyps. repeat match goal with H : bool_decide _ = true |- _ => apply bool_decide_eq_true in H end.
  exists w1, ps1, w2, ps2, paid, log. split_and!; [|exact (schedule_reach cold_config _ _ _ _ _ S2)|assumption..].
  etrans; [|exact (schedule_reach cold_config _ _ _ _ _ S1)]. apply arrive_all. repeat constructor.
Qed.

(** ** Failures *)

(** Alice has earned a coin and was paid it. *)
Definition paid_world : world :=
  mk_world pool0 [] (mk_files (Some [a_credit alice 7 (10 ^ 12) 1]) None (Some [a_payout alice (10 ^ 12)]) None None) ∅.

Definition log_unreadable : environment :=
  mk_env (num_of_Z 1000) "2026-05-01" "cc" kind_replies None 1
    (fun p => match p with PAYOUTS_FILE => true | _ => false end) (fun _ => false).

(** A payout log that cannot be read for a moment counts as empty: the round pays again what was paid before, and replaces the log
    by the new payments alone.  Had the log been readable, nothing would have been owed. *)
Theorem unreadable_log_repays :
  (exists tr w log, exec answers (payout_round default_config) paid_world tr w (Ok 1) /\
     f_payouts (disk w) = Some [log] /\ p_wallet log = Some alice /\ p_atomic log = Some (10 ^ 12) /\ p_tx_hash log = PStr "ab") /\
  pending_of None (default [] (f_credits (disk paid_world))) (default [] (f_payouts (disk paid_world))) [] = [].
Proof.
  split; [|vm_compute; reflexivity].
  assert (exists w, alone log_unreadable (payout_round default_config) paid_world = Some (Ok 1, w) /\
            f_payouts (disk w) = Some [mk_payout (Some 1000) (Some alice) (Some (10 ^ 12)) (PStr "ab") (Some 1000) (Some 1000) None])
    as (w & Hrun & Hlog) by (eexists; split; vm_compute; reflexivity).
  apply alone_exec in Hrun as [tr Hex]. exists tr, w. eexists. by rewrite Hlog.
Qed.

(** An address followed by a line break. *)
Definition mallory : string := of_chars ("R"%char :: replicate 94 "3"%char ++ [chr 10]).

(** A wallet that refuses a transfer with an invalid destination. *)
Definition names_mallory (params : pyval) : bool :=
  match py_get params "destinations" PNone with
  | Ok (PList l) => existsb (fun d => match py_get d "address" PNone with Ok (PStr s) => String.eqb s mallory | _ => false end) l
  | _ => false
  end.

Definition strict_wallet : environment :=
  mk_env (num_of_Z 1000) "2026-05-01" "cc"
    (fun s m ps => if String.eqb m "transfer" && names_mallory ps
                   then Ok (PDict [("error", PDict [("message", PStr "WALLET_RPC_ERROR_CODE_WRONG_ADDRESS")])]%string)
                   else kind_replies s m ps)
    None 1 (fun _ => false) (fun _ => false).

Definition owing_world : world :=
  mk_world pool0 [] (mk_files (Some [a_credit alice 7 (9 * 10 ^ 12) 1; a_credit mallory 7 (10 ^ 11) 1]) None None None None) ∅.

Fixpoint rounds (n : nat) (e : environment) (p : thread unit) (w : world) : option world :=
  match n with
  | O => Some w
  | S n' => match alone e p w with Some (_, w') => rounds n' e p w' | None => None end
  end.

(** One wallet name that the pool accepts and the wallet refuses blocks the payouts of everybody, for ever: all payments of a round
    are one transfer.  The name is an address with a line break at the end, which the pattern lets through. *)
Theorem bad_address_blocks_payouts :
  is_valid_wallet (PStr mallory) = Some mallory /\
  pending_of None (default [] (f_credits (disk owing_world))) [] [] = [(mallory, 10 ^ 11); (alice, 9 * 10 ^ 12)] /\
  forall n, rounds n strict_wallet (payout_iteration default_config) owing_world = Some owing_world.
Proof.
  split_and!; [vm_compute; reflexivity..|]. intros n. induction n as [|n IH]; [done|].
  cbn [rounds]. assert (alone strict_wallet (payout_iteration default_config) owing_world = Some (Ok tt, owing_world)) as ->
    by (vm_compute; reflexivity). exact IH.
Qed.

(** ** The growth fund and the reconciliation *)

Definition fund_world : world :=
  mk_world (mem two_shares) []
    (mk_files None None None None (Some (mk_sponsorship true "growth" (Some 500) (Some 500) (Some 500) (Some 1) (Some 0) None None))) ∅.

(** The reward of the block has arrived in the wallet. *)
Definition arrived_env : environment :=
  mk_env (num_of_Z 1000) "2026-05-01" "cc"
    (fun s m ps => if String.eqb m "get_transfers" then result (PDict [("in", PList [PDict [("height", PInt 7); ("amount", PInt 1000)]])]%string)
                   else if String.eqb m "get_height" then result (PDict [("height", PInt 100)]%string)
                   else kind_replies s m ps) None 1 (fun _ => false) (fun _ => false).

(** A round of two miners with a bonus: the settlement credits the reward of 1000 and the bonus of 500, which the fund pays; the next
    reconciliation takes the two entries of the block for competing blocks and scales them down to the reward, so the bonus is
    gone from the fund and reaches nobody. *)
Theorem bonus_erased :
  exists tr1 w1 c1 tr2 w2 c2 out,
    exec answers (submit_block default_config (a_job "j_a" (seed "a")) 5 alice) fund_world tr1 w1 (Ok out) /\
    exec answers (reconcile_credits_once default_config) w1 tr2 w2 (Ok tt) /\
    f_credits (disk w1) = Some c1 /\ atomic_sum c1 = 1500 /\ fund fund_world = 500 /\ fund w1 = 0 /\
    f_credits (disk w2) = Some c2 /\ atomic_sum c2 = 1000 /\ fund w2 = 0.
Proof.
  assert (match alone (env PNone) (submit_block default_config (a_job "j_a" (seed "a")) 5 alice) fund_world with
          | Some (Ok _, w1) =>
              match alone arrived_env (reconcile_credits_once default_config) w1 with
              | Some (Ok _, w2) =>
                  match f_credits (disk w1), f_credits (disk w2) with
                  | Some c1, Some c2 => (atomic_sum c1 =? 1500) && (fund w1 =? 0) && (atomic_sum c2 =? 1000) && (fund w2 =? 0)
                  | _, _ => false
                  end
              | _ => false
              end
          | _ => false
          end = true) as H by (vm_compute; reflexivity).
  destruct (alone (env PNone) _ _) as [[[out|] w1]|] eqn:H1; [|discriminate H..].
  destruct (alone arrived_env _ _) as [[[[]|] w2]|] eqn:H2; [|discriminate H..].
  apply alone_exec in H1 as [tr1 X1]. apply alone_exec in H2 as [tr2 X2].
  destruct (f_credits (disk w1)) as [c1|] eqn:E1, (f_credits (disk w2)) as [c2|] eqn:E2; [|discriminate H..].
  split_hyps. bool_to_prop. by exists tr1, w1, c1, tr2, w2, c2, out.
Qed.
