(* ===== verification/PoolFund.v ===== *)
(** * PoolFund: the growth fund (pool/server/fund_sponsorship.py and sponsorship_consume_block of pool-server.py)

    The script divides a sum over a number of blocks; the server takes a part of it for each block.  The fund pays exactly what was put
    into it, and how many blocks that takes follows from the division. *)
From S2P Require Import Prelude JsCore Number Bytes Python Effects PoolState PoolShares PoolMoney PoolHttp PoolLocks PoolRun PoolInv PoolSettle PoolPay.
Local Open Scope Z_scope.
Local Open Scope glaciem_scope.

(** [main], from the parsed arguments: an error message, or the state that is written. *)
Definition fund_state (total_glac : number) (blocks : Z) (label : string) (now : number) : res sponsorship :=
  if num_leb total_glac num_zero || (blocks <=? 0) then Err "error: total_glac and blocks_window must both be > 0" else
  let* total_atomic := py_trunc (num_mul total_glac (num_of_Z (10 ^ 12))) in
  let* per_block_atomic := py_floordiv total_atomic blocks in
  let* started_at := py_trunc now in
  Ok (mk_sponsorship true label (Some total_atomic) (Some total_atomic) (Some per_block_atomic) (Some blocks) (Some 0) (Some started_at) None).

(** The bonuses of [n] blocks in a row. *)
Fixpoint consume (n : nat) : thread (list Z) :=
  match n with
  | O => Ret []
  | S n' => let! b := sponsorship_consume_block in let! bs := consume n' in Ret (b :: bs)
  end.

Fixpoint sum_list_z (l : list Z) : Z := match l with [] => 0 | x :: l' => x + sum_list_z l' end.

Section Fund.
Context (C : config).
Abbreviation after_working := (ends (working C)).

(** The fund has [rem] left and gives [per] a block; it is active as long as something is left. *)
Definition fund_at (per rem : Z) (x : books) : Prop :=
  exists sp, f_sponsorship (disk x.1) = Some sp /\ default 0 (sp_per_block_atomic sp) = per /\
    default 0 (sp_remaining_atomic sp) = rem /\ (sp_active sp = true <-> 0 < rem).

Lemma working_with_lock {A} (Q : res A -> books -> Prop) l (p : thread A) x :
  (forall r y hs, Q r y -> Q r (set_held hs y.1, y.2)) ->
  after_working Q p (set_held (l :: held x.1) x.1, x.2) -> after_working Q (with_lock l p) x.
Proof.
  intros HQ Hp. apply ends_bind. ask_call. intros r [w s] Hr. cbn in Hr. destruct Hr as [(_ & -> & ->) ->].
  apply ends_bind, ends_attempt. eapply ends_mono; [|exact Hp]. intros r y Hy. apply ends_bind. ask_call.
  intros r' [w' s'] Hr. cbn in Hr. destruct Hr as [[-> ->] ->]. apply ends_lift. by apply (HQ r y).
Qed.

Lemma consume_one per rem x :
  0 < per -> 0 <= rem -> fund_at per rem x ->
  after_working (fun r y => r = Ok (Z.min per rem) /\ fund_at per (rem - Z.min per rem) y) sponsorship_consume_block x.
Proof.
  intros Hper Hrem (sp & Esp & Ep & Er & Ha). apply working_with_lock; [by intros r y hs [-> Hy]|].
  apply ends_bind, ends_catch. ask_call. intros r y [-> ->]. cbn [fst file_at disk set_held]. rewrite Esp.
  destruct (sp_active sp) eqn:Eact; cbn [negb].
  2:{ assert (rem = 0) as -> by (destruct (Z.eq_dec rem 0); [done|]; assert (false = true) by (apply Ha; lia); done).
      split; [f_equal; lia|]. exists sp. cbn. split_and!; [done|done|lia|]. rewrite Eact. split; [done|lia]. }
  assert (0 < rem) as Hpos by (by apply Ha). rewrite Ep, Er. destruct (Z.leb_spec per 0); [lia|]. destruct (Z.leb_spec rem 0); [lia|].
  cbn [orb]. destruct (Z.leb_spec (rem - Z.min per rem) 0).
  - apply ends_bind. ask_call. intros r y [-> (t & z & -> & Et)]. apply ends_bind, ends_lift. rewrite Et.
    apply ends_bind. ask_call. intros r y [-> ->]. split; [done|]. eexists. split; [done|]. cbn. split_and!; [done|done|lia].
  - apply ends_bind. ask_call. intros r y [-> ->]. split; [done|]. eexists. split; [done|]. cbn. split_and!; [done|done|]. rewrite Eact. lia.
Qed.

Lemma consume_spec_n per n : forall rem x,
  0 < per -> 0 <= rem -> fund_at per rem x ->
  after_working (fun r y => exists bs, r = Ok bs /\ sum_list_z bs = Z.min (Z.of_nat n * per) rem /\
                  fund_at per (rem - Z.min (Z.of_nat n * per) rem) y) (consume n) x.
Proof.
  induction n as [|n IH]; intros rem x Hper Hrem Hx; cbn [consume].
  - exists []. rewrite Z.mul_0_l, Z.min_l, Z.sub_0_r by lia. done.
  - apply ends_bind. eapply ends_mono; [|by apply consume_one]. intros r y [-> Hy]. apply ends_bind.
    eapply ends_mono; [|apply (IH (rem - Z.min per rem)); [done|lia|exact Hy]]. intros r z (bs & -> & Hs & Hz).
    exists (Z.min per rem :: bs). split; [done|]. cbn [sum_list_z]. rewrite Hs.
    split; [lia|]. by replace (rem - Z.min (Z.of_nat (S n) * per) rem) with (rem - Z.min per rem - Z.min (Z.of_nat n * per) (rem - Z.min per rem)) by lia.
Qed.

(** C36: a growth fund whose bonus for a block is positive pays exactly what was put into it, when its files work and the blocks come one after
    another.  After [n] blocks it has paid [n] bonuses or, if that is less, the whole sum, and it is switched off exactly when nothing is
    left.  With a bonus of at least the planned number of blocks that is after that number of blocks, or one more when the sum does not
    divide.  (A fund whose bonus is zero never pays: [fund_idle].) *)
Theorem fund_pays_out total_glac blocks label now sp n x tr y out :
  fund_state total_glac blocks label now = Ok sp ->
  let per := default 0 (sp_per_block_atomic sp) in
  let total := default 0 (sp_total_atomic sp) in
  0 < per -> f_sponsorship (disk x.1) = Some sp ->
  exec (working C) (consume n) x tr y out ->
  exists bs sp', out = Ok bs /\ sum_list_z bs = Z.min (Z.of_nat n * per) total /\ f_sponsorship (disk y.1) = Some sp' /\
    (sp_active sp' = true <-> Z.of_nat n * per < total) /\
    (blocks <= per -> sp_active sp' = true <-> Z.of_nat n < blocks + (if total mod blocks =? 0 then 0 else 1)).
Proof.
  unfold fund_state. destruct (num_leb total_glac num_zero); [done|]. destruct (Z.leb_spec blocks 0) as [|Hb]; [done|]. cbn [orb].
  destruct (py_trunc (num_mul total_glac _)) as [total|e]; [|done]. cbn [res_bind]. unfold py_floordiv.
  destruct (Z.eqb_spec blocks 0); [lia|]. cbn [res_bind]. destruct (py_trunc now) as [started|e]; [|done]. intros [= <-]. cbn [from_option sp_per_block_atomic sp_total_atomic].
  unfold id. set (per := total / blocks). intros Hper Hx Hex.
  pose proof (Z.div_mod total blocks ltac:(lia)) as E. pose proof (Z.mod_pos_bound total blocks Hb) as Hm. fold per in E.
  assert (0 < total) as Ht by nia.
  assert (fund_at per total x) as Hf by (eexists; split; [exact Hx|]; by split_and!).
  destruct (ends_exec (working C) _ _ _ _ _ _ Hex (consume_spec_n per n total x Hper ltac:(lia) Hf)) as (bs & -> & Hs & (sp' & Esp & _ & _ & Ha)).
  exists bs, sp'. rewrite Ha. split_and!; [done|done|done|lia|]. intros Hle.
  destruct (Z.eqb_spec (total mod blocks) 0) as [E0|E0]; split; intros Hn; nia.
Qed.
End Fund.

(** One coin for three blocks. *)
Definition small_fund : sponsorship :=
  mk_sponsorship true "growth" (Some (10 ^ 12)) (Some (10 ^ 12)) (Some 333333333333) (Some 3) (Some 0) (Some 1) None.
Definition small_fund_world : world := mk_world pool0 [] (mk_files None None None None (Some small_fund)) ∅.

Lemma small_fund_state : fund_state num_one 3 "growth" num_one = Ok small_fund.
Proof. vm_compute. reflexivity. Qed.

Lemma one_bonus : exists tr y out, exec (working default_config) (consume 1) (small_fund_world, no_payments) tr y out.
Proof. do 3 eexists. do 4 (working_call sent_result). apply exec_ret. Qed.

Lemma fund_pays_out_witness :
  exists tr y bs sp', exec (working default_config) (consume 1) (small_fund_world, no_payments) tr y (Ok bs) /\ sum_list_z bs = 333333333333 /\
    f_sponsorship (disk y.1) = Some sp' /\ sp_active sp' = true.
Proof.
  destruct one_bonus as (tr & y & out & Hex).
  destruct (fund_pays_out default_config num_one 3 "growth" num_one small_fund 1 (small_fund_world, no_payments) tr y out small_fund_state)
    as (bs & sp' & -> & Hs & Ey & Ha & _); [cbn; lia|reflexivity|exact Hex|].
  exists tr, y, bs, sp'. split; [exact Hex|]. split; [exact Hs|]. split; [exact Ey|]. apply Ha. cbn. lia.
Defined.

(** A sum below the number of blocks gives nothing a block, and such a fund stays active without ever paying. *)
Lemma fund_idle x tr y out sp :
  f_sponsorship (disk x.1) = Some sp -> default 0 (sp_per_block_atomic sp) = 0 ->
  exec (working default_config) sponsorship_consume_block x tr y out -> out = Ok 0 /\ f_sponsorship (disk y.1) = Some sp.
Proof.
  intros Esp Ep Hex. refine (ends_exec (working default_config) (fun r y => r = Ok 0 /\ f_sponsorship (disk y.1) = Some sp) _ _ _ _ _ Hex _).
  apply working_with_lock; [by intros r z hs|]. apply ends_bind, ends_catch. ask_call. intros r z [-> ->]. cbn [fst file_at disk set_held].
  rewrite Esp. destruct (sp_active sp); cbn [negb]; [|done]. by rewrite Ep.
Qed.
