(* ===== verification/Lattice.v ===== *)
(** * Lattice: the proof of work (pow/lattice_ref.c)

    Words are numbers modulo 2^64.  An array is the list of its words; reading or writing outside of it has no result, and so has a
    division by zero or a loop that does not end.  Memory the code allocates without clearing holds the words [uninit] says. *)
From S2P Require Import Prelude Bytes.
Local Open Scope Z_scope.

(** ** Words and arrays *)

Definition w64 (x : Z) : Z := x mod 2 ^ 64.

Definition rotr64 (x n : Z) : Z := Z.lor (Z.shiftr x n) (w64 (Z.shiftl x (64 - n))).

(** [a[i]] *)
Definition get (a : list Z) (i : Z) : option Z := if 0 <=? i then a !! Z.to_nat i else None.

(** [a[i] = x] *)
Definition put (a : list Z) (i x : Z) : option (list Z) :=
  if (0 <=? i) && (i <? Z.of_nat (length a)) then Some (<[Z.to_nat i := x]> a) else None.

(** [for (i = lo; i < lo + n; i++) body] *)
Fixpoint for_from {A} (n : nat) (lo : Z) (body : Z -> A -> option A) (s : A) : option A :=
  match n with
  | O => Some s
  | S n' => s' ← body lo s; for_from n' (lo + 1) body s'
  end.

Definition for_upto {A} (n : Z) (body : Z -> A -> option A) (s : A) : option A := for_from (Z.to_nat n) 0 body s.

Definition zeroed (n : Z) : list Z := replicate (Z.to_nat n) 0.

(** ** Parameters *)

Definition ARX_ROUNDS : Z := 8.
Definition RATE_WORDS : Z := 8.
Definition BLOCK_WORDS : Z := 16.
Definition ST_WORDS : Z := 256.
Definition DATASET_WORDS : Z := 4 * 1024 * 1024 / 8.

(** The two knobs that can be set when the code is built. *)
Record knobs : Type := mk_knobs { SCRATCH_WORDS : Z; L_WALK : Z }.
Definition default_knobs : knobs := mk_knobs (1024 * 1024 / 8) 32768.

(** ** The permutation *)

(** The macro [G] on four words. *)
Definition mix (abcd : Z * Z * Z * Z) : Z * Z * Z * Z :=
  let '(a, b, c, d) := abcd in
  let a := w64 (a + b) in let d := rotr64 (Z.lxor d a) 32 in let c := w64 (c + d) in let b := rotr64 (Z.lxor b c) 24 in
  let a := w64 (a + b) in let d := rotr64 (Z.lxor d a) 16 in let c := w64 (c + d) in let b := rotr64 (Z.lxor b c) 63 in
  (a, b, c, d).

Definition on_four (f : Z * Z * Z * Z -> Z * Z * Z * Z) (i j k l : Z) (v : list Z) : option (list Z) :=
  a ← get v i; b ← get v j; c ← get v k; d ← get v l;
  let '(a, b, c, d) := f (a, b, c, d) in
  v ← put v i a; v ← put v j b; v ← put v k c; put v l d.

Definition G : Z -> Z -> Z -> Z -> list Z -> option (list Z) := on_four mix.

Definition arx_round (v : list Z) : option (list Z) :=
  v ← G 0 4 8 12 v; v ← G 1 5 9 13 v; v ← G 2 6 10 14 v; v ← G 3 7 11 15 v;
  v ← G 0 5 10 15 v; v ← G 1 6 11 12 v; v ← G 2 7 8 13 v; G 3 4 9 14 v.

Definition arx_perm (v : list Z) : option (list Z) := for_upto ARX_ROUNDS (fun _ => arx_round) v.

(** ** The sponge *)

(** [a[i] ^= x] *)
Definition xor_at (a : list Z) (i x : Z) : option (list Z) := y ← get a i; put a i (Z.lxor y x).

(** [for (i = 0; i < RATE_WORDS; i++) s[i] ^= b[off + i]] *)
Definition xor_rate (b : list Z) (off : Z) (s : list Z) : option (list Z) :=
  for_upto RATE_WORDS (fun i s => x ← get b (off + i); xor_at s i x) s.

Fixpoint absorb (fuel : nat) (input : list Z) (inwords off : Z) (s : list Z) : option (list Z * Z) :=
  match fuel with
  | O => None
  | S fuel' =>
      if off + RATE_WORDS <=? inwords then
        s ← xor_rate input off s; s ← arx_perm s; absorb fuel' input inwords (off + RATE_WORDS) s
      else Some (s, off)
  end.

Fixpoint squeeze (fuel : nat) (s out : list Z) (got outwords : Z) : option (list Z) :=
  match fuel with
  | O => None
  | S fuel' =>
      if got <? outwords then
        let n := Z.min RATE_WORDS (outwords - got) in
        out ← for_upto n (fun i out => x ← get s i; put out (got + i) x) out;
        if got + n <? outwords then s ← arx_perm s; squeeze fuel' s out (got + n) outwords
        else squeeze fuel' s out (got + n) outwords
      else Some out
  end.

Definition sponge (input : list Z) (inwords : Z) (out : list Z) (outwords domain : Z) : option (list Z) :=
  s ← xor_at (zeroed 16) 15 (Z.lxor domain (w64 (Z.shiftl inwords 8)));
  '(s, off) ← absorb (S (Z.to_nat inwords)) input inwords 0 s;
  last ← for_upto (inwords - off) (fun i last => x ← get input (off + i); put last i x) (zeroed RATE_WORDS);
  last ← xor_at last (inwords - off) 1;
  last ← xor_at last (RATE_WORDS - 1) 0x8000000000000000;
  s ← xor_rate last 0 s;
  s ← arx_perm s;
  squeeze (S (Z.to_nat outwords)) s out 0 outwords.

(** ** The key stream *)

Fixpoint expand_loop (fuel : nat) (s buf : list Z) (j n : Z) : option (list Z) :=
  match fuel with
  | O => None
  | S fuel' =>
      if j <? n then
        s ← arx_perm s;
        buf ← for_upto (Z.min RATE_WORDS (n - j)) (fun i buf => x ← get s i; put buf (j + i) x) buf;
        expand_loop fuel' s buf (j + RATE_WORDS) n
      else Some buf
  end.

Definition expand (seed : list Z) (domain : Z) (buf : list Z) (n : Z) : option (list Z) :=
  s ← for_upto 8 (fun i s => x ← get seed i; put s i x) (zeroed 16);
  s ← xor_at s 8 domain;
  expand_loop (S (Z.to_nat n)) s buf 0 n.

(** ** The walk *)

Section Walk.
Context (K : knobs) (uninit : string -> Z -> list Z).

(** [x % n] *)
Definition modulo (x n : Z) : option Z := if n =? 0 then None else Some (x mod n).

Definition mix_in (scratch ds state : list Z) (si di ti : Z) (acc : list Z) : option (list Z) :=
  for_upto BLOCK_WORDS (fun k acc =>
    x ← get scratch (si + k); acc ← xor_at acc k x;
    a ← get acc k; x ← get ds (di + k); acc ← put acc k (w64 (a + x));
    x ← get state (ti + k); xor_at acc k x) acc.

Definition write_back (acc : list Z) (si ti : Z) (mem : list Z * list Z) : option (list Z * list Z) :=
  for_upto BLOCK_WORDS (fun k '(state, scratch) =>
    a ← get acc k;
    b ← get acc (Z.land (k + 1) 15); scratch ← put scratch (si + k) (Z.lxor a (rotr64 b 1));
    b ← get acc (Z.land (k + 9) 15); state ← put state (ti + k) (w64 (a + rotr64 b 17));
    Some (state, scratch)) mem.

Definition walk_step (ds : list Z) (s : list Z * list Z * list Z) : option (list Z * list Z * list Z) :=
  let '(acc, state, scratch) := s in
  a ← get acc 0; si ← modulo a (SCRATCH_WORDS K / BLOCK_WORDS); let si := si * BLOCK_WORDS in
  a ← get acc 1; di ← modulo a (DATASET_WORDS / BLOCK_WORDS); let di := di * BLOCK_WORDS in
  a ← get acc 2; ti ← modulo a (ST_WORDS / BLOCK_WORDS); let ti := ti * BLOCK_WORDS in
  acc ← mix_in scratch ds state si di ti acc;
  a ← get acc 3;
  acc ← (if Z.land a 1 =? 1 then arx_perm acc else acc ← arx_perm acc; arx_perm acc);
  '(state, scratch) ← write_back acc si ti (state, scratch);
  Some (acc, state, scratch).

Definition lattice_walk (state scratch ds : list Z) : option (list Z * list Z) :=
  acc ← sponge state ST_WORDS (uninit "acc" 16) 16 0x58;
  scratch ← expand acc 0x58 scratch (SCRATCH_WORDS K);
  '(_, state, scratch) ← for_upto (L_WALK K) (fun _ => walk_step ds) (acc, state, scratch);
  Some (state, scratch).

(** ** The dataset and the hash *)

(** Eight bytes from [i * 8], the least significant first. *)
Definition load64le (b : bytes) (i : Z) : option Z :=
  for_upto 8 (fun k w => x ← get b (i * 8 + k); Some (Z.lor w (w64 (Z.shiftl x (8 * k))))) 0.

Definition store64le (p : bytes) (at_ v : Z) : option bytes :=
  for_upto 8 (fun i p => put p (at_ + i) (Z.shiftr v (8 * i) mod 256)) p.

Definition lattice_build_dataset (epoch_seed : bytes) (ds : list Z) : option (list Z) :=
  es ← for_upto 4 (fun i es => w ← load64le epoch_seed i; put es i w) (uninit "es" 4);
  eseed ← sponge es 4 (uninit "eseed" 8) 8 0x02;
  expand eseed 0xDA ds DATASET_WORDS.

(** The words of the input. *)
Definition input_words (input : bytes) (inwords : Z) : option (list Z) :=
  for_upto (Z.of_nat (length input)) (fun i iw =>
    x ← get input i; w ← get iw (i / 8); put iw (i / 8) (Z.lor w (w64 (Z.shiftl x (8 * (i mod 8)))))) (zeroed inwords).

Definition lattice_hash_ds (input : bytes) (ds : list Z) : option bytes :=
  let len := Z.of_nat (length input) in
  let inwords := Z.max 1 ((len + 7) / 8) in
  iw ← input_words input inwords;
  state ← sponge iw inwords (uninit "state" ST_WORDS) ST_WORDS (Z.lxor 0x01 (w64 (Z.shiftl len 16)));
  '(state, _) ← lattice_walk state (uninit "scratch" (SCRATCH_WORDS K)) ds;
  fh ← sponge state ST_WORDS (uninit "fh" 4) 4 0xF1;
  for_upto 4 (fun i out => w ← get fh i; store64le out (i * 8) w) (uninit "out" 32).

Definition lattice_hash (input epoch_seed : bytes) : option bytes :=
  ds ← lattice_build_dataset epoch_seed (uninit "ds" DATASET_WORDS);
  lattice_hash_ds input ds.
End Walk.
