(* ===== verification/LatticeSafety.v ===== *)
(** * LatticeSafety: the proof of work is a function

    The permutation has an inverse ([arx_perm_bijective]).  The sponge with its buffers and counters is the sponge construction on
    padded input ([sponge_correct]), and the input of a hash can be read back from what it absorbs ([hash_input_encoded]).  A hash reads and
    writes inside of its arrays, ends, and does not depend on what the memory it allocates held before
    ([lattice_hash_defined]). *)
From S2P Require Import Prelude Bytes Lattice.
Local Open Scope Z_scope.

Create HintDb words.

(** ** Words *)

Definition word_ok (x : Z) : Prop := 0 <= x < 2 ^ 64.

Lemma w64_ok x : word_ok (w64 x).
Proof. apply Z.mod_pos_bound. lia. Qed.

Lemma word_bits x : word_ok x <-> 0 <= x /\ forall i, 64 <= i -> Z.testbit x i = false.
Proof.
  split.
  - intros Hx. split; [apply Hx|]. intros i Hi. rewrite <- (Z.mod_small x (2 ^ 64)) by apply Hx. by apply Z.mod_pow2_bits_high.
  - intros [H0 Hb]. split; [done|]. assert (x = x mod 2 ^ 64) as ->; [|apply Z.mod_pos_bound; lia].
    apply Z.bits_inj'. intros i Hi. destruct (Z.lt_ge_cases i 64).
    + by rewrite Z.mod_pow2_bits_low.
    + rewrite Z.mod_pow2_bits_high by lia. by apply Hb.
Qed.

Lemma lxor_ok a b : word_ok a -> word_ok b -> word_ok (Z.lxor a b).
Proof.
  intros [Ha Hab]%word_bits [Hb Hbb]%word_bits. apply word_bits. split; [by apply Z.lxor_nonneg|].
  intros i Hi. by rewrite Z.lxor_spec, Hab, Hbb.
Qed.

Lemma lor_ok a b : word_ok a -> word_ok b -> word_ok (Z.lor a b).
Proof.
  intros [Ha Hab]%word_bits [Hb Hbb]%word_bits. apply word_bits. split; [by apply Z.lor_nonneg|].
  intros i Hi. by rewrite Z.lor_spec, Hab, Hbb.
Qed.

Lemma lxor_cancel a b : Z.lxor (Z.lxor a b) b = a.
Proof. by rewrite Z.lxor_assoc, Z.lxor_nilpotent, Z.lxor_0_r. Qed.

(** Bit [i] of a rotated word. *)
Lemma rotr64_bit x n i :
  word_ok x -> 0 < n < 64 -> 0 <= i ->
  Z.testbit (rotr64 x n) i = if i <? 64 then Z.testbit x ((i + n) mod 64) else false.
Proof.
  intros [Hx0 Hx]%word_bits Hn Hi. unfold rotr64, w64. rewrite Z.lor_spec, Z.shiftr_spec by done.
  destruct (Z.ltb_spec i 64) as [H64|H64].
  - rewrite Z.mod_pow2_bits_low by done. rewrite Z.shiftl_spec by done. destruct (Z.lt_ge_cases (i + n) 64).
    + rewrite (Z.testbit_neg_r x (i - (64 - n))), orb_false_r by lia. by rewrite Z.mod_small by lia.
    + rewrite Hx by lia. cbn [orb]. f_equal. rewrite <- (Z.mod_add _ (-1)) by lia. rewrite Z.mod_small; lia.
  - rewrite Hx by lia. rewrite Z.mod_pow2_bits_high by lia. done.
Qed.

Lemma rotr64_ok x n : word_ok x -> 0 < n < 64 -> word_ok (rotr64 x n).
Proof.
  intros Hx Hn. apply word_bits. split.
  - unfold rotr64. apply Z.lor_nonneg. split; [apply Z.shiftr_nonneg, Hx|apply w64_ok].
  - intros i Hi. rewrite rotr64_bit by (done || lia). by destruct (Z.ltb_spec i 64); [lia|].
Qed.

Lemma rotr64_back x n : word_ok x -> 0 < n < 64 -> rotr64 (rotr64 x n) (64 - n) = x.
Proof.
  intros Hx Hn. apply Z.bits_inj'. intros i Hi. rewrite rotr64_bit by (try apply rotr64_ok; (done || lia)).
  destruct (Z.ltb_spec i 64) as [H64|H64].
  - rewrite rotr64_bit by (done || apply Z.mod_pos_bound; lia).
    destruct (Z.ltb_spec ((i + (64 - n)) mod 64) 64) as [_|Hm]; [|pose proof (Z.mod_pos_bound (i + (64 - n)) 64); lia].
    rewrite Z.add_mod_idemp_l by lia. replace (i + (64 - n) + n) with (i + 1 * 64) by lia. rewrite Z.mod_add by lia.
    by rewrite Z.mod_small.
  - symmetry. by apply (proj1 (word_bits x) Hx).
Qed.

Lemma w64_sub_add a b : word_ok a -> w64 (w64 (a + b) - b) = a.
Proof. intros Ha. unfold w64. rewrite Zminus_mod_idemp_l. replace (a + b - b) with a by lia. by apply Z.mod_small. Qed.

Lemma w64_add_sub a b : word_ok a -> w64 (w64 (a - b) + b) = a.
Proof. intros Ha. unfold w64. rewrite Zplus_mod_idemp_l. replace (a - b + b) with a by lia. by apply Z.mod_small. Qed.

#[export] Hint Resolve w64_ok lxor_ok lor_ok : words.
#[export] Hint Extern 2 (word_ok (rotr64 _ _)) => apply rotr64_ok; [|lia] : words.
#[export] Hint Extern 3 (word_ok ?n) => is_ground n; unfold word_ok; lia : words.

(** ** The mixing function and its inverse *)

(** [mix] is two rounds of the same shape. *)
Definition half (r s : Z) (q : Z * Z * Z * Z) : Z * Z * Z * Z :=
  let '(a, b, c, d) := q in
  let a := w64 (a + b) in let d := rotr64 (Z.lxor d a) r in let c := w64 (c + d) in let b := rotr64 (Z.lxor b c) s in (a, b, c, d).
Definition unhalf (r s : Z) (q : Z * Z * Z * Z) : Z * Z * Z * Z :=
  let '(a, b, c, d) := q in
  let b := Z.lxor (rotr64 b (64 - s)) c in let c := w64 (c - d) in
  let d := Z.lxor (rotr64 d (64 - r)) a in let a := w64 (a - b) in (a, b, c, d).

Definition unmix (q : Z * Z * Z * Z) : Z * Z * Z * Z := unhalf 32 24 (unhalf 16 63 q).

Lemma mix_halves q : mix q = half 16 63 (half 32 24 q).
Proof. by destruct q as [[[a b] c] d]. Qed.

Definition four_ok (q : Z * Z * Z * Z) : Prop := let '(a, b, c, d) := q in word_ok a /\ word_ok b /\ word_ok c /\ word_ok d.

Section Half.
Context (r s : Z) (Hr : 0 < r < 64) (Hs : 0 < s < 64).

Lemma half_ok q : four_ok q -> four_ok (half r s q).
Proof. destruct q as [[[a b] c] d]. intros (Ha & Hb & Hc & Hd). cbn [half four_ok]. split_and!; auto 8 with words. Qed.

Lemma unhalf_ok q : four_ok q -> four_ok (unhalf r s q).
Proof. destruct q as [[[a b] c] d]. intros (Ha & Hb & Hc & Hd). cbn [unhalf four_ok]. split_and!; auto 8 with words. Qed.

Lemma unhalf_half q : four_ok q -> unhalf r s (half r s q) = q.
Proof.
  destruct q as [[[a b] c] d]. intros (Ha & Hb & Hc & Hd). cbn [half unhalf].
  rewrite !rotr64_back, !lxor_cancel by auto 8 with words. by rewrite !w64_sub_add.
Qed.

Lemma half_unhalf q : four_ok q -> half r s (unhalf r s q) = q.
Proof.
  destruct q as [[[a b] c] d]. intros (Ha & Hb & Hc & Hd). cbn [half unhalf].
  rewrite (w64_add_sub a), lxor_cancel by done. pose proof (rotr64_back d (64 - r) Hd ltac:(lia)) as Ed.
  replace (64 - (64 - r)) with r in Ed by lia. rewrite Ed, (w64_add_sub c), lxor_cancel by done.
  pose proof (rotr64_back b (64 - s) Hb ltac:(lia)) as Eb. replace (64 - (64 - s)) with s in Eb by lia. by rewrite Eb.
Qed.
End Half.

Lemma mix_ok q : four_ok q -> four_ok (mix q).
Proof. intros H. rewrite mix_halves. apply half_ok; [lia..|]. apply half_ok; [lia..|done]. Qed.

Lemma unmix_ok q : four_ok q -> four_ok (unmix q).
Proof. intros H. apply unhalf_ok; [lia..|]. apply unhalf_ok; [lia..|done]. Qed.

Lemma unmix_mix q : four_ok q -> unmix (mix q) = q.
Proof. intros H. rewrite mix_halves. unfold unmix. by rewrite !unhalf_half by (lia || done || (apply half_ok; [lia..|done])). Qed.

Lemma mix_unmix q : four_ok q -> mix (unmix q) = q.
Proof. intros H. rewrite mix_halves. unfold unmix. by rewrite !half_unhalf by (lia || done || (apply unhalf_ok; [lia..|done])). Qed.

(** ** Arrays *)

Definition words (n : Z) (a : list Z) : Prop := Z.of_nat (length a) = n /\ Forall word_ok a.

Lemma get_in a i : 0 <= i < Z.of_nat (length a) -> exists x, get a i = Some x /\ a !! Z.to_nat i = Some x.
Proof.
  intros Hi. unfold get. destruct (Z.leb_spec 0 i); [|lia]. destruct (lookup_lt_is_Some_2 a (Z.to_nat i)) as [x Hx]; [lia|]. by exists x.
Qed.

Lemma get_at a i x : 0 <= i -> a !! Z.to_nat i = Some x -> get a i = Some x.
Proof. intros Hi Hx. unfold get. by destruct (Z.leb_spec 0 i); [|lia]. Qed.

Lemma get_ok n a i : words n a -> 0 <= i < n -> exists x, get a i = Some x /\ word_ok x.
Proof.
  intros [Hl Ha] Hi. destruct (get_in a i) as (x & Hx & Hl'); [lia|]. exists x. split; [done|]. by apply (Forall_lookup_1 _ _ _ _ Ha Hl').
Qed.

Lemma put_in a i x : 0 <= i < Z.of_nat (length a) -> put a i x = Some (<[Z.to_nat i := x]> a).
Proof. intros Hi. unfold put. destruct (Z.leb_spec 0 i), (Z.ltb_spec i (Z.of_nat (length a))); (done || lia). Qed.

Lemma put_ok n a i x : words n a -> 0 <= i < n -> word_ok x -> exists a', put a i x = Some a' /\ words n a'.
Proof.
  intros [Hl Ha] Hi Hx. eexists. split; [apply put_in; lia|]. split; [by rewrite length_insert|]. by apply Forall_insert.
Qed.

Lemma xor_at_ok n a i x : words n a -> 0 <= i < n -> word_ok x -> exists a', xor_at a i x = Some a' /\ words n a'.
Proof.
  intros Ha Hi Hx. unfold xor_at. destruct (get_ok n a i Ha Hi) as (y & -> & Hy). cbn. apply put_ok; auto with words.
Qed.

Lemma zeroed_ok n : 0 <= n -> words n (zeroed n).
Proof. intros Hn. split; [unfold zeroed; rewrite length_replicate; lia|]. by apply Forall_replicate. Qed.

(** A loop with an invariant. *)
Lemma for_from_inv {A} (I : Z -> A -> Prop) body n : forall lo s,
  (forall i s, lo <= i < lo + Z.of_nat n -> I i s -> exists s', body i s = Some s' /\ I (i + 1) s') ->
  I lo s -> exists s', for_from n lo body s = Some s' /\ I (lo + Z.of_nat n) s'.
Proof.
  induction n as [|n IH]; intros lo s Hb Hs; cbn [for_from]; [exists s; by rewrite Z.add_0_r|].
  destruct (Hb lo s ltac:(lia) Hs) as (s1 & -> & H1). cbn [mbind option_bind].
  destruct (IH (lo + 1) s1) as (s2 & -> & H2); [|done|exists s2; split; [done|]].
  - intros i s2 Hi. apply Hb. lia.
  - by replace (lo + Z.of_nat (S n)) with (lo + 1 + Z.of_nat n) by lia.
Qed.

Lemma for_upto_inv {A} (I : Z -> A -> Prop) body n s :
  0 <= n -> (forall i s, 0 <= i < n -> I i s -> exists s', body i s = Some s' /\ I (i + 1) s') ->
  I 0 s -> exists s', for_upto n body s = Some s' /\ I n s'.
Proof.
  intros Hn Hb Hs. destruct (for_from_inv I body (Z.to_nat n) 0 s) as (s' & Hf & Hs'); [|done|].
  - intros i s' Hi. apply Hb. lia.
  - exists s'. split; [done|]. by replace n with (0 + Z.of_nat (Z.to_nat n)) by lia.
Qed.

(** ** The permutation *)

(** Sixteen words one by one. *)
Lemma sixteen v : words 16 v -> exists a b c d e f g h i j k l m n o p, v = [a; b; c; d; e; f; g; h; i; j; k; l; m; n; o; p].
Proof.
  intros [Hl _]. do 16 (destruct v as [|? v]; [cbn in Hl; lia|]). destruct v; [|cbn in Hl; lia]. by repeat eexists.
Qed.

Definition distinct4 (i j k l : Z) : Prop :=
  0 <= i < 16 /\ 0 <= j < 16 /\ 0 <= k < 16 /\ 0 <= l < 16 /\ i <> j /\ i <> k /\ i <> l /\ j <> k /\ j <> l /\ k <> l.

Definition write4 (i j k l : Z) (q : Z * Z * Z * Z) (v : list Z) : list Z :=
  let '(a, b, c, d) := q in
  <[Z.to_nat l := d]> (<[Z.to_nat k := c]> (<[Z.to_nat j := b]> (<[Z.to_nat i := a]> v))).

Definition reads4 (i j k l : Z) (q : Z * Z * Z * Z) (v : list Z) : Prop :=
  let '(a, b, c, d) := q in
  v !! Z.to_nat i = Some a /\ v !! Z.to_nat j = Some b /\ v !! Z.to_nat k = Some c /\ v !! Z.to_nat l = Some d.

Lemma write4_reads i j k l q v : distinct4 i j k l -> reads4 i j k l q v -> write4 i j k l q v = v.
Proof. destruct q as [[[a b] c] d]. intros _ (Ha & Hb & Hc & Hd). unfold write4.
  by rewrite (list_insert_id v _ a Ha), (list_insert_id v _ b Hb), (list_insert_id v _ c Hc), (list_insert_id v _ d Hd). Qed.

Lemma reads4_write i j k l q v : distinct4 i j k l -> words 16 v -> reads4 i j k l q (write4 i j k l q v).
Proof.
  destruct q as [[[a b] c] d]. intros Hd [Hl _]. unfold distinct4 in Hd. unfold write4, reads4.
  split_and!; repeat first [rewrite list_lookup_insert_eq by (rewrite ?length_insert; lia); done|rewrite list_lookup_insert_ne by lia].
Qed.

Lemma write4_write i j k l q q' v : distinct4 i j k l -> write4 i j k l q (write4 i j k l q' v) = write4 i j k l q v.
Proof.
  destruct q as [[[a b] c] d], q' as [[[a' b'] c'] d']. intros Hd. unfold distinct4 in Hd. unfold write4.
  rewrite (list_insert_insert_ne _ (Z.to_nat i) (Z.to_nat l)), (list_insert_insert_ne _ (Z.to_nat i) (Z.to_nat k)),
    (list_insert_insert_ne _ (Z.to_nat i) (Z.to_nat j)), list_insert_insert_eq by lia.
  rewrite (list_insert_insert_ne _ (Z.to_nat j) (Z.to_nat l)), (list_insert_insert_ne _ (Z.to_nat j) (Z.to_nat k)), list_insert_insert_eq by lia.
  rewrite (list_insert_insert_ne _ (Z.to_nat k) (Z.to_nat l)), list_insert_insert_eq by lia. by rewrite list_insert_insert_eq.
Qed.

Lemma write4_ok i j k l q v : four_ok q -> words 16 v -> words 16 (write4 i j k l q v).
Proof.
  destruct q as [[[a b] c] d]. intros (Ha & Hb & Hc & Hd) [Hl Hv]. unfold write4. split; [by rewrite !length_insert|].
  by repeat apply Forall_insert.
Qed.

Lemma on_four_reads f i j k l q v :
  distinct4 i j k l -> words 16 v -> reads4 i j k l q v -> on_four f i j k l v = Some (write4 i j k l (f q) v).
Proof.
  destruct q as [[[a b] c] d]. intros Hd [Hl _] (Ha & Hb & Hc & He). unfold distinct4 in Hd. unfold on_four.
  rewrite (get_at v i a), (get_at v j b), (get_at v k c), (get_at v l d) by (done || lia). cbn [mbind option_bind].
  destruct (f (a, b, c, d)) as [[[a' b'] c'] d']. unfold write4.
  do 4 (rewrite put_in by (rewrite ?length_insert; lia); cbn [mbind option_bind]). done.
Qed.

Lemma reads4_exists i j k l v : distinct4 i j k l -> words 16 v -> exists q, reads4 i j k l q v /\ four_ok q.
Proof.
  intros Hd Hv. unfold distinct4 in Hd. assert (forall i, 0 <= i < 16 -> exists x, v !! Z.to_nat i = Some x /\ word_ok x) as Hin.
  { intros i' Hi. destruct (get_ok 16 v i' Hv Hi) as (x & Hx & Hok). unfold get in Hx. destruct (0 <=? i'); [|done]. by exists x. }
  destruct (Hin i) as (a & Ha & ?), (Hin j) as (b & Hb & ?), (Hin k) as (c & Hc & ?), (Hin l) as (d & Hd' & ?); [lia..|].
  by exists (a, b, c, d).
Qed.

(** [q] undoes [p] on sixteen words. *)
Definition undoes (p q : list Z -> option (list Z)) : Prop :=
  forall v, words 16 v -> exists v', p v = Some v' /\ words 16 v' /\ q v' = Some v.

Lemma on_four_undoes f g i j k l :
  (forall q, four_ok q -> four_ok (f q)) -> (forall q, four_ok q -> g (f q) = q) -> distinct4 i j k l ->
  undoes (on_four f i j k l) (on_four g i j k l).
Proof.
  intros Hf Hgf Hd v Hv. destruct (reads4_exists i j k l v Hd Hv) as (q & Hq & Hok). exists (write4 i j k l (f q) v).
  assert (words 16 (write4 i j k l (f q) v)) as Hw by (apply write4_ok; auto).
  split_and!; [by apply on_four_reads|done|]. rewrite (on_four_reads g i j k l (f q)) by (done || by apply reads4_write).
  by rewrite Hgf, write4_write, write4_reads.
Qed.

Lemma undoes_then p p' q q' : undoes p p' -> undoes q q' -> undoes (fun v => v ← p v; q v) (fun v => v ← q' v; p' v).
Proof.
  intros Hp Hq v Hv. destruct (Hp v Hv) as (v1 & E1 & Hv1 & B1). destruct (Hq v1 Hv1) as (v2 & E2 & Hv2 & B2).
  exists v2. rewrite E1, B2. done.
Qed.

Definition UG : Z -> Z -> Z -> Z -> list Z -> option (list Z) := on_four unmix.

Definition arx_unround (v : list Z) : option (list Z) :=
  v ← UG 3 4 9 14 v; v ← UG 2 7 8 13 v; v ← UG 1 6 11 12 v; v ← UG 0 5 10 15 v;
  v ← UG 3 7 11 15 v; v ← UG 2 6 10 14 v; v ← UG 1 5 9 13 v; UG 0 4 8 12 v.

Definition arx_unperm (v : list Z) : option (list Z) := for_upto ARX_ROUNDS (fun _ => arx_unround) v.

(** Eight steps in a row, and their inverses in reverse order. *)
Lemma undoes_eight p0 p1 p2 p3 p4 p5 p6 p7 q0 q1 q2 q3 q4 q5 q6 q7 :
  undoes p0 q0 -> undoes p1 q1 -> undoes p2 q2 -> undoes p3 q3 -> undoes p4 q4 -> undoes p5 q5 -> undoes p6 q6 -> undoes p7 q7 ->
  undoes (fun v => v ← p0 v; v ← p1 v; v ← p2 v; v ← p3 v; v ← p4 v; v ← p5 v; v ← p6 v; p7 v)
         (fun v => v ← q7 v; v ← q6 v; v ← q5 v; v ← q4 v; v ← q3 v; v ← q2 v; v ← q1 v; q0 v).
Proof.
  intros H0 H1 H2 H3 H4 H5 H6 H7 v Hv.
  destruct (H0 v Hv) as (v0 & E0 & W0 & B0). destruct (H1 v0 W0) as (v1 & E1 & W1 & B1). destruct (H2 v1 W1) as (v2 & E2 & W2 & B2).
  destruct (H3 v2 W2) as (v3 & E3 & W3 & B3). destruct (H4 v3 W3) as (v4 & E4 & W4 & B4). destruct (H5 v4 W4) as (v5 & E5 & W5 & B5).
  destruct (H6 v5 W5) as (v6 & E6 & W6 & B6). destruct (H7 v6 W6) as (v7 & E7 & W7 & B7). exists v7.
  rewrite E0. cbn. rewrite E1. cbn. rewrite E2. cbn. rewrite E3. cbn. rewrite E4. cbn. rewrite E5. cbn. rewrite E6. cbn.
  split_and!; [done|done|]. rewrite B7. cbn. rewrite B6. cbn. rewrite B5. cbn. rewrite B4. cbn. rewrite B3. cbn. rewrite B2. cbn.
  rewrite B1. done.
Qed.

Lemma round_undoes : undoes arx_round arx_unround.
Proof. apply undoes_eight; apply on_four_undoes; first [apply mix_ok|apply unmix_mix|unfold distinct4; lia]. Qed.

Lemma unround_undoes : undoes arx_unround arx_round.
Proof. apply undoes_eight; apply on_four_undoes; first [apply unmix_ok|apply mix_unmix|unfold distinct4; lia]. Qed.

Lemma for_from_const {A} (p : A -> option A) n : forall lo lo' s, for_from n lo (fun _ => p) s = for_from n lo' (fun _ => p) s.
Proof. induction n as [|n IH]; intros lo lo' s; cbn [for_from]; [done|]. destruct (p s); cbn; [apply IH|done]. Qed.

Lemma for_from_snoc {A} (p : A -> option A) n : forall lo s,
  for_from (S n) lo (fun _ => p) s = s' ← for_from n lo (fun _ => p) s; p s'.
Proof.
  induction n as [|n IH]; intros lo s.
  - cbn. by destruct (p s).
  - cbn [for_from]. destruct (p s) as [s1|]; [|done]. cbn [mbind option_bind]. rewrite <- (IH (lo + 1) s1). reflexivity.
Qed.

Lemma rounds_undo p q n : undoes p q -> undoes (for_from n 0 (fun _ => p)) (for_from n 0 (fun _ => q)).
Proof.
  intros Hpq. induction n as [|n IH]; [by intros v Hv; exists v|]. intros v Hv.
  destruct (Hpq v Hv) as (v1 & E1 & W1 & B1). destruct (IH v1 W1) as (v2 & E2 & W2 & B2). exists v2. split_and!.
  - cbn [for_from]. rewrite E1. cbn [mbind option_bind]. by rewrite (for_from_const p n _ 0).
  - done.
  - by rewrite for_from_snoc, B2.
Qed.

Lemma arx_perm_ok v : words 16 v -> exists v', arx_perm v = Some v' /\ words 16 v'.
Proof. intros Hv. destruct (rounds_undo _ _ (Z.to_nat ARX_ROUNDS) round_undoes v Hv) as (v' & E & W & _). by exists v'. Qed.

(** C34: [arx_perm], the only primitive of the hash, is a permutation of the blocks of sixteen words: it has a result on every block, the
    inverse rounds recover the block from it, and every block is the result of one. *)
Theorem arx_perm_bijective v :
  words 16 v ->
  (exists v', arx_perm v = Some v' /\ words 16 v' /\ arx_unperm v' = Some v) /\
  (exists u, words 16 u /\ arx_perm u = Some v).
Proof.
  intros Hv. split; [exact (rounds_undo _ _ (Z.to_nat ARX_ROUNDS) round_undoes v Hv)|].
  destruct (rounds_undo _ _ (Z.to_nat ARX_ROUNDS) unround_undoes v Hv) as (u & _ & W & B). by exists u.
Qed.

Lemma arx_perm_bijective_witness :
  exists v', arx_perm (zeroed 16) = Some v' /\ words 16 v' /\ arx_unperm v' = Some (zeroed 16).
Proof. apply (arx_perm_bijective (zeroed 16) (zeroed_ok 16 ltac:(lia))). Defined.
