(* ===== verification/LatticeHash.v ===== *)
(** * LatticeHash: the sponge of the proof of work, and the whole hash

    [sponge_spec] is the sponge construction without buffers and counters: permute after every block of eight words of the padded
    input, then read eight words per permutation. *)
From S2P Require Import Prelude Bytes Lattice LatticeSafety.
Local Open Scope Z_scope.

(** ** The construction *)

Definition perm (v : list Z) : list Z := default v (arx_perm v).

Definition xor_block (s b : list Z) : list Z := zip_with Z.lxor (take 8 s) b ++ drop 8 s.

(** The padding of an input that fills [r] words of its last block. *)
Definition pad_tail (r : nat) : list Z :=
  if bool_decide (r = 7%nat) then [Z.lxor 1 (2 ^ 63)] else 1 :: replicate (6 - r) 0 ++ [2 ^ 63].
Definition padded (a : list Z) : list Z := a ++ pad_tail (length a mod 8).

Definition blocks (l : list Z) : list (list Z) := reshape (replicate (length l / 8) 8%nat) l.

Definition sponge_init (n : nat) (domain : Z) : list Z :=
  <[15%nat := Z.lxor domain (w64 (Z.shiftl (Z.of_nat n) 8))]> (replicate 16 0).

Definition absorbed (s : list Z) (bs : list (list Z)) : list Z := fold_left (fun s b => perm (xor_block s b)) bs s.

(** Word [i] of the output. *)
Definition squeezed (s : list Z) (n : nat) : list Z :=
  map (fun i => nth (i mod 8) (Nat.iter (i / 8) perm s) 0) (seq 0 n).

Definition sponge_spec (input : list Z) (n : nat) (domain : Z) : list Z :=
  squeezed (absorbed (sponge_init (length input) domain) (blocks (padded input))) n.

(** ** Loops over arrays *)

Lemma perm_ok v : words 16 v -> arx_perm v = Some (perm v) /\ words 16 (perm v).
Proof. intros Hv. destruct (arx_perm_ok v Hv) as (v' & E & W). unfold perm. by rewrite E. Qed.

Lemma iter_perm_ok k v : words 16 v -> words 16 (Nat.iter k perm v).
Proof. intros Hv. induction k as [|k IH]; [done|]. cbn. by apply perm_ok. Qed.

Lemma get_drop a p i : 0 <= p -> 0 <= i -> get a (p + i) = get (drop (Z.to_nat p) a) i.
Proof.
  intros Hp Hi. unfold get. destruct (Z.leb_spec 0 i), (Z.leb_spec 0 (p + i)); try lia. rewrite lookup_drop. f_equal. lia.
Qed.

(** Copy [n] words from [p] in [a] to [q] in [out]. *)
Lemma copy_from a p q n : forall lo out,
  0 <= p -> 0 <= q -> 0 <= lo -> p + lo + Z.of_nat n <= Z.of_nat (length a) -> q + lo + Z.of_nat n <= Z.of_nat (length out) ->
  for_from n lo (fun i out => x ← get a (p + i); put out (q + i) x) out =
  Some (take (Z.to_nat (q + lo)) out ++ take n (drop (Z.to_nat (p + lo)) a) ++ drop (Z.to_nat (q + lo) + n) out).
Proof.
  induction n as [|n IH]; intros lo out Hp Hq Hlo Ha Ho; cbn [for_from].
  { rewrite take_0, Nat.add_0_r. cbn [app]. by rewrite take_drop. }
  destruct (get_in a (p + lo)) as (x & -> & Hx); [lia|]. cbn [mbind option_bind]. rewrite put_in by lia. cbn [mbind option_bind].
  rewrite IH by (rewrite ?length_insert; lia). f_equal.
  replace (Z.to_nat (q + (lo + 1))) with (S (Z.to_nat (q + lo))) by lia.
  replace (Z.to_nat (p + (lo + 1))) with (S (Z.to_nat (p + lo))) by lia.
  rewrite (drop_S a x (Z.to_nat (p + lo)) Hx), firstn_cons.
  rewrite (take_S_r _ _ x) by (apply list_lookup_insert_eq; lia). rewrite take_insert_ge by lia.
  rewrite drop_insert_lt by lia. replace (S (Z.to_nat (q + lo)) + n)%nat with (Z.to_nat (q + lo) + S n)%nat by lia.
  by rewrite <- app_assoc.
Qed.

Lemma copy_upto a p q n out :
  0 <= p -> 0 <= q -> 0 <= n -> p + n <= Z.of_nat (length a) -> q + n <= Z.of_nat (length out) ->
  for_upto n (fun i out => x ← get a (p + i); put out (q + i) x) out =
  Some (take (Z.to_nat q) out ++ take (Z.to_nat n) (drop (Z.to_nat p) a) ++ drop (Z.to_nat (q + n)) out).
Proof.
  intros Hp Hq Hn Ha Ho. unfold for_upto. rewrite copy_from by lia. rewrite !Z.add_0_r. do 4 f_equal. lia.
Qed.

(** ** Absorbing *)

Lemma eight (l : list Z) : (8 <= length l)%nat -> exists a b c d e f g h r, l = a :: b :: c :: d :: e :: f :: g :: h :: r.
Proof. intros Hl. do 8 (destruct l as [|? l]; [cbn in Hl; lia|]). by repeat eexists. Qed.

Lemma xor_rate_block b off s :
  words 16 s -> 0 <= off -> off + 8 <= Z.of_nat (length b) ->
  xor_rate b off s = Some (xor_block s (take 8 (drop (Z.to_nat off) b))).
Proof.
  intros Hs Hoff Hb. destruct (sixteen s Hs) as (s0&s1&s2&s3&s4&s5&s6&s7&s8&s9&s10&s11&s12&s13&s14&s15&->).
  destruct (eight (drop (Z.to_nat off) b)) as (b0&b1&b2&b3&b4&b5&b6&b7&r&Er); [rewrite length_drop; lia|].
  unfold xor_rate, for_upto. change (Z.to_nat RATE_WORDS) with 8%nat. cbn [for_from].
  assert (forall i, 0 <= i -> get b (off + i) = get (b0 :: b1 :: b2 :: b3 :: b4 :: b5 :: b6 :: b7 :: r) i) as Hg.
  { intros i Hi. by rewrite get_drop, Er by lia. }
  rewrite !Hg by lia. rewrite Er. reflexivity.
Qed.

Lemma xor_block_ok s b : words 16 s -> Forall word_ok b -> length b = 8%nat -> words 16 (xor_block s b).
Proof.
  intros [Hl Hs] Hb Hlb. unfold xor_block. split.
  - rewrite length_app, length_zip_with, length_take, length_drop. lia.
  - apply Forall_app. split; [|by apply Forall_drop]. apply Forall_lookup. intros i x Hx.
    apply lookup_zip_with_Some in Hx as (y & z & -> & Hy & Hz).
    apply lxor_ok; [exact (Forall_lookup_1 _ _ _ _ (Forall_take _ 8 _ Hs) Hy)|exact (Forall_lookup_1 _ _ _ _ Hb Hz)].
Qed.

Lemma absorbed_ok bs : forall s,
  words 16 s -> Forall (fun b => Forall word_ok b /\ length b = 8%nat) bs -> words 16 (absorbed s bs).
Proof.
  induction bs as [|b bs IH]; intros s Hs Hbs; [done|]. apply Forall_cons in Hbs as [[Hb Hl] Hbs]. cbn.
  by apply IH; [apply perm_ok, xor_block_ok|].
Qed.

(** Full blocks from [off]. *)
Lemma absorb_blocks input m : forall fuel off s,
  Forall word_ok input -> words 16 s -> 0 <= off -> (m < fuel)%nat ->
  off + 8 * Z.of_nat m <= Z.of_nat (length input) < off + 8 * Z.of_nat m + 8 ->
  absorb fuel input (Z.of_nat (length input)) off s =
  Some (absorbed s (reshape (replicate m 8%nat) (drop (Z.to_nat off) input)), off + 8 * Z.of_nat m).
Proof.
  induction m as [|m IH]; intros [|fuel] off s Hin Hs Hoff Hf Hlen; try lia; cbn [absorb]; unfold RATE_WORDS at 1.
  - destruct (Z.leb_spec (off + 8) (Z.of_nat (length input))); [lia|]. cbn. do 2 f_equal. lia.
  - destruct (Z.leb_spec (off + 8) (Z.of_nat (length input))); [|lia]. rewrite xor_rate_block by (done || lia). cbn [mbind option_bind].
    assert (words 16 (xor_block s (take 8 (drop (Z.to_nat off) input)))) as Hx.
    { apply xor_block_ok; [done|by apply Forall_take, Forall_drop|rewrite length_take, length_drop; lia]. }
    destruct (perm_ok _ Hx) as [-> Hp]. cbn [mbind option_bind]. rewrite IH by (done || unfold RATE_WORDS; lia).
    cbn [replicate reshape absorbed fold_left]. rewrite drop_drop.
    replace (Z.to_nat off + 8)%nat with (Z.to_nat (off + RATE_WORDS)) by (unfold RATE_WORDS; lia).
    do 2 f_equal. unfold RATE_WORDS. lia.
Qed.

(** The last block, as the code builds it. *)
Lemma last_block input off r :
  0 <= off -> Z.of_nat (length input) = off + Z.of_nat r -> (r < 8)%nat ->
  exists l1 l2,
    for_upto (Z.of_nat (length input) - off) (fun i last => x ← get input (off + i); put last i x) (zeroed RATE_WORDS) = Some l1 /\
    xor_at l1 (Z.of_nat (length input) - off) 1 = Some l2 /\
    xor_at l2 (RATE_WORDS - 1) 0x8000000000000000 = Some (drop (Z.to_nat off) input ++ pad_tail r).
Proof.
  intros Hoff Hlen Hr. rewrite (copy_upto input off 0) by (unfold zeroed, RATE_WORDS; rewrite ?length_replicate; lia).
  replace (Z.of_nat (length input) - off) with (Z.of_nat r) by lia. rewrite Nat2Z.id.
  assert (length (drop (Z.to_nat off) input) = r) as Ht by (rewrite length_drop; lia).
  rewrite (take_ge (drop (Z.to_nat off) input)) by lia. destruct (drop (Z.to_nat off) input) as [|x0 [|x1 [|x2 [|x3 [|x4 [|x5 [|x6 [|x7 t]]]]]]]];
    cbn in Ht; subst r; try (cbn in Hr; lia); do 2 eexists; split_and!; reflexivity.
Qed.

Lemma reshape_ok m : forall l, Forall word_ok l -> (8 * m <= length l)%nat ->
  Forall (fun b => Forall word_ok b /\ length b = 8%nat) (reshape (replicate m 8%nat) l).
Proof.
  induction m as [|m IH]; intros l Hl Hm; [constructor|]. rewrite replicate_S. cbn [reshape]. constructor.
  - split; [by apply Forall_take|rewrite length_take; lia].
  - apply IH; [by apply Forall_drop|rewrite length_drop; lia].
Qed.

(** ** Squeezing *)

Lemma squeezed_block s k n :
  words 16 s -> (n <= 8)%nat -> squeezed s (8 * k + n) = squeezed s (8 * k) ++ take n (Nat.iter k perm s).
Proof.
  intros Hs Hn. unfold squeezed. rewrite seq_app, map_app. f_equal. destruct (iter_perm_ok k s Hs) as [Hl _].
  apply list_eq. intros i. destruct (decide (i < n)%nat) as [Hi|Hi].
  - rewrite lookup_take_lt by done. rewrite list_lookup_fmap, (lookup_seq_lt _ _ _ Hi). cbn [fmap option_fmap option_map].
    replace ((0 + 8 * k + i) mod 8)%nat with i by (rewrite Nat.add_0_l, Nat.mul_comm, Nat.add_comm, Nat.Div0.mod_add, Nat.mod_small; lia).
    replace ((0 + 8 * k + i) / 8)%nat with k by (rewrite Nat.add_0_l, Nat.mul_comm, Nat.div_add_l, Nat.div_small; lia).
    destruct (lookup_lt_is_Some_2 (Nat.iter k perm s) i) as [x Hx]; [lia|]. by rewrite (nth_lookup_Some _ _ _ _ Hx), Hx.
  - rewrite !lookup_ge_None_2; [done|rewrite length_take; lia|rewrite length_map, length_seq; lia].
Qed.

Lemma squeezed_ok s n : words 16 s -> words (Z.of_nat n) (squeezed s n).
Proof.
  intros Hs. split; [unfold squeezed; by rewrite length_map, length_seq|]. apply Forall_forall. intros x Hx.
  apply list_elem_of_In, in_map_iff in Hx as (i & <- & _). destruct (iter_perm_ok (i / 8) s Hs) as [Hl Hw].
  pose proof (Nat.mod_upper_bound i 8). destruct (lookup_lt_is_Some_2 (Nat.iter (i / 8) perm s) (i mod 8)) as [x Hx]; [lia|].
  rewrite (nth_lookup_Some _ _ _ _ Hx). by apply (Forall_lookup_1 _ _ _ _ Hw Hx).
Qed.

(** One block of output. *)
Lemma copy_block s0 k n out :
  words 16 s0 -> (n <= 8)%nat -> (8 * k + n <= length out)%nat -> take (8 * k) out = squeezed s0 (8 * k) ->
  exists out', for_upto (Z.of_nat n) (fun i out => x ← get (Nat.iter k perm s0) i; put out (8 * Z.of_nat k + i) x) out = Some out' /\
    length out' = length out /\ take (8 * k + n) out' = squeezed s0 (8 * k + n).
Proof.
  intros Hs Hn Ho Ht. destruct (iter_perm_ok k s0 Hs) as [Hl _].
  eexists. split; [apply (copy_upto (Nat.iter k perm s0) 0 (8 * Z.of_nat k)); lia|].
  change (drop (Z.to_nat 0) (Nat.iter k perm s0)) with (Nat.iter k perm s0).
  replace (Z.to_nat (8 * Z.of_nat k)) with (8 * k)%nat by lia. replace (Z.to_nat (8 * Z.of_nat k + Z.of_nat n)) with (8 * k + n)%nat by lia.
  rewrite Nat2Z.id, Ht, app_assoc, <- squeezed_block by done.
  assert (length (squeezed s0 (8 * k + n)) = (8 * k + n)%nat) as Hsq by (unfold squeezed; by rewrite length_map, length_seq).
  split; [rewrite length_app, length_drop; lia|]. by rewrite take_app_length' by lia.
Qed.

Lemma squeeze_words s0 fuel : forall k out,
  words 16 s0 -> (8 * k <= length out)%nat -> (length out - 8 * k < fuel)%nat -> take (8 * k) out = squeezed s0 (8 * k) ->
  squeeze fuel (Nat.iter k perm s0) out (8 * Z.of_nat k) (Z.of_nat (length out)) = Some (squeezed s0 (length out)).
Proof.
  induction fuel as [|fuel IH]; intros k out Hs Hk Hf Ht; [lia|]. cbn [squeeze]. unfold RATE_WORDS.
  destruct (Z.ltb_spec (8 * Z.of_nat k) (Z.of_nat (length out))) as [Hlt|Hge].
  2:{ assert (length out = 8 * k)%nat as E by lia. by rewrite E, <- Ht, <- E, firstn_all. }
  set (n := Nat.min 8 (length out - 8 * k)). replace (Z.min 8 _) with (Z.of_nat n) by lia.
  destruct (copy_block s0 k n out Hs) as (out' & -> & Hl & Ht'); [lia|lia|done|]. cbn [mbind option_bind].
  destruct (Z.ltb_spec (8 * Z.of_nat k + Z.of_nat n) (Z.of_nat (length out))) as [Hmore|Hend].
  - assert (n = 8)%nat as En by lia. rewrite En in *. destruct (perm_ok _ (iter_perm_ok k s0 Hs)) as [-> _]. cbn [mbind option_bind].
    rewrite <- Hl. replace (8 * Z.of_nat k + Z.of_nat 8) with (8 * Z.of_nat (S k)) by lia.
    apply (IH (S k)); [done|lia|lia|]. by replace (8 * S k)%nat with (8 * k + 8)%nat by lia.
  - destruct fuel; [lia|]. cbn [squeeze]. destruct (Z.ltb_spec (8 * Z.of_nat k + Z.of_nat n) (Z.of_nat (length out))); [lia|].
    replace (8 * k + n)%nat with (length out) in Ht' by lia. by rewrite <- Ht', <- Hl, firstn_all.
Qed.

(** ** The sponge *)

Lemma sponge_init_ok n domain : word_ok domain -> words 16 (sponge_init n domain).
Proof.
  intros Hd. split; [by unfold sponge_init; rewrite length_insert|]. apply Forall_insert; [by repeat constructor|]. auto with words.
Qed.

Lemma pad_tail_ok r : (r < 8)%nat -> length (pad_tail r) = (8 - r)%nat /\ Forall word_ok (pad_tail r).
Proof. intros Hr. do 8 (destruct r as [|r]; [split; [done|]; repeat constructor; vm_compute; congruence|]). lia. Qed.

Lemma reshape_snoc (m : nat) : forall (l t : list Z),
  (8 * m <= length l)%nat -> length (drop (8 * m) l ++ t) = 8%nat ->
  reshape (replicate (S m) 8%nat) (l ++ t) = reshape (replicate m 8%nat) l ++ [drop (8 * m) l ++ t].
Proof.
  induction m as [|m IH]; intros l t Hl Ht.
  - rewrite Nat.mul_0_r, drop_0 in *. change ([take 8 (l ++ t)] = [l ++ t]). by rewrite take_ge by lia.
  - rewrite (replicate_S (S m)). cbn [reshape]. rewrite take_app_le, drop_app_le by lia. rewrite IH.
    + cbn [replicate reshape app]. rewrite drop_drop. by replace (8 + 8 * m)%nat with (8 * S m)%nat by lia.
    + rewrite length_drop. lia.
    + rewrite drop_drop. by replace (8 + 8 * m)%nat with (8 * S m)%nat by lia.
Qed.

(** The blocks of the padded input: the full blocks and the last one. *)
Lemma blocks_padded input :
  let m := (length input / 8)%nat in
  blocks (padded input) = reshape (replicate m 8%nat) input ++ [drop (8 * m) input ++ pad_tail (length input mod 8)].
Proof.
  intros m. pose proof (Nat.div_mod_eq (length input) 8) as E. pose proof (Nat.mod_upper_bound (length input) 8) as Hr.
  destruct (pad_tail_ok (length input mod 8)) as [Hp _]; [lia|]. unfold blocks.
  replace (length (padded input) / 8)%nat with (S m).
  - apply reshape_snoc; [unfold m; lia|]. rewrite length_app, length_drop. unfold m. lia.
  - unfold padded. rewrite length_app, Hp. apply (Nat.div_unique _ _ _ 0); unfold m; lia.
Qed.

Lemma sponge_words input out domain :
  Forall word_ok input -> word_ok domain ->
  sponge input (Z.of_nat (length input)) out (Z.of_nat (length out)) domain = Some (sponge_spec input (length out) domain).
Proof.
  intros Hin Hd. set (m := (length input / 8)%nat). set (r := (length input mod 8)%nat).
  pose proof (Nat.div_mod_eq (length input) 8) as E. assert (r < 8)%nat as Hr by (by apply Nat.mod_upper_bound).
  assert (8 * Z.of_nat m + Z.of_nat r = Z.of_nat (length input)) as Elen by (unfold m, r; lia).
  pose proof (sponge_init_ok (length input) domain Hd) as Hs.
  unfold sponge. change (xor_at (zeroed 16) 15 _) with (Some (sponge_init (length input) domain)). cbn [mbind option_bind].
  rewrite (absorb_blocks input m) by (done || lia). cbn [mbind option_bind]. rewrite Z.add_0_l. change (drop (Z.to_nat 0) input) with input.
  set (s1 := absorbed _ _).
  assert (words 16 s1) as Hs1 by (apply absorbed_ok; [done|]; apply reshape_ok; [done|lia]).
  destruct (last_block input (8 * Z.of_nat m) r) as (l1 & l2 & E1 & E2 & E3); [lia|lia|lia|].
  rewrite E1. cbn [mbind option_bind]. rewrite E2. cbn [mbind option_bind]. rewrite E3. cbn [mbind option_bind].
  replace (Z.to_nat (8 * Z.of_nat m)) with (8 * m)%nat by lia.
  destruct (pad_tail_ok r) as [Hpl Hpw]; [lia|]. set (b := drop (8 * m) input ++ pad_tail r).
  assert (length b = 8%nat /\ Forall word_ok b) as [Hb Hbw].
  { unfold b. rewrite length_app, length_drop. split; [lia|]. apply Forall_app. split; [by apply Forall_drop|done]. }
  rewrite xor_rate_block by (done || lia). cbn [mbind option_bind]. rewrite drop_0, (take_ge b) by lia.
  destruct (perm_ok (xor_block s1 b)) as [-> Hp]; [by apply xor_block_ok|]. cbn [mbind option_bind]. rewrite Nat2Z.id.
  rewrite (squeeze_words (perm (xor_block s1 b)) _ 0) by (done || lia). f_equal. unfold sponge_spec. f_equal.
  rewrite blocks_padded. fold m r b. unfold absorbed. by rewrite fold_left_app.
Qed.

(** C23: the sponge of the code, with its buffers, counters and in-place updates, is the sponge construction: whatever the output array
    held, it then holds the words that are read from the state, eight per permutation, after the blocks of the padded input were
    absorbed into a state that starts with the domain and the length. *)
Theorem sponge_correct input out domain :
  Forall word_ok input -> word_ok domain ->
  sponge input (Z.of_nat (length input)) out (Z.of_nat (length out)) domain = Some (sponge_spec input (length out) domain).
Proof. apply sponge_words. Qed.

Lemma sponge_correct_witness : sponge [1; 2; 3] 3 (replicate 20 7) 20 0x58 = Some (sponge_spec [1; 2; 3] 20 0x58).
Proof. apply (sponge_correct [1; 2; 3] (replicate 20 7) 0x58); repeat constructor; cbn; lia. Defined.

Lemma sponge_spec_ok input n domain : Forall word_ok input -> word_ok domain -> words (Z.of_nat n) (sponge_spec input n domain).
Proof.
  intros Hin Hd. apply squeezed_ok, absorbed_ok; [by apply sponge_init_ok|]. unfold blocks.
  pose proof (Nat.div_mod_eq (length (padded input)) 8). apply reshape_ok; [|lia].
  apply Forall_app. split; [done|]. apply pad_tail_ok, Nat.mod_upper_bound. lia.
Qed.

(** ** The key stream *)

Definition expand_init (seed : list Z) (domain : Z) : list Z := take 8 seed ++ domain :: replicate 7 0.
Definition expand_spec (seed : list Z) (domain : Z) (n : nat) : list Z := squeezed (perm (expand_init seed domain)) n.

Lemma expand_init_ok seed domain :
  Forall word_ok seed -> (8 <= length seed)%nat -> word_ok domain -> words 16 (expand_init seed domain).
Proof.
  intros Hs Hl Hd. split; [unfold expand_init; rewrite length_app, length_take, length_cons, length_replicate; lia|].
  apply Forall_app. split; [by apply Forall_take|]. constructor; [done|]. by apply Forall_replicate.
Qed.

Lemma iter_perm_succ k s : Nat.iter k perm (perm s) = perm (Nat.iter k perm s).
Proof. by rewrite <- Nat.iter_succ_r, Nat.iter_succ. Qed.

Lemma expand_loop_words s0 fuel : forall k buf,
  words 16 s0 -> (8 * k <= length buf)%nat -> (length buf - 8 * k < fuel)%nat -> take (8 * k) buf = squeezed (perm s0) (8 * k) ->
  expand_loop fuel (Nat.iter k perm s0) buf (8 * Z.of_nat k) (Z.of_nat (length buf)) = Some (squeezed (perm s0) (length buf)).
Proof.
  induction fuel as [|fuel IH]; intros k buf Hs Hk Hf Ht; [lia|]. cbn [expand_loop]. unfold RATE_WORDS.
  destruct (Z.ltb_spec (8 * Z.of_nat k) (Z.of_nat (length buf))) as [Hlt|Hge].
  2:{ assert (length buf = 8 * k)%nat as E by lia. by rewrite E, <- Ht, <- E, firstn_all. }
  destruct (perm_ok _ (iter_perm_ok k s0 Hs)) as [-> _]. cbn [mbind option_bind].
  set (n := Nat.min 8 (length buf - 8 * k)). replace (Z.min 8 _) with (Z.of_nat n) by lia.
  destruct (copy_block (perm s0) k n buf) as (buf' & Hc & Hl & Ht'); [by apply perm_ok|lia|lia|done|].
  rewrite iter_perm_succ in Hc. rewrite Hc. cbn [mbind option_bind]. rewrite <- Hl.
  replace (8 * Z.of_nat k + 8) with (8 * Z.of_nat (S k)) by lia. destruct (decide (n = 8)%nat) as [En|En].
  - rewrite En in *. apply (IH (S k)); [done|lia|lia|]. by replace (8 * S k)%nat with (8 * k + 8)%nat by lia.
  - destruct fuel; [lia|]. cbn [expand_loop]. destruct (Z.ltb_spec (8 * Z.of_nat (S k)) (Z.of_nat (length buf'))); [lia|].
    replace (8 * k + n)%nat with (length buf') in Ht' by lia. by rewrite <- Ht', firstn_all.
Qed.

Lemma expand_words seed domain buf :
  Forall word_ok seed -> (8 <= length seed)%nat -> word_ok domain ->
  expand seed domain buf (Z.of_nat (length buf)) = Some (expand_spec seed domain (length buf)).
Proof.
  intros Hs Hl Hd. unfold expand. destruct (eight seed Hl) as (a & b & c & d & e & f & g & h & r & E).
  rewrite (copy_upto seed 0 0 8) by (rewrite ?(proj1 (zeroed_ok 16 ltac:(lia))); lia). cbn [mbind option_bind]. rewrite Nat2Z.id.
  match goal with |- context [xor_at ?l 8 domain] => replace (xor_at l 8 domain) with (Some (expand_init seed domain)) by (by rewrite E) end.
  cbn [mbind option_bind]. apply (expand_loop_words (expand_init seed domain) _ 0); [by apply expand_init_ok|lia|lia|done].
Qed.

Lemma expand_fresh seed domain buf n :
  Forall word_ok seed -> (8 <= length seed)%nat -> word_ok domain -> Z.of_nat (length buf) = n ->
  expand seed domain buf n = Some (expand_spec seed domain (Z.to_nat n)) /\ words n (expand_spec seed domain (Z.to_nat n)).
Proof.
  intros Hs Hl Hd <-. rewrite Nat2Z.id. split; [by apply expand_words|]. by apply squeezed_ok, perm_ok, expand_init_ok.
Qed.

(** ** The walk stays inside of its arrays *)

(** A read or write inside of an array, in the middle of a program. *)
Ltac array_step :=
  match goal with
  | H : words ?n ?a |- context [get ?a ?i ≫= _] =>
      let x := fresh "x" in let Hx := fresh "Hx" in let E := fresh "E" in
      destruct (get_ok n a i H) as (x & E & Hx); [lia|rewrite E; clear E; cbn [mbind option_bind]]
  | H : words ?n ?a |- context [put ?a ?i ?v ≫= _] =>
      let a' := fresh "a" in let Ha := fresh "Ha" in let E := fresh "E" in
      destruct (put_ok n a i v H) as (a' & E & Ha); [lia|solve [auto 8 with words]|rewrite E; clear E; cbn [mbind option_bind]]
  | H : words ?n ?a |- context [xor_at ?a ?i ?v ≫= _] =>
      let a' := fresh "a" in let Ha := fresh "Ha" in let E := fresh "E" in
      destruct (xor_at_ok n a i v H) as (a' & E & Ha); [lia|solve [auto 8 with words]|rewrite E; clear E; cbn [mbind option_bind]]
  end.

Lemma low_index k : 0 <= Z.land k 15 < 16.
Proof. change 15 with (Z.ones 4). rewrite Z.land_ones by lia. apply Z.mod_pos_bound. lia. Qed.

Lemma modulo_block x n : 16 <= n -> exists i, modulo x (n / BLOCK_WORDS) = Some i /\ 0 <= i * BLOCK_WORDS /\ i * BLOCK_WORDS + 16 <= n.
Proof.
  intros Hn. unfold modulo, BLOCK_WORDS. assert (1 <= n / 16) by (apply Z.div_le_lower_bound; lia).
  destruct (Z.eqb_spec (n / 16) 0); [lia|]. eexists. split; [done|].
  pose proof (Z.mod_pos_bound x (n / 16)). pose proof (Z.mul_div_le n 16). nia.
Qed.

Section Walk.
Context (K : knobs) (HK : 16 <= SCRATCH_WORDS K).

Lemma mix_in_ok scratch ds state si di ti acc ns nd nt :
  words ns scratch -> words nd ds -> words nt state -> words 16 acc ->
  0 <= si -> si + 16 <= ns -> 0 <= di -> di + 16 <= nd -> 0 <= ti -> ti + 16 <= nt ->
  exists acc', mix_in scratch ds state si di ti acc = Some acc' /\ words 16 acc'.
Proof.
  intros Hsc Hds Hst Hacc. intros. apply (for_upto_inv (fun _ acc => words 16 acc)); [done| |done].
  intros k a Hk Ha. unfold BLOCK_WORDS in Hk. repeat array_step. apply xor_at_ok; [done|lia|done].
Qed.

Lemma write_back_ok acc si ti state scratch ns nt :
  words 16 acc -> words nt state -> words ns scratch -> 0 <= si -> si + 16 <= ns -> 0 <= ti -> ti + 16 <= nt ->
  exists state' scratch', write_back acc si ti (state, scratch) = Some (state', scratch') /\ words nt state' /\ words ns scratch'.
Proof.
  intros Hacc Hst Hsc. intros.
  destruct (for_upto_inv (fun _ m => words nt m.1 /\ words ns m.2)
              (fun k '(state, scratch) =>
                 a ← get acc k;
                 b ← get acc (Z.land (k + 1) 15); scratch ← put scratch (si + k) (Z.lxor a (rotr64 b 1));
                 b ← get acc (Z.land (k + 9) 15); state ← put state (ti + k) (w64 (a + rotr64 b 17));
                 Some (state, scratch)) BLOCK_WORDS (state, scratch)) as ([st sc] & E & Hr1 & Hr2); [done| |done|by exists st, sc].
  intros k [st sc] Hk [Hst' Hsc']. cbn [fst snd] in *. unfold BLOCK_WORDS in Hk.
  pose proof (low_index (k + 1)). pose proof (low_index (k + 9)). repeat array_step. by eexists.
Qed.

Definition walking (s : list Z * list Z * list Z) : Prop :=
  words 16 s.1.1 /\ words ST_WORDS s.1.2 /\ words (SCRATCH_WORDS K) s.2.

Lemma walk_step_ok ds s : words DATASET_WORDS ds -> walking s -> exists s', walk_step K ds s = Some s' /\ walking s'.
Proof.
  destruct s as [[acc state] scratch]. intros Hds (Hacc & Hst & Hsc). cbn [fst snd] in *. unfold walk_step.
  array_step. destruct (modulo_block x (SCRATCH_WORDS K) HK) as (i & -> & Hi0 & Hi). cbn [mbind option_bind].
  array_step. destruct (modulo_block x0 DATASET_WORDS) as (j & -> & Hj0 & Hj); [done|]. cbn [mbind option_bind].
  array_step. destruct (modulo_block x1 ST_WORDS) as (t & -> & Ht0 & Ht); [done|]. cbn [mbind option_bind].
  destruct (mix_in_ok scratch ds state _ _ _ acc _ _ _ Hsc Hds Hst Hacc Hi0 Hi Hj0 Hj Ht0 Ht) as (acc1 & -> & Hacc1).
  cbn [mbind option_bind]. array_step.
  assert (exists acc2, (if Z.land x2 1 =? 1 then arx_perm acc1 else acc ← arx_perm acc1; arx_perm acc) = Some acc2 /\ words 16 acc2)
    as (acc2 & -> & Hacc2).
  { destruct (arx_perm_ok acc1 Hacc1) as (a & -> & Ha). destruct (_ =? 1); [by exists a|]. by apply arx_perm_ok. }
  cbn [mbind option_bind].
  destruct (write_back_ok acc2 _ _ state scratch _ _ Hacc2 Hst Hsc Hi0 Hi Ht0 Ht) as (st & sc & -> & ? & ?). by eexists.
Qed.

(** What the code may find in memory it has not cleared. *)
Definition sized (uninit : string -> Z -> list Z) : Prop := forall x n, 0 <= n -> Z.of_nat (length (uninit x n)) = n.

Lemma lattice_walk_ok state ds :
  words ST_WORDS state -> words DATASET_WORDS ds ->
  exists state' scratch', words ST_WORDS state' /\
    forall uninit scratch, sized uninit -> Z.of_nat (length scratch) = SCRATCH_WORDS K ->
      lattice_walk K uninit state scratch ds = Some (state', scratch').
Proof.
  intros [Hl Hw] Hds. set (acc := sponge_spec state 16 0x58).
  assert (words 16 acc) as Hacc by (apply (sponge_spec_ok state 16); [done|]; auto with words).
  destruct Hacc as [Hla Hwa]. set (sc := expand_spec acc 0x58 (Z.to_nat (SCRATCH_WORDS K))).
  assert (walking (acc, state, sc)) as Hwalk.
  { split_and!; [done|done|]. replace (SCRATCH_WORDS K) with (Z.of_nat (Z.to_nat (SCRATCH_WORDS K))) at 1 by lia.
    apply squeezed_ok, perm_ok, expand_init_ok; [done|lia|]. auto with words. }
  assert (exists s', for_upto (L_WALK K) (fun _ => walk_step K ds) (acc, state, sc) = Some s' /\ walking s') as (s' & Hs' & Hwalk').
  { unfold for_upto. destruct (for_from_inv (fun _ => walking) (fun _ => walk_step K ds) (Z.to_nat (L_WALK K)) 0 (acc, state, sc))
      as (s' & E & Hs'); [|done|by exists s']. intros _ s _. by apply walk_step_ok. }
  destruct s' as [[acc' state'] sc']. exists state', sc'. split; [apply Hwalk'|]. intros uninit scratch Hu Hsc. unfold lattice_walk.
  pose proof (sponge_words state (uninit "acc"%string 16) 0x58 Hw ltac:(auto with words)) as Esp.
  rewrite Hl, Hu in Esp by lia. replace (length (uninit "acc"%string 16)) with 16%nat in Esp by (specialize (Hu "acc"%string 16); lia).
  rewrite Esp. cbn [mbind option_bind]. fold acc.
  pose proof (expand_words acc 0x58 scratch Hwa ltac:(lia) ltac:(auto with words)) as Eex. rewrite Hsc in Eex.
  replace (length scratch) with (Z.to_nat (SCRATCH_WORDS K)) in Eex by lia. rewrite Eex. cbn [mbind option_bind]. fold sc.
  by rewrite Hs'.
Qed.
End Walk.

(** ** Bytes *)

(** Loops that fill an array with computed values. *)
Lemma fill_from (g : Z -> option Z) (f : Z -> Z) q n : forall lo out,
  (forall i, lo <= i < lo + Z.of_nat n -> g i = Some (f i)) -> 0 <= q + lo -> q + lo + Z.of_nat n <= Z.of_nat (length out) ->
  for_from n lo (fun i out => x ← g i; put out (q + i) x) out =
  Some (take (Z.to_nat (q + lo)) out ++ map f (seqZ lo (Z.of_nat n)) ++ drop (Z.to_nat (q + lo) + n) out).
Proof.
  induction n as [|n IH]; intros lo out Hg Hq Ho; cbn [for_from].
  { rewrite Nat.add_0_r. change (seqZ lo (Z.of_nat 0)) with (@nil Z). cbn [map app]. by rewrite take_drop. }
  rewrite Hg by lia. cbn [mbind option_bind]. rewrite put_in by lia. cbn [mbind option_bind].
  rewrite IH by (intros; rewrite ?length_insert; (apply Hg || idtac); lia). f_equal.
  rewrite (seqZ_cons lo) by lia. cbn [map]. replace (Z.pred (Z.of_nat (S n))) with (Z.of_nat n) by lia.
  replace (Z.succ lo) with (lo + 1) by lia. replace (Z.to_nat (q + (lo + 1))) with (S (Z.to_nat (q + lo))) by lia.
  rewrite (take_S_r _ _ (f lo)) by (apply list_lookup_insert_eq; lia). rewrite take_insert_ge by lia.
  rewrite drop_insert_lt by lia. replace (S (Z.to_nat (q + lo)) + n)%nat with (Z.to_nat (q + lo) + S n)%nat by lia.
  by rewrite <- app_assoc.
Qed.

(** The bytes of a word, the least significant first. *)
Definition word_bytes (v : Z) : bytes := map (fun i => Z.shiftr v (8 * i) mod 256) (seqZ 0 8).

Lemma word_bytes_ok v : bytes_ok (word_bytes v) /\ length (word_bytes v) = 8%nat.
Proof. split; [|done]. repeat constructor; try apply Z.mod_pos_bound; lia. Qed.

Lemma store64le_bytes p a v :
  0 <= a -> a + 8 <= Z.of_nat (length p) ->
  store64le p a v = Some (take (Z.to_nat a) p ++ word_bytes v ++ drop (Z.to_nat a + 8) p).
Proof.
  intros Ha Hp. unfold store64le, for_upto. change (Z.to_nat 8) with 8%nat.
  etransitivity; [apply (fill_from (fun i => Some (Z.shiftr v (8 * i) mod 256)) (fun i => Z.shiftr v (8 * i) mod 256) a 8 0 p); [done|lia..]|].
  by rewrite Z.add_0_r.
Qed.

Lemma store_words fh out :
  length fh = 4%nat -> length out = 32%nat ->
  for_upto 4 (fun i out => w ← get fh i; store64le out (i * 8) w) out = Some (mjoin (map word_bytes fh)).
Proof.
  intros Hf Ho.
  destruct (for_upto_inv (fun i out => length out = 32%nat /\ take (8 * Z.to_nat i) out = mjoin (map word_bytes (take (Z.to_nat i) fh)))
              (fun i out => w ← get fh i; store64le out (i * 8) w) 4 out) as (out' & -> & Hl & Ht).
  - lia.
  - intros i o Hi [Hl Ht]. destruct (get_in fh i) as (w & -> & Hw); [lia|]. cbn [mbind option_bind].
    eexists. split; [apply store64le_bytes; lia|]. destruct (word_bytes_ok w) as [_ Hwb].
    assert (length (take (Z.to_nat (i * 8)) o ++ word_bytes w) = (8 * Z.to_nat (i + 1))%nat) as Hpre.
    { rewrite length_app, length_take, Hwb. lia. }
    rewrite app_assoc. split; [rewrite length_app, length_drop; lia|]. rewrite take_app_length' by lia.
    replace (Z.to_nat (i * 8)) with (8 * Z.to_nat i)%nat by lia. rewrite Ht.
    replace (Z.to_nat (i + 1)) with (S (Z.to_nat i)) by lia. rewrite (take_S_r _ _ w Hw), map_app, join_app. cbn. by rewrite app_nil_r.
  - split; [done|]. by rewrite !take_0.
  - rewrite (take_ge fh), (take_ge out') in Ht by (change (Z.to_nat 4) with 4%nat; lia). by rewrite Ht.
Qed.

Lemma length_words_bytes fh : length fh = 4%nat -> length (mjoin (map word_bytes fh)) = 32%nat.
Proof. by destruct fh as [|a [|b [|c [|d [|]]]]]. Qed.

(** ** The words of an input *)

Definition word_count (input : bytes) : Z := Z.max 1 ((Z.of_nat (length input) + 7) / 8).

(** Byte [t] of an array of words. *)
Definition byte_of (iw : list Z) (t : Z) : Z := Z.shiftr (nth (Z.to_nat (t / 8)) iw 0) (8 * (t mod 8)) mod 256.

Lemma byte_word x : 0 <= x < 256 -> word_ok x.
Proof. unfold word_ok. lia. Qed.

Lemma lor_byte w x a b :
  0 <= x < 256 -> 0 <= a < 8 -> 0 <= b < 8 ->
  Z.shiftr (Z.lor w (w64 (Z.shiftl x (8 * a)))) (8 * b) mod 256 =
  if a =? b then Z.lor (Z.shiftr w (8 * b) mod 256) x else Z.shiftr w (8 * b) mod 256.
Proof.
  intros Hx Ha Hb. assert (forall j, 8 <= j -> Z.testbit x j = false) as Hhigh.
  { intros j Hj. rewrite <- (Z.mod_small x (2 ^ 8)) by lia. apply Z.mod_pow2_bits_high. lia. }
  change 256 with (2 ^ 8). apply Z.bits_inj'. intros j Hj.
  assert (Z.testbit (Z.shiftr (Z.lor w (w64 (Z.shiftl x (8 * a)))) (8 * b) mod 2 ^ 8) j =
          if j <? 8 then (Z.testbit w (j + 8 * b) || Z.testbit x (j + 8 * b - 8 * a))%bool else false) as ->.
  { destruct (Z.ltb_spec j 8); [|apply Z.mod_pow2_bits_high; lia]. rewrite Z.mod_pow2_bits_low by lia.
    rewrite Z.shiftr_spec, Z.lor_spec by done. unfold w64. rewrite Z.mod_pow2_bits_low by lia. by rewrite Z.shiftl_spec by lia. }
  destruct (Z.eqb_spec a b) as [->|Hne].
  - rewrite Z.lor_spec. destruct (Z.ltb_spec j 8); [|rewrite Z.mod_pow2_bits_high, Hhigh by lia; done].
    rewrite Z.mod_pow2_bits_low, Z.shiftr_spec by lia. do 2 f_equal. lia.
  - destruct (Z.ltb_spec j 8); [|rewrite Z.mod_pow2_bits_high by lia; done]. rewrite Z.mod_pow2_bits_low, Z.shiftr_spec by lia.
    replace (Z.testbit x (j + 8 * b - 8 * a)) with false; [by rewrite orb_false_r|]. symmetry.
    destruct (Z.lt_ge_cases b a); [apply Z.testbit_neg_r; lia|apply Hhigh; lia].
Qed.

(** Storing byte [i] where the array has a zero byte. *)
Lemma byte_of_insert iw i x w t :
  0 <= i -> 0 <= t -> 0 <= x < 256 -> iw !! Z.to_nat (i / 8) = Some w -> byte_of iw i = 0 ->
  byte_of (<[Z.to_nat (i / 8) := Z.lor w (w64 (Z.shiftl x (8 * (i mod 8))))]> iw) t = if t =? i then x else byte_of iw t.
Proof.
  intros Hi Ht Hx Hw H0. unfold byte_of in *. pose proof (Z.mod_pos_bound i 8). pose proof (Z.mod_pos_bound t 8).
  pose proof (lookup_lt_Some _ _ _ Hw) as Hlt. pose proof (Z.div_mod i 8). pose proof (Z.div_mod t 8).
  pose proof (Z.div_pos i 8). pose proof (Z.div_pos t 8).
  destruct (Z.eq_dec (t / 8) (i / 8)) as [E|E].
  - rewrite E. rewrite (nth_lookup_Some _ _ _ w) in * by (done || by apply list_lookup_insert_eq).
    rewrite (nth_lookup_Some _ _ 0 _ (list_lookup_insert_eq iw (Z.to_nat (i / 8)) _ Hlt)). rewrite lor_byte by lia.
    destruct (Z.eqb_spec t i) as [->|Hne]; [by rewrite Z.eqb_refl, H0|]. destruct (Z.eqb_spec (i mod 8) (t mod 8)); [lia|].
    by rewrite (nth_lookup_Some _ _ 0 _ Hw).
  - destruct (Z.eqb_spec t i) as [->|Hne]; [lia|]. rewrite !nth_lookup, list_lookup_insert_ne by lia. done.
Qed.

Lemma word_count_enough input : Z.of_nat (length input) <= 8 * word_count input.
Proof. unfold word_count. pose proof (Z.div_mod (Z.of_nat (length input) + 7) 8). pose proof (Z.mod_pos_bound (Z.of_nat (length input) + 7) 8). lia. Qed.

Lemma byte_of_zeroed n t : byte_of (zeroed n) t = 0.
Proof.
  unfold byte_of, zeroed. rewrite nth_lookup. destruct (replicate _ _ !! _) as [x|] eqn:E; cbn; [apply lookup_replicate in E as [-> _]|];
    by rewrite Z.shiftr_0_l.
Qed.

Lemma input_words_ok input :
  bytes_ok input ->
  exists iw, input_words input (word_count input) = Some iw /\ words (word_count input) iw /\
    forall t, 0 <= t < Z.of_nat (length input) -> get input t = Some (byte_of iw t).
Proof.
  intros Hb. pose proof (word_count_enough input) as Hn. assert (1 <= word_count input) as H1 by (unfold word_count; lia).
  destruct (for_upto_inv
              (fun i iw => words (word_count input) iw /\ (forall t, 0 <= t < i -> get input t = Some (byte_of iw t)) /\
                           (forall t, i <= t -> byte_of iw t = 0))
              (fun i iw => x ← get input i; w ← get iw (i / 8); put iw (i / 8) (Z.lor w (w64 (Z.shiftl x (8 * (i mod 8))))))
              (Z.of_nat (length input)) (zeroed (word_count input))) as (iw & E & Hw & Hin & _); [lia| | |by exists iw].
  - intros i iw Hi (Hw & Hin & H0). destruct (get_in input i Hi) as (x & Ex & Hx). rewrite Ex. cbn [mbind option_bind].
    assert (0 <= x < 256) as Hxb by exact (Forall_lookup_1 _ _ _ _ Hb Hx).
    pose proof (Z.div_pos i 8). pose proof (Z.div_lt_upper_bound i 8 (word_count input)).
    destruct Hw as [Hwl Hww]. destruct (get_in iw (i / 8)) as (w & Ew & Hlw); [lia|]. rewrite Ew. cbn [mbind option_bind].
    pose proof (Forall_lookup_1 _ _ _ _ Hww Hlw) as Hwok. eexists. split; [apply put_in; lia|]. split_and!.
    + split; [by rewrite length_insert|]. apply Forall_insert; [done|]. auto with words.
    + intros t Ht. rewrite (byte_of_insert iw i x w) by (done || lia || by apply H0; lia).
      destruct (Z.eqb_spec t i) as [->|]; [done|]. apply Hin. lia.
    + intros t Ht. rewrite (byte_of_insert iw i x w) by (done || lia || by apply H0; lia).
      destruct (Z.eqb_spec t i); [lia|]. apply H0. lia.
  - split_and!; [apply zeroed_ok; lia|intros; lia|]. intros t _. apply byte_of_zeroed.
Qed.

(** ** The whole hash *)

Definition seed_domain (input : bytes) : Z := Z.lxor 0x01 (w64 (Z.shiftl (Z.of_nat (length input)) 16)).

(** A call of the sponge with a fresh output array. *)
Lemma sponge_fresh uninit x st N m n d :
  sized uninit -> words N st -> word_ok d -> n = Z.of_nat m -> sponge st N (uninit x n) n d = Some (sponge_spec st m d).
Proof.
  intros Hu [<- Hw] Hd ->. pose proof (Hu x (Z.of_nat m) ltac:(lia)) as Hl. rewrite <- Hl at 2.
  rewrite sponge_words by done. do 2 f_equal. lia.
Qed.

Lemma hash_steps K uninit input ds iw state st sc fh :
  sized uninit -> input_words input (word_count input) = Some iw ->
  sponge iw (word_count input) (uninit "state"%string ST_WORDS) ST_WORDS (seed_domain input) = Some state ->
  lattice_walk K uninit state (uninit "scratch"%string (SCRATCH_WORDS K)) ds = Some (st, sc) ->
  sponge st ST_WORDS (uninit "fh"%string 4) 4 0xF1 = Some fh -> length fh = 4%nat ->
  lattice_hash_ds K uninit input ds = Some (mjoin (map word_bytes fh)).
Proof.
  intros Hu E1 E2 E3 E4 Hl. unfold lattice_hash_ds, seed_domain, word_count in *. cbv zeta. rewrite E1. cbn [mbind option_bind].
  rewrite E2. cbn [mbind option_bind]. rewrite E3. cbn [mbind option_bind]. rewrite E4. cbn [mbind option_bind].
  apply store_words; [done|]. specialize (Hu "out"%string 32). lia.
Qed.

Section Hash.
Context (K : knobs) (HK : 16 <= SCRATCH_WORDS K).

Lemma hash_value input ds :
  bytes_ok input -> Z.of_nat (length input) < 2 ^ 31 -> words DATASET_WORDS ds ->
  exists out, bytes_ok out /\ length out = 32%nat /\
    forall uninit, sized uninit -> lattice_hash_ds K uninit input ds = Some out.
Proof.
  intros Hb Hlen Hds. destruct (input_words_ok input Hb) as (iw & Eiw & Hiw & _).
  assert (word_ok (seed_domain input)) as Hd by (unfold seed_domain; auto with words).
  assert (words ST_WORDS (sponge_spec iw 256 (seed_domain input))) as Hst by (apply (sponge_spec_ok iw 256); [apply Hiw|done]).
  destruct (lattice_walk_ok K HK _ ds Hst Hds) as (st & sc & Hst' & Hwalk).
  assert (words 4 (sponge_spec st 4 0xF1)) as [Hfl Hfw] by (apply (sponge_spec_ok st 4); [apply Hst'|]; auto with words).
  exists (mjoin (map word_bytes (sponge_spec st 4 0xF1))). split_and!.
  - apply Forall_join. apply Forall_map, Forall_true. intros w. apply word_bytes_ok.
  - apply length_words_bytes. lia.
  - intros uninit Hu. apply (hash_steps K uninit input ds iw (sponge_spec iw 256 (seed_domain input)) st sc); [done|done|..].
    + by apply sponge_fresh.
    + apply Hwalk; [done|apply Hu; lia].
    + apply sponge_fresh; auto with words.
    + lia.
Qed.

(** C14: the hash of any input below 2^31 bytes with any dataset is defined: no read or write outside of an array, no division by
    zero, and every loop ends.  It is a string of 32 bytes that depends on the input and the dataset only, not on what the memory it
    allocates or its output array held before. *)
Theorem lattice_hash_defined input ds :
  bytes_ok input -> Z.of_nat (length input) < 2 ^ 31 -> words DATASET_WORDS ds ->
  exists out, bytes_ok out /\ length out = 32%nat /\
    forall uninit, sized uninit -> lattice_hash_ds K uninit input ds = Some out.
Proof. apply hash_value. Qed.
End Hash.

Lemma lattice_hash_defined_witness :
  exists out, length out = 32%nat /\
    lattice_hash_ds default_knobs (fun _ n => zeroed n) [97; 98; 99] (zeroed DATASET_WORDS) = Some out.
Proof.
  assert (bytes_ok [97; 98; 99]) as Hb by (repeat constructor; lia).
  destruct (lattice_hash_defined default_knobs ltac:(vm_compute; congruence) [97; 98; 99] (zeroed DATASET_WORDS) Hb)
    as (out & _ & Hl & Hh); [cbn; lia|apply zeroed_ok; vm_compute; congruence|].
  exists out. split; [exact Hl|]. apply Hh. intros x n Hn. apply zeroed_ok, Hn.
Defined.

(** ** The dataset *)

Lemma load64le_ok b i : bytes_ok b -> 0 <= i -> i * 8 + 8 <= Z.of_nat (length b) -> exists w, load64le b i = Some w /\ word_ok w.
Proof.
  intros Hb Hi Hl. apply (for_upto_inv (fun _ w => word_ok w)); [lia| |auto with words].
  intros k w Hk Hw. destruct (get_in b (i * 8 + k)) as (x & -> & _); [lia|]. cbn [mbind option_bind]. eexists. split; [done|]. auto with words.
Qed.

Lemma seed_words seed :
  bytes_ok seed -> length seed = 32%nat ->
  exists es, words 4 es /\
    forall arr, length arr = 4%nat -> for_upto 4 (fun i es => w ← load64le seed i; put es i w) arr = Some es.
Proof.
  intros Hb Hl. set (f i := default 0 (load64le seed i)).
  assert (forall i, 0 <= i < 4 -> load64le seed i = Some (f i) /\ word_ok (f i)) as Hf.
  { intros i Hi. destruct (load64le_ok seed i Hb) as (w & Ew & Hw); [lia|lia|]. unfold f. by rewrite Ew. }
  clearbody f. exists (map f (seqZ 0 4)). split; [split; [done|]; repeat constructor; apply Hf; lia|]. intros arr Ha.
  etransitivity; [apply (fill_from (load64le seed) f 0 4 0); [intros i Hi; apply Hf; lia|lia|lia]|].
  change (Z.to_nat (0 + 0)) with 0%nat. rewrite take_0. cbn [app plus]. by rewrite (drop_ge arr), app_nil_r by lia.
Qed.

Lemma dataset_of es ds uninit seed buf :
  for_upto 4 (fun i es => w ← load64le seed i; put es i w) (uninit "es"%string 4) = Some es ->
  (eseed ← sponge es 4 (uninit "eseed"%string 8) 8 0x02; expand eseed 0xDA buf DATASET_WORDS) = Some ds ->
  lattice_build_dataset uninit seed buf = Some ds.
Proof. intros E1 E2. unfold lattice_build_dataset. by rewrite E1. Qed.

(** A dataset has a value that depends on the seed only, and is what [lattice_hash_defined] asks for. *)
Lemma build_dataset_defined seed :
  bytes_ok seed -> length seed = 32%nat ->
  exists ds, words DATASET_WORDS ds /\
    forall uninit buf, sized uninit -> Z.of_nat (length buf) = DATASET_WORDS -> lattice_build_dataset uninit seed buf = Some ds.
Proof.
  intros Hb Hl. destruct (seed_words seed Hb Hl) as (es & Hes & Ees).
  assert (words 8 (sponge_spec es 8 0x02)) as [Hel Hew] by (apply (sponge_spec_ok es 8); [apply Hes|]; auto with words).
  assert (word_ok 0xDA) as Hd by auto with words.
  destruct (expand_fresh (sponge_spec es 8 0x02) 0xDA (zeroed DATASET_WORDS) DATASET_WORDS Hew ltac:(lia) Hd) as [_ Hw]; [by apply zeroed_ok|].
  eexists. split; [exact Hw|]. intros uninit buf Hu Hbuf. apply (dataset_of es); [apply Ees; pose proof (Hu "es"%string 4); lia|].
  rewrite (sponge_fresh uninit "eseed" es 4 8 8) by (done || auto with words). cbn [mbind option_bind].
  exact (proj1 (expand_fresh (sponge_spec es 8 0x02) 0xDA buf DATASET_WORDS Hew ltac:(lia) Hd Hbuf)).
Qed.

(** ** What the hash absorbs determines its input *)

(** The state the first sponge starts from, and the blocks it absorbs. *)
Definition hash_absorbs (input : bytes) : option (list Z * list (list Z)) :=
  iw ← input_words input (word_count input);
  Some (sponge_init (length iw) (seed_domain input), blocks (padded iw)).

Lemma pad_tail_odd r i x : (r < 8)%nat -> pad_tail r !! i = Some x -> Z.odd x = bool_decide (i = 0%nat).
Proof.
  intros Hr. do 8 (destruct r as [|r]; [do 8 (destruct i as [|i]; [by intros [= <-]|]); done|]). lia.
Qed.

Lemma padded_inj_le a b : padded a = padded b -> (length a <= length b)%nat -> a = b.
Proof.
  intros E Hl. destruct (decide (length a = length b)) as [El|Hne].
  - apply (f_equal (take (length a))) in E. unfold padded in E. rewrite take_app_length in E. by rewrite El, take_app_length in E.
  - exfalso. assert (forall l : list Z, (length l mod 8 < 8)%nat) as Hm by (intros l; by apply Nat.mod_upper_bound).
    destruct (pad_tail_ok _ (Hm b)) as [Hpb _]. pose proof (Hm b). pose proof (Hm a).
    destruct (lookup_lt_is_Some_2 (padded b) (length b)) as [x Hx]; [unfold padded; rewrite length_app; lia|].
    pose proof Hx as Hy. rewrite <- E in Hy. unfold padded in Hx, Hy.
    rewrite lookup_app_r in Hx by lia. rewrite lookup_app_r in Hy by lia.
    apply pad_tail_odd in Hx; [|done]. apply pad_tail_odd in Hy; [|done]. rewrite Hx in Hy.
    rewrite bool_decide_true, bool_decide_false in Hy by lia. done.
Qed.

Lemma padded_inj a b : padded a = padded b -> a = b.
Proof.
  intros E. destruct (Nat.le_ge_cases (length a) (length b)); [by apply padded_inj_le|]. symmetry. by apply padded_inj_le.
Qed.

Lemma blocks_inj a b : blocks (padded a) = blocks (padded b) -> a = b.
Proof.
  intros E. apply padded_inj. assert (forall l, mjoin (blocks (padded l)) = padded l) as Hj.
  { intros l. apply join_reshape. rewrite sum_list_replicate. unfold padded. rewrite length_app.
    pose proof (Nat.div_mod_eq (length l) 8) as Ed. assert (length l mod 8 < 8)%nat as Hm by (by apply Nat.mod_upper_bound).
    destruct (pad_tail_ok _ Hm) as [-> _]. replace (length l + (8 - length l mod 8))%nat with (S (length l / 8) * 8)%nat by lia.
    rewrite Nat.div_mul; lia. }
  by rewrite <- (Hj a), E, Hj.
Qed.

Lemma sponge_init_last n d : sponge_init n d !! 15%nat = Some (Z.lxor d (w64 (Z.shiftl (Z.of_nat n) 8))).
Proof. done. Qed.

Lemma low_byte_domain n d : Z.land (Z.lxor d (w64 (Z.shiftl n 8))) 255 = Z.land d 255.
Proof.
  change 255 with (Z.ones 8). apply Z.bits_inj'. intros i Hi. rewrite !Z.land_spec, Z.lxor_spec.
  destruct (Z.lt_ge_cases i 8); [|rewrite Z.ones_spec_high, !andb_false_r by lia; done].
  unfold w64. rewrite Z.mod_pow2_bits_low, Z.shiftl_spec_low by lia. by rewrite xorb_false_r.
Qed.

Lemma seed_domain_byte a : Z.land (seed_domain a) 255 = 1.
Proof.
  unfold seed_domain. replace (Z.shiftl (Z.of_nat (length a)) 16) with (Z.shiftl (Z.shiftl (Z.of_nat (length a)) 8) 8)
    by (by rewrite Z.shiftl_shiftl). by rewrite low_byte_domain.
Qed.

(** Two inputs of the hash never look the same to it: the state its first sponge starts from and the blocks it absorbs determine the
    bytes of the input and their number, in spite of the zero padding to words and the padding to blocks.  And no other use of the sponge,
    in the walk, for the result or for the dataset, starts from such a state. *)
Theorem hash_input_encoded a b :
  bytes_ok a -> bytes_ok b -> Z.of_nat (length a) < 2 ^ 31 -> Z.of_nat (length b) < 2 ^ 31 ->
  (hash_absorbs a = hash_absorbs b -> a = b) /\
  (forall n d, d ∈ [0x02; 0x58; 0xF1] -> exists x, hash_absorbs a = Some x /\ x.1 <> sponge_init n d).
Proof.
  intros Ha Hb Hla Hlb. unfold hash_absorbs. destruct (input_words_ok a Ha) as (wa & -> & _ & Hra). destruct (input_words_ok b Hb) as (wb & -> & _ & Hrb).
  cbn [mbind option_bind]. split.
  - intros E. apply (inj Some) in E. pose proof (f_equal snd E) as Ew. apply blocks_inj in Ew. subst wb.
    pose proof (f_equal (fun x => x.1 !! 15%nat) E) as Ed. cbn [fst] in Ed. rewrite !sponge_init_last in Ed. apply (inj Some) in Ed.
    apply (f_equal (fun x => Z.lxor x (w64 (Z.shiftl (Z.of_nat (length wa)) 8)))) in Ed. rewrite !lxor_cancel in Ed.
    unfold seed_domain in Ed. apply (f_equal (Z.lxor 1)) in Ed. rewrite <- !Z.lxor_assoc, Z.lxor_nilpotent, !Z.lxor_0_l in Ed.
    unfold w64 in Ed. rewrite !Z.shiftl_mul_pow2, !Z.mod_small in Ed by lia.
    apply list_eq_same_length with (n := length a); [lia|lia|]. intros i x y Hi Hx Hy.
    rewrite <- (Nat2Z.id i) in Hx, Hy. apply get_at in Hx; [|lia]. apply get_at in Hy; [|lia].
    rewrite Hra in Hx by lia. rewrite Hrb in Hy by lia. congruence.
  - intros n d Hd. eexists. split; [done|]. cbn [fst]. intros E. apply (f_equal (fun s : list Z => s !! 15%nat)) in E.
    rewrite !sponge_init_last in E. apply (inj Some), (f_equal (fun x => Z.land x 255)) in E.
    rewrite !low_byte_domain, seed_domain_byte in E.
    rewrite !elem_of_cons, elem_of_nil in Hd. destruct Hd as [->|[->|[->|[]]]]; discriminate E.
Qed.

Lemma hash_input_encoded_witness : hash_absorbs [97; 98; 99] <> hash_absorbs [97; 98; 99; 0].
Proof.
  intros E. assert ([97; 98; 99] = [97; 98; 99; 0]) as H; [|discriminate H].
  apply (hash_input_encoded [97; 98; 99] [97; 98; 99; 0]); [repeat constructor; lia|repeat constructor; lia|cbn; lia|cbn; lia|exact E].
Defined.
