(* ===== verification/Miner.v ===== *)
(** * Miner: searching nonces, and the pool's check of a share

    The miner is the Android one (android/app/src/main/cpp/lattice_jni.c and the nonce offset of MinerEngine.kt; the desktop miners have
    the same functions); the check is pool/server/pool_verify.c, which pool-server.py calls as [VerifyShare].  Both hash with
    [lattice_hash_ds]. *)
From S2P Require Import Prelude JsCore Number Bytes Python Effects PoolState PoolShares Lattice.
Local Open Scope Z_scope.

(** ** The miner's nonce offset (MinerEngine.kt) *)

(** The length of the varint at the head of the list: [n] of the inner loop. *)
Fixpoint varint_len (l : bytes) : nat :=
  match l with
  | b :: l' => if Z.land b 0x80 =? 0 then 1 else S (varint_len l')
  | [] => 1
  end.

Fixpoint skip_varints (v p : nat) (blob : bytes) : nat :=
  match v with
  | O => p
  | S v' => if (p <? length blob)%nat then skip_varints v' (p + varint_len (drop p blob)) blob else p
  end.

Definition nonceOffset (blob : bytes) : Z := Z.of_nat (skip_varints 3 0 blob) + 32.

(** ** The miner's target (lattice_jni.c) *)

Definition w128 (x : Z) : Z := x mod 2 ^ 128.

Definition meets_target (h : bytes) (difficulty : Z) : option bool :=
  if difficulty <=? 1 then Some true else
  carry ← for_upto 4 (fun i carry => w ← load64le h i; Some (Z.shiftr (w128 (w * difficulty + carry)) 64)) 0;
  Some (carry =? 0).

(** Counting the zero bits of a byte from the top, and whether it has a bit set. *)
Fixpoint lz_byte (bits : nat) (x n : Z) : Z * bool :=
  match bits with
  | O => (n, false)
  | S b => if Z.land x (Z.shiftl 1 (Z.of_nat b)) =? 0 then lz_byte b x (n + 1) else (n, true)
  end.

Fixpoint lz_from (i : nat) (out : bytes) (n : Z) : option Z :=
  match i with
  | O => Some n
  | S i' =>
      x ← get out (Z.of_nat i');
      if x =? 0 then lz_from i' out (n + 8)
      else let '(n, found) := lz_byte 8 x n in if found : bool then Some n else lz_from i' out n
  end.

Definition lz_bits (out : bytes) : option Z := lz_from 32 out 0.

(** ** A nonce in a blob *)

(** [blob[off + i] = (u8)(nonce >> (8 * i))] *)
Definition put_nonce (blob : bytes) (off nonce : Z) : option bytes :=
  for_upto 4 (fun i blob => put blob (off + i) (Z.shiftr nonce (8 * i) mod 256)) blob.

Section Hashing.
Context (K : knobs) (uninit : string -> Z -> list Z).

(** ** Batches (lattice_jni.c) *)

(** The test of the arguments; the sum is an [int], which must not overflow. *)
Definition blob_refused (blob : bytes) (nonceOffset : Z) : option bool :=
  let blen := Z.of_nat (length blob) in
  if (blen <=? 0) || (250 <? blen) || (nonceOffset <? 0) then Some true
  else if 2 ^ 31 <=? nonceOffset + 4 then None
  else Some (blen <? nonceOffset + 4).

(** One turn of either loop: the hash of a nonce, and the best count of zero bits. *)
Definition hash_nonce (blob : bytes) (off nn : Z) (ds : list Z) (best : Z) : option (bytes * bytes * Z) :=
  blob ← put_nonce blob off nn;
  h ← lattice_hash_ds K uninit blob ds;
  z ← lz_bits h;
  Some (blob, h, if best <? z then z else best).

(** A turn of the loop of [hash]: the blob, the best count, the last hash and the winner so far. *)
Definition hash_turn (off startNonce difficulty : Z) (ds : list Z) (k : Z) (s : bytes * Z * bytes * Z) : option (bytes * Z * bytes * Z) :=
  let '(blob, best, _, winner) := s in
  '(blob, h, best) ← hash_nonce blob off ((startNonce + k) mod 2 ^ 32) ds best;
  won ← (if winner <? 0 then meets_target h (w64 difficulty) else Some false);
  Some (blob, best, h, if won : bool then startNonce + k else winner).

(** [hash]: the first winner or -1, the last hash (nothing when no array is written) and the best count. *)
Definition hash (blob : bytes) (nonceOffset startNonce count difficulty : Z) (ds : option (list Z)) (best : Z)
  : option (Z * bytes * Z) :=
  refused ← blob_refused blob nonceOffset;
  if refused : bool then Some (-1, [], best) else
  match ds with
  | None => Some (-1, [], best)
  | Some ds =>
      '(_, best, lasth, winner) ← for_upto count (hash_turn nonceOffset startNonce difficulty ds) (blob, best, zeroed 32, -1);
      Some (winner, lasth, best)
  end.

(** A turn of the loop of [hashMulti]. *)
Definition multi_turn (off startNonce difficulty : Z) (ds : list Z) (k : Z) (s : bytes * Z * bytes * Z * list Z)
  : option (bytes * Z * bytes * Z * list Z) :=
  let '(blob, best, _, n_winners, wbuf) := s in
  '(blob, h, best) ← hash_nonce blob off ((startNonce + k) mod 2 ^ 32) ds best;
  won ← (if n_winners <? Z.of_nat (length wbuf) then meets_target h (w64 difficulty) else Some false);
  if won : bool then wbuf ← put wbuf n_winners (startNonce + k); Some (blob, best, h, n_winners + 1, wbuf)
  else Some (blob, best, h, n_winners, wbuf).

(** [hashMulti]: [wbuf] is the caller's array; the result is how much of it is written. *)
Definition hashMulti (blob : bytes) (nonceOffset startNonce count difficulty : Z) (ds : option (list Z)) (best : Z) (wbuf : list Z)
  : option (Z * list Z * bytes * Z) :=
  refused ← blob_refused blob nonceOffset;
  if refused : bool then Some (0, wbuf, [], best) else
  match ds with
  | None => Some (0, wbuf, [], best)
  | Some ds =>
      '(_, best, lasth, n_winners, wbuf) ←
        for_upto count (multi_turn nonceOffset startNonce difficulty ds) (blob, best, zeroed 32, 0, wbuf);
      Some (n_winners, wbuf, lasth, best)
  end.

(** ** The pool's check (pool_verify.c) *)

Definition pool_meets_target (h : bytes) (difficulty : Z) : option Z :=
  if difficulty =? 0 then Some 0 else
  top ← for_upto 8 (fun i top => x ← get h (24 + i); Some (Z.lor top (w64 (Z.shiftl x (i * 8))))) 0;
  let prod := w128 (top * difficulty) in
  Some (if w64 (Z.shiftr prod 64) =? 0 then 1 else 0).

(** [buf] after [memcpy(buf, blob, blob_len)]. *)
Definition memcpy (buf blob : bytes) : bytes := blob ++ drop (length blob) buf.

Definition pool_verify_share_v2 (blob : bytes) (nonce_offset nonce : Z) (ds : option (list Z)) (difficulty : Z) : option (Z * bytes) :=
  match ds with
  | None => Some (-1, [])
  | Some ds =>
      let blob_len := Z.of_nat (length blob) in
      if (blob_len <=? 0) || (256 <? blob_len) then Some (-1, []) else
      if (nonce_offset <? 0) || (blob_len <? nonce_offset + 4) then Some (-1, []) else
      let buf := memcpy (uninit "buf" 256) blob in
      buf ← put_nonce buf nonce_offset nonce;
      hash ← lattice_hash_ds K uninit (take (length blob) buf) ds;
      r ← pool_meets_target hash difficulty;
      Some (r, hash)
  end.

(** The same without the hash. *)
Definition pool_verify_share (blob : bytes) (nonce_offset nonce : Z) (ds : option (list Z)) (difficulty : Z) : option Z :=
  '(r, _) ← pool_verify_share_v2 blob nonce_offset nonce ds difficulty; Some r.

Definition pool_dataset_fingerprint (ds : list Z) : option bytes :=
  blob ← for_upto 88 (fun i blob => put blob i (Z.land (i * 7 + 13) 0xff)) (uninit "blob" 88);
  lattice_hash_ds K uninit blob ds.
End Hashing.
