(* ===== verification/MinerShare.v ===== *)
(** * MinerShare: what a miner finds, the pool accepts

    The target of the miners is exact; the pool compares the top 64 bits and never refuses what a miner found ([targets_compared]).
    A batch reports the nonces that meet the target, as many as fit ([hashMulti_finds]), and the pool's check accepts each of them, when
    both put the nonce at the same place ([share_accepted]).  They do not always ([nonce_offsets_agree]). *)
From S2P Require Import Prelude JsCore Number Bytes Python Effects PoolState PoolShares Lattice LatticeSafety LatticeHash Miner.
Local Open Scope Z_scope.

(** ** Little-endian numbers *)

Abbreviation value := bytesToBigIntLE.

Lemma value_cons x b : 0 <= x < 256 -> value (x :: b) = x + value b * 256.
Proof. intros Hx. change (value (x :: b)) with (Z.lor (Z.shiftl (value b) 8) x). rewrite lor_shift_byte by done. lia. Qed.

Lemma value_app a b : bytes_ok a -> value (a ++ b) = value a + value b * 2 ^ (8 * Z.of_nat (length a)).
Proof.
  intros Ha. induction Ha as [|x a Hx Ha IH]; [change (value b = 0 + value b * 1); lia|]. cbn [app]. rewrite !value_cons, IH by done.
  replace (8 * Z.of_nat (length (x :: a))) with (8 + 8 * Z.of_nat (length a)) by (cbn [length]; lia).
  rewrite Z.pow_add_r by lia. change (2 ^ 8) with 256. lia.
Qed.

Lemma value_bound b : bytes_ok b -> 0 <= value b < 2 ^ (8 * Z.of_nat (length b)).
Proof. intros Hb. pose proof (bytesToBigIntLE_bound b Hb) as H. rewrite Z.pow_mul_r by lia. done. Qed.

(** A loop that collects [n] bytes of [b] from [p], the least significant first. *)
Lemma collect_bytes b p n :
  bytes_ok b -> 0 <= p -> 0 <= n <= 8 -> p + n <= Z.of_nat (length b) ->
  for_upto n (fun k w => x ← get b (p + k); Some (Z.lor w (w64 (Z.shiftl x (8 * k))))) 0 =
  Some (value (take (Z.to_nat n) (drop (Z.to_nat p) b))).
Proof.
  intros Hb Hp Hn Hl.
  destruct (for_upto_inv (fun k w => w = value (take (Z.to_nat k) (drop (Z.to_nat p) b)))
              (fun k w => x ← get b (p + k); Some (Z.lor w (w64 (Z.shiftl x (8 * k))))) n 0) as (w & -> & ->); [lia| |done|done].
  intros k w Hk ->. destruct (get_in b (p + k)) as (x & -> & Hx); [lia|]. cbn [mbind option_bind]. eexists. split; [done|].
  pose proof (Forall_lookup_1 _ _ _ _ Hb Hx) as Hx256. cbn beta in Hx256.
  replace (Z.to_nat (k + 1)) with (S (Z.to_nat k)) by lia.
  rewrite (take_S_r _ _ x) by (rewrite lookup_drop, <- Z2Nat.inj_add by lia; done).
  assert (bytes_ok (take (Z.to_nat k) (drop (Z.to_nat p) b))) as Ht by (by apply Forall_take, Forall_drop).
  assert (Z.of_nat (length (take (Z.to_nat k) (drop (Z.to_nat p) b))) = k) as El by (rewrite length_take, length_drop; lia).
  pose proof (value_bound _ Ht) as Hv. rewrite value_app, El in * by done. rewrite value_cons by done. cbn [value fold_right].
  unfold w64. rewrite Z.shiftl_mul_pow2, Z.lor_comm by lia. rewrite Z.mod_small.
  - rewrite lor_low by lia. lia.
  - assert (0 < 2 ^ (8 * k)) by (apply Z.pow_pos_nonneg; lia).
    assert (2 ^ (8 * k) <= 2 ^ 56) by (apply Z.pow_le_mono_r; lia). nia.
Qed.

Lemma load64le_value b i :
  bytes_ok b -> 0 <= i -> i * 8 + 8 <= Z.of_nat (length b) ->
  load64le b i = Some (value (take 8 (drop (Z.to_nat (i * 8)) b))).
Proof. intros Hb Hi Hl. unfold load64le. by rewrite collect_bytes by (done || lia). Qed.

(** ** Targets *)

(** The carry after the first words of the hash. *)
Lemma carry_step v w d e :
  0 <= e -> 0 <= v < 2 ^ e -> 0 <= w < 2 ^ 64 -> 0 <= d < 2 ^ 64 ->
  Z.shiftr (w128 (w * d + v * d / 2 ^ e)) 64 = (v + w * 2 ^ e) * d / 2 ^ (e + 64).
Proof.
  intros He Hv Hw Hd. assert (0 < 2 ^ e) as Hpos by (apply Z.pow_pos_nonneg; lia).
  assert (0 <= v * d / 2 ^ e < 2 ^ 64) as Hc.
  { split; [apply Z.div_pos; nia|]. apply Z.div_lt_upper_bound; [done|]. nia. }
  unfold w128. rewrite Z.mod_small by nia. rewrite Z.shiftr_div_pow2 by lia. rewrite Z.pow_add_r, <- Z.div_div by lia. f_equal.
  replace ((v + w * 2 ^ e) * d) with (v * d + w * d * 2 ^ e) by ring. rewrite Z.div_add by lia. lia.
Qed.

Lemma meets_target_exact h d :
  bytes_ok h -> length h = 32%nat -> 0 <= d < 2 ^ 64 -> meets_target h d = Some (bool_decide (value h * d < 2 ^ 256)).
Proof.
  intros Hh Hl Hd. pose proof (value_bound h Hh) as Hv. rewrite Hl in Hv. change (8 * Z.of_nat 32) with 256 in Hv.
  unfold meets_target. destruct (Z.leb_spec d 1); [rewrite bool_decide_true by nia; done|].
  destruct (for_upto_inv (fun i c => c = value (take (Z.to_nat (i * 8)) h) * d / 2 ^ (64 * i))
              (fun i carry => w ← load64le h i; Some (Z.shiftr (w128 (w * d + carry)) 64)) 4 0) as (c & -> & ->); [lia| |done|].
  - intros i c Hi ->. rewrite load64le_value by (done || lia). cbn [mbind option_bind]. eexists. split; [done|].
    assert (bytes_ok (take (Z.to_nat (i * 8)) h)) as Ht by (by apply Forall_take).
    assert (bytes_ok (take 8 (drop (Z.to_nat (i * 8)) h))) as Hw by (by apply Forall_take, Forall_drop).
    assert (Z.of_nat (length (take (Z.to_nat (i * 8)) h)) = i * 8) as El by (rewrite length_take; lia).
    assert (length (take 8 (drop (Z.to_nat (i * 8)) h)) = 8%nat) as Elw by (rewrite length_take, length_drop; lia).
    pose proof (value_bound _ Ht) as Bt. pose proof (value_bound _ Hw) as Bw. rewrite El in Bt. rewrite Elw in Bw.
    replace (8 * (i * 8)) with (64 * i) in Bt by lia.
    rewrite carry_step by (done || lia). replace (64 * (i + 1)) with (64 * i + 64) by lia. do 2 f_equal.
    replace (Z.to_nat ((i + 1) * 8)) with (Z.to_nat (i * 8) + 8)%nat by lia. rewrite <- (take_take_drop h), value_app by done.
    rewrite El. by replace (8 * (i * 8)) with (64 * i) by lia.
  - cbn [mbind option_bind]. rewrite (take_ge h) by (cbn; lia). change (64 * 4) with 256. f_equal.
    destruct (Z.eqb_spec (value h * d / 2 ^ 256) 0) as [E|E]; symmetry.
    + apply bool_decide_true. pose proof (Z.mul_succ_div_gt (value h * d) (2 ^ 256)). lia.
    + apply bool_decide_false. intros Hlt. apply E, Z.div_small. nia.
Qed.

Lemma for_from_ext {A} (f g : Z -> A -> option A) n : forall lo s, (forall i s, f i s = g i s) -> for_from n lo f s = for_from n lo g s.
Proof. induction n as [|n IH]; intros lo s Hfg; cbn [for_from]; [done|]. rewrite Hfg. destruct (g lo s); cbn; [by apply IH|done]. Qed.

(** The pool looks at the top 64 bits only. *)
Lemma pool_meets_target_top h d :
  bytes_ok h -> length h = 32%nat -> 0 < d < 2 ^ 64 ->
  pool_meets_target h d = Some (if value h / 2 ^ 192 * d <? 2 ^ 64 then 1 else 0).
Proof.
  intros Hh Hl Hd. unfold pool_meets_target. destruct (Z.eqb_spec d 0); [lia|].
  assert (bytes_ok (take 24 h)) as Ht by (by apply Forall_take). assert (bytes_ok (drop 24 h)) as Hu by (by apply Forall_drop).
  pose proof (value_bound _ Ht) as Bt. pose proof (value_bound _ Hu) as Bu. rewrite length_take, Hl in Bt. rewrite length_drop, Hl in Bu.
  assert (value h / 2 ^ 192 = value (drop 24 h)) as ->.
  { rewrite <- (take_drop 24 h) at 1. rewrite value_app by done. rewrite length_take, Hl.
    change (8 * Z.of_nat (24 `min` 32)) with 192 in *. rewrite Z.div_add by lia. rewrite Z.div_small by lia. done. }
  replace (for_upto 8 _ 0) with (Some (value (drop 24 h))).
  2:{ symmetry. etransitivity; [apply (for_from_ext _ (fun k w => x ← get h (24 + k); Some (Z.lor w (w64 (Z.shiftl x (8 * k))))))|].
      - intros i top. by rewrite (Z.mul_comm i 8).
      - etransitivity; [apply (collect_bytes h 24 8); [done|lia|lia|lia]|]. change (Z.to_nat 24) with 24%nat.
        by rewrite take_ge by (rewrite length_drop; cbn; lia). }
  cbn [mbind option_bind]. change (8 * Z.of_nat (32 - 24)) with 64 in Bu. unfold w128, w64. rewrite (Z.mod_small _ (2 ^ 128)) by nia.
  rewrite Z.shiftr_div_pow2 by lia. set (t := value (drop 24 h)) in *. clearbody t.
  assert (0 <= t * d / 2 ^ 64 < 2 ^ 64) by (split; [apply Z.div_pos; nia|apply Z.div_lt_upper_bound; nia]).
  rewrite Z.mod_small by done. destruct (Z.ltb_spec (t * d) (2 ^ 64)) as [Hlt|Hge].
  - rewrite Z.div_small by nia. done.
  - destruct (Z.eqb_spec (t * d / 2 ^ 64) 0) as [E|]; [|done]. pose proof (Z.mul_succ_div_gt (t * d) (2 ^ 64)). lia.
Qed.

(** What one accepts and the other. *)
Lemma top_compared v d :
  0 <= v -> 0 < d ->
  (v * d < 2 ^ 256 -> v / 2 ^ 192 * d < 2 ^ 64) /\ (v / 2 ^ 192 * d < 2 ^ 64 -> v * d < 2 ^ 256 + d * 2 ^ 192).
Proof.
  intros Hv Hd. pose proof (Z.div_mod v (2 ^ 192)) as E. pose proof (Z.mod_pos_bound v (2 ^ 192)) as B.
  set (t := v / 2 ^ 192) in *. set (l := v mod 2 ^ 192) in *. clearbody t l.
  replace (2 ^ 256) with (2 ^ 64 * 2 ^ 192) by (by rewrite <- Z.pow_add_r by lia). split; intros H.
  - apply (Z.mul_lt_mono_pos_r (2 ^ 192)); [done|]. nia.
  - assert (t * d + 1 <= 2 ^ 64) by lia. nia.
Qed.

(** The miners accept a hash if and only if hash * difficulty < 2^256, computed with 64-bit words and carries.  The pool, which only looks
    at the top 64 bits, accepts every hash a miner accepts, and nothing with hash * difficulty of 2^256 + difficulty * 2^192 or
    more; a difficulty of zero it never accepts. *)
Theorem targets_compared h d :
  bytes_ok h -> length h = 32%nat -> 0 <= d < 2 ^ 64 ->
  meets_target h d = Some (bool_decide (value h * d < 2 ^ 256)) /\
  exists r, pool_meets_target h d = Some r /\
    (0 < d -> value h * d < 2 ^ 256 -> r = 1) /\ (r = 1 -> 0 < d /\ value h * d < 2 ^ 256 + d * 2 ^ 192).
Proof.
  intros Hh Hl Hd. split; [by apply meets_target_exact|]. destruct (Z.eq_dec d 0) as [->|Hd0].
  { exists 0. by split_and!. }
  pose proof (value_bound h Hh) as Hv. destruct (top_compared (value h) d) as [H1 H2]; [lia|lia|].
  eexists. split; [apply pool_meets_target_top; (done || lia)|]. destruct (Z.ltb_spec (value h / 2 ^ 192 * d) (2 ^ 64)) as [Hlt|Hge].
  - split; [done|]. intros _. split; [lia|]. by apply H2.
  - split; [|done]. intros _ H. specialize (H1 H). lia.
Qed.

(** The comment in pool_verify.c has it that a share is valid if and only if hash * difficulty <= 2^256. *)
Lemma pool_target_lax :
  exists h, bytes_ok h /\ length h = 32%nat /\ pool_meets_target h 3 = Some 1 /\ 2 ^ 256 < value h * 3.
Proof. exists (replicate 24 255 ++ replicate 8 0x55). split_and!; [repeat constructor; lia|done|vm_compute; reflexivity..]. Qed.

Lemma targets_compared_witness :
  let h := replicate 30 255 ++ [0; 0] in
  meets_target h 65536 = Some true /\ exists r, pool_meets_target h 65536 = Some r /\ r = 1.
Proof.
  intros h. assert (value h * 65536 < 2 ^ 256) as Hv by (vm_compute; reflexivity).
  destruct (targets_compared h 65536) as [Hm (r & Hr & H1 & _)]; [repeat constructor; lia|done|lia|].
  split; [rewrite Hm; by rewrite bool_decide_true|]. exists r. split; [done|]. by apply H1.
Defined.

(** ** Nonces in blobs *)

Definition nonce_bytes (n : Z) : bytes := map (fun i => Z.shiftr n (8 * i) mod 256) (seqZ 0 4).
Definition spliced (blob : bytes) (off n : Z) : bytes :=
  take (Z.to_nat off) blob ++ nonce_bytes n ++ drop (Z.to_nat off + 4) blob.

Lemma nonce_bytes_ok n : bytes_ok (nonce_bytes n) /\ length (nonce_bytes n) = 4%nat.
Proof. split; [|done]. repeat constructor; try apply Z.mod_pos_bound; lia. Qed.

Lemma put_nonce_spliced blob off n :
  0 <= off -> off + 4 <= Z.of_nat (length blob) -> put_nonce blob off n = Some (spliced blob off n).
Proof.
  intros Ho Hl. unfold put_nonce, for_upto. change (Z.to_nat 4) with 4%nat.
  etransitivity; [apply (fill_from (fun i => Some (Z.shiftr n (8 * i) mod 256)) (fun i => Z.shiftr n (8 * i) mod 256) off 4 0 blob); [done|lia..]|].
  by rewrite Z.add_0_r.
Qed.

Lemma spliced_ok blob off n :
  bytes_ok blob -> 0 <= off -> off + 4 <= Z.of_nat (length blob) ->
  bytes_ok (spliced blob off n) /\ length (spliced blob off n) = length blob.
Proof.
  intros Hb Ho Hl. destruct (nonce_bytes_ok n) as [Hn Hnl]. unfold spliced. split.
  - apply Forall_app. split; [by apply Forall_take|]. apply Forall_app. split; [done|by apply Forall_drop].
  - rewrite !length_app, length_take, length_drop, Hnl. lia.
Qed.

Lemma spliced_again blob off m n :
  0 <= off -> off + 4 <= Z.of_nat (length blob) -> spliced (spliced blob off m) off n = spliced blob off n.
Proof.
  intros Ho Hl. destruct (nonce_bytes_ok m) as [_ Hm]. unfold spliced at 1.
  assert (length (take (Z.to_nat off) blob) = Z.to_nat off) as Ht by (rewrite length_take; lia). unfold spliced. f_equal; [|f_equal].
  - by rewrite take_app_length' by lia.
  - rewrite app_assoc, drop_app_length'; [done|]. rewrite length_app. lia.
Qed.

Lemma lz_from_ok i : forall out n, (i <= length out)%nat -> exists z, lz_from i out n = Some z.
Proof.
  induction i as [|i IH]; intros out n Hl; cbn [lz_from]; [by eexists|].
  destruct (get_in out (Z.of_nat i)) as (x & -> & _); [lia|]. cbn [mbind option_bind]. destruct (x =? 0); [apply IH; lia|].
  destruct (lz_byte 8 x n) as [m [|]]; [by eexists|apply IH; lia].
Qed.

(** ** Batches *)

Lemma bind_some {A B} (f : A -> option B) a : (Some a ≫= f) = f a.
Proof. reflexivity. Qed.

Lemma hash_nonce_steps K uninit b off nn ds best b' h z :
  put_nonce b off nn = Some b' -> lattice_hash_ds K uninit b' ds = Some h -> lz_bits h = Some z ->
  hash_nonce K uninit b off nn ds best = Some (b', h, if best <? z then z else best).
Proof.
  intros E1 E2 E3. unfold hash_nonce. by rewrite E1, bind_some, E2, bind_some, E3, bind_some.
Qed.

Lemma verify_steps K u blob off n ds d buf h r :
  0 < Z.of_nat (length blob) <= 256 -> 0 <= off -> off + 4 <= Z.of_nat (length blob) ->
  put_nonce (memcpy (u "buf"%string 256) blob) off n = Some buf -> lattice_hash_ds K u (take (length blob) buf) ds = Some h ->
  pool_meets_target h d = Some r -> pool_verify_share_v2 K u blob off n (Some ds) d = Some (r, h).
Proof.
  intros Hl Ho Hf E1 E2 E3. unfold pool_verify_share_v2.
  destruct (Z.leb_spec (Z.of_nat (length blob)) 0); [lia|]. destruct (Z.ltb_spec 256 (Z.of_nat (length blob))); [lia|].
  destruct (Z.ltb_spec off 0); [lia|]. destruct (Z.ltb_spec (Z.of_nat (length blob)) (off + 4)); [lia|]. cbn [orb].
  by rewrite E1, bind_some, E2, bind_some, E3, bind_some.
Qed.

Lemma spliced_prefix blob rest off n :
  0 <= off -> off + 4 <= Z.of_nat (length blob) -> take (length blob) (spliced (blob ++ rest) off n) = spliced blob off n.
Proof.
  intros Ho Hl. destruct (nonce_bytes_ok n) as [_ Hn]. unfold spliced. rewrite (take_app_le blob rest), (drop_app_le blob rest), !app_assoc by lia.
  apply take_app_length'. rewrite !length_app, length_take, length_drop. lia.
Qed.

Section Batch.
Context (K : knobs) (HK : 16 <= SCRATCH_WORDS K) (uninit : string -> Z -> list Z) (Hu : sized uninit).
Context (blob : bytes) (off : Z) (ds : list Z) (d : Z).
Context (Hblob : bytes_ok blob) (Hoff : 0 <= off) (Hfits : off + 4 <= Z.of_nat (length blob)) (Hlen : Z.of_nat (length blob) <= 250).
Context (Hds : words DATASET_WORDS ds) (Hd : 0 <= d < 2 ^ 64).

(** The hash of a nonce, and whether it meets the target. *)
Definition share_hash (n : Z) : bytes := default [] (lattice_hash_ds K uninit (spliced blob off (n mod 2 ^ 32)) ds).
Definition wins (n : Z) : Prop := value (share_hash n) * d < 2 ^ 256.

#[local] Instance wins_dec n : Decision (wins n).
Proof. unfold wins. apply _. Defined.

Lemma share_hash_ok n :
  bytes_ok (share_hash n) /\ length (share_hash n) = 32%nat /\
  forall u, sized u -> lattice_hash_ds K u (spliced blob off (n mod 2 ^ 32)) ds = Some (share_hash n).
Proof.
  destruct (spliced_ok blob off (n mod 2 ^ 32) Hblob Hoff Hfits) as [Hs Hl].
  destruct (hash_value K HK (spliced blob off (n mod 2 ^ 32)) ds Hs) as (out & Ho & Hol & Hh); [lia|done|].
  unfold share_hash. rewrite (Hh uninit Hu). done.
Qed.

(** The blob with some nonce in it. *)
Definition some_nonce (b : bytes) : Prop := bytes_ok b /\ length b = length blob /\ forall n, spliced b off n = spliced blob off n.

Lemma hash_nonce_ok b n best :
  some_nonce b -> exists best', hash_nonce K uninit b off (n mod 2 ^ 32) ds best = Some (spliced blob off (n mod 2 ^ 32), share_hash n, best').
Proof.
  intros (Hb & Hbl & Hbs). destruct (share_hash_ok n) as (_ & Hl & Hh).
  destruct (lz_from_ok 32 (share_hash n) 0) as [z Hz]; [lia|]. eexists.
  eapply hash_nonce_steps; [|by apply Hh|exact Hz]. rewrite <- Hbs. apply put_nonce_spliced; lia.
Qed.

Lemma some_nonce_spliced n : some_nonce (spliced blob off n).
Proof.
  destruct (spliced_ok blob off n Hblob Hoff Hfits) as [Hs Hl]. split_and!; [done|done|]. intros m. by apply spliced_again.
Qed.

Definition found (wbuf : list Z) (start k : Z) : list Z := take (length wbuf) (filter wins (seqZ start k)).

Definition batch_state (wbuf0 : list Z) (start k : Z) (s : bytes * Z * bytes * Z * list Z) : Prop :=
  let '(b, _, _, n, wbuf) := s in
  some_nonce b /\ length wbuf = length wbuf0 /\ n = Z.of_nat (length (found wbuf0 start k)) /\
  take (Z.to_nat n) wbuf = found wbuf0 start k.

(** One more nonce. *)
Lemma found_next wbuf start k :
  0 <= k ->
  found wbuf start (k + 1) =
  if bool_decide (wins (start + k)) && (Z.of_nat (length (found wbuf start k)) <? Z.of_nat (length wbuf))
  then found wbuf start k ++ [start + k] else found wbuf start k.
Proof.
  intros Hk. unfold found. rewrite seqZ_app, filter_app by lia. cbn [seqZ].
  change (seqZ (start + k) 1) with [Z.of_nat 0 + (start + k)]. rewrite Z.add_0_l. set (F := filter wins (seqZ start k)).
  rewrite filter_cons, filter_nil. rewrite length_take. destruct (decide (wins (start + k))) as [Hw|Hw].
  - rewrite bool_decide_true by done. cbn [andb]. destruct (Z.ltb_spec (Z.of_nat (length wbuf `min` length F)) (Z.of_nat (length wbuf))).
    + rewrite take_ge by (rewrite length_app; cbn; lia). by rewrite take_ge by lia.
    + by rewrite take_app_le by lia.
  - rewrite bool_decide_false by done. cbn [andb]. by rewrite app_nil_r.
Qed.

Lemma multi_turn_ok wbuf0 start k s :
  0 <= k -> batch_state wbuf0 start k s ->
  exists s', multi_turn K uninit off start d ds k s = Some s' /\ batch_state wbuf0 start (k + 1) s'.
Proof.
  destruct s as [[[[b best] lasth] n] wbuf]. intros Hk (Hb & Hwl & Hn & Ht). unfold multi_turn.
  destruct (hash_nonce_ok b (start + k) best Hb) as [best' ->]. rewrite bind_some.
  destruct (share_hash_ok (start + k)) as (Hh & Hhl & _). assert (w64 d = d) as -> by (unfold w64; apply Z.mod_small; lia).
  rewrite (meets_target_exact _ d Hh Hhl Hd). fold (wins (start + k)).
  pose proof (found_next wbuf0 start k Hk) as Hf. rewrite <- Hn, <- Hwl in Hf.
  assert (some_nonce (spliced blob off ((start + k) mod 2 ^ 32))) as Hs by apply some_nonce_spliced.
  assert (0 <= n <= Z.of_nat (length wbuf)) as Hnb by (rewrite Hn, Hwl; unfold found; rewrite length_take; lia).
  destruct (Z.ltb_spec n (Z.of_nat (length wbuf))) as [Hlt|Hge].
  - rewrite bind_some. destruct (bool_decide (wins (start + k))); cbn [andb] in Hf.
    + rewrite put_in, bind_some by lia. eexists. split; [done|]. unfold batch_state. rewrite length_insert, Hf, length_app, <- Ht. split_and!; [done|done| |].
      * rewrite Ht, Hn. cbn [length]. lia.
      * replace (Z.to_nat (n + 1)) with (S (Z.to_nat n)) by lia. rewrite (take_S_r _ _ (start + k)) by (apply list_lookup_insert_eq; lia).
        by rewrite take_insert_ge by lia.
    + eexists. split; [done|]. unfold batch_state. rewrite Hf. by split_and!.
  - rewrite bind_some. rewrite andb_false_r in Hf. eexists. split; [done|]. unfold batch_state. rewrite Hf. by split_and!.
Qed.

Lemma not_refused : blob_refused blob off = Some false.
Proof.
  unfold blob_refused. destruct (Z.leb_spec (Z.of_nat (length blob)) 0); [lia|].
  destruct (Z.ltb_spec 250 (Z.of_nat (length blob))); [lia|].
  destruct (Z.ltb_spec off 0); [lia|]. cbn [orb]. destruct (Z.leb_spec (2 ^ 31) (off + 4)); [lia|].
  by destruct (Z.ltb_spec (Z.of_nat (length blob)) (off + 4)); [lia|].
Qed.

Lemma hashMulti_spec start count best wbuf :
  0 <= count ->
  exists n wbuf' lasth best', hashMulti K uninit blob off start count d (Some ds) best wbuf = Some (n, wbuf', lasth, best') /\
    take (Z.to_nat n) wbuf' = found wbuf start count.
Proof.
  intros Hc. unfold hashMulti. rewrite not_refused, bind_some.
  destruct (for_upto_inv (batch_state wbuf start) (multi_turn K uninit off start d ds) count (blob, best, zeroed 32, 0, wbuf))
    as (s & -> & Hs); [done| | |].
  - intros k s Hk. apply multi_turn_ok. lia.
  - unfold batch_state, found. change (seqZ start 0) with (@nil Z). rewrite filter_nil, take_nil. by split_and!.
  - rewrite bind_some. destruct s as [[[[b best'] lasth] n] wbuf']. destruct Hs as (_ & _ & _ & Ht). by exists n, wbuf', lasth, best'.
Qed.

(** The single-winner batch: the first winner so far, or -1. *)
Definition first_winner (start k : Z) : Z := default (-1) (head (filter wins (seqZ start k))).

Lemma first_winner_next start k :
  0 <= k -> 0 <= start ->
  first_winner start (k + 1) =
  if (first_winner start k <? 0) && bool_decide (wins (start + k)) then start + k else first_winner start k.
Proof.
  intros Hk Hs. unfold first_winner. rewrite seqZ_app, filter_app by lia.
  change (seqZ (start + k) 1) with [Z.of_nat 0 + (start + k)]. rewrite Z.add_0_l, filter_cons, filter_nil.
  destruct (filter wins (seqZ start k)) as [|x l] eqn:E; cbn [head app default from_option id].
  - cbn [Z.ltb andb]. destruct (decide (wins (start + k))); [by rewrite bool_decide_true|by rewrite bool_decide_false].
  - assert (x ∈ filter wins (seqZ start k)) as Hx by (rewrite E; left). apply list_elem_of_filter in Hx as [_ Hx].
    apply elem_of_seqZ in Hx. by destruct (Z.ltb_spec x 0); [lia|].
Qed.

Definition search_state (start k : Z) (s : bytes * Z * bytes * Z) : Prop :=
  let '(b, _, _, winner) := s in some_nonce b /\ winner = first_winner start k.

Lemma hash_turn_ok start k s :
  0 <= k -> 0 <= start -> search_state start k s ->
  exists s', hash_turn K uninit off start d ds k s = Some s' /\ search_state start (k + 1) s'.
Proof.
  destruct s as [[[b best] lasth] winner]. intros Hk Hs [Hb Hw]. unfold hash_turn.
  destruct (hash_nonce_ok b (start + k) best Hb) as [best' ->]. rewrite bind_some.
  destruct (share_hash_ok (start + k)) as (Hh & Hhl & _). assert (w64 d = d) as -> by (unfold w64; apply Z.mod_small; lia).
  rewrite (meets_target_exact _ d Hh Hhl Hd). fold (wins (start + k)).
  pose proof (first_winner_next start k Hk Hs) as Hf. rewrite <- Hw in Hf.
  assert (some_nonce (spliced blob off ((start + k) mod 2 ^ 32))) as Hn by apply some_nonce_spliced.
  destruct (winner <? 0); cbn [andb] in Hf; rewrite bind_some; (eexists; split; [done|]); (split; [done|]); symmetry; exact Hf.
Qed.

(** [hash] reports the first nonce of its range that meets the target, or -1. *)
Lemma hash_first start count best :
  0 <= count -> 0 <= start ->
  exists lasth best', hash K uninit blob off start count d (Some ds) best = Some (first_winner start count, lasth, best').
Proof.
  intros Hc Hs. unfold hash. rewrite not_refused, bind_some.
  destruct (for_upto_inv (search_state start) (hash_turn K uninit off start d ds) count (blob, best, zeroed 32, -1))
    as (s & -> & Hst); [done| | |].
  - intros k s Hk. apply hash_turn_ok; lia.
  - unfold search_state, first_winner. change (seqZ start 0) with (@nil Z). by rewrite filter_nil.
  - rewrite bind_some. destruct s as [[[b best'] lasth] winner]. destruct Hst as [_ ->]. by eexists _, _.
Qed.

(** The pool's check of a nonce at the same place. *)
Lemma pool_verify_spec u n :
  sized u -> 0 < d -> wins n -> pool_verify_share_v2 K u blob off (n mod 2 ^ 32) (Some ds) d = Some (1, share_hash n).
Proof.
  intros Hsu Hd0 Hw. destruct (share_hash_ok n) as (Hh & Hhl & Hall).
  pose proof (Hsu "buf"%string 256 ltac:(lia)) as Hbuf.
  apply (verify_steps K u blob off _ ds d (spliced (memcpy (u "buf"%string 256) blob) off (n mod 2 ^ 32))); [lia|done|done|..].
  - apply put_nonce_spliced; [done|]. unfold memcpy. rewrite length_app, length_drop. lia.
  - unfold memcpy. rewrite spliced_prefix by done. by apply Hall.
  - rewrite pool_meets_target_top by (done || lia). destruct (value_bound _ Hh) as [Hv _].
    destruct (top_compared (value (share_hash n)) d Hv Hd0) as [H1 _]. specialize (H1 Hw). by destruct (Z.ltb_spec (value (share_hash n) / 2 ^ 192 * d) (2 ^ 64)); [|lia].
Qed.
End Batch.

#[export] Existing Instance wins_dec.

(** C40: a batch of the miner reports exactly the nonces of its range whose hash meets the target, in order, as many as the caller's array
    holds: a batch with several winners loses none of them, although each turn changes the blob in place. *)
Theorem hashMulti_finds K uninit blob off ds d start count best wbuf :
  16 <= SCRATCH_WORDS K -> sized uninit -> bytes_ok blob -> 0 <= off -> off + 4 <= Z.of_nat (length blob) -> Z.of_nat (length blob) <= 250 ->
  words DATASET_WORDS ds -> 0 <= d < 2 ^ 64 -> 0 <= count ->
  exists n wbuf' lasth best',
    hashMulti K uninit blob off start count d (Some ds) best wbuf = Some (n, wbuf', lasth, best') /\
    take (Z.to_nat n) wbuf' = take (length wbuf) (filter (wins K uninit blob off ds d) (seqZ start count)).
Proof. intros. by apply hashMulti_spec. Qed.

(** C8: the pool accepts what the miner finds: for every nonce a batch reports, the check of pool_verify.c, on another machine with
    other memory, computes the same hash and answers 1, provided that both put the nonce at the same offset. *)
Theorem share_accepted K uninit u blob ds d start count best wbuf n wbuf' lasth best' w :
  16 <= SCRATCH_WORDS K -> sized uninit -> sized u -> bytes_ok blob -> nonceOffset blob + 4 <= Z.of_nat (length blob) ->
  Z.of_nat (length blob) <= 250 -> words DATASET_WORDS ds -> 0 < d < 2 ^ 64 -> 0 <= count ->
  find_nonce_offset blob = nonceOffset blob ->
  hashMulti K uninit blob (nonceOffset blob) start count d (Some ds) best wbuf = Some (n, wbuf', lasth, best') ->
  w ∈ take (Z.to_nat n) wbuf' ->
  start <= w < start + count /\
  exists h, lattice_hash_ds K uninit (spliced blob (nonceOffset blob) (w mod 2 ^ 32)) ds = Some h /\
    pool_verify_share_v2 K u blob (find_nonce_offset blob) (w mod 2 ^ 32) (Some ds) d = Some (1, h).
Proof.
  intros HK Hsz Hu Hb Hf Hl Hds Hd Hc E Hm Hw. rewrite E. assert (0 <= nonceOffset blob) as Ho by (unfold nonceOffset; lia).
  destruct (hashMulti_spec K HK uninit Hsz blob (nonceOffset blob) ds d Hb Ho Hf Hl Hds ltac:(lia) start count best wbuf Hc)
    as (n1 & wb1 & l1 & b1 & E1 & Ht). rewrite Hm in E1. injection E1 as <- <- <- <-. rewrite Ht in Hw.
  apply elem_of_take in Hw as (i & Hw & _). apply list_elem_of_lookup_2, list_elem_of_filter in Hw as [Hwin Hr].
  split; [apply elem_of_seqZ in Hr; lia|]. exists (share_hash K uninit blob (nonceOffset blob) ds w). split.
  - by apply share_hash_ok.
  - apply pool_verify_spec; (done || lia).
Qed.

(** ** An example: a blob of 76 bytes and a difficulty of one *)

Definition a_blob : bytes := [1; 1; 0x90; 0x90; 0x90; 0x90; 6] ++ replicate 32 7 ++ [0; 0; 0; 0] ++ replicate 33 5.
Definition no_memory (_ : string) (n : Z) : list Z := zeroed n.

Lemma no_memory_sized : sized no_memory.
Proof. intros x n Hn. apply zeroed_ok, Hn. Qed.

Lemma dataset_zero : words DATASET_WORDS (zeroed DATASET_WORDS).
Proof. by apply zeroed_ok. Qed.

Lemma a_blob_ok : bytes_ok a_blob /\ find_nonce_offset a_blob = nonceOffset a_blob /\ nonceOffset a_blob = 39 /\ length a_blob = 76%nat.
Proof. split_and!; [repeat constructor; lia|vm_compute; reflexivity..]. Qed.

Lemma filter_all {A} (P : A -> Prop) `{!forall x, Decision (P x)} (l : list A) : (forall x, P x) -> filter P l = l.
Proof. intros HP. induction l as [|x l IH]; [done|]. by rewrite filter_cons, decide_True, IH by done. Qed.

(** With a difficulty of one every nonce wins. *)
Lemma all_win ds n : words DATASET_WORDS ds -> wins default_knobs no_memory a_blob 39 ds 1 n.
Proof.
  intros Hds. destruct a_blob_ok as (Hb & _ & _ & Hl).
  destruct (share_hash_ok default_knobs ltac:(by vm_compute) no_memory no_memory_sized a_blob 39 ds Hb ltac:(lia) ltac:(lia) ltac:(lia) Hds n)
    as (Hh & Hhl & _). pose proof (value_bound _ Hh) as Hv. rewrite Hhl in Hv. unfold wins. change (8 * Z.of_nat 32) with 256 in Hv. lia.
Qed.

Lemma all_found ds (wbuf found : list Z) start k :
  words DATASET_WORDS ds -> found = take (length wbuf) (filter (wins default_knobs no_memory a_blob 39 ds 1) (seqZ start k)) ->
  found = take (length wbuf) (seqZ start k).
Proof. intros Hds ->. rewrite filter_all; [done|]. intros w. by apply all_win. Qed.

Lemma hashMulti_finds_witness :
  exists n wbuf lasth best,
    hashMulti default_knobs no_memory a_blob 39 5 4 1 (Some (zeroed DATASET_WORDS)) 0 (replicate 8 0) = Some (n, wbuf, lasth, best) /\
    take (Z.to_nat n) wbuf = [5; 6; 7; 8].
Proof.
  destruct a_blob_ok as (Hb & _ & _ & Hl). pose proof dataset_zero as Hds. revert Hds. generalize (zeroed DATASET_WORDS). intros ds Hds.
  destruct (hashMulti_finds default_knobs no_memory a_blob 39 ds 1 5 4 0 (replicate 8 0))
    as (n & wbuf & lasth & best & E & Ht); [by vm_compute|exact no_memory_sized|exact Hb|lia|lia|lia|exact Hds|lia|lia|].
  exists n, wbuf, lasth, best. split; [exact E|]. exact (all_found ds (replicate 8 0) _ 5 4 Hds Ht).
Defined.

Lemma batch_example ds wbuf0 :
  words DATASET_WORDS ds -> length wbuf0 = 8%nat ->
  exists n wbuf lasth best,
    hashMulti default_knobs no_memory a_blob (nonceOffset a_blob) 5 4 1 (Some ds) 0 wbuf0 = Some (n, wbuf, lasth, best) /\
    6 ∈ take (Z.to_nat n) wbuf.
Proof.
  intros Hds Hw. destruct a_blob_ok as (Hb & _ & -> & Hl).
  destruct (hashMulti_spec default_knobs ltac:(by vm_compute) no_memory no_memory_sized a_blob 39 ds 1 Hb ltac:(lia)
              ltac:(lia) ltac:(lia) Hds ltac:(lia) 5 4 0 wbuf0 ltac:(lia)) as (n & wbuf & lasth & best & E & Ht).
  unfold found in Ht. exists n, wbuf, lasth, best. split; [exact E|]. rewrite (all_found ds wbuf0 _ 5 4 Hds Ht), Hw. by right; left.
Qed.

Lemma share_accepted_witness :
  exists h, pool_verify_share_v2 default_knobs (fun _ n => replicate (Z.to_nat n) 1) a_blob 39 6 (Some (zeroed DATASET_WORDS)) 1 = Some (1, h).
Proof.
  destruct a_blob_ok as (Hb & Hf & Ho & Hl). pose proof dataset_zero as Hds. revert Hds. generalize (zeroed DATASET_WORDS). intros ds Hds.
  destruct (batch_example ds (replicate 8 0) Hds eq_refl) as (n & wbuf & lasth & best & E & Hw).
  assert (sized (fun _ n => replicate (Z.to_nat n) 1)) as Hs by (intros x k Hk; rewrite length_replicate; lia).
  destruct (share_accepted default_knobs no_memory (fun _ n => replicate (Z.to_nat n) 1) a_blob ds 1 5 4 0 (replicate 8 0)
              n wbuf lasth best 6) as [_ (h & _ & Hp)];
    [by vm_compute|exact no_memory_sized|exact Hs|exact Hb|lia|lia|exact Hds|lia|lia|exact Hf|exact E|exact Hw|].
  exists h. rewrite <- Ho, <- Hf. exact Hp.
Defined.

Lemma spliced_nth blob o n i :
  (o + 4 <= length blob)%nat -> (i < 4)%nat -> nth (o + i) (spliced blob (Z.of_nat o) n) 0 = nth i (nonce_bytes n) 0.
Proof.
  intros Ho Hi. unfold spliced. rewrite Nat2Z.id. assert (length (take o blob) = o) as Ht by (rewrite length_take; lia).
  rewrite app_nth2 by lia. rewrite Ht. replace (o + i - o)%nat with i by lia. rewrite app_nth1; [done|]. by destruct (nonce_bytes_ok n) as [_ ->].
Qed.

Lemma nonce_bytes_zero n :
  0 <= n < 2 ^ 32 -> nth 0 (nonce_bytes n) 0 = 0 -> nth 1 (nonce_bytes n) 0 = 0 -> nth 2 (nonce_bytes n) 0 = 0 -> nth 3 (nonce_bytes n) 0 = 0 -> n = 0.
Proof.
  intros Hn. change (nonce_bytes n) with (map (fun i => Z.shiftr n i mod 256) [0; 8; 16; 24]). cbn [map nth].
  rewrite !Z.shiftr_div_pow2 by lia. change (2 ^ 0) with 1. change (2 ^ 8) with 256. change (2 ^ 16) with 65536. change (2 ^ 24) with 16777216.
  intros. Z.div_mod_to_equations. lia.
Qed.

Lemma spliced_before blob o n i :
  (o <= length blob)%nat -> (i < o)%nat -> nth i (spliced blob (Z.of_nat o) n) 0 = nth i blob 0.
Proof.
  intros Ho Hi. unfold spliced. rewrite Nat2Z.id. rewrite app_nth1 by (rewrite length_take; lia).
  by rewrite !nth_lookup, lookup_take_lt by lia.
Qed.

(** ** Where the nonce goes *)

Definition is_varint (v : bytes) : Prop :=
  exists init last, v = init ++ [last] /\ Forall (fun b => Z.land b 0x80 <> 0) init /\ Z.land last 0x80 = 0.

Lemma varint_len_app v rest : is_varint v -> varint_len (v ++ rest) = length v.
Proof.
  intros (init & last & -> & Hi & Hl). induction Hi as [|b init Hb Hi IH]; cbn [app varint_len length]; [by rewrite Hl|].
  destruct (Z.eqb_spec (Z.land b 128) 0); [done|]. by rewrite IH.
Qed.

Lemma is_varint_length v : is_varint v -> (0 < length v)%nat.
Proof. intros (init & last & -> & _). rewrite length_app. cbn. lia. Qed.

Lemma skip_varint v' pre v rest : is_varint v ->
  skip_varints (S v') (length pre) (pre ++ v ++ rest) = skip_varints v' (length (pre ++ v)) ((pre ++ v) ++ rest).
Proof.
  intros Hv. pose proof (is_varint_length v Hv). cbn [skip_varints].
  destruct (Nat.ltb_spec (length pre) (length (pre ++ v ++ rest))) as [_|Hge]; [|rewrite !length_app in Hge; lia].
  rewrite drop_app_length, varint_len_app, length_app, app_assoc by done. done.
Qed.

Lemma nonceOffset_header v1 v2 v3 rest :
  is_varint v1 -> is_varint v2 -> is_varint v3 ->
  nonceOffset (v1 ++ v2 ++ v3 ++ rest) = Z.of_nat (length (v1 ++ v2 ++ v3)) + 32.
Proof.
  intros H1 H2 H3. unfold nonceOffset. change (skip_varints 3 0 (v1 ++ v2 ++ v3 ++ rest)) with (skip_varints 3 (length (@nil Z)) ([] ++ v1 ++ v2 ++ v3 ++ rest)).
  rewrite skip_varint by done. cbn [app]. rewrite skip_varint by done. rewrite skip_varint by done. cbn [skip_varints]. by rewrite !app_assoc.
Qed.

(** A block's header: three varints of seven bytes (two version numbers below 128 and a time stamp of five bytes), the hash of the
    previous block, and the nonce, which the node sets to zero. *)
Definition header (v1 v2 v3 prev rest : bytes) : bytes := v1 ++ v2 ++ v3 ++ prev ++ [0; 0; 0; 0] ++ rest.

Lemma seven (l : bytes) : length l = 7%nat -> exists a b c d e f g, l = [a; b; c; d; e; f; g].
Proof. intros Hl. do 7 (destruct l as [|? l]; [done|]). destruct l; [|done]. by repeat eexists. Qed.

Lemma find_unfold blob :
  (43 <= length blob)%nat ->
  find_nonce_offset blob =
  if four_zeros blob 34 then 34 else if four_zeros blob 35 then 35 else if four_zeros blob 36 then 36
  else if four_zeros blob 37 then 37 else if four_zeros blob 38 then 38
  else find_nonce_loop (Z.to_nat (Z.min (Z.of_nat (length blob) - 4) 80 - 39)) 39 blob.
Proof.
  intros Hl. unfold find_nonce_offset.
  replace (Z.to_nat (Z.min (Z.of_nat (length blob) - 4) 80 - 34)) with (5 + Z.to_nat (Z.min (Z.of_nat (length blob) - 4) 80 - 39))%nat by lia.
  reflexivity.
Qed.

(** The tests of the five offsets before the nonce, on the previous block's hash. *)
Definition early_zeros (prev : bytes) : bool :=
  (nth 31 prev 0 =? 0) || ((nth 27 prev 0 =? 0) && (nth 28 prev 0 =? 0) && (nth 29 prev 0 =? 0) && (nth 30 prev 0 =? 0)).

Section Header.
Context (v1 v2 v3 prev rest : bytes).
Context (H1 : is_varint v1) (H2 : is_varint v2) (H3 : is_varint v3) (H7 : length (v1 ++ v2 ++ v3) = 7%nat) (H32 : length prev = 32%nat).

Lemma header_nth i : (i < 32)%nat -> nth (7 + i) (header v1 v2 v3 prev rest) 0 = nth i prev 0.
Proof.
  intros Hi. unfold header.
  replace (v1 ++ v2 ++ v3 ++ prev ++ [0; 0; 0; 0] ++ rest) with ((v1 ++ v2 ++ v3) ++ prev ++ [0; 0; 0; 0] ++ rest) by (by rewrite <- !app_assoc).
  rewrite app_nth2 by lia. rewrite H7. replace (7 + i - 7)%nat with i by lia. by rewrite app_nth1 by lia.
Qed.

Lemma header_zero i : (i < 4)%nat -> nth (39 + i) (header v1 v2 v3 prev rest) 0 = 0.
Proof.
  intros Hi. unfold header.
  replace (v1 ++ v2 ++ v3 ++ prev ++ [0; 0; 0; 0] ++ rest) with (((v1 ++ v2 ++ v3) ++ prev) ++ [0; 0; 0; 0] ++ rest) by (by rewrite <- !app_assoc).
  assert (length ((v1 ++ v2 ++ v3) ++ prev) = 39%nat) as Hl by (rewrite length_app; lia).
  rewrite app_nth2 by lia. rewrite Hl. replace (39 + i - 39)%nat with i by lia. by do 4 (destruct i as [|i]; [done|]); lia.
Qed.

Lemma header_length : (43 <= length (header v1 v2 v3 prev rest))%nat.
Proof. unfold header. rewrite !length_app in *. cbn [length]. lia. Qed.

(** The five tests before offset 39, and what is found there. *)
Lemma header_find :
  find_nonce_offset (header v1 v2 v3 prev rest) =
  let z i := nth i prev 0 =? 0 in
  if z 27%nat && z 28%nat && z 29%nat && z 30%nat then 34 else if z 28%nat && z 29%nat && z 30%nat && z 31%nat then 35
  else if z 29%nat && z 30%nat && z 31%nat then 36 else if z 30%nat && z 31%nat then 37 else if z 31%nat then 38 else 39.
Proof.
  rewrite find_unfold by apply header_length. set (b := header v1 v2 v3 prev rest).
  pose proof (header_nth 27 ltac:(lia)) as E27. pose proof (header_nth 28 ltac:(lia)) as E28. pose proof (header_nth 29 ltac:(lia)) as E29.
  pose proof (header_nth 30 ltac:(lia)) as E30. pose proof (header_nth 31 ltac:(lia)) as E31.
  pose proof (header_zero 0 ltac:(lia)) as E39. pose proof (header_zero 1 ltac:(lia)) as E40. pose proof (header_zero 2 ltac:(lia)) as E41.
  pose proof (header_zero 3 ltac:(lia)) as E42. fold b in E27, E28, E29, E30, E31, E39, E40, E41, E42. clearbody b.
  assert (find_nonce_loop (Z.to_nat (Z.min (Z.of_nat (length b) - 4) 80 - 39)) 39 b = 39) as ->.
  { destruct (Z.to_nat _) as [|n]; [done|]. cbn [find_nonce_loop].
    assert (four_zeros b 39 = true) as ->; [|done]. change (four_zeros b 39) with ((nth (39 + 0) b 0 =? 0) && (nth (39 + 1) b 0 =? 0) && (nth (39 + 2) b 0 =? 0) && (nth (39 + 3) b 0 =? 0)).
    by rewrite E39, E40, E41, E42. }
  change (four_zeros b 34) with ((nth (7 + 27) b 0 =? 0) && (nth (7 + 28) b 0 =? 0) && (nth (7 + 29) b 0 =? 0) && (nth (7 + 30) b 0 =? 0)).
  change (four_zeros b 35) with ((nth (7 + 28) b 0 =? 0) && (nth (7 + 29) b 0 =? 0) && (nth (7 + 30) b 0 =? 0) && (nth (7 + 31) b 0 =? 0)).
  change (four_zeros b 36) with ((nth (7 + 29) b 0 =? 0) && (nth (7 + 30) b 0 =? 0) && (nth (7 + 31) b 0 =? 0) && (nth (39 + 0) b 0 =? 0)).
  change (four_zeros b 37) with ((nth (7 + 30) b 0 =? 0) && (nth (7 + 31) b 0 =? 0) && (nth (39 + 0) b 0 =? 0) && (nth (39 + 1) b 0 =? 0)).
  change (four_zeros b 38) with ((nth (7 + 31) b 0 =? 0) && (nth (39 + 0) b 0 =? 0) && (nth (39 + 1) b 0 =? 0) && (nth (39 + 2) b 0 =? 0)).
  rewrite E27, E28, E29, E30, E31, E39, E40, E41. cbn zeta. by rewrite Z.eqb_refl, !andb_true_r.
Qed.

Lemma header_offset : nonceOffset (header v1 v2 v3 prev rest) = 39.
Proof. unfold header. rewrite nonceOffset_header by done. by rewrite H7. Qed.

(** The pool and the miners put the nonce at the same place if and only if the hash of the previous block does not end in a zero byte
    and the four bytes before its last one are not all zero.  The pool looks for four zero bytes, from offset 34 on; the miners parse
    the three varints of the header. *)
Theorem nonce_offsets_agree :
  find_nonce_offset (header v1 v2 v3 prev rest) = nonceOffset (header v1 v2 v3 prev rest) <-> early_zeros prev = false.
Proof.
  rewrite header_offset, header_find. cbv zeta. unfold early_zeros.
  destruct (nth 27 prev 0 =? 0), (nth 28 prev 0 =? 0), (nth 29 prev 0 =? 0), (nth 30 prev 0 =? 0), (nth 31 prev 0 =? 0); cbn; split; (done || lia).
Qed.

(** C38: when the previous hash ends in one zero byte, the pool checks another blob than the one the miner hashed, for every nonce but
    zero: honest shares of such a block, one block in 256, are judged by a hash nobody computed, and a block found with them is
    submitted with the nonce at the wrong place. *)
Theorem nonce_misplaced n :
  nth 31 prev 0 = 0 -> nth 30 prev 0 <> 0 -> 0 < n < 2 ^ 32 ->
  let blob := header v1 v2 v3 prev rest in
  find_nonce_offset blob = 38 /\ spliced blob (find_nonce_offset blob) n <> spliced blob (nonceOffset blob) n.
Proof.
  intros E31 E30 Hn blob. assert (find_nonce_offset blob = 38) as Ef.
  { unfold blob. rewrite header_find. cbv beta zeta. rewrite E31. destruct (Z.eqb_spec (nth 30 prev 0) 0); [done|]. by rewrite !andb_false_r. }
  split; [done|]. assert (nonceOffset blob = 39) as Eo by apply header_offset. rewrite Ef, Eo. intros E.
  assert (forall i, nth i (spliced blob (Z.of_nat 38) n) 0 = nth i (spliced blob (Z.of_nat 39) n) 0) as Ei
    by (intros i; exact (f_equal (fun l => nth i l 0) E)).
  pose proof header_length as Hlen. fold blob in Hlen. pose proof (header_nth 31 ltac:(lia)) as E38. fold blob in E38. rewrite E31 in E38.
  pose proof (Ei (38 + 0)%nat) as B0. pose proof (Ei (38 + 1)%nat) as B1. pose proof (Ei (38 + 2)%nat) as B2. pose proof (Ei (38 + 3)%nat) as B3.
  rewrite (spliced_nth blob 38 n 0), (spliced_before blob 39 n (38 + 0)) in B0 by lia.
  rewrite (spliced_nth blob 38 n 1) in B1 by lia. change (38 + 1)%nat with (39 + 0)%nat in B1. rewrite (spliced_nth blob 39 n 0) in B1 by lia.
  rewrite (spliced_nth blob 38 n 2) in B2 by lia. change (38 + 2)%nat with (39 + 1)%nat in B2. rewrite (spliced_nth blob 39 n 1) in B2 by lia.
  rewrite (spliced_nth blob 38 n 3) in B3 by lia. change (38 + 3)%nat with (39 + 2)%nat in B3. rewrite (spliced_nth blob 39 n 2) in B3 by lia.
  change (38 + 0)%nat with (7 + 31)%nat in B0. rewrite E38 in B0.
  pose proof (nonce_bytes_zero n ltac:(lia) B0 ltac:(congruence) ltac:(congruence) ltac:(congruence)). lia.
Qed.
End Header.

Lemma short_varint : is_varint [1].
Proof. exists [], 1. by split_and!. Qed.

Lemma time_varint : is_varint [0x90; 0x90; 0x90; 0x90; 6].
Proof. exists [0x90; 0x90; 0x90; 0x90], 6. split_and!; [done|repeat constructor; discriminate|done]. Qed.

Lemma nonce_offsets_agree_witness :
  find_nonce_offset (header [1] [1] [0x90; 0x90; 0x90; 0x90; 6] (replicate 32 7) [5]) =
  nonceOffset (header [1] [1] [0x90; 0x90; 0x90; 0x90; 6] (replicate 32 7) [5]).
Proof.
  apply (nonce_offsets_agree [1] [1] [0x90; 0x90; 0x90; 0x90; 6] (replicate 32 7) [5] short_varint short_varint time_varint);
    [done|done|vm_compute; reflexivity].
Defined.

Lemma nonce_misplaced_witness :
  let blob := header [1] [1] [0x90; 0x90; 0x90; 0x90; 6] (replicate 31 7 ++ [0]) [5] in
  find_nonce_offset blob = 38 /\ spliced blob (find_nonce_offset blob) 9 <> spliced blob (nonceOffset blob) 9.
Proof.
  apply (nonce_misplaced [1] [1] [0x90; 0x90; 0x90; 0x90; 6] (replicate 31 7 ++ [0]) [5] short_varint short_varint time_varint);
    [done|done|done|discriminate|lia].
Defined.
