(* ===== verification/NodeInt.v ===== *)
(** * NodeInt: 128-bit arithmetic of the node

    [mul128], [div128_32] and [div128_64] of contrib/epee/include/int-util.h and contrib/epee/src/int-util.cpp, and the
    portable [mul] of src/cryptonote_basic/difficulty.cpp.  Each computes with 64-bit words what its name says. *)
From S2P Require Import Prelude Bytes Lattice LatticeSafety.
Local Open Scope Z_scope.

Definition hi_dword (val : Z) : Z := Z.shiftr val 32.
Definition lo_dword (val : Z) : Z := Z.land val 0xFFFFFFFF.

(** The low word and the high word of a product. *)
Definition mul128 (multiplier multiplicand : Z) : Z * Z :=
  let a := hi_dword multiplier in
  let b := lo_dword multiplier in
  let c := hi_dword multiplicand in
  let d := lo_dword multiplicand in
  let ac := w64 (a * c) in
  let ad := w64 (a * d) in
  let bc := w64 (b * c) in
  let bd := w64 (b * d) in
  let adbc := w64 (ad + bc) in
  let adbc_carry := if adbc <? ad then 1 else 0 in
  let product_lo := w64 (bd + w64 (Z.shiftl adbc 32)) in
  let product_lo_carry := if product_lo <? bd then 1 else 0 in
  (product_lo, w64 (ac + Z.shiftr adbc 32 + Z.shiftl adbc_carry 32 + product_lo_carry)).

(** The other one, for compilers without 128-bit integers. *)
Definition portable_mul (a b : Z) : Z * Z :=
  let aLow := Z.land a 0xFFFFFFFF in
  let aHigh := Z.shiftr a 32 in
  let bLow := Z.land b 0xFFFFFFFF in
  let bHigh := Z.shiftr b 32 in
  let res := w64 (aLow * bLow) in
  let lowRes1 := Z.land res 0xFFFFFFFF in
  let carry := Z.shiftr res 32 in
  let res := w64 (aHigh * bLow + carry) in
  let highResHigh1 := Z.shiftr res 32 in
  let highResLow1 := Z.land res 0xFFFFFFFF in
  let res := w64 (aLow * bHigh) in
  let lowRes2 := Z.land res 0xFFFFFFFF in
  let carry := Z.shiftr res 32 in
  let res := w64 (aHigh * bHigh + carry) in
  let highResHigh2 := Z.shiftr res 32 in
  let highResLow2 := Z.land res 0xFFFFFFFF in
  let r := w64 (highResLow1 + lowRes2) in
  let carry := Z.shiftr r 32 in
  let low := Z.lor (w64 (Z.shiftl r 32)) lowRes1 in
  let r := w64 (highResHigh1 + highResLow2 + carry) in
  let d3 := Z.land r 0xFFFFFFFF in
  let carry := Z.shiftr r 32 in
  let r := w64 (highResHigh2 + carry) in
  (low, Z.lor d3 (w64 (Z.shiftl r 32))).

(** The quotient and the new remainder. *)
Definition div_with_reminder (dividend divisor remainder : Z) : option (Z * Z) :=
  if divisor =? 0 then None else
  let dividend := Z.lor dividend (Z.shiftl remainder 32) in
  Some (dividend / divisor, dividend mod divisor).

(** The two words of the quotient, and the remainder. *)
Definition div128_32 (dividend_hi dividend_lo divisor : Z) : option (Z * Z * Z) :=
  '(q3, r) ← div_with_reminder (hi_dword dividend_hi) divisor 0;
  '(q2, r) ← div_with_reminder (lo_dword dividend_hi) divisor r;
  '(q1, r) ← div_with_reminder (hi_dword dividend_lo) divisor r;
  '(q0, r) ← div_with_reminder (lo_dword dividend_lo) divisor r;
  Some (Z.lor (w64 (Z.shiftl q3 32)) q2, Z.lor (w64 (Z.shiftl q1 32)) q0, r).

Definition div128_64 (dividend_hi dividend_lo divisor : Z) : option (Z * Z * (Z * Z)) :=
  if divisor =? 0 then None else
  let dividend := Z.lor (Z.shiftl dividend_hi 64) dividend_lo in
  let q := dividend / divisor in
  let r := dividend mod divisor in
  Some (w64 (Z.shiftr q 64), w64 q, (w64 (Z.shiftr r 64), w64 r)).

(** ** They are multiplication and division *)

Lemma hi_dword_div v : hi_dword v = v / 2 ^ 32.
Proof. apply Z.shiftr_div_pow2. lia. Qed.

Lemma low_dword v : Z.land v 0xFFFFFFFF = v mod 2 ^ 32.
Proof. change 0xFFFFFFFF with (Z.ones 32). by apply Z.land_ones. Qed.

Lemma dword_split v : word_ok v -> exists h l, v = h * 2 ^ 32 + l /\ 0 <= h < 2 ^ 32 /\ 0 <= l < 2 ^ 32 /\
  Z.shiftr v 32 = h /\ Z.land v 0xFFFFFFFF = l.
Proof.
  intros [H0 H]. exists (v / 2 ^ 32), (v mod 2 ^ 32). rewrite low_dword, Z.shiftr_div_pow2 by lia.
  pose proof (Z.div_mod v (2 ^ 32)). pose proof (Z.mod_pos_bound v (2 ^ 32)).
  split_and!; lia.
Qed.

Lemma lor_dwords h l : 0 <= l < 2 ^ 32 -> Z.lor (h * 2 ^ 32) l = h * 2 ^ 32 + l.
Proof. intros Hl. by apply (lor_low h 32). Qed.

(** The carry of an addition of words. *)
Lemma w64_carry a b : word_ok a -> word_ok b -> a + b = w64 (a + b) + (if w64 (a + b) <? a then 1 else 0) * 2 ^ 64.
Proof.
  intros Ha Hb. unfold word_ok, w64 in *. pose proof (Z.div_mod (a + b) (2 ^ 64)). pose proof (Z.mod_pos_bound (a + b) (2 ^ 64)).
  assert (0 <= (a + b) / 2 ^ 64 <= 1) by (split; [apply Z.div_pos; lia|]; apply Z.lt_succ_r, Z.div_lt_upper_bound; lia).
  destruct (Z.ltb_spec ((a + b) mod 2 ^ 64) a); lia.
Qed.

Lemma w64_small x : 0 <= x < 2 ^ 64 -> w64 x = x.
Proof. apply Z.mod_small. Qed.

Lemma mul_dwords x y : 0 <= x < 2 ^ 32 -> 0 <= y < 2 ^ 32 -> 0 <= x * y <= (2 ^ 32 - 1) * (2 ^ 32 - 1).
Proof. nia. Qed.

(** The two words of a number are determined. *)
Lemma two_words p lo hi : p = lo + hi * 2 ^ 64 -> word_ok lo -> lo = w64 p /\ hi = p / 2 ^ 64.
Proof.
  intros -> Hlo. unfold w64. rewrite Z.mod_add, Z.div_add by lia. rewrite Z.mod_small, Z.div_small by apply Hlo. lia.
Qed.

Lemma mul128_exact x y : word_ok x -> word_ok y -> mul128 x y = (w64 (x * y), x * y / 2 ^ 64).
Proof.
  intros Hx Hy. unfold mul128. unfold hi_dword, lo_dword.
  destruct (dword_split x Hx) as (a & b & Ex & Ha & Hb & -> & ->). destruct (dword_split y Hy) as (c & d & Ey & Hc & Hd & -> & ->).
  pose proof (mul_dwords a c Ha Hc). pose proof (mul_dwords a d Ha Hd). pose proof (mul_dwords b c Hb Hc). pose proof (mul_dwords b d Hb Hd).
  rewrite !(w64_small (_ * _)) by lia.
  assert (x * y = a * c * 2 ^ 64 + (a * d + b * c) * 2 ^ 32 + b * d) as E by (rewrite Ex, Ey; ring).
  assert (0 <= x * y < 2 ^ 128) as Hxy by (unfold word_ok in *; nia).
  rewrite E in *. clear Ex Ey E. pose proof (w64_carry (a * d) (b * c) ltac:(unfold word_ok; lia) ltac:(unfold word_ok; lia)) as C1.
  pose proof (w64_ok (a * d + b * c)) as W1. set (adbc := w64 (a * d + b * c)) in *.
  destruct (dword_split adbc W1) as (h & l & E1 & Hh & Hl & -> & _).
  assert (w64 (Z.shiftl adbc 32) = l * 2 ^ 32) as ->.
  { rewrite Z.shiftl_mul_pow2, E1 by lia. unfold w64. replace ((h * 2 ^ 32 + l) * 2 ^ 32) with (l * 2 ^ 32 + h * 2 ^ 64) by lia.
    rewrite Z.mod_add by lia. apply Z.mod_small. lia. }
  pose proof (w64_carry (b * d) (l * 2 ^ 32) ltac:(unfold word_ok; lia) ltac:(unfold word_ok; lia)) as C2.
  pose proof (w64_ok (b * d + l * 2 ^ 32)) as W2. set (lo := w64 (b * d + l * 2 ^ 32)) in *.
  set (k1 := if adbc <? a * d then 1 else 0) in *. set (k2 := if lo <? b * d then 1 else 0) in *.
  assert (0 <= k1 <= 1 /\ 0 <= k2 <= 1) as [Hk1 Hk2] by (subst k1 k2; split; case_match; lia).
  clearbody adbc lo k1 k2. rewrite Z.shiftl_mul_pow2 by lia.
  assert (a * c * 2 ^ 64 + (a * d + b * c) * 2 ^ 32 + b * d = lo + (a * c + h + k1 * 2 ^ 32 + k2) * 2 ^ 64) as E by lia.
  destruct (two_words _ _ _ E W2) as [<- <-]. f_equal. apply w64_small. unfold word_ok in *. lia.
Qed.

Lemma portable_mul_exact x y : word_ok x -> word_ok y -> portable_mul x y = (w64 (x * y), x * y / 2 ^ 64).
Proof.
  intros Hx Hy. unfold portable_mul.
  destruct (dword_split x Hx) as (a & b & Ex & Ha & Hb & -> & ->). destruct (dword_split y Hy) as (c & d & Ey & Hc & Hd & -> & ->).
  pose proof (mul_dwords a c Ha Hc). pose proof (mul_dwords a d Ha Hd). pose proof (mul_dwords b c Hb Hc). pose proof (mul_dwords b d Hb Hd).
  assert (x * y = a * c * 2 ^ 64 + (a * d + b * c) * 2 ^ 32 + b * d) as E by (rewrite Ex, Ey; ring).
  assert (0 <= x * y < 2 ^ 128) as Hxy by (unfold word_ok in *; nia). rewrite E in *. clear Ex Ey E.
  rewrite (w64_small (b * d)), (w64_small (b * c)) by lia.
  destruct (dword_split (b * d)) as (h0 & l0 & E0 & Hh0 & Hl0 & -> & ->); [unfold word_ok; lia|]. rewrite (w64_small (a * d + h0)) by lia.
  destruct (dword_split (a * d + h0)) as (h1 & l1 & E1 & Hh1 & Hl1 & -> & ->); [unfold word_ok; lia|].
  destruct (dword_split (b * c)) as (h2 & l2 & E2 & Hh2 & Hl2 & -> & ->); [unfold word_ok; lia|]. rewrite (w64_small (a * c + h2)) by lia.
  destruct (dword_split (a * c + h2)) as (h3 & l3 & E3 & Hh3 & Hl3 & -> & ->); [unfold word_ok; lia|]. rewrite (w64_small (l1 + l2)) by lia.
  destruct (dword_split (l1 + l2)) as (h4 & l4 & E4 & Hh4 & Hl4 & -> & _); [unfold word_ok; lia|]. rewrite (w64_small (h1 + l3 + h4)) by lia.
  destruct (dword_split (h1 + l3 + h4)) as (h5 & l5 & E5 & Hh5 & Hl5 & -> & ->); [unfold word_ok; lia|].
  assert (w64 (Z.shiftl (l1 + l2) 32) = l4 * 2 ^ 32) as ->.
  { rewrite Z.shiftl_mul_pow2, E4 by lia. unfold w64. replace ((h4 * 2 ^ 32 + l4) * 2 ^ 32) with (l4 * 2 ^ 32 + h4 * 2 ^ 64) by lia.
    rewrite Z.mod_add by lia. apply Z.mod_small. lia. }
  rewrite (w64_small (h3 + h5)) by lia. rewrite lor_dwords by lia.
  assert (a * c * 2 ^ 64 + (a * d + b * c) * 2 ^ 32 + b * d = (l4 * 2 ^ 32 + l0) + (l5 + (h3 + h5) * 2 ^ 32) * 2 ^ 64) as E by lia.
  rewrite Z.lor_comm, Z.shiftl_mul_pow2 by lia. rewrite (w64_small ((h3 + h5) * 2 ^ 32)) by lia. rewrite lor_dwords by lia.
  destruct (two_words _ _ _ E) as [<- <-]; [unfold word_ok; lia|]. f_equal. lia.
Qed.

Lemma div_with_reminder_exact x d r :
  0 <= x < 2 ^ 32 -> 0 < d < 2 ^ 32 -> 0 <= r < d ->
  exists q r', div_with_reminder x d r = Some (q, r') /\ r * 2 ^ 32 + x = q * d + r' /\ 0 <= q < 2 ^ 32 /\ 0 <= r' < d.
Proof.
  intros Hx Hd Hr. unfold div_with_reminder. destruct (Z.eqb_spec d 0); [lia|]. do 2 eexists. split; [done|].
  rewrite Z.lor_comm, Z.shiftl_mul_pow2, lor_dwords by lia.
  pose proof (Z.div_mod (r * 2 ^ 32 + x) d). pose proof (Z.mod_pos_bound (r * 2 ^ 32 + x) d).
  split; [lia|]. split; [|lia]. split; [apply Z.div_pos; lia|apply Z.div_lt_upper_bound; nia].
Qed.

(** Long division with digits of 32 bits. *)
Lemma div128_32_exact hi lo d :
  word_ok hi -> word_ok lo -> 0 < d < 2 ^ 32 ->
  exists qh ql r, div128_32 hi lo d = Some (qh, ql, r) /\ hi * 2 ^ 64 + lo = (qh * 2 ^ 64 + ql) * d + r /\
    word_ok qh /\ word_ok ql /\ 0 <= r < d.
Proof.
  intros Hh Hl Hd. unfold div128_32, hi_dword, lo_dword.
  destruct (dword_split hi Hh) as (x3 & x2 & E1 & H3 & H2 & -> & ->). destruct (dword_split lo Hl) as (x1 & x0 & E0 & H1 & H0 & -> & ->).
  destruct (div_with_reminder_exact x3 d 0) as (q3 & r3 & -> & F3 & Hq3 & Hr3); [lia..|]. cbn [mbind option_bind].
  destruct (div_with_reminder_exact x2 d r3) as (q2 & r2 & -> & F2 & Hq2 & Hr2); [lia..|]. cbn [mbind option_bind].
  destruct (div_with_reminder_exact x1 d r2) as (q1 & r1 & -> & F1 & Hq1 & Hr1); [lia..|]. cbn [mbind option_bind].
  destruct (div_with_reminder_exact x0 d r1) as (q0 & r0 & -> & F0 & Hq0 & Hr0); [lia..|]. cbn [mbind option_bind].
  do 3 eexists. split; [done|]. rewrite !Z.shiftl_mul_pow2 by lia. rewrite !(w64_small (_ * 2 ^ 32)), !lor_dwords by lia.
  unfold word_ok. split_and!; lia.
Qed.

Lemma div128_64_exact hi lo d :
  word_ok hi -> word_ok lo -> 0 < d < 2 ^ 64 ->
  exists qh ql r, div128_64 hi lo d = Some (qh, ql, r) /\ qh * 2 ^ 64 + ql = (hi * 2 ^ 64 + lo) / d /\ word_ok qh /\ word_ok ql.
Proof.
  intros Hh Hl Hd. unfold div128_64. destruct (Z.eqb_spec d 0); [lia|]. do 3 eexists. split; [done|].
  rewrite Z.shiftl_mul_pow2 by lia. rewrite lor_low by (unfold word_ok in *; lia).
  assert (0 <= (hi * 2 ^ 64 + lo) / d < 2 ^ 128) as Hq.
  { unfold word_ok in *. split; [apply Z.div_pos; lia|apply Z.div_lt_upper_bound; nia]. }
  set (q := (hi * 2 ^ 64 + lo) / d) in *. rewrite Z.shiftr_div_pow2 by lia.
  assert (0 <= q / 2 ^ 64 < 2 ^ 64) by (split; [apply Z.div_pos; lia|apply Z.div_lt_upper_bound; lia]).
  split; [|split; apply w64_ok]. rewrite w64_small by done. unfold w64. pose proof (Z.div_mod q (2 ^ 64)). lia.
Qed.
