(* ===== verification/NodeWork.v ===== *)
(** * NodeWork: targets and difficulty of the node (src/cryptonote_basic/difficulty.cpp)

    A hash meets a difficulty when their product is below 2^256.  The node has one test for difficulties of 64 bits, with either of
    two multiplications, and one for 128 bits; both are exact ([check_hash_exact]), so the node agrees with the miners.
    The next difficulty has two versions as well ([next_difficulty_agree]).  Assertions, which release builds leave out, are left out. *)
From stdpp Require Import sorting.
From S2P Require Import Prelude Bytes Lattice LatticeSafety LatticeHash Miner MinerShare NodeInt.
Local Open Scope Z_scope.

(** ** Targets *)

Definition cadd (a b : Z) : bool := w64 (a + b) <? a.
Definition cadc (a b : Z) (c : bool) : bool := (w64 (a + b) <? a) || (c && (w64 (a + b) =? 2 ^ 64 - 1)).

Definition check_hash_64 (mul : Z -> Z -> Z * Z) (hash : bytes) (difficulty : Z) : option bool :=
  w3 ← load64le hash 3;
  let '(top, high) := mul w3 difficulty in
  if negb (high =? 0) then Some false else
  w0 ← load64le hash 0;
  let '(low, cur) := mul w0 difficulty in
  w1 ← load64le hash 1;
  let '(low, high) := mul w1 difficulty in
  let carry := cadd cur low in
  let cur := high in
  w2 ← load64le hash 2;
  let '(low, high) := mul w2 difficulty in
  let carry := cadc cur low carry in
  let carry := cadc high top carry in
  Some (negb carry).

Definition check_hash_128 (hash : bytes) (difficulty : Z) : option bool :=
  hashVal ← for_upto 4 (fun i hashVal => w ← load64le hash (3 - i); Some (Z.lor (Z.shiftl hashVal 64 mod 2 ^ 512) w)) 0;
  Some ((hashVal * difficulty) mod 2 ^ 512 <=? 2 ^ 256 - 1).

Definition check_hash (mul : Z -> Z -> Z * Z) (hash : bytes) (difficulty : Z) : option bool :=
  if difficulty <=? 2 ^ 64 - 1 then check_hash_64 mul hash difficulty else check_hash_128 hash difficulty.

(** ** Difficulty *)

Definition DIFFICULTY_WINDOW : nat := 720.
Definition DIFFICULTY_CUT : nat := 60.

(** The part of the sorted time stamps that counts. *)
Definition cut_bounds (length : nat) : nat * nat :=
  if (length <=? DIFFICULTY_WINDOW - 2 * DIFFICULTY_CUT)%nat then (0, length)%nat
  else let cut_begin := ((length - (DIFFICULTY_WINDOW - 2 * DIFFICULTY_CUT) + 1) / 2)%nat in
       (cut_begin, cut_begin + (DIFFICULTY_WINDOW - 2 * DIFFICULTY_CUT))%nat.

Definition next_difficulty_64 (mul : Z -> Z -> Z * Z) (timestamps cumulative_difficulties : list Z) (target_seconds : Z) : option Z :=
  let timestamps := take DIFFICULTY_WINDOW timestamps in
  let cumulative_difficulties := take DIFFICULTY_WINDOW cumulative_difficulties in
  if (length timestamps <=? 1)%nat then Some 1 else
  let timestamps := merge_sort Z.le timestamps in
  let '(cut_begin, cut_end) := cut_bounds (length timestamps) in
  t1 ← timestamps !! (cut_end - 1)%nat; t0 ← timestamps !! cut_begin;
  let time_span := w64 (t1 - t0) in
  let time_span := if time_span =? 0 then 1 else time_span in
  c1 ← cumulative_difficulties !! (cut_end - 1)%nat; c0 ← cumulative_difficulties !! cut_begin;
  let total_work := w64 (c1 - c0) in
  let '(low, high) := mul total_work target_seconds in
  if negb (high =? 0) || (w64 (low + time_span - 1) <? low) then Some 0
  else Some (w64 (low + time_span - 1) / time_span).

Definition next_difficulty (timestamps cumulative_difficulties : list Z) (target_seconds : Z) : option Z :=
  let timestamps := take DIFFICULTY_WINDOW timestamps in
  let cumulative_difficulties := take DIFFICULTY_WINDOW cumulative_difficulties in
  if (length timestamps <=? 1)%nat then Some 1 else
  let timestamps := merge_sort Z.le timestamps in
  let '(cut_begin, cut_end) := cut_bounds (length timestamps) in
  t1 ← timestamps !! (cut_end - 1)%nat; t0 ← timestamps !! cut_begin;
  let time_span := w64 (t1 - t0) in
  let time_span := if time_span =? 0 then 1 else time_span in
  c1 ← cumulative_difficulties !! (cut_end - 1)%nat; c0 ← cumulative_difficulties !! cut_begin;
  let total_work := w128 (c1 - c0) in
  let res := (total_work * target_seconds + time_span - 1) mod 2 ^ 256 / time_span in
  Some (if 2 ^ 128 - 1 <? res then 0 else res).

(** ** The targets are exact *)

(** A multiplication of words into two words. *)
Class WideMul (mul : Z -> Z -> Z * Z) : Prop :=
  wide_mul x y : word_ok x -> word_ok y -> mul x y = (w64 (x * y), x * y / 2 ^ 64).
#[export] Instance mul128_wide : WideMul mul128 := mul128_exact.
#[export] Instance portable_mul_wide : WideMul portable_mul := portable_mul_exact.

Lemma wide_mul_words mul `{WideMul mul} x y :
  word_ok x -> word_ok y -> exists lo hi, mul x y = (lo, hi) /\ x * y = lo + hi * 2 ^ 64 /\ word_ok lo /\ word_ok hi.
Proof.
  intros Hx Hy. do 2 eexists. split; [by apply wide_mul|]. unfold word_ok, w64 in *.
  pose proof (Z.div_mod (x * y) (2 ^ 64)). pose proof (Z.mod_pos_bound (x * y) (2 ^ 64)).
  split; [lia|]. split; [lia|]. split; [apply Z.div_pos; nia|apply Z.div_lt_upper_bound; nia].
Qed.

(** The carry out of a word, with the carry into it. *)
Lemma cadc_sum a b c : word_ok a -> word_ok b -> exists r, word_ok r /\ a + b + Z.b2z c = r + Z.b2z (cadc a b c) * 2 ^ 64.
Proof.
  intros Ha Hb. pose proof (w64_carry a b Ha Hb) as E. pose proof (w64_ok (a + b)) as Hw. unfold cadc. set (s := w64 (a + b)) in *.
  exists (w64 (s + Z.b2z c)). split; [apply w64_ok|]. unfold word_ok, w64 in *.
  destruct (Z.ltb_spec s a), c; cbn [Z.b2z orb andb] in *; try (rewrite Z.mod_small by lia; lia).
  destruct (Z.eqb_spec s (2 ^ 64 - 1)) as [Es|]; cbn [Z.b2z]; [|rewrite Z.mod_small by lia; lia].
  rewrite Es in E |- *. change ((2 ^ 64 - 1 + 1) mod 2 ^ 64) with 0. lia.
Qed.

Lemma cadd_cadc a b : cadd a b = cadc a b false.
Proof. unfold cadd, cadc. by rewrite orb_false_r. Qed.

(** The four words of a hash. *)
Lemma hash_words h :
  bytes_ok h -> length h = 32%nat ->
  exists w0 w1 w2 w3, load64le h 0 = Some w0 /\ load64le h 1 = Some w1 /\ load64le h 2 = Some w2 /\ load64le h 3 = Some w3 /\
    word_ok w0 /\ word_ok w1 /\ word_ok w2 /\ word_ok w3 /\ value h = w0 + w1 * 2 ^ 64 + w2 * 2 ^ 128 + w3 * 2 ^ 192.
Proof.
  intros Hh Hl. rewrite !load64le_value by (done || lia).
  change (Z.to_nat (0 * 8)) with 0%nat. change (Z.to_nat (1 * 8)) with 8%nat. change (Z.to_nat (2 * 8)) with 16%nat. change (Z.to_nat (3 * 8)) with 24%nat.
  assert (forall k, (k + 8 <= 32)%nat -> word_ok (value (take 8 (drop k h))) /\
            value (drop k h) = value (take 8 (drop k h)) + value (drop (k + 8) h) * 2 ^ 64) as Hs.
  { intros k Hk. assert (bytes_ok (take 8 (drop k h))) as Hb by (by apply Forall_take, Forall_drop).
    assert (length (take 8 (drop k h)) = 8%nat) as E by (rewrite length_take, length_drop; lia).
    pose proof (value_bound _ Hb) as Hv. rewrite E in Hv. split; [exact Hv|].
    rewrite <- (take_drop 8 (drop k h)) at 1. rewrite value_app, E, drop_drop by done. done. }
  destruct (Hs 0%nat) as [H0 E0]; [lia|]. destruct (Hs 8%nat) as [H1 E1]; [lia|]. destruct (Hs 16%nat) as [H2 E2]; [lia|].
  destruct (Hs 24%nat) as [H3 E3]; [lia|]. cbn [Nat.add] in *. rewrite drop_0 in *. rewrite (drop_ge h 32) in E3 by lia.
  change (value []) with 0 in E3. do 4 eexists. split_and!; try done. lia.
Qed.

Lemma check_hash_64_exact mul `{WideMul mul} h d :
  bytes_ok h -> length h = 32%nat -> 0 <= d < 2 ^ 64 -> check_hash_64 mul h d = Some (bool_decide (value h * d < 2 ^ 256)).
Proof.
  intros Hh Hl Hd. unfold check_hash_64. destruct (hash_words h Hh Hl) as (w0 & w1 & w2 & w3 & -> & -> & -> & -> & H0 & H1 & H2 & H3 & ->).
  cbn [mbind option_bind].
  destruct (wide_mul_words mul w3 d H3 Hd) as (l3 & h3 & -> & E3 & Hl3 & Hh3).
  destruct (wide_mul_words mul w0 d H0 Hd) as (l0 & h0 & -> & E0 & Hl0 & Hh0).
  destruct (wide_mul_words mul w1 d H1 Hd) as (l1 & h1 & -> & E1 & Hl1 & Hh1).
  destruct (wide_mul_words mul w2 d H2 Hd) as (l2 & h2 & -> & E2 & Hl2 & Hh2).
  replace ((w0 + w1 * 2 ^ 64 + w2 * 2 ^ 128 + w3 * 2 ^ 192) * d) with
    (w0 * d + w1 * d * 2 ^ 64 + w2 * d * 2 ^ 128 + w3 * d * 2 ^ 192) by ring. rewrite E0, E1, E2, E3. clear E0 E1 E2 E3.
  rewrite cadd_cadc.
  destruct (cadc_sum h0 l1 false Hh0 Hl1) as (r1 & Hr1 & F1). set (k1 := cadc h0 l1 false) in *. cbn [Z.b2z] in F1.
  destruct (cadc_sum h1 l2 k1 Hh1 Hl2) as (r2 & Hr2 & F2). set (k2 := cadc h1 l2 k1) in *.
  destruct (cadc_sum h2 l3 k2 Hh2 Hl3) as (r3 & Hr3 & F3). set (k3 := cadc h2 l3 k2) in *. clearbody k1 k2 k3.
  unfold word_ok in *. destruct (Z.eqb_spec h3 0) as [->|]; cbn [negb].
  - f_equal. destruct k3; cbn [negb Z.b2z] in *; symmetry; [apply bool_decide_eq_false|apply bool_decide_eq_true]; lia.
  - f_equal. symmetry. apply bool_decide_eq_false. lia.
Qed.

Lemma shift_in v w : 0 <= v < 2 ^ 448 -> 0 <= w < 2 ^ 64 -> Z.lor (Z.shiftl v 64 mod 2 ^ 512) w = v * 2 ^ 64 + w.
Proof. intros Hv Hw. rewrite Z.shiftl_mul_pow2, Z.mod_small by lia. by apply (lor_low v 64). Qed.

Lemma check_hash_128_exact h d :
  bytes_ok h -> length h = 32%nat -> 0 <= d < 2 ^ 128 -> check_hash_128 h d = Some (bool_decide (value h * d < 2 ^ 256)).
Proof.
  intros Hh Hl Hd. destruct (hash_words h Hh Hl) as (w0 & w1 & w2 & w3 & E0 & E1 & E2 & E3 & H0 & H1 & H2 & H3 & ->).
  unfold check_hash_128, for_upto. change (Z.to_nat 4) with 4%nat. cbn [for_from]. change (3 - 0) with 3. change (3 - (0 + 1)) with 2.
  change (3 - (0 + 1 + 1)) with 1. change (3 - (0 + 1 + 1 + 1)) with 0. rewrite E0, E1, E2, E3. cbn [mbind option_bind].
  unfold word_ok in *. rewrite (shift_in 0 w3), (shift_in _ w2), (shift_in _ w1), (shift_in _ w0) by lia. f_equal.
  replace ((((0 * 2 ^ 64 + w3) * 2 ^ 64 + w2) * 2 ^ 64 + w1) * 2 ^ 64 + w0) with (w0 + w1 * 2 ^ 64 + w2 * 2 ^ 128 + w3 * 2 ^ 192) by ring.
  set (v := w0 + w1 * 2 ^ 64 + w2 * 2 ^ 128 + w3 * 2 ^ 192). assert (0 <= v < 2 ^ 256) as Hv by (subst v; lia). clearbody v.
  rewrite Z.mod_small by nia. destruct (Z.leb_spec (v * d) (2 ^ 256 - 1)); symmetry; [apply bool_decide_eq_true|apply bool_decide_eq_false]; lia.
Qed.

Lemma check_hash_product mul `{WideMul mul} h d :
  bytes_ok h -> length h = 32%nat -> 0 <= d < 2 ^ 128 -> check_hash mul h d = Some (bool_decide (value h * d < 2 ^ 256)).
Proof.
  intros Hh Hl Hd. unfold check_hash. destruct (Z.leb_spec d (2 ^ 64 - 1)); [apply check_hash_64_exact|apply check_hash_128_exact]; (done || lia).
Qed.

(** C16: the node's test of a proof of work is exact for every difficulty of 128 bits and with either multiplication: a hash passes if and
    only if hash * difficulty < 2^256.  So up to 64 bits it is the test of the miners. *)
Theorem check_hash_exact mul `{WideMul mul} h d :
  bytes_ok h -> length h = 32%nat -> 0 <= d < 2 ^ 128 ->
  check_hash mul h d = Some (bool_decide (value h * d < 2 ^ 256)) /\ (d < 2 ^ 64 -> meets_target h d = check_hash mul h d).
Proof.
  intros Hh Hl Hd. rewrite check_hash_product by done. split; [done|]. intros H64. apply meets_target_exact; (done || lia).
Qed.

Lemma check_hash_exact_witness :
  let h := replicate 31 0 ++ [1] in check_hash portable_mul h 255 = Some true /\ check_hash mul128 h (2 ^ 64) = Some false.
Proof.
  cbv zeta. assert (bytes_ok (replicate 31 0 ++ [1])) as Hh by (apply (bool_decide_unpack _); vm_compute; exact I).
  split; [rewrite (proj1 (check_hash_exact portable_mul _ 255 Hh eq_refl ltac:(lia)))|
          rewrite (proj1 (check_hash_exact mul128 _ (2 ^ 64) Hh eq_refl ltac:(lia)))]; vm_compute; reflexivity.
Defined.

(** ** The next difficulty *)

Lemma cut_bounds_ok n : (2 <= n <= 720)%nat ->
  let b := ((n - 600 + 1) / 2)%nat in let e := (b + Nat.min 600 n)%nat in cut_bounds n = (b, e) /\ (b + 2 <= e <= n)%nat.
Proof.
  unfold cut_bounds, DIFFICULTY_WINDOW, DIFFICULTY_CUT. change (720 - 2 * 60)%nat with 600%nat. intros Hn. cbv zeta.
  destruct (Nat.leb_spec n 600) as [Hle|Hgt].
  - replace (n - 600)%nat with 0%nat by lia. change ((0 + 1) / 2)%nat with 0%nat. rewrite Nat.min_r by lia. split; [done|lia].
  - rewrite Nat.min_l by lia. split; [done|].
    pose proof (Nat.div_mod_eq (n - 600 + 1) 2). pose proof (Nat.mod_upper_bound (n - 600 + 1) 2). lia.
Qed.

(** The middle of a window: without its outermost entries when there are more than 600, one more of them cut at the start when
    their number is odd. *)
Definition middle (l : list Z) : list Z := take 600 (drop ((length l - 600 + 1) / 2) l).
(** From the first entry to the last. *)
Definition extent (l : list Z) : Z := match head l, last l with Some x, Some y => y - x | _, _ => 0 end.

Lemma extent_middle l b e x y :
  cut_bounds (length l) = (b, e) -> (2 <= length l <= 720)%nat -> l !! b = Some x -> l !! (e - 1)%nat = Some y -> extent (middle l) = y - x.
Proof.
  intros Hc Hl Hx Hy. destruct (cut_bounds_ok (length l) Hl) as [Hc' He]. rewrite Hc in Hc'. apply pair_equal_spec in Hc' as [-> ->].
  unfold extent, middle. set (b := ((length l - 600 + 1) / 2)%nat) in *. rewrite head_lookup, last_lookup, length_take, length_drop.
  rewrite !lookup_take_lt, !lookup_drop, Nat.add_0_r by lia. rewrite Hx.
  replace (b + pred (600 `min` (length l - b)))%nat with (b + 600 `min` length l - 1)%nat; [by rewrite Hy|].
  destruct (Nat.le_gt_cases (length l) 600); [|lia]. assert (b = 0%nat) as -> by (subst b; replace (length l - 600)%nat with 0%nat by lia; done). lia.
Qed.

Definition increasing (l : list Z) : Prop := forall i j x y, (i < j)%nat -> l !! i = Some x -> l !! j = Some y -> x < y.

Lemma sorted_stamps l : StronglySorted Z.le (merge_sort Z.le l).
Proof. apply Sorted_StronglySorted; [intros ???; lia|apply Sorted_merge_sort; intros ??; lia]. Qed.

Lemma sorted_lookup l : forall i j x y,
  merge_sort Z.le l !! i = Some x -> merge_sort Z.le l !! j = Some y -> (i <= j)%nat -> x <= y.
Proof.
  induction (sorted_stamps l) as [|z s Hs IH Hz]; intros i j x y Hi Hj Hij; [by destruct i|].
  destruct i as [|i], j as [|j]; simplify_eq/=; try lia; [|by apply (IH i j); [..|lia]].
  by apply (Forall_lookup_1 _ _ _ _ Hz Hj).
Qed.

(** What both versions compute from: the time and the work of the middle of the window. *)
Lemma next_window mul ts cds target :
  length ts = length cds -> (2 <= length ts)%nat -> Forall word_ok ts ->
  exists i j t0 t1 c0 c1, (i < j)%nat /\ merge_sort Z.le (take DIFFICULTY_WINDOW ts) !! i = Some t0 /\
    merge_sort Z.le (take DIFFICULTY_WINDOW ts) !! j = Some t1 /\ cds !! i = Some c0 /\ cds !! j = Some c1 /\ 0 <= t1 - t0 < 2 ^ 64 /\
    extent (middle (merge_sort Z.le (take 720 ts))) = t1 - t0 /\ extent (middle (take 720 cds)) = c1 - c0 /\
    let span := if t1 - t0 =? 0 then 1 else t1 - t0 in
    next_difficulty ts cds target = Some (let res := (w128 (c1 - c0) * target + span - 1) mod 2 ^ 256 / span in if 2 ^ 128 - 1 <? res then 0 else res) /\
    next_difficulty_64 mul ts cds target =
      (let '(low, high) := mul (w64 (c1 - c0)) target in
       if negb (high =? 0) || (w64 (low + span - 1) <? low) then Some 0 else Some (w64 (low + span - 1) / span)).
Proof.
  intros Hl H2 Hw. unfold next_difficulty, next_difficulty_64, DIFFICULTY_WINDOW. set (s := merge_sort Z.le (take 720 ts)).
  assert (length s = length (take 720 ts)) as Es by apply (Permutation_length (merge_sort_Permutation Z.le _)).
  assert (length (take 720 cds) = length s) as Ec by (rewrite Es, !length_take; lia). rewrite <- Es.
  assert (2 <= length s <= 720 /\ length s <= length cds)%nat as [Hn Hc] by (rewrite Es, length_take; lia). destruct (Nat.leb_spec (length s) 1) as [|_]; [lia|].
  destruct (cut_bounds (length s)) as [b e] eqn:Eb. assert (b + 2 <= e <= length s)%nat as Hbe.
  { destruct (cut_bounds_ok (length s) Hn) as [Eb' Hbe]. rewrite Eb in Eb'. apply pair_equal_spec in Eb' as [-> ->]. exact Hbe. }
  destruct (lookup_lt_is_Some_2 s (e - 1)) as [t1 E1]; [lia|]. destruct (lookup_lt_is_Some_2 s b) as [t0 E0]; [lia|].
  destruct (lookup_lt_is_Some_2 cds (e - 1)) as [c1 F1]; [lia|]. destruct (lookup_lt_is_Some_2 cds b) as [c0 F0]; [lia|].
  assert (Forall word_ok s) as Hs by (unfold s; rewrite merge_sort_Permutation; by apply Forall_take).
  pose proof (Forall_lookup_1 _ _ _ _ Hs E0) as W0. pose proof (Forall_lookup_1 _ _ _ _ Hs E1) as W1.
  assert (t0 <= t1) as Ht by (by eapply (sorted_lookup _ b (e - 1)); [..|lia]). unfold word_ok in *.
  exists b, (e - 1)%nat, t0, t1, c0, c1. rewrite (extent_middle s b e t0 t1 Eb Hn E0 E1).
  rewrite (extent_middle (take 720 cds) b e c0 c1) by (rewrite ?Ec, ?lookup_take_lt by lia; done).
  rewrite E0, E1, !lookup_take_lt by lia. rewrite F0, F1. cbn [mbind option_bind].
  rewrite (w64_small (t1 - t0)) by lia. split; [lia|]. do 4 (split; [done|]). split; [lia|done].
Qed.

(** C28: the next difficulty is the work done in the middle of the window, times the target, divided by the time it took, rounded up.  The window is
    the first 720 entries; the time is from the first to the last of the middle 600 of the time stamps in sorted order (at least
    one second), and the work from the first to the last of the middle 600 of the cumulative difficulties.  The 64-bit version computes the
    same, or reports an overflow by zero, exactly when the rounded dividend exceeds 64 bits; it never wraps around.  (Two or more entries,
    as many time stamps as difficulties, all below 2^64, the difficulties increasing.) *)
Theorem next_difficulty_agree mul `{WideMul mul} ts cds target sorted :
  length ts = length cds -> (2 <= length ts)%nat -> Forall word_ok ts -> Forall word_ok cds -> increasing cds -> 0 < target < 2 ^ 64 ->
  sorted ≡ₚ take 720 ts -> StronglySorted Z.le sorted ->
  let span := Z.max 1 (extent (middle sorted)) in
  let work := extent (middle (take 720 cds)) in
  let r := (work * target + span - 1) / span in
  next_difficulty ts cds target = Some r /\ 1 <= r /\
  next_difficulty_64 mul ts cds target = Some (if work * target + span - 1 <? 2 ^ 64 then r else 0).
Proof.
  intros Hl H2 Hts Hcds Hinc Ht Hperm Hsorted.
  assert (sorted = merge_sort Z.le (take 720 ts)) as ->.
  { apply (StronglySorted_unique Z.le); [done|apply sorted_stamps|]. by rewrite Hperm, merge_sort_Permutation. }
  destruct (next_window mul ts cds target Hl H2 Hts) as (i & j & t0 & t1 & c0 & c1 & Hij & _ & _ & F0 & F1 & Hspan & -> & -> & -> & ->). cbv zeta.
  replace (if t1 - t0 =? 0 then 1 else t1 - t0) with (Z.max 1 (t1 - t0)) by (destruct (Z.eqb_spec (t1 - t0) 0); lia).
  pose proof (Hinc _ _ _ _ Hij F0 F1). pose proof (Forall_lookup_1 _ _ _ _ Hcds F0) as W0. pose proof (Forall_lookup_1 _ _ _ _ Hcds F1) as W1. unfold word_ok in W0, W1.
  assert (0 < Z.max 1 (t1 - t0) < 2 ^ 64) as Hs by lia. assert (0 < c1 - c0 < 2 ^ 64) as Hwork by lia.
  set (span := Z.max 1 (t1 - t0)) in *. set (work := c1 - c0) in *. clearbody span work. unfold w128. rewrite (Z.mod_small work) by lia. rewrite w64_small by lia.
  assert (0 < work * target <= (2 ^ 64 - 1) * (2 ^ 64 - 1)) as Hp by nia. rewrite Z.mod_small by lia.
  assert (1 <= (work * target + span - 1) / span) as Hr by (apply Z.div_le_lower_bound; lia).
  assert ((work * target + span - 1) / span < 2 ^ 128) by (apply Z.div_lt_upper_bound; nia).
  split; [destruct (Z.ltb_spec (2 ^ 128 - 1) ((work * target + span - 1) / span)); [lia|done]|]. split; [done|].
  destruct (wide_mul_words mul work target) as (lo & hi & -> & E & Hlo & Hhi); [unfold word_ok; lia..|]. rewrite E in *. unfold word_ok in *.
  destruct (Z.eqb_spec hi 0) as [->|]; cbn [negb orb]; [|destruct (Z.ltb_spec (lo + hi * 2 ^ 64 + span - 1) (2 ^ 64)); [nia|done]].
  rewrite Z.mul_0_l, Z.add_0_r in *. destruct (Z.ltb_spec (lo + span - 1) (2 ^ 64)).
  - rewrite w64_small by lia. by destruct (Z.ltb_spec (lo + span - 1) lo); [lia|].
  - unfold w64. rewrite <- (Z.mod_add _ (-1)), Z.mod_small by lia. by destruct (Z.ltb_spec (lo + span - 1 + -1 * 2 ^ 64) lo); [|lia].
Qed.

(** Seven hundred blocks a minute apart, with the last two time stamps swapped. *)
Definition demo_stamps : list Z := map (fun i => 60 * i) (seqZ 0 698) ++ [60 * 699; 60 * 698].
Definition demo_work : list Z := map (fun i => 1000 * i) (seqZ 1 700).

Fixpoint rising (l : list Z) : bool :=
  match l with
  | x :: (y :: _) as r => (x <? y) && rising r
  | _ => true
  end.

Lemma rising_sorted l : rising l = true -> StronglySorted Z.lt l.
Proof.
  intros Hup. apply Sorted_StronglySorted; [intros ???; lia|]. induction l as [|x [|y l] IH]; [constructor|repeat constructor|].
  apply andb_true_iff in Hup as [Hx Hup]. constructor; [by apply IH|]. constructor. lia.
Qed.

Lemma rising_increasing l : rising l = true -> increasing l.
Proof.
  intros Hs%rising_sorted. induction Hs as [|z l _ IH Hz]; intros i j x y Hij Hi Hj; [by destruct i|].
  destruct i as [|i], j as [|j]; simplify_eq/=; try lia; [|by apply (IH i j); [lia|..]]. by apply (Forall_lookup_1 _ _ _ _ Hz Hj).
Qed.

Lemma rising_le l : rising l = true -> StronglySorted Z.le l.
Proof. intros Hs%rising_sorted. induction Hs as [|z l _ IH Hz]; constructor; [done|]. eapply Forall_impl; [exact Hz|]. cbn. lia. Qed.

Lemma next_difficulty_agree_witness : next_difficulty demo_stamps demo_work 120 = Some 2000.
Proof.
  assert (forall l, forallb (fun x => (0 <=? x) && (x <? 2 ^ 64)) l = true -> Forall word_ok l) as Hok.
  { intros l Hl. apply Forall_forall. intros x Hx. apply list_elem_of_In in Hx. pose proof (proj1 (forallb_forall _ _) Hl x Hx) as H. cbn in H. unfold word_ok. lia. }
  assert (length demo_stamps = 700%nat) as El by (vm_compute; reflexivity). assert (length demo_work = 700%nat) as Ew by (vm_compute; reflexivity).
  assert (Forall word_ok demo_stamps) as Hs by (apply Hok; vm_compute; reflexivity).
  assert (Forall word_ok demo_work) as Hw by (apply Hok; vm_compute; reflexivity).
  assert (increasing demo_work) as Hi by (apply rising_increasing; vm_compute; reflexivity).
  assert (map (fun i => 60 * i) (seqZ 0 698) ++ [60 * 698; 60 * 699] ≡ₚ take 720 demo_stamps) as Hperm.
  { rewrite take_ge by lia. apply Permutation_app_head, perm_swap. }
  assert (StronglySorted Z.le (map (fun i => 60 * i) (seqZ 0 698) ++ [60 * 698; 60 * 699])) as Hr by (apply rising_le; vm_compute; reflexivity).
  rewrite (proj1 (next_difficulty_agree portable_mul demo_stamps demo_work 120 _ (eq_trans El (eq_sym Ew)) ltac:(lia) Hs Hw Hi ltac:(lia) Hperm Hr)).
  vm_compute. reflexivity.
Defined.

(** The order of the time stamps does not matter. *)
Lemma next_difficulty_perm ts ts' cds target :
  ts ≡ₚ ts' -> (length ts <= DIFFICULTY_WINDOW)%nat -> next_difficulty ts cds target = next_difficulty ts' cds target.
Proof.
  intros Hp Hl. unfold next_difficulty. rewrite (take_ge ts) by done. rewrite (take_ge ts') by (by rewrite <- (Permutation_length Hp)).
  rewrite (Permutation_length Hp). assert (merge_sort Z.le ts = merge_sort Z.le ts') as ->; [|done].
  apply (StronglySorted_unique Z.le); [apply sorted_stamps..|]. by rewrite !merge_sort_Permutation.
Qed.

Definition arithmetic (a d : Z) (n : nat) : list Z := (fun i => a + Z.of_nat i * d) <$> seq 0 n.

Lemma arithmetic_lookup a d n i x : arithmetic a d n !! i = Some x <-> x = a + Z.of_nat i * d /\ (i < n)%nat.
Proof.
  unfold arithmetic. rewrite list_lookup_fmap. destruct (decide (i < n)%nat) as [Hi|Hi].
  - rewrite lookup_seq_lt by done. cbn [fmap option_fmap option_map]. rewrite Nat.add_0_l. naive_solver.
  - rewrite lookup_seq_ge by lia. naive_solver lia.
Qed.

Lemma arithmetic_sorted a d n : 0 <= d -> merge_sort Z.le (take DIFFICULTY_WINDOW (arithmetic a d n)) = take DIFFICULTY_WINDOW (arithmetic a d n).
Proof.
  intros Hd. apply (StronglySorted_unique Z.le); [apply sorted_stamps| |by rewrite merge_sort_Permutation].
  unfold arithmetic. rewrite <- fmap_take, take_seq. generalize (DIFFICULTY_WINDOW `min` n)%nat, 0%nat.
  intros m. induction m as [|m IH]; intros s; cbn; constructor; [apply IH|]. apply Forall_fmap, Forall_seq. intros j Hj. cbn. nia.
Qed.

(** A steady chain stays steady: when the blocks so far had difficulty [d] and came [t] seconds apart, where [t] is the target, the
    next block has difficulty [d] again, from the second block on, and also across the cut of the window. *)
Theorem next_difficulty_steady t0 c0 t d n :
  0 <= t0 -> 0 <= c0 -> 0 < t -> 0 < d -> (2 <= n)%nat -> t0 + Z.of_nat n * t < 2 ^ 64 -> c0 + Z.of_nat n * d < 2 ^ 128 ->
  d * Z.of_nat DIFFICULTY_WINDOW * t < 2 ^ 128 -> next_difficulty (arithmetic t0 t n) (arithmetic c0 d n) t = Some d.
Proof.
  intros Ht0 Hc0 Ht Hd Hn Hts Hcs Hw.
  destruct (next_window mul128 (arithmetic t0 t n) (arithmetic c0 d n) t) as (i & j & a & b & c & e & Hij & Ea & Eb & Ec & Ee & Hs & _ & _ & -> & _).
  - unfold arithmetic. by rewrite !length_fmap.
  - unfold arithmetic. by rewrite length_fmap, length_seq.
  - apply Forall_lookup. intros k x [-> Hk]%arithmetic_lookup. unfold word_ok. nia.
  - rewrite arithmetic_sorted in Ea, Eb by lia. apply lookup_take_Some in Ea as [Ea Hi], Eb as [Eb Hj].
    apply arithmetic_lookup in Ea as [-> _], Eb as [-> _], Ec as [-> _], Ee as [-> Hjn].
    replace (t0 + Z.of_nat j * t - (t0 + Z.of_nat i * t)) with (Z.of_nat (j - i) * t) in * by (rewrite Nat2Z.inj_sub by lia; lia).
    replace (c0 + Z.of_nat j * d - (c0 + Z.of_nat i * d)) with (Z.of_nat (j - i) * d) by (rewrite Nat2Z.inj_sub by lia; lia).
    assert (0 < Z.of_nat (j - i) <= Z.of_nat n /\ Z.of_nat (j - i) <= Z.of_nat DIFFICULTY_WINDOW) as [Hk Hk'] by lia. clear Hi Hj Hij Hjn.
    generalize dependent (Z.of_nat (j - i)). intros k Hs Hk Hk'. destruct (Z.eqb_spec (k * t) 0) as [|_]; [nia|]. f_equal. cbv zeta.
    unfold w128. rewrite (Z.mod_small (k * d)) by nia. generalize dependent (Z.of_nat DIFFICULTY_WINDOW). intros W Hw HkW.
    assert (k * d * t < 2 ^ 128) by nia. rewrite Z.mod_small by nia.
    replace (k * d * t + k * t - 1) with (d * (k * t) + (k * t - 1)) by lia. rewrite Z.div_add_l, (Z.div_small (k * t - 1)), Z.add_0_r by nia.
    destruct (Z.ltb_spec (2 ^ 128 - 1) d); [nia|done].
Qed.

Lemma next_difficulty_steady_witness : next_difficulty (arithmetic 1700000000 120 721) (arithmetic 1 5000 721) 120 = Some 5000.
Proof. apply (next_difficulty_steady 1700000000 1 120 5000 721); (lia || (vm_compute; reflexivity)). Defined.
