(* ===== verification/NodeCodec.v ===== *)
(** * NodeCodec: the node's own encoders (src/common/varint.h, src/common/base58.cpp)

    [Base58] has the node's readers; this file has its writers: varints of 64 bits and block base58, which writes the letters of each
    block into a string of the final size.  The theorems say that the browser wallet and the node write the same
    ([node_encodes_same]), and that what the node writes it reads back. *)
From S2P Require Import Prelude JsCore Bytes Base58 Crc32 Wordlist Mnemonic Wallet.
Local Open Scope Z_scope.

Module Cpp.

(** [write_varint] appends to [dest]; [None] when the fuel runs out. *)
Fixpoint write_varint (fuel : nat) (dest : bytes) (i : Z) : option bytes :=
  match fuel with
  | O => None
  | S f =>
      if 0x80 <=? i then write_varint f (dest ++ [Z.lor (Z.land (i mod 256) 0x7f) 0x80]) (Z.shiftr i 7)
      else Some (dest ++ [i mod 256])
  end.

(** Ten bytes hold seventy bits. *)
Definition get_varint_data (v : Z) : option bytes := write_varint 10 [] v.

(** [get_varint_byte_size]: [do { ++bytes; val >>= 7; } while (val)]. *)
Fixpoint varint_byte_size (fuel : nat) (bytes val : Z) : option Z :=
  match fuel with
  | O => None
  | S f =>
      let bytes := bytes + 1 in
      let val := Z.shiftr val 7 in
      if val =? 0 then Some bytes else varint_byte_size f bytes val
  end.
Definition get_varint_byte_size (val : Z) : option Z := varint_byte_size 10 0 val.

(** The eight bytes of a word in memory, of which the last ones are the data, most significant first. *)
Definition uint_8be_to_64 (data : bytes) : Z := from_be 256 (replicate (8 - length data) 0 ++ data).
Definition uint_64_to_8be (num : Z) (size : nat) : bytes := drop (8 - size) (to_be 256 8 num).

(** [res[i] = c]; [None] outside the string. *)
Definition set_char (res : list ascii) (i : Z) (c : ascii) : option (list ascii) :=
  if (0 <=? i) && (i <? Z.of_nat (length res)) then Some (<[Z.to_nat i := c]> res) else None.

(** [while (0 < num)]; [base] is where the block's letters start in [res]. *)
Fixpoint encode_block_loop (fuel : nat) (num base i : Z) (res : list ascii) : option (list ascii) :=
  match fuel with
  | O => None
  | S f =>
      if 0 <? num then
        let remainder := num mod 58 in
        let num := num / 58 in
        res ← set_char res (base + i) (nth (Z.to_nat remainder) Base58.Cpp.alphabet "0"%char);
        encode_block_loop f num base (i - 1) res
      else Some res
  end.

(** A 64-bit number has at most eleven digits. *)
Definition encode_block (block : bytes) (base : Z) (res : list ascii) : option (list ascii) :=
  let num := uint_8be_to_64 block in
  let i := Z.of_nat (nth (length block) Base58.Cpp.encoded_block_sizes 0%nat) - 1 in
  encode_block_loop 12 num base i res.

Fixpoint encode_loop (blocks i : nat) (data : bytes) (res : list ascii) : option (list ascii) :=
  match blocks with
  | O => Some res
  | S k =>
      res ← encode_block (take Base58.Cpp.full_block_size (drop (i * Base58.Cpp.full_block_size) data))
              (Z.of_nat (i * Base58.Cpp.full_encoded_block_size)) res;
      encode_loop k (S i) data res
  end.

Definition encode (data : bytes) : option (list ascii) :=
  match data with
  | [] => Some []
  | _ =>
      let full_block_count := (length data / Base58.Cpp.full_block_size)%nat in
      let last_block_size := (length data mod Base58.Cpp.full_block_size)%nat in
      let res_size := (full_block_count * Base58.Cpp.full_encoded_block_size + nth last_block_size Base58.Cpp.encoded_block_sizes 0)%nat in
      let res := replicate res_size (nth 0 Base58.Cpp.alphabet "0"%char) in
      res ← encode_loop full_block_count 0 data res;
      if (0 <? last_block_size)%nat then
        encode_block (drop (full_block_count * Base58.Cpp.full_block_size) data)
          (Z.of_nat (full_block_count * Base58.Cpp.full_encoded_block_size)) res
      else Some res
  end.

Definition encode_addr `{Noble} (tag : Z) (data : bytes) : option (list ascii) :=
  buf ← get_varint_data tag;
  let buf := buf ++ data in
  let hash := keccak_256 buf in
  encode (buf ++ take Wallet.Cpp.addr_checksum_size hash).

End Cpp.

(** ** Varints *)

Lemma write_varint_vbytes f : forall dest i,
  0 <= i < 128 ^ Z.of_nat (S f) -> Cpp.write_varint (S f) dest i = Some (dest ++ vbytes (S f) i).
Proof.
  induction f as [|f IH]; intros dest i Hi; rewrite vbytes_S.
  - change (128 ^ Z.of_nat 1) with 128 in Hi. cbn [Cpp.write_varint]. destruct (Z.leb_spec 128 i); [lia|]. by rewrite Z.mod_small by lia.
  - rewrite Nat2Z.inj_succ, Z.pow_succ_r in Hi by lia. remember (S f) as g. cbn [Cpp.write_varint]. destruct (Z.leb_spec 128 i).
    + change 0x7f with (Z.ones 7). rewrite Z.land_ones, (Z.mod_mod_divide i 256 (2 ^ 7)) by (lia || by exists 2). change (2 ^ 7) with 128.
      rewrite Z.shiftr_div_pow2 by lia. change (2 ^ 7) with 128. pose proof (Z.mod_pos_bound i 128 ltac:(lia)).
      rewrite Z.lor_comm. change 0x80 with (1 * 2 ^ 7) at 1. rewrite lor_low by lia. change (1 * 2 ^ 7) with 128. rewrite IH.
      * by rewrite <- app_assoc, (Z.add_comm 128).
      * split; [apply Z.div_pos; lia|apply Z.div_lt_upper_bound; lia].
    + by rewrite Z.mod_small by lia.
Qed.

Lemma get_varint_data_vbytes v : 0 <= v < 2 ^ 64 -> Cpp.get_varint_data v = Some (vbytes 10 v).
Proof. intros Hv. unfold Cpp.get_varint_data. rewrite write_varint_vbytes by (change (128 ^ Z.of_nat 10) with (2 ^ 70); lia). done. Qed.

(** More fuel than needed changes nothing. *)
Lemma vbytes_fuel f : forall g n, 0 <= n < 128 ^ Z.of_nat (S f) -> (f <= g)%nat -> vbytes (S g) n = vbytes (S f) n.
Proof.
  induction f as [|f IH]; intros g n Hn Hg; rewrite !vbytes_S; destruct (Z.leb_spec 128 n); try done.
  - change (128 ^ Z.of_nat 1) with 128 in Hn. lia.
  - rewrite Nat2Z.inj_succ, Z.pow_succ_r in Hn by lia. destruct g as [|g]; [lia|]. f_equal.
    apply IH; [split; [apply Z.div_pos; lia|apply Z.div_lt_upper_bound; lia]|lia].
Qed.

Lemma byte_size_vbytes f : forall b v,
  0 <= v < 128 ^ Z.of_nat (S f) -> Cpp.varint_byte_size (S f) b v = Some (b + Z.of_nat (length (vbytes (S f) v))).
Proof.
  induction f as [|f IH]; intros b v Hv; rewrite vbytes_S.
  - change (128 ^ Z.of_nat 1) with 128 in Hv. cbn [Cpp.varint_byte_size]. rewrite Z.shiftr_div_pow2, Z.div_small by (cbn; lia).
    by destruct (Z.leb_spec 128 v); [lia|].
  - rewrite Nat2Z.inj_succ, Z.pow_succ_r in Hv by lia. remember (S f) as g. cbn [Cpp.varint_byte_size].
    rewrite Z.shiftr_div_pow2 by lia. change (2 ^ 7) with 128. destruct (Z.leb_spec 128 v).
    + assert (0 < v / 128) by (apply Z.div_str_pos; lia). destruct (Z.eqb_spec (v / 128) 0); [lia|]. rewrite IH.
      * f_equal. cbn [length]. lia.
      * split; [lia|apply Z.div_lt_upper_bound; lia].
    + rewrite Z.div_small by lia. done.
Qed.

(** The node writes every 64-bit number, in as many bytes as it says it takes, and reads it back whatever follows. *)
Lemma node_varint_roundtrip v rest :
  0 <= v < 2 ^ 64 ->
  exists bs, Cpp.get_varint_data v = Some bs /\ bytes_ok bs /\ Cpp.get_varint_byte_size v = Some (Z.of_nat (length bs)) /\
    Base58.Cpp.read_varint (bs ++ rest) = (Z.of_nat (length bs), v).
Proof.
  intros Hv. exists (vbytes 10 v). split; [by apply get_varint_data_vbytes|]. split; [apply vbytes_ok; lia|]. split.
  - unfold Cpp.get_varint_byte_size. by rewrite byte_size_vbytes by (change (128 ^ Z.of_nat 10) with (2 ^ 70); lia).
  - unfold Base58.Cpp.read_varint. rewrite (read_vbytes 9); try lia; [|change (128 ^ Z.of_nat 10) with (2 ^ 70); lia..].
    rewrite Z.pow_0_r. f_equal; lia.
Qed.

(** ** Base58 *)

Lemma uint_8be_from_be data : Cpp.uint_8be_to_64 data = from_be 256 data.
Proof.
  unfold Cpp.uint_8be_to_64. rewrite from_be_app by lia. generalize (8 - length data)%nat. intros k.
  enough (from_be 256 (replicate k 0) = 0) as -> by lia.
  rewrite <- (to_be_0 256 ltac:(lia)), from_to_be by lia. apply Z.mod_0_l. pose proof (Z.pow_pos_nonneg 256 (Z.of_nat k)). lia.
Qed.

Lemma drop_to_be k size : forall n, drop k (to_be 256 (k + size) n) = to_be 256 size n.
Proof.
  induction size as [|s IH]; intros n; [rewrite Nat.add_0_r; by apply drop_ge; rewrite length_to_be|].
  rewrite Nat.add_succ_r. cbn [to_be]. rewrite drop_app_le by (rewrite length_to_be; lia). by rewrite IH.
Qed.

(** The bytes [decode_block] stores. *)
Lemma uint_64_to_8be_to_be num size : (size <= 8)%nat -> Cpp.uint_64_to_8be num size = to_be 256 size num.
Proof.
  intros H. unfold Cpp.uint_64_to_8be. replace (to_be 256 8 num) with (to_be 256 (8 - size + size) num) by (by rewrite Nat.sub_add).
  apply drop_to_be.
Qed.

Lemma alphabet_char d : 0 <= d < 58 -> nth (Z.to_nat d) Base58.Cpp.alphabet "0"%char = b58_char d.
Proof. intros H. unfold b58_char. apply nth_indep. enough (Z.to_nat d < 58)%nat by done. lia. Qed.

Lemma set_char_mid (pre mid post : list ascii) k c :
  (k < length mid)%nat -> Cpp.set_char (pre ++ mid ++ post) (Z.of_nat (length pre) + Z.of_nat k) c = Some (pre ++ <[k := c]> mid ++ post).
Proof.
  intros Hk. unfold Cpp.set_char. rewrite !length_app. destruct (Z.leb_spec 0 (Z.of_nat (length pre) + Z.of_nat k)); [|lia].
  destruct (Z.ltb_spec (Z.of_nat (length pre) + Z.of_nat k) (Z.of_nat (length pre + (length mid + length post)))); [|lia]. cbn [andb]. f_equal.
  replace (Z.to_nat (Z.of_nat (length pre) + Z.of_nat k)) with (length pre + k)%nat by lia. rewrite insert_app_r. f_equal. by apply insert_app_l.
Qed.

(** Writing a block in place is the browser's block: the letters before and after it stay. *)
Lemma encode_block_loop_mid f : forall k num (pre mid post : list ascii),
  0 <= num < 58 ^ Z.of_nat k -> (k < f)%nat -> (k <= length mid)%nat ->
  Cpp.encode_block_loop f num (Z.of_nat (length pre)) (Z.of_nat k - 1) (pre ++ mid ++ post) = Some (pre ++ encodeBlock_loop k num mid ++ post).
Proof.
  induction f as [|f IH]; intros k num pre mid post Hn Hf Hk; [lia|]. cbn [Cpp.encode_block_loop].
  destruct k as [|k]; cbn [encodeBlock_loop].
  - change (58 ^ Z.of_nat 0) with 1 in Hn. destruct (Z.ltb_spec 0 num); [lia|done].
  - destruct (Z.ltb_spec 0 num); [|done]. rewrite alphabet_char by (apply Z.mod_pos_bound; lia).
    replace (Z.of_nat (S k) - 1) with (Z.of_nat k) by lia. rewrite set_char_mid by lia. cbn [mbind option_bind].
    rewrite Nat2Z.inj_succ, Z.pow_succ_r in Hn by lia. apply IH; [|lia|rewrite length_insert; lia].
    split; [apply Z.div_pos; lia|apply Z.div_lt_upper_bound; lia].
Qed.

Lemma encode_block_mid block (pre post : list ascii) :
  bytes_ok block -> (1 <= length block <= 8)%nat -> let c := nth (length block) B58_BLOCK_SIZES 0%nat in
  Cpp.encode_block block (Z.of_nat (length pre)) (pre ++ replicate c (b58_char 0) ++ post) = Some (pre ++ encodeBlock block c ++ post).
Proof.
  intros Hb Hl c. destruct (block_size_facts _ Hl) as (Hc & _ & Hle & _). fold c in Hc, Hle.
  pose proof (from_be_bound 256 ltac:(lia) block Hb) as Hn. unfold Cpp.encode_block. rewrite uint_8be_from_be.
  change (nth (length block) Base58.Cpp.encoded_block_sizes 0%nat) with c.
  rewrite encode_block_loop_mid by (rewrite ?length_replicate; lia). done.
Qed.

Lemma encode_loop_mid n : forall i data (pre post : list ascii),
  bytes_ok data -> ((i + n) * 8 <= length data)%nat -> length pre = (i * 11)%nat ->
  Cpp.encode_loop n i data (pre ++ replicate (n * 11) (b58_char 0) ++ post) = Some (pre ++ enc_full n (drop (i * 8) data) ++ post).
Proof.
  induction n as [|n IH]; intros i data pre post Hb Hl Hp; [done|].
  cbn [Cpp.encode_loop enc_full]. unfold Base58.Cpp.full_block_size, Base58.Cpp.full_encoded_block_size.
  set (block := take 8 (drop (i * 8) data)). assert (length block = 8%nat) as H8 by (unfold block; rewrite length_take, length_drop; lia).
  change (S n * 11)%nat with (11 + n * 11)%nat. rewrite replicate_add, <- app_assoc, <- Hp.
  pose proof (encode_block_mid block pre (replicate (n * 11) (b58_char 0) ++ post)) as E. rewrite H8 in E. cbn [nth B58_BLOCK_SIZES] in E.
  assert (bytes_ok block) as Hblk by (by apply Forall_take, Forall_drop). rewrite E by (done || lia). cbn [mbind option_bind].
  rewrite (app_assoc pre), IH; [|done|lia|rewrite length_app, length_encodeBlock by done; lia].
  rewrite drop_drop, <- !app_assoc. by replace (i * 8 + 8)%nat with (S i * 8)%nat by lia.
Qed.

Lemma encode_b58Encode data : bytes_ok data -> Cpp.encode data = Some (b58Encode data).
Proof.
  intros Hb. pose proof (Nat.div_mod_eq (length data) 8) as Hdm. pose proof (Nat.mod_upper_bound (length data) 8 ltac:(lia)) as Hm.
  destruct data as [|x data]; [done|]. unfold Cpp.encode. set (d := x :: data) in *. clearbody d. clear x data.
  rewrite b58Encode_split. cbv zeta. unfold Base58.Cpp.full_block_size, Base58.Cpp.full_encoded_block_size.
  change (nth 0 Base58.Cpp.alphabet "0"%char) with (b58_char 0). change Base58.Cpp.encoded_block_sizes with B58_BLOCK_SIZES.
  rewrite replicate_add. set (last := replicate (nth (length d mod 8) B58_BLOCK_SIZES 0%nat) (b58_char 0)).
  pose proof (encode_loop_mid (length d / 8) 0 d [] last Hb ltac:(lia) eq_refl) as E. cbn [app] in E. rewrite E. cbn [mbind option_bind].
  change (0 * 8)%nat with 0%nat. rewrite drop_0. unfold last. destruct (length d mod 8)%nat as [|t] eqn:Et; cbn [Nat.ltb Nat.leb]; [done|].
  assert (length (drop (length d / 8 * 8) d) = S t) as El by (rewrite length_drop; lia).
  pose proof (encode_block_mid (drop (length d / 8 * 8) d) (enc_full (length d / 8) d) []) as E'. cbv zeta in E'. rewrite El, length_enc_full, !app_nil_r in E' by (done || lia).
  apply E'; [by apply Forall_drop|lia].
Qed.

(** C33: the node and the browser wallet write the same: the node's varint of every 32-bit number, its base58 of every byte string, and its
    address for every tag and pair of keys, are those of wallet.js; and no write of the node is outside its string. *)
Theorem node_encodes_same `{HN : Noble} {HL : NobleLaws} prefix pubSpend pubView data :
  0 <= prefix < 2 ^ 32 -> bytes_ok pubSpend -> bytes_ok pubView -> bytes_ok data ->
  Cpp.get_varint_data prefix = encodeVarint prefix /\ Cpp.encode data = Some (b58Encode data) /\
  exists a, Cpp.encode_addr prefix (pubSpend ++ pubView) = Some a /\ buildAddress prefix pubSpend pubView = Ok (of_chars a).
Proof.
  intros Hp Hs Hv Hd. pose proof (encodeVarint_vbytes prefix Hp) as E. rewrite get_varint_data_vbytes by lia.
  assert (vbytes 10 prefix = vbytes 6 prefix) as Ef by (apply vbytes_fuel; [change (128 ^ Z.of_nat 6) with (2 ^ 42); lia|lia]).
  split; [by rewrite E, Ef|]. split; [by apply encode_b58Encode|]. unfold Cpp.encode_addr. rewrite get_varint_data_vbytes by lia.
  cbn [mbind option_bind]. rewrite Ef, (buildAddress_eq _ _ _ _ E). eexists. split; [apply encode_b58Encode|done].
  pose proof (vbytes_ok 6 prefix ltac:(lia)). repeat (apply Forall_app; split); try done. apply Forall_take, keccak_bytes.
Qed.

Lemma node_encodes_same_witness :
  exists a, @Cpp.encode_addr demo_noble 144 (replicate 32 3 ++ replicate 32 4) = Some a /\
            @buildAddress demo_noble 144 (replicate 32 3) (replicate 32 4) = Ok (of_chars a).
Proof.
  apply (@node_encodes_same demo_noble demo_noble_laws 144 (replicate 32 3) (replicate 32 4) []); [lia|apply (bool_decide_unpack _); vm_compute; exact I..].
Defined.
