(* ===== verification/NodeTree.v ===== *)
(** * NodeTree: the hash tree over a block's transactions (src/crypto/tree-hash.c)

    [tree_hash] reduces the hashes in one array, in place, level by level; the first level takes only as many pairs as bring the count
    down to a power of two.  [tree_branch] walks the same array and keeps the siblings of one leaf, [tree_path] keeps only the turns, and
    [tree_branch_hash] goes from the leaf to the root.  The arrays are lists of 32-byte hashes, a read or write outside of one is
    [None]; the caller's [branch] array grows as it is written.  The hash itself is a parameter.  Assertions are left out. *)
From S2P Require Import Prelude Bytes.
Local Open Scope nat_scope.

(** A loop of [n] turns over a state, with the turn's number; [None] when a turn goes wrong. *)
Fixpoint turns {S} (n : nat) (body : nat -> S -> option S) (s : S) : option S :=
  match n with
  | O => Some s
  | Datatypes.S k => s ← turns k body s; body k s
  end.

Section Tree.
Context (cn_fast_hash : bytes -> bytes).

(** [while (pow < count) pow <<= 1], then [pow >> 1]. *)
Fixpoint cnt_loop (fuel pow count : nat) : option nat :=
  match fuel with
  | O => None
  | S f => if pow <? count then cnt_loop f (pow * 2) count else Some (pow / 2)
  end.
Definition tree_hash_cnt (count : nat) : option nat := cnt_loop count 2 count.

(** [cn_fast_hash(from + i * HASH_SIZE, 64, ints + j * HASH_SIZE)]. *)
Definition hash_pair (from : list bytes) (i : nat) : option bytes :=
  x ← from !! i; y ← from !! (i + 1); Some (cn_fast_hash (x ++ y)).
Definition set_hash (ints : list bytes) (j : nat) (h : bytes) : option (list bytes) :=
  if j <? length ints then Some (<[j := h]> ints) else None.

(** [memcpy(ints, hashes, n * HASH_SIZE)]. *)
Definition copy_hashes (ints hashes : list bytes) (n : nat) : option (list bytes) :=
  if (n <=? length ints) && (n <=? length hashes) then Some (take n hashes ++ drop n ints) else None.

Definition null_hash : bytes := replicate 32 0%Z.

(** [while (cnt > 2)]. *)
Fixpoint reduce (fuel cnt : nat) (ints : list bytes) : option (list bytes) :=
  match fuel with
  | O => None
  | S f =>
      if 2 <? cnt then
        let cnt := cnt / 2 in
        ints ← turns cnt (fun j ints => h ← hash_pair ints (2 * j); set_hash ints j h) ints;
        reduce f cnt ints
      else Some ints
  end.

Definition tree_hash (hashes : list bytes) : option bytes :=
  let count := length hashes in
  if count =? 1 then hashes !! 0
  else if count =? 2 then hash_pair hashes 0
  else
    cnt ← tree_hash_cnt count;
    let first := 2 * cnt - count in
    ints ← copy_hashes (replicate cnt null_hash) hashes first;
    ints ← turns (cnt - first) (fun k ints => h ← hash_pair hashes (first + 2 * k); set_hash ints (first + k) h) ints;
    ints ← reduce count cnt ints;
    hash_pair ints 0.

(** The path moved up by one place, with the new turn as its lowest bit, 32 bits wide. *)
Definition push_bit (path : Z) (r : bool) : Z := Z.lor (Z.shiftl path 1 mod 2 ^ 32) (if r then 1 else 0).

(** One turn of [tree_path]'s loops: pair [i], slot [j]. *)
Definition path_turn (i j : nat) (s : nat * Z) : nat * Z :=
  let '(idx, path) := s in
  if (idx =? i) || (idx =? i + 1) then (j, push_bit path (negb (idx =? i))) else (idx, path).

Fixpoint path_reduce (fuel cnt : nat) (s : nat * Z) : option (nat * Z) :=
  match fuel with
  | O => None
  | S f =>
      if 2 <? cnt then
        let cnt := cnt / 2 in
        s ← turns cnt (fun j s => Some (path_turn (2 * j) j s)) s;
        path_reduce f cnt s
      else Some s
  end.

(** [None] when there is nothing to point at: the code returns false. *)
Definition tree_path (count idx : nat) : option Z :=
  if count =? 0 then None
  else if count =? 1 then Some 0%Z
  else if count =? 2 then Some (if idx =? 0 then 0%Z else 1%Z)
  else
    cnt ← tree_hash_cnt count;
    let first := 2 * cnt - count in
    s ← turns (cnt - first) (fun k s => Some (path_turn (first + 2 * k) (first + k) s)) (idx, 0%Z);
    '(idx, path) ← path_reduce count cnt s;
    Some (if (idx =? 0) || (idx =? 1) then push_bit path (negb (idx =? 0)) else path).

(** The index of the first hash that is the one looked for. *)
Fixpoint find_hash (hash : bytes) (hashes : list bytes) : option nat :=
  match hashes with
  | [] => None
  | h :: rest => if bool_decide (hash = h) then Some 0 else S <$> find_hash hash rest
  end.

(** [tree_branch]'s state: the array, the index and path, and the branch so far, as long as the depth. *)
Definition branch_state : Type := list bytes * (nat * Z) * list bytes.

Definition branch_turn (from : list bytes) (i j : nat) (s : branch_state) : option branch_state :=
  let '(ints, (idx, path), branch) := s in
  branch ← (if (idx =? i) || (idx =? i + 1) then h ← from !! (if idx =? i then i + 1 else i); Some (branch ++ [h]) else Some branch);
  h ← hash_pair from i;
  ints ← set_hash ints j h;
  Some (ints, path_turn i j (idx, path), branch).

Fixpoint branch_reduce (fuel cnt : nat) (s : branch_state) : option branch_state :=
  match fuel with
  | O => None
  | S f =>
      if 2 <? cnt then
        let cnt := cnt / 2 in
        s ← turns cnt (fun j s => branch_turn s.1.1 (2 * j) j s) s;
        branch_reduce f cnt s
      else Some s
  end.

(** The branch and the path; [None] when the hash is not there. *)
Definition tree_branch (hashes : list bytes) (hash : bytes) : option (list bytes * Z) :=
  let count := length hashes in
  if count =? 0 then None
  else
    idx ← find_hash hash hashes;
    if count =? 1 then Some ([], 0%Z)
    else if count =? 2 then h ← hashes !! Nat.lxor idx 1; Some ([h], if idx =? 0 then 0%Z else 1%Z)
    else
      cnt ← tree_hash_cnt count;
      let first := 2 * cnt - count in
      ints ← copy_hashes (replicate cnt null_hash) hashes first;
      s ← turns (cnt - first) (fun k s => branch_turn hashes (first + 2 * k) (first + k) s) (ints, (idx, 0%Z), []);
      '(ints, (idx, path), branch) ← branch_reduce count cnt s;
      if (idx =? 0) || (idx =? 1) then
        h ← ints !! (if idx =? 0 then 1 else 0);
        Some (branch ++ [h], push_bit path (negb (idx =? 0)))
      else Some (branch, path).

Definition tree_branch_hash (hash : bytes) (branch : list bytes) (path : Z) : option bytes :=
  let depth := length branch in
  turns depth (fun d partial =>
    b ← branch !! d;
    Some (cn_fast_hash (if Z.testbit path (Z.of_nat (depth - d - 1)) then b ++ partial else partial ++ b))) hash.

Definition is_branch_in_tree (hash root : bytes) (branch : list bytes) (path : Z) : option bool :=
  res ← tree_branch_hash hash branch path;
  Some (bool_decide (res = root)).

(** ** Loops *)

Lemma turns_inv {A} (I : nat -> A -> Prop) (body : nat -> A -> option A) n s :
  I 0 s -> (forall k s, k < n -> I k s -> exists s', body k s = Some s' /\ I (S k) s') -> exists s', turns n body s = Some s' /\ I n s'.
Proof using.
  intros H0 HS. induction n as [|n IH]; [by exists s|]. destruct IH as (s' & E & HI); [intros; apply HS; [lia|done]|].
  destruct (HS n s' ltac:(lia) HI) as (s2 & E2 & HI2). exists s2. split; [|done]. cbn [turns]. by rewrite E.
Qed.

Lemma cnt_loop_ok f : forall e count,
  2 ^ e < count <= 2 ^ (e + f) -> exists d, cnt_loop f (2 ^ S e) count = Some (2 ^ d) /\ e <= d /\ 2 ^ d < count <= 2 * 2 ^ d.
Proof using.
  induction f as [|f IH]; intros e count Hc; [rewrite Nat.add_0_r in Hc; lia|]. cbn [cnt_loop].
  destruct (Nat.ltb_spec (2 ^ S e) count) as [Hlt|Hge].
  - rewrite Nat.mul_comm, <- Nat.pow_succ_r'. destruct (IH (S e) count) as (d & E & Hd & Hb).
    + replace (S e + f) with (e + S f) by lia. lia.
    + exists d. split; [done|]. split; [lia|done].
  - exists e. rewrite Nat.pow_succ_r', Nat.mul_comm, Nat.div_mul by lia. rewrite Nat.pow_succ_r' in Hge. split; [done|]. lia.
Qed.

(** The largest power of two below the count. *)
Lemma tree_hash_cnt_ok count : 3 <= count -> exists d, tree_hash_cnt count = Some (2 ^ d) /\ 1 <= d /\ 2 ^ d < count <= 2 * 2 ^ d.
Proof using.
  intros Hc. unfold tree_hash_cnt. destruct (cnt_loop_ok count 0 count) as (d & E & _ & Hb).
  - cbn [Nat.add]. split; [cbn; lia|]. pose proof (Nat.pow_gt_lin_r 2 count). lia.
  - exists d. split; [exact E|]. split; [|done]. destruct d; [cbn in Hb; lia|lia].
Qed.

(** ** Levels *)

(** The next level: the hashes of the pairs. *)
Definition pairs (l : list bytes) : list bytes := (fun k => cn_fast_hash (l !!! (2 * k) ++ l !!! (2 * k + 1))) <$> seq 0 (length l / 2).

Lemma length_pairs l : length (pairs l) = length l / 2.
Proof using. unfold pairs. by rewrite length_fmap, length_seq. Qed.

Lemma half_bound n k : k < n / 2 -> 2 * k + 1 < n.
Proof using. pose proof (Nat.Div0.mul_div_le n 2). lia. Qed.

Lemma hash_pair_in l i : i + 1 < length l -> hash_pair l i = Some (cn_fast_hash (l !!! i ++ l !!! (i + 1))).
Proof using. intros Hi. unfold hash_pair. by rewrite !list_lookup_lookup_total_lt by lia. Qed.

Lemma pairs_lookup l k : k < length l / 2 -> pairs l !! k = hash_pair l (2 * k).
Proof using.
  intros Hk. pose proof (half_bound _ _ Hk). rewrite hash_pair_in by lia. unfold pairs. by rewrite list_lookup_fmap, lookup_seq_lt.
Qed.

Lemma hash_pair_ext l l' i : (forall j, i <= j <= i + 1 -> l !! j = l' !! j) -> hash_pair l i = hash_pair l' i.
Proof using. intros H. unfold hash_pair. by rewrite !H by lia. Qed.

Lemma pairs_take l n : 2 * n <= length l -> pairs (take (2 * n) l) = take n (pairs l).
Proof using.
  intros Hn. assert (n <= length l / 2) by (apply Nat.div_le_lower_bound; lia). apply list_eq_same_length with n.
  - by rewrite length_take, length_pairs, Nat.min_l.
  - rewrite length_pairs, length_take, Nat.min_l, Nat.mul_comm, Nat.div_mul; lia.
  - intros k x y Hk. rewrite lookup_take_lt, !pairs_lookup by (rewrite ?length_take, ?Nat.min_l, 1?Nat.mul_comm, ?Nat.div_mul; lia).
    rewrite (hash_pair_ext _ l) by (intros j Hj; apply lookup_take_lt; lia). congruence.
Qed.

(** A level in progress, in place: the pairs done, then what is left of the array. *)
Definition half_done (l : list bytes) (j : nat) : list bytes := take j (pairs l) ++ drop j l.

Lemma half_done_turn l j :
  j < length l / 2 -> exists h, hash_pair (half_done l j) (2 * j) = Some h /\ hash_pair l (2 * j) = Some h /\ set_hash (half_done l j) j h = Some (half_done l (S j)).
Proof using.
  intros Hj. pose proof (half_bound _ _ Hj). exists (cn_fast_hash (l !!! (2 * j) ++ l !!! (2 * j + 1))).
  assert (length (take j (pairs l)) = j) as Ht by (rewrite length_take, length_pairs; lia).
  assert (hash_pair l (2 * j) = Some (cn_fast_hash (l !!! (2 * j) ++ l !!! (2 * j + 1)))) as E by (apply hash_pair_in; lia).
  split_and!; [| done |].
  - rewrite <- E. apply hash_pair_ext. intros i Hi. unfold half_done. rewrite lookup_app_r, lookup_drop by lia. f_equal. lia.
  - unfold set_hash, half_done. rewrite length_app, Ht, length_drop. destruct (Nat.ltb_spec j (j + (length l - j))) as [_|]; [|lia]. f_equal.
    rewrite (drop_S l (l !!! j) j) by (apply list_lookup_lookup_total_lt; lia).
    rewrite insert_app_r_alt, Ht, Nat.sub_diag by lia. rewrite <- pairs_lookup in E by done. rewrite (take_S_r _ _ _ E), <- app_assoc. done.
Qed.

(** The first level: the pairs beyond [first] of the given hashes, into the slots from [first] on. *)
Definition first_done (hashes : list bytes) (first cnt k : nat) : list bytes :=
  take first hashes ++ take k (pairs (drop first hashes)) ++ replicate (cnt - first - k) null_hash.

Lemma first_done_turn hashes first cnt k :
  length hashes = 2 * cnt - first -> first <= cnt -> k < cnt - first ->
  exists h, hash_pair hashes (first + 2 * k) = Some h /\ set_hash (first_done hashes first cnt k) (first + k) h = Some (first_done hashes first cnt (S k)).
Proof using.
  intros Hl Hf Hk. exists (cn_fast_hash (hashes !!! (first + 2 * k) ++ hashes !!! (first + 2 * k + 1))). split; [apply hash_pair_in; lia|].
  assert (length (drop first hashes) / 2 = cnt - first) as Ed.
  { rewrite length_drop, Hl. replace (2 * cnt - first - first) with ((cnt - first) * 2) by lia. apply Nat.div_mul. lia. }
  assert (length (take k (pairs (drop first hashes))) = k) as Ht by (rewrite length_take, length_pairs, Ed; lia).
  assert (length (take first hashes) = first) as Htf by (rewrite length_take; lia).
  unfold set_hash, first_done. rewrite !length_app, Ht, Htf, length_replicate. destruct (Nat.ltb_spec (first + k) (first + (k + (cnt - first - k)))) as [_|]; [|lia].
  f_equal. rewrite insert_app_r_alt, Htf by lia. f_equal. replace (first + k - first) with k by lia.
  rewrite insert_app_r_alt, Ht, Nat.sub_diag by lia. replace (cnt - first - k) with (S (cnt - first - S k)) by lia. cbn [replicate].
  rewrite (take_S_r (pairs (drop first hashes)) k (cn_fast_hash (hashes !!! (first + 2 * k) ++ hashes !!! (first + 2 * k + 1)))), <- app_assoc; [done|].
  rewrite pairs_lookup by lia. rewrite hash_pair_in by (rewrite length_drop; lia). rewrite !lookup_total_drop. by rewrite Nat.add_assoc.
Qed.

Lemma pow2_half e : 2 ^ S e / 2 = 2 ^ e.
Proof using. by rewrite Nat.pow_succ_r', Nat.mul_comm, Nat.div_mul. Qed.

Lemma take_half_done l n : 2 * n <= length l -> take n (half_done l n) = pairs (take (2 * n) l).
Proof using.
  intros Hn. assert (n <= length l / 2) by (apply Nat.div_le_lower_bound; lia). unfold half_done.
  rewrite take_app_length' by (rewrite length_take, length_pairs; lia). by rewrite pairs_take.
Qed.

Lemma length_half_done l j : j <= length l / 2 -> length (half_done l j) = length l.
Proof using. intros Hj. pose proof (Nat.Div0.mul_div_le (length l) 2). unfold half_done. rewrite length_app, length_take, length_pairs, length_drop. lia. Qed.

(** The levels above the first, down to two hashes. *)
Lemma reduce_ok f : forall e ints, 2 ^ S e <= length ints -> e < f ->
  exists ints', reduce f (2 ^ S e) ints = Some ints' /\ take 2 ints' = Nat.iter e pairs (take (2 ^ S e) ints).
Proof using.
  induction f as [|f IH]; intros e ints Hl Hf; [lia|]. cbn [reduce]. destruct e as [|e]; [by exists ints|].
  pose proof (Nat.pow_nonzero 2 e ltac:(lia)). pose proof (Nat.pow_succ_r' 2 e) as E1. pose proof (Nat.pow_succ_r' 2 (S e)) as E2.
  destruct (Nat.ltb_spec 2 (2 ^ S (S e))) as [_|]; [|lia]. rewrite pow2_half.
  destruct (turns_inv (fun j s => s = half_done ints j) (fun j ints => h ← hash_pair ints (2 * j); set_hash ints j h) (2 ^ S e) ints) as (s & Es & ->).
  - done.
  - intros k s Hk ->. destruct (half_done_turn ints k) as (h & -> & _ & Hs); [apply Nat.div_le_lower_bound; lia|]. eexists. split; [exact Hs|done].
  - rewrite Es. cbn [mbind option_bind]. assert (2 ^ S e <= length ints / 2) by (apply Nat.div_le_lower_bound; lia).
    destruct (IH e (half_done ints (2 ^ S e))) as (s' & -> & Hs'); [rewrite length_half_done; lia|lia|].
    exists s'. split; [done|]. rewrite Hs', take_half_done, <- E2 by lia. by rewrite Nat.iter_succ_r.
Qed.

(** ** The root *)

(** The reference: bring the count down to a power of two by hashing the last pairs, then hash level by level. *)
Definition merkle (hashes : list bytes) : option bytes :=
  let d := pred (Nat.log2_up (length hashes)) in
  let first := 2 * 2 ^ d - length hashes in
  Nat.iter d pairs (take first hashes ++ pairs (drop first hashes)) !! 0.

Lemma pairs_length l n : length l = 2 * n -> length (pairs l) = n.
Proof using. intros E. by rewrite length_pairs, E, Nat.mul_comm, Nat.div_mul by lia. Qed.

Lemma first_level hashes d : 2 ^ d < length hashes <= 2 * 2 ^ d ->
  length (take (2 * 2 ^ d - length hashes) hashes ++ pairs (drop (2 * 2 ^ d - length hashes) hashes)) = 2 ^ d /\ pred (Nat.log2_up (length hashes)) = d.
Proof using.
  intros Hd. rewrite length_app, length_take. rewrite (pairs_length _ (length hashes - 2 ^ d)) by (rewrite length_drop; lia). split; [lia|].
  rewrite (Nat.log2_up_unique _ (S d)); [done|lia|]. by rewrite Nat.pow_succ_r'.
Qed.

(** The first loop, from the copied hashes on. *)
Lemma copy_first hashes first cnt :
  length hashes = 2 * cnt - first -> first <= cnt -> copy_hashes (replicate cnt null_hash) hashes first = Some (first_done hashes first cnt 0).
Proof using.
  intros Hl Hf. unfold copy_hashes, first_done. rewrite length_replicate. destruct (Nat.leb_spec first cnt); [|lia].
  destruct (Nat.leb_spec first (length hashes)); [|lia]. cbn [andb]. by rewrite drop_replicate, take_0, Nat.sub_0_r.
Qed.

Lemma first_done_all hashes d : 2 ^ d < length hashes <= 2 * 2 ^ d -> let first := 2 * 2 ^ d - length hashes in
  first_done hashes first (2 ^ d) (2 ^ d - first) = take first hashes ++ pairs (drop first hashes).
Proof using.
  intros Hd first. unfold first_done. rewrite Nat.sub_diag. cbn [replicate]. rewrite app_nil_r. f_equal. apply take_ge.
  rewrite (pairs_length _ (length hashes - 2 ^ d)) by (rewrite length_drop; lia). lia.
Qed.

Lemma iter_pairs_length n m : forall l, length l = 2 ^ n * m -> length (Nat.iter n pairs l) = m.
Proof using.
  induction n as [|n IH]; intros l Hl; [by rewrite Nat.mul_1_l in Hl|]. rewrite Nat.iter_succ_r. apply IH, pairs_length.
  by rewrite Nat.mul_assoc, <- Nat.pow_succ_r'.
Qed.

Lemma tree_hash_small x y : tree_hash [x] = merkle [x] /\ tree_hash [x; y] = merkle [x; y].
Proof using. done. Qed.

Lemma tree_hash_big hashes : 3 <= length hashes -> tree_hash hashes = merkle hashes.
Proof using.
  intros Hc. destruct (tree_hash_cnt_ok _ Hc) as (d & E & H1 & Hd). destruct (first_level hashes d Hd) as [Hl Hlog]. unfold tree_hash, merkle.
  destruct (Nat.eqb_spec (length hashes) 1); [lia|]. destruct (Nat.eqb_spec (length hashes) 2); [lia|]. rewrite Hlog, E. cbn [mbind option_bind].
  set (first := 2 * 2 ^ d - length hashes) in *. rewrite copy_first by lia. cbn [mbind option_bind].
  destruct (turns_inv (fun k s => s = first_done hashes first (2 ^ d) k)
    (fun k ints => h ← hash_pair hashes (first + 2 * k); set_hash ints (first + k) h) (2 ^ d - first) (first_done hashes first (2 ^ d) 0)) as (s & -> & ->).
  - done.
  - intros k s Hk ->. destruct (first_done_turn hashes first (2 ^ d) k) as (h & -> & Hs); [lia..|]. eexists. split; [exact Hs|done].
  - cbn [mbind option_bind]. unfold first. rewrite first_done_all by done. fold first. set (l := take first hashes ++ pairs (drop first hashes)) in *.
    destruct d as [|d]; [lia|]. destruct (reduce_ok (length hashes) d l) as (s & -> & Hs); [lia|pose proof (Nat.pow_gt_lin_r 2 (S d)); lia|].
    cbn [mbind option_bind]. rewrite (take_ge l) in Hs by lia. rewrite Nat.iter_succ, <- Hs.
    assert (length (take 2 s) = 2) as H2 by (rewrite Hs; apply iter_pairs_length; by rewrite Nat.mul_comm, <- Nat.pow_succ_r').
    rewrite pairs_lookup by (rewrite H2; change (2 / 2) with 1; lia). apply hash_pair_ext. intros j Hj. symmetry. apply lookup_take_lt. lia.
Qed.

Lemma tree_hash_root hashes : hashes <> [] -> tree_hash hashes = merkle hashes /\ is_Some (tree_hash hashes).
Proof using.
  intros Hn. assert (tree_hash hashes = merkle hashes) as E.
  { destruct hashes as [|x [|y [|z l]]]; [done|apply (tree_hash_small x x)|apply (tree_hash_small x y)|apply tree_hash_big; cbn; lia]. }
  split; [done|]. rewrite E. unfold merkle. set (d := pred (Nat.log2_up (length hashes))).
  destruct (decide (length hashes = 1)) as [H1|H1]; [destruct hashes as [|x [|y l]]; done|].
  assert (2 ^ d < length hashes <= 2 * 2 ^ d) as Hd.
  { destruct hashes as [|x l]; [done|]. unfold d. rewrite <- Nat.pow_succ_r', Nat.succ_pred_pos by (apply Nat.log2_up_pos; cbn in *; lia).
    apply Nat.log2_up_spec. cbn in *. lia. }
  apply lookup_lt_is_Some_2. rewrite (iter_pairs_length d 1) by (rewrite Nat.mul_1_r; apply (first_level hashes d Hd)). lia.
Qed.

(** ** Branches *)

(** From a leaf towards the root: at each step whether the sibling is on the left, and the sibling. *)
Definition climb (x : bytes) (steps : list (bool * bytes)) : bytes :=
  fold_left (fun p '(r, b) => cn_fast_hash (if r : bool then b ++ p else p ++ b)) steps x.
Definition path_of (steps : list (bool * bytes)) : Z := fold_left (fun p '(r, _) => push_bit p r) steps 0%Z.

Lemma path_of_snoc steps r b : length steps < 32 ->
  (0 <= path_of steps < 2 ^ Z.of_nat (length steps))%Z ->
  path_of (steps ++ [(r, b)]) = (2 * path_of steps + Z.b2z r)%Z.
Proof using.
  intros Hl Hp. unfold path_of at 1. rewrite fold_left_app. cbn [fold_left]. fold (path_of steps). unfold push_bit.
  assert (2 ^ Z.of_nat (length steps) <= 2 ^ 31)%Z by (apply Z.pow_le_mono_r; lia).
  rewrite Z.shiftl_mul_pow2, Z.mod_small by lia. destruct r; rewrite lor_low by lia; cbn [Z.b2z]; lia.
Qed.

Lemma path_of_bound steps : length steps <= 32 -> (0 <= path_of steps < 2 ^ Z.of_nat (length steps))%Z.
Proof using.
  induction steps as [|[r b] steps IH] using rev_ind; [by cbn|]. rewrite length_app. cbn [length]. intros Hl.
  rewrite path_of_snoc by (lia || apply IH; lia). specialize (IH ltac:(lia)).
  replace (Z.of_nat (length steps + 1)) with (Z.succ (Z.of_nat (length steps))) by lia. rewrite Z.pow_succ_r by lia. destruct r; cbn [Z.b2z]; lia.
Qed.

(** The first turn is the highest bit. *)
Lemma path_of_bit steps : length steps <= 32 -> forall d, d < length steps ->
  Z.testbit (path_of steps) (Z.of_nat (length steps - d - 1)) = (steps !!! d).1.
Proof using.
  induction steps as [|[r b] steps IH] using rev_ind; [cbn; lia|]. rewrite length_app. cbn [length]. intros Hl d Hd.
  rewrite path_of_snoc by (lia || (apply path_of_bound; lia)). destruct (decide (d = length steps)) as [->|Hne].
  - replace (length steps + 1 - length steps - 1) with 0 by lia. rewrite lookup_total_app_r, Nat.sub_diag by lia.
    change (Z.of_nat 0) with 0%Z. apply Z.testbit_0_r.
  - rewrite lookup_total_app_l by lia. rewrite <- (IH ltac:(lia) d ltac:(lia)).
    replace (Z.of_nat (length steps + 1 - d - 1)) with (Z.succ (Z.of_nat (length steps - d - 1))) by lia.
    apply Z.testbit_succ_r. lia.
Qed.

(** [tree_branch_hash] takes the steps that the branch and the path describe. *)
Lemma tree_branch_hash_climb x steps : length steps <= 32 -> tree_branch_hash x steps.*2 (path_of steps) = Some (climb x steps).
Proof using.
  intros Hl. unfold tree_branch_hash. rewrite length_fmap.
  destruct (turns_inv (fun d p => p = climb x (take d steps)) (fun d partial =>
    b ← steps.*2 !! d; Some (cn_fast_hash (if Z.testbit (path_of steps) (Z.of_nat (length steps - d - 1)) then b ++ partial else partial ++ b)))
    (length steps) x) as (s & -> & ->); [done| |by rewrite take_ge].
  intros d s Hd ->. destruct (lookup_lt_is_Some_2 steps d Hd) as [[r b] E]. rewrite path_of_bit by done.
  rewrite list_lookup_fmap, E, (list_lookup_total_correct _ _ _ E). cbn [fmap option_fmap option_map mbind option_bind fst snd].
  eexists. split; [done|]. rewrite (take_S_r _ _ _ E). unfold climb. by rewrite fold_left_app.
Qed.

(** Where a hash is after some pairs of a level, and the path to it. *)
Definition in_pairs (first k idx : nat) : bool := (first <=? idx) && (idx <? first + 2 * k).
Definition moved (first k idx : nat) (path : Z) : nat * Z :=
  if in_pairs first k idx then (first + (idx - first) / 2, push_bit path (Nat.odd (idx - first))) else (idx, path).

(** A turn concerns the hash when it reaches its pair. *)
Lemma turn_cond first k idx path :
  let i := (moved first k idx path).1 in
  (i =? first + 2 * k) || (i =? first + 2 * k + 1) = negb (in_pairs first k idx) && in_pairs first (S k) idx.
Proof using.
  unfold moved, in_pairs. pose proof (Nat.div_mod_eq (idx - first) 2) as Hd. pose proof (Nat.mod_upper_bound (idx - first) 2 ltac:(lia)).
  destruct (Nat.leb_spec first idx), (Nat.ltb_spec idx (first + 2 * k)), (Nat.ltb_spec idx (first + 2 * S k)); cbn [andb negb fst]; try lia;
    match goal with |- (?x =? ?y) || (?x =? ?z) = _ => destruct (Nat.eqb_spec x y), (Nat.eqb_spec x z) end; (done || lia).
Qed.

(** When it does, where the pair is, and on which side the hash is. *)
Lemma turn_side first k idx :
  in_pairs first k idx = false -> in_pairs first (S k) idx = true ->
  (idx - first) / 2 = k /\ (idx =? first + 2 * k) = negb (Nat.odd (idx - first)).
Proof using.
  unfold in_pairs. pose proof (Nat.div_mod_eq (idx - first) 2) as Hd. pose proof (Nat.mod_upper_bound (idx - first) 2 ltac:(lia)).
  destruct (Nat.leb_spec first idx), (Nat.ltb_spec idx (first + 2 * k)), (Nat.ltb_spec idx (first + 2 * S k)); try done. intros _ _. split; [lia|].
  destruct (Nat.eqb_spec idx (first + 2 * k)) as [->|Hne].
  - replace (first + 2 * k - first) with (2 * k) by lia. by rewrite Nat.odd_even.
  - replace (idx - first) with (2 * k + 1) by lia. by rewrite Nat.odd_odd.
Qed.

Lemma in_pairs_S first k idx : in_pairs first k idx = true -> in_pairs first (S k) idx = true.
Proof using. unfold in_pairs. intros [H1 H2]%andb_prop. apply Nat.ltb_lt in H2. rewrite H1. apply Nat.ltb_lt. lia. Qed.

Lemma path_turn_moved first k idx path : path_turn (first + 2 * k) (first + k) (moved first k idx path) = moved first (S k) idx path.
Proof using.
  pose proof (turn_cond first k idx path) as E. destruct (moved first k idx path) as [i p] eqn:Em. cbn [fst] in E. unfold path_turn. rewrite E.
  unfold moved in *. destruct (in_pairs first k idx) eqn:E1; cbn [negb andb].
  - by rewrite (in_pairs_S _ _ _ E1).
  - injection Em as <- <-. destruct (in_pairs first (S k) idx) eqn:E2; [|done]. destruct (turn_side _ _ _ E1 E2) as [-> ->]. by rewrite negb_involutive.
Qed.

(** The sibling of a hash of a level, and the branch after some pairs. *)
Definition sibling (first idx : nat) : nat := first + 2 * ((idx - first) / 2) + (if Nat.odd (idx - first) then 0 else 1).
Definition branched (base : list bytes) (first k idx : nat) (branch : list bytes) : list bytes :=
  if in_pairs first k idx then branch ++ [base !!! sibling first idx] else branch.

Lemma branch_turn_moved from base first k idx path branch ints ints' h :
  (forall j, first + 2 * k <= j <= first + 2 * k + 1 -> from !! j = base !! j) -> first + 2 * k + 1 < length base ->
  hash_pair from (first + 2 * k) = Some h -> set_hash ints (first + k) h = Some ints' ->
  branch_turn from (first + 2 * k) (first + k) (ints, moved first k idx path, branched base first k idx branch)
  = Some (ints', moved first (S k) idx path, branched base first (S k) idx branch).
Proof using.
  intros Hb Hl Hh Hs. pose proof (turn_cond first k idx path) as E. rewrite <- path_turn_moved. unfold branch_turn.
  destruct (moved first k idx path) as [i p] eqn:Em. cbn [fst] in E. rewrite E, Hh. unfold branched.
  destruct (in_pairs first k idx) eqn:E1; cbn [negb andb].
  - rewrite (in_pairs_S _ _ _ E1). cbn [mbind option_bind]. by rewrite Hs.
  - destruct (in_pairs first (S k) idx) eqn:E2; [|cbn [mbind option_bind]; by rewrite Hs]. unfold moved in Em. rewrite E1 in Em. injection Em as <- <-.
    destruct (turn_side _ _ _ E1 E2) as [Ek ->]. unfold sibling. rewrite Ek.
    destruct (Nat.odd (idx - first)); cbn [negb]; rewrite Hb, list_lookup_lookup_total_lt by lia; cbn [mbind option_bind]; rewrite Hs; by rewrite ?Nat.add_0_r.
Qed.

(** The hash of a pair, seen from one of its two. *)
Lemma climb_pair base first idx v :
  base !! idx = Some v -> first <= idx -> sibling first idx < length base ->
  hash_pair base (first + 2 * ((idx - first) / 2)) = Some (climb v [(Nat.odd (idx - first), base !!! sibling first idx)]).
Proof using.
  intros Hv Hf. unfold sibling, hash_pair, climb. cbn [fold_left]. pose proof (Nat.div2_odd (idx - first)) as Hd. rewrite Nat.div2_div in Hd.
  destruct (Nat.odd (idx - first)); cbn [Nat.b2n] in Hd; intros Hs.
  - rewrite Nat.add_0_r in *. rewrite (list_lookup_lookup_total_lt base _ Hs). cbn [mbind option_bind].
    replace (first + 2 * ((idx - first) / 2) + 1) with idx by lia. by rewrite Hv.
  - replace (first + 2 * ((idx - first) / 2)) with idx in * by lia. rewrite Hv, (list_lookup_lookup_total_lt base _ Hs). done.
Qed.

Lemma path_of_push steps r b : push_bit (path_of steps) r = path_of (steps ++ [(r, b)]).
Proof using. unfold path_of. by rewrite fold_left_app. Qed.

Lemma climb_snoc x steps s : climb x (steps ++ [s]) = climb (climb x steps) [s].
Proof using. unfold climb. by rewrite fold_left_app. Qed.

(** One level in place, for the branch. *)
Lemma branch_level ints n idx path branch :
  2 * n <= length ints -> idx < 2 * n ->
  turns n (fun j s => branch_turn s.1.1 (2 * j) j s) (ints, (idx, path), branch)
  = Some (half_done ints n, (idx / 2, push_bit path (Nat.odd idx)), branch ++ [ints !!! sibling 0 idx]).
Proof using.
  intros Hl Hi. destruct (turns_inv (fun j s => s = (half_done ints j, moved 0 j idx path, branched ints 0 j idx branch))
    (fun j s => branch_turn s.1.1 (2 * j) j s) n (ints, (idx, path), branch)) as (s & -> & ->).
  - unfold moved, branched, in_pairs. by rewrite andb_false_r.
  - intros k s Hk ->. eexists. split; [|done]. assert (k < length ints / 2) by (apply Nat.div_le_lower_bound; lia).
    destruct (half_done_turn ints k) as (h & Hh & _ & Hs); [done|]. cbn [fst]. apply (branch_turn_moved _ ints 0 k idx path branch _ _ h); [|lia|done|done].
    intros j Hj. unfold half_done. rewrite lookup_app_r by (rewrite length_take; lia). rewrite lookup_drop, length_take, length_pairs. f_equal. lia.
  - unfold moved, branched, in_pairs. cbn [Nat.leb andb Nat.add]. rewrite Nat.sub_0_r. by destruct (Nat.ltb_spec idx (2 * n)); [|lia].
Qed.

(** What the walk keeps: the branch and path lead from the leaf to the hash under the index. *)
Definition leads (x : bytes) (steps : list (bool * bytes)) (s : branch_state) : Prop :=
  let '(ints, (idx, path), branch) := s in branch = steps.*2 /\ path = path_of steps /\ ints !! idx = Some (climb x steps).

Lemma leads_pair x steps base first idx v ints j :
  base !! idx = Some v -> v = climb x steps -> first <= idx -> sibling first idx < length base ->
  ints !! j = hash_pair base (first + 2 * ((idx - first) / 2)) ->
  leads x (steps ++ [(Nat.odd (idx - first), base !!! sibling first idx)])
    (ints, (j, push_bit (path_of steps) (Nat.odd (idx - first))), steps.*2 ++ [base !!! sibling first idx]).
Proof using.
  intros Hv -> Hf Hs E. split_and!; [by rewrite fmap_app|by apply path_of_push|]. by rewrite E, (climb_pair _ _ _ _ Hv Hf Hs), climb_snoc.
Qed.

Lemma branch_reduce_ok x f : forall e ints idx path branch steps,
  2 ^ S e <= length ints -> idx < 2 ^ S e -> e < f -> leads x steps (ints, (idx, path), branch) ->
  exists ints' idx' path' branch' steps', branch_reduce f (2 ^ S e) (ints, (idx, path), branch) = Some (ints', (idx', path'), branch') /\
    idx' < 2 /\ leads x steps' (ints', (idx', path'), branch') /\ take 2 ints' = Nat.iter e pairs (take (2 ^ S e) ints) /\
    length steps' = length steps + e.
Proof using.
  induction f as [|f IH]; intros e ints idx path branch steps Hl Hi Hf Hx; [lia|]. cbn [branch_reduce]. destruct e as [|e].
  { cbn in Hi. exists ints, idx, path, branch, steps. split_and!; [done|lia|done|done|lia]. }
  pose proof (Nat.pow_nonzero 2 e ltac:(lia)). pose proof (Nat.pow_succ_r' 2 e) as E1. pose proof (Nat.pow_succ_r' 2 (S e)) as E2.
  destruct (Nat.ltb_spec 2 (2 ^ S (S e))) as [_|]; [|lia]. rewrite pow2_half, branch_level by lia. cbn [mbind option_bind].
  assert (2 ^ S e <= length ints / 2) by (apply Nat.div_le_lower_bound; lia). assert (idx / 2 < 2 ^ S e) as Hi2 by (apply Nat.Div0.div_lt_upper_bound; lia).
  destruct Hx as (-> & -> & Hx). pose proof (Nat.div2_odd idx) as Hodd. rewrite Nat.div2_div in Hodd.
  assert (sibling 0 idx < length ints) as Hsib by (unfold sibling; rewrite Nat.sub_0_r; destruct (Nat.odd idx); cbn [Nat.b2n] in Hodd; lia).
  pose proof (leads_pair x steps ints 0 idx _ (half_done ints (2 ^ S e)) (idx / 2) Hx eq_refl ltac:(lia) Hsib) as Hn. rewrite !Nat.sub_0_r in Hn.
  destruct (IH e (half_done ints (2 ^ S e)) (idx / 2) (push_bit (path_of steps) (Nat.odd idx)) (steps.*2 ++ [ints !!! sibling 0 idx])
    (steps ++ [(Nat.odd idx, ints !!! sibling 0 idx)])) as (i' & x' & p' & b' & s' & E & H1 & H2 & H3 & H4).
  - rewrite length_half_done; lia.
  - done.
  - lia.
  - apply Hn. unfold half_done. rewrite lookup_app_l by (rewrite length_take, length_pairs; lia). rewrite lookup_take_lt by lia. apply pairs_lookup. lia.
  - exists i', x', p', b', s'. split_and!; [done..| |].
    + rewrite H3, take_half_done, <- E2 by lia. by rewrite Nat.iter_succ_r.
    + rewrite H4, length_app. cbn [length]. lia.
Qed.

(** The first level, for the branch. *)
Lemma branch_first x hashes d idx :
  2 ^ d < length hashes <= 2 * 2 ^ d -> hashes !! idx = Some x -> let first := 2 * 2 ^ d - length hashes in
  exists idx' path branch steps,
    turns (2 ^ d - first) (fun k s => branch_turn hashes (first + 2 * k) (first + k) s) (first_done hashes first (2 ^ d) 0, (idx, 0%Z), [])
    = Some (take first hashes ++ pairs (drop first hashes), (idx', path), branch) /\
    leads x steps (take first hashes ++ pairs (drop first hashes), (idx', path), branch) /\ idx' < 2 ^ d /\ length steps <= 1.
Proof using.
  intros Hd Hx first. pose proof (lookup_lt_Some _ _ _ Hx) as Hi.
  destruct (turns_inv (A := branch_state) (fun k s => s = (first_done hashes first (2 ^ d) k, moved first k idx 0%Z, branched hashes first k idx []))
    (fun k s => branch_turn hashes (first + 2 * k) (first + k) s) (2 ^ d - first) (first_done hashes first (2 ^ d) 0, (idx, 0%Z), [])) as (s & -> & ->).
  - unfold moved, branched, in_pairs. rewrite Nat.add_0_r. by destruct (Nat.leb_spec first idx), (Nat.ltb_spec idx first); [lia|..].
  - intros k s Hk ->. eexists. split; [|done]. destruct (first_done_turn hashes first (2 ^ d) k) as (h & Hh & Hs); [lia..|].
    by apply (branch_turn_moved _ hashes first k idx 0%Z [] _ _ h); [|lia|..].
  - unfold first. rewrite first_done_all by done. fold first. unfold moved, branched. destruct (in_pairs first (2 ^ d - first) idx) eqn:E.
    + apply andb_prop in E as [E1 E2]. apply Nat.leb_le in E1. apply Nat.ltb_lt in E2. do 3 eexists.
      exists [(Nat.odd (idx - first), hashes !!! sibling first idx)]. pose proof (Nat.div2_odd (idx - first)) as Hodd. rewrite Nat.div2_div in Hodd.
      split_and!; [done| |destruct (Nat.odd (idx - first)); cbn [Nat.b2n] in Hodd; lia|done].
      apply (leads_pair x [] hashes first idx x); [done|done|done|unfold sibling; destruct (Nat.odd (idx - first)); cbn [Nat.b2n] in Hodd; lia|].
      assert (length (drop first hashes) / 2 = 2 ^ d - first) as El.
      { rewrite length_drop. replace (length hashes - first) with ((2 ^ d - first) * 2) by lia. apply Nat.div_mul. lia. }
      assert ((idx - first) / 2 < 2 ^ d - first) by (apply Nat.Div0.div_lt_upper_bound; lia).
      rewrite lookup_app_r by (rewrite length_take; lia). rewrite length_take, Nat.min_l, Nat.add_comm, Nat.add_sub, pairs_lookup by lia.
      unfold hash_pair. rewrite !lookup_drop. by rewrite Nat.add_assoc.
    + assert (idx < first) as Hlt by (unfold in_pairs in E; destruct (Nat.leb_spec first idx), (Nat.ltb_spec idx (first + 2 * (2 ^ d - first))); (done || lia)).
      do 3 eexists. exists []. split_and!; [done| |lia|cbn; lia]. split_and!; [done..|]. rewrite lookup_app_l by (rewrite length_take; lia). by rewrite lookup_take_lt.
Qed.

(** [tree_path] takes the turns of [tree_branch]. *)
Lemma turns_sim {A B} (p : A -> B) (f : nat -> A -> option A) (g : nat -> B -> option B) n s s' :
  (forall k s s', f k s = Some s' -> g k (p s) = Some (p s')) -> turns n f s = Some s' -> turns n g (p s) = Some (p s').
Proof using.
  intros H. revert s'. induction n as [|n IH]; intros s' E; cbn [turns] in *; [by injection E as ->|].
  apply bind_Some in E as (s1 & E1 & E2). rewrite (IH _ E1). cbn [mbind option_bind]. by apply H.
Qed.

Lemma branch_turn_path from i j s s' : branch_turn from i j s = Some s' -> path_turn i j s.1.2 = s'.1.2.
Proof using.
  destruct s as [[ints [idx path]] branch]. unfold branch_turn. intros (b & _ & E)%bind_Some. apply bind_Some in E as (h & _ & E).
  apply bind_Some in E as (ints' & _ & E). by injection E as <-.
Qed.

Lemma branch_reduce_path f : forall cnt s s', branch_reduce f cnt s = Some s' -> path_reduce f cnt s.1.2 = Some s'.1.2.
Proof using.
  induction f as [|f IH]; intros cnt s s' E; [done|]. cbn [branch_reduce path_reduce] in *. destruct (2 <? cnt); [|by injection E as ->].
  apply bind_Some in E as (s1 & E1 & E2).
  rewrite (turns_sim (fun s : branch_state => s.1.2) _ (fun j s => Some (path_turn (2 * j) j s)) _ _ _ (fun k a a' H => f_equal Some (branch_turn_path _ _ _ _ _ H)) E1).
  cbn [mbind option_bind]. by apply IH.
Qed.

Lemma find_hash_lookup x hashes : x ∈ hashes -> exists idx, find_hash x hashes = Some idx /\ hashes !! idx = Some x.
Proof using.
  induction hashes as [|h hashes IH]; [by intros ?%elem_of_nil|]. cbn [find_hash]. destruct (decide (x = h)) as [->|Hne].
  - intros _. rewrite bool_decide_true by done. by exists 0.
  - intros [->|Hin]%elem_of_cons; [done|]. rewrite bool_decide_false by done. destruct (IH Hin) as (i & -> & Hi). by exists (S i).
Qed.

(** The walk on three hashes or more. *)
Lemma tree_branch_big hashes x idx :
  3 <= length hashes -> find_hash x hashes = Some idx -> hashes !! idx = Some x ->
  exists d steps, 2 ^ d < length hashes /\ length steps <= S d /\ tree_branch hashes x = Some (steps.*2, path_of steps) /\
    merkle hashes = Some (climb x steps) /\ tree_path (length hashes) idx = Some (path_of steps).
Proof using.
  intros Hc Hidx Hx. destruct (tree_hash_cnt_ok _ Hc) as (d & E & H1 & Hd). destruct (first_level hashes d Hd) as [Hl Hlog].
  destruct (branch_first x hashes d idx Hd Hx) as (i1 & p1 & b1 & s1 & F1 & F2 & F3 & F4). cbv zeta in *.
  set (first := 2 * 2 ^ d - length hashes) in *. destruct d as [|d]; [lia|].
  destruct (branch_reduce_ok x (length hashes) d (take first hashes ++ pairs (drop first hashes)) i1 p1 b1 s1)
    as (i2 & x2 & p2 & b2 & s2 & G1 & G2 & (-> & -> & G5) & G6 & G7); [lia|done|pose proof (Nat.pow_gt_lin_r 2 (S d)); lia|done|].
  rewrite (take_ge (take first hashes ++ _)) in G6 by lia.
  assert (length (take 2 i2) = 2) as H2 by (rewrite G6; apply iter_pairs_length; by rewrite Nat.mul_comm, <- Nat.pow_succ_r').
  assert (2 <= length i2) as H2' by (rewrite length_take in H2; lia).
  pose proof (climb_pair i2 0 x2 _ G5 ltac:(lia)) as Hp. unfold sibling in Hp. rewrite !Nat.sub_0_r, (Nat.div_small x2 2) in Hp by done.
  exists (S d), (s2 ++ [(Nat.odd x2, i2 !!! (0 + 2 * 0 + (if Nat.odd x2 then 0 else 1)))]).
  assert (negb (x2 =? 0) = Nat.odd x2 /\ (x2 =? 0) || (x2 =? 1) = true) as [Hodd Hor] by (destruct x2 as [|[|x2]]; [done|done|lia]).
  split_and!; [lia|rewrite length_app; cbn [length]; lia| | |].
  - unfold tree_branch. rewrite Hidx. destruct (Nat.eqb_spec (length hashes) 0); [lia|]. destruct (Nat.eqb_spec (length hashes) 1); [lia|].
    destruct (Nat.eqb_spec (length hashes) 2); [lia|]. cbn [mbind option_bind]. rewrite E. cbn [mbind option_bind]. fold first.
    rewrite copy_first by lia. cbn [mbind option_bind]. rewrite F1. cbn [mbind option_bind]. rewrite G1. cbn [mbind option_bind]. rewrite Hor, Hodd.
    replace (if x2 =? 0 then 1 else 0) with (0 + 2 * 0 + (if Nat.odd x2 then 0 else 1)) by (rewrite <- Hodd; by destruct (x2 =? 0)).
    rewrite list_lookup_lookup_total_lt by (destruct (Nat.odd x2); lia). cbn [mbind option_bind]. f_equal. f_equal; [by rewrite fmap_app|apply path_of_push].
  - unfold merkle. rewrite Hlog. fold first. rewrite Nat.iter_succ, <- G6, pairs_lookup by (rewrite H2; change (2 / 2) with 1; lia).
    rewrite (hash_pair_ext _ i2) by (intros j Hj; apply lookup_take_lt; lia). change (2 * 0) with (0 + 2 * 0). rewrite climb_snoc. apply Hp.
    destruct (Nat.odd x2); lia.
  - unfold tree_path. destruct (Nat.eqb_spec (length hashes) 0); [lia|]. destruct (Nat.eqb_spec (length hashes) 1); [lia|].
    destruct (Nat.eqb_spec (length hashes) 2); [lia|]. rewrite E. cbn [mbind option_bind]. fold first.
    pose proof (turns_sim (fun s : branch_state => s.1.2) _ (fun k s => Some (path_turn (first + 2 * k) (first + k) s)) _ _ _
      (fun k a a' H => f_equal Some (branch_turn_path _ _ _ _ _ H)) F1) as F5. cbn [fst snd] in F5. rewrite F5. cbn [mbind option_bind].
    pose proof (branch_reduce_path _ _ _ _ G1) as G8. cbn [fst snd] in G8. rewrite G8. cbn [mbind option_bind]. rewrite Hor, Hodd. f_equal. apply path_of_push.
Qed.

End Tree.

(** C18: every transaction of a block can be proved to be in it: the root that [tree_hash] computes in place is that of the reference tree;
    for every hash among at most 2^28, [tree_branch] finds a branch from which [is_branch_in_tree] arrives at exactly that root, and
    [tree_path] describes the same way. *)
Theorem tree_branch_proves cn_fast_hash hashes x :
  x ∈ hashes -> (Z.of_nat (length hashes) <= 2 ^ 28)%Z ->
  exists root branch path idx, tree_hash cn_fast_hash hashes = Some root /\ merkle cn_fast_hash hashes = Some root /\
    tree_branch cn_fast_hash hashes x = Some (branch, path) /\ is_branch_in_tree cn_fast_hash x root branch path = Some true /\
    find_hash x hashes = Some idx /\ tree_path (length hashes) idx = Some path.
Proof.
  intros Hin Hl. destruct (find_hash_lookup x hashes Hin) as (idx & Hidx & Hx).
  destruct (tree_hash_root cn_fast_hash hashes) as [E _]; [by intros ->|]. rewrite E.
  assert (exists steps, length steps <= 32 /\ tree_branch cn_fast_hash hashes x = Some (steps.*2, path_of steps) /\
    merkle cn_fast_hash hashes = Some (climb cn_fast_hash x steps) /\ tree_path (length hashes) idx = Some (path_of steps)) as (steps & H1 & H2 & H3 & H4).
  - destruct (decide (3 <= length hashes)) as [H3|H3].
    + destruct (tree_branch_big cn_fast_hash hashes x idx H3 Hidx Hx) as (d & steps & Hd & Hs & H). exists steps. split; [|done].
      enough (d < 28) by lia. apply Nat2Z.inj_lt. apply (Z.pow_lt_mono_r_iff 2); [lia|lia|]. apply Nat2Z.inj_lt in Hd. rewrite Nat2Z.inj_pow in Hd. lia.
    + unfold tree_branch. rewrite Hidx. destruct hashes as [|a [|b [|c l]]]; [by destruct idx| | |cbn in H3; lia]; cbn [length Nat.eqb mbind option_bind].
      * destruct idx as [|idx]; [|by destruct idx]. injection Hx as ->. exists []. split; [cbn; lia|done].
      * destruct idx as [|[|idx]]; [| |done]; injection Hx as ->; [exists [(false, b)]|exists [(true, a)]]; (split; [cbn; lia|done]).
  - exists (climb cn_fast_hash x steps), steps.*2, (path_of steps), idx. split_and!; [done..| |done|done].
    unfold is_branch_in_tree. rewrite tree_branch_hash_climb by done. cbn [mbind option_bind]. by rewrite bool_decide_true.
Qed.

Lemma tree_branch_proves_witness :
  exists root branch path, let H b := take 2 (rev b) in
    tree_hash H [[1]; [2]; [3]; [4]; [5]]%Z = Some root /\ tree_branch H [[1]; [2]; [3]; [4]; [5]]%Z [4]%Z = Some (branch, path) /\
    is_branch_in_tree H [4]%Z root branch path = Some true.
Proof.
  destruct (tree_branch_proves (fun b => take 2 (rev b)) [[1]; [2]; [3]; [4]; [5]]%Z [4]%Z) as (root & branch & path & idx & H1 & _ & H2 & H3 & _).
  - apply (bool_decide_unpack _). vm_compute. exact I.
  - cbn. lia.
  - exists root, branch, path. exact (conj H1 (conj H2 H3)).
Defined.
