(* ===== verification/NodeBlock.v ===== *)
(** * NodeBlock: the node's proof of work, from the block to the verdict

    The hashing blob of a block (src/cryptonote_basic: block_header, get_block_hashing_blob), which hash it is (get_block_longhash; the
    seed of the dataset, rx_seedheight of src/crypto/rx-slow-hash.c), the two places where src/cryptonote_core/blockchain.cpp compares it
    with the difficulty, and the node's own search for a nonce (src/cryptonote_basic/miner.cpp).  src/crypto/lattice.c repeats
    pow/lattice_ref.c, so [lattice_hash] is its hash too.  The theorems follow a nonce from the miner to the node.

    Parameters: Keccak ([cn_fast_hash]), the serialization of transactions ([get_transaction_hash], [None] when it throws), and the two
    older hashes (RandomX and CryptoNight), which blocks of the Lattice version do not use. *)
From S2P Require Import Prelude Bytes Effects PoolState PoolShares Lattice LatticeSafety LatticeHash Miner MinerShare Base58 NodeInt NodeWork NodeCodec NodeTree.
Local Open Scope Z_scope.

(** ** The seed's height (rx-slow-hash.c) *)

Definition SEEDHASH_EPOCH_BLOCKS : Z := 2048.
Definition SEEDHASH_EPOCH_LAG : Z := 64.

Definition is_power_of_2 (n : Z) : bool := negb (n =? 0) && (Z.land n (n - 1) =? 0).

(** [e]: the environment's value as [atoi] reads it, when the variable is set. *)
Definition get_seedhash_epoch_lag (e : option Z) : Z :=
  match e with
  | Some n => let lag := n mod 2 ^ 32 in if (SEEDHASH_EPOCH_LAG <? lag) || negb (is_power_of_2 lag) then SEEDHASH_EPOCH_LAG else lag
  | None => SEEDHASH_EPOCH_LAG
  end.
Definition get_seedhash_epoch_blocks (e : option Z) : Z :=
  match e with
  | Some n =>
      let blocks := n mod 2 ^ 32 in
      if (blocks <? 2) || (SEEDHASH_EPOCH_BLOCKS <? blocks) || negb (is_power_of_2 blocks) then SEEDHASH_EPOCH_BLOCKS else blocks
  | None => SEEDHASH_EPOCH_BLOCKS
  end.

(** The two variables of the environment. *)
Record environment : Type := mk_environment { env_lag : option Z; env_blocks : option Z }.

Definition rx_seedheight (env : environment) (height : Z) : Z :=
  let seedhash_epoch_lag := get_seedhash_epoch_lag (env_lag env) in
  let seedhash_epoch_blocks := get_seedhash_epoch_blocks (env_blocks env) in
  if height <=? w64 (seedhash_epoch_blocks + seedhash_epoch_lag) then 0
  else Z.land (w64 (height - seedhash_epoch_lag - 1)) (w64 (Z.lnot (seedhash_epoch_blocks - 1))).

Definition rx_seedheights (env : environment) (height : Z) : Z * Z :=
  (rx_seedheight env height, rx_seedheight env (w64 (height + get_seedhash_epoch_lag (env_lag env)))).

(** ** Blocks *)

Record block_header : Type := mk_block_header {
  major_version : Z;
  minor_version : Z;
  timestamp : Z;
  prev_id : bytes;
  nonce : Z
}.

(** [serialize_uint]: [n] bytes, the least significant first. *)
Fixpoint serialize_uint (n : nat) (v : Z) : bytes :=
  match n with
  | O => []
  | S k => Z.land v 0xff :: serialize_uint k (Z.shiftr v 8)
  end.

Definition serialize_header (h : block_header) : option bytes :=
  v1 ← Cpp.get_varint_data (major_version h);
  v2 ← Cpp.get_varint_data (minor_version h);
  v3 ← Cpp.get_varint_data (timestamp h);
  Some (v1 ++ v2 ++ v3 ++ prev_id h ++ serialize_uint 4 (nonce h)).

Definition HF_VERSION_LATTICE : Z := 18.
Definition RX_BLOCK_VERSION : Z := 12.
Definition HF_VERSION_CRYPTONIGHT_VARIANT_1 : Z := 7.

(** The bytes of [longhash_202612]. *)
Definition longhash_202612 : bytes :=
  [0x84; 0xf6; 0x47; 0x66; 0x47; 0x5d; 0x51; 0x83; 0x7a; 0xc9; 0xef; 0xbe; 0xf1; 0x92; 0x64; 0x86;
   0xe5; 0x85; 0x63; 0xc9; 0x5a; 0x19; 0xfe; 0xf4; 0xae; 0xc3; 0x25; 0x4f; 0x03; 0x00; 0x00; 0x00].

Section Node.
Context (K : knobs) (uninit : string -> Z -> list Z) (env : environment).
Context (cn_fast_hash : bytes -> bytes) {transaction : Type} (get_transaction_hash : transaction -> option bytes).
Context (rx_slow_hash : bytes -> bytes -> bytes) (cn_slow_hash : bytes -> Z -> Z -> bytes).

Record block : Type := mk_block {
  hdr : block_header;
  miner_tx : transaction;
  tx_hashes : list bytes
}.

Definition set_nonce (b : block) (n : Z) : block :=
  mk_block (mk_block_header (major_version (hdr b)) (minor_version (hdr b)) (timestamp (hdr b)) (prev_id (hdr b)) n) (miner_tx b) (tx_hashes b).

Definition get_tx_tree_hash (b : block) : option bytes :=
  h ← get_transaction_hash (miner_tx b);
  tree_hash cn_fast_hash (h :: tx_hashes b).

Definition get_block_hashing_blob (b : block) : option bytes :=
  blob ← serialize_header (hdr b);
  tree_root_hash ← get_tx_tree_hash b;
  count ← Cpp.get_varint_data (w64 (Z.of_nat (length (tx_hashes b)) + 1));
  Some (blob ++ tree_root_hash ++ count).

(** [get_block_longhash] of cryptonote_format_utils.cpp. *)
Definition blob_longhash (block_hashing_blob : bytes) (height major_version : Z) (seed_hash : bytes) : option bytes :=
  if height =? 202612 then Some longhash_202612
  else if HF_VERSION_LATTICE <=? major_version then lattice_hash K uninit block_hashing_blob seed_hash
  else if RX_BLOCK_VERSION <=? major_version then Some (rx_slow_hash seed_hash block_hashing_blob)
  else
    let pow_variant :=
      if HF_VERSION_CRYPTONIGHT_VARIANT_1 <=? major_version then major_version - (HF_VERSION_CRYPTONIGHT_VARIANT_1 - 1) else 0 in
    Some (cn_slow_hash block_hashing_blob pow_variant height).

(** [get_block_longhash] of cryptonote_tx_utils.cpp: [pbc] is the chain's block ids by height, when there is a chain. *)
Definition get_block_longhash (pbc : option (Z -> bytes)) (b : block) (height : Z) (seed_hash : option bytes) : option bytes :=
  bd ← get_block_hashing_blob b;
  let seed :=
    match pbc with
    | Some ids =>
        if RX_BLOCK_VERSION <=? major_version (hdr b) then default (ids (rx_seedheight env height)) seed_hash else null_hash
    | None => null_hash
    end in
  blob_longhash bd height (major_version (hdr b)) seed.

Definition get_altblock_longhash (b : block) (seed_hash : bytes) : option bytes :=
  bd ← get_block_hashing_blob b;
  if HF_VERSION_LATTICE <=? major_version (hdr b) then lattice_hash K uninit bd seed_hash
  else Some (rx_slow_hash seed_hash bd).

(** ** The verdict (blockchain.cpp) *)

Context (mul : Z -> Z -> Z * Z).

(** In [handle_block_to_main_chain]: [found] is the entry of the table of hashes computed beforehand. *)
Definition main_chain_pow (fast_check : bool) (found : option bytes) (ids : Z -> bytes) (b : block) (height current_diffic : Z) : option bool :=
  if fast_check then Some true
  else
    proof_of_work ← (match found with Some h => Some h | None => get_block_longhash (Some ids) b height None end);
    check_hash mul proof_of_work current_diffic.

(** In [handle_alternative_block]: the heights and previous ids of the blocks of the alternative chain. *)
Fixpoint alt_seed (alt_chain : list (Z * bytes)) (seedheight : Z) : bytes :=
  match alt_chain with
  | [] => null_hash
  | (height, prev) :: rest => if height =? w64 (seedheight + 1) then prev else alt_seed rest seedheight
  end.

Definition alternative_pow (alt_chain : list (Z * bytes)) (ids : Z -> bytes) (b : block) (height current_diff : Z) : option bool :=
  proof_of_work ←
    (if RX_BLOCK_VERSION <=? major_version (hdr b) then
       let seedheight := rx_seedheight env height in
       let seedhash :=
         match alt_chain with
         | (front, _) :: _ => if front <=? seedheight then alt_seed alt_chain seedheight else ids seedheight
         | [] => ids seedheight
         end in
       get_altblock_longhash b seedhash
     else get_block_longhash (Some ids) b height None);
  check_hash mul proof_of_work current_diff.

(** ** The node's own search (miner.cpp) *)

(** [find_nonce_for_given_block]: the block with the nonce it ends at, and whether it was found; [None] when the fuel runs out or a
    hash fails. *)
Fixpoint find_nonce_for_given_block (fuel : nat) (gbh : block -> Z -> option bytes -> option bytes) (bl : block) (diffic height : Z)
    (seed_hash : option bytes) : option (bool * block) :=
  match fuel with
  | O => None
  | S f =>
      if nonce (hdr bl) =? 2 ^ 32 - 1 then Some (false, bl)
      else
        h ← gbh bl height seed_hash;
        ok ← check_hash mul h diffic;
        if ok : bool then Some (true, bl)
        else find_nonce_for_given_block f gbh (set_nonce bl ((nonce (hdr bl) + 1) mod 2 ^ 32)) diffic height seed_hash
  end.
End Node.

Arguments mk_block {_}. Arguments hdr {_}. Arguments miner_tx {_}. Arguments tx_hashes {_}. Arguments set_nonce {_}.

(** ** The seed's height *)

Lemma power_of_2_small n : 0 <= n <= 2048 -> is_power_of_2 n = true -> exists k, 0 <= k <= 11 /\ n = 2 ^ k.
Proof.
  intros Hn Hp. assert (forallb (fun n => negb (is_power_of_2 n) || existsb (fun k => n =? 2 ^ k) (seqZ 0 12)) (seqZ 0 2049) = true) as F by (vm_compute; reflexivity).
  rewrite forallb_forall in F. specialize (F n). rewrite Hp in F. cbn [negb orb] in F.
  destruct (proj1 (existsb_exists _ _) (F ltac:(apply list_elem_of_In, elem_of_seqZ; lia))) as (k & Hk & E).
  apply list_elem_of_In, elem_of_seqZ in Hk. apply Z.eqb_eq in E. exists k. split; [lia|done].
Qed.

Lemma epoch_lag_ok e : exists k, 0 <= k <= 6 /\ get_seedhash_epoch_lag e = 2 ^ k.
Proof.
  unfold get_seedhash_epoch_lag. destruct e as [n|]; [|by exists 6]. destruct (Z.ltb_spec SEEDHASH_EPOCH_LAG (n mod 2 ^ 32)) as [|Hle]; [by exists 6|].
  destruct (is_power_of_2 (n mod 2 ^ 32)) eqn:E; [|by exists 6]. cbn [orb negb]. unfold SEEDHASH_EPOCH_LAG in Hle.
  pose proof (Z.mod_pos_bound n (2 ^ 32) ltac:(lia)). destruct (power_of_2_small (n mod 2 ^ 32) ltac:(lia) E) as (k & Hk & Ek). exists k. split; [|done].
  split; [lia|]. apply (Z.pow_le_mono_r_iff 2); [lia|lia|]. rewrite <- Ek. done.
Qed.

Lemma epoch_blocks_ok e : exists k, 1 <= k <= 11 /\ get_seedhash_epoch_blocks e = 2 ^ k.
Proof.
  unfold get_seedhash_epoch_blocks. destruct e as [n|]; [|by exists 11]. destruct (Z.ltb_spec (n mod 2 ^ 32) 2) as [|H2]; [by exists 11|].
  destruct (Z.ltb_spec SEEDHASH_EPOCH_BLOCKS (n mod 2 ^ 32)) as [|Hle]; [by exists 11|].
  destruct (is_power_of_2 (n mod 2 ^ 32)) eqn:E; [|by exists 11]. cbn [orb negb]. unfold SEEDHASH_EPOCH_BLOCKS in Hle.
  destruct (power_of_2_small (n mod 2 ^ 32) ltac:(lia) E) as (k & Hk & Ek). exists k. split; [|done].
  split; [|lia]. apply (Z.pow_le_mono_r_iff 2); [lia|lia|]. rewrite <- Ek. done.
Qed.

(** Clearing the low bits. *)
Lemma land_not_low x k : 0 <= k <= 64 -> word_ok x -> Z.land x (w64 (Z.lnot (2 ^ k - 1))) = x / 2 ^ k * 2 ^ k.
Proof.
  intros Hk Hx. rewrite <- Z.shiftl_mul_pow2, <- Z.shiftr_div_pow2, <- Z.ldiff_ones_r by lia. rewrite Z.ones_equiv, <- Z.sub_1_r.
  unfold w64. rewrite <- Z.land_ones, Z.ldiff_land, (Z.land_comm (Z.lnot _)), Z.land_assoc, Z.land_ones by lia. f_equal. apply Z.mod_small, Hx.
Qed.

(** The seed's height with an epoch of [2 ^ k] blocks. *)
Definition seed_of (k lag height : Z) : Z := if height <=? 2 ^ k + lag then 0 else (height - lag - 1) / 2 ^ k * 2 ^ k.

Lemma rx_seedheight_eq env height : 0 <= height < 2 ^ 64 ->
  exists k j, 1 <= k <= 11 /\ 0 <= j <= 6 /\ get_seedhash_epoch_blocks (env_blocks env) = 2 ^ k /\ get_seedhash_epoch_lag (env_lag env) = 2 ^ j /\
    rx_seedheight env height = seed_of k (2 ^ j) height.
Proof.
  intros Hh. destruct (epoch_blocks_ok (env_blocks env)) as (k & Hk & Ek). destruct (epoch_lag_ok (env_lag env)) as (j & Hj & Ej).
  exists k, j. do 4 (split; [done|]). unfold rx_seedheight, seed_of. rewrite Ek, Ej.
  assert (2 ^ k <= 2 ^ 11) by (apply Z.pow_le_mono_r; lia). assert (2 ^ j <= 2 ^ 6) by (apply Z.pow_le_mono_r; lia).
  assert (0 < 2 ^ k) by (apply Z.pow_pos_nonneg; lia). assert (0 < 2 ^ j) by (apply Z.pow_pos_nonneg; lia).
  rewrite (w64_small (2 ^ k + 2 ^ j)) by lia. destruct (Z.leb_spec height (2 ^ k + 2 ^ j)); [done|].
  rewrite w64_small by lia. apply land_not_low; [lia|]. unfold word_ok. lia.
Qed.

Lemma seed_of_ok k lag h : 0 <= k -> 0 < lag -> 0 <= h ->
  0 <= seed_of k lag h /\ seed_of k lag h mod 2 ^ k = 0 /\ (0 < h -> seed_of k lag h < h) /\
  (seed_of k lag h <> 0 -> seed_of k lag h + lag < h <= seed_of k lag h + lag + 2 ^ k).
Proof.
  intros Hk Hlag Hh. unfold seed_of. assert (0 < 2 ^ k) by (apply Z.pow_pos_nonneg; lia).
  destruct (Z.leb_spec h (2 ^ k + lag)); [rewrite Z.mod_0_l by lia; lia|]. rewrite Z.mod_mul by lia.
  pose proof (Z.div_mod (h - lag - 1) (2 ^ k)). pose proof (Z.mod_pos_bound (h - lag - 1) (2 ^ k)). split; [|lia].
  apply Z.mul_nonneg_nonneg; [apply Z.div_pos; lia|lia].
Qed.

Lemma seed_of_next k lag h h' : 0 <= k -> 0 < lag <= 2 ^ k -> 0 <= h <= h' -> h' <= h + lag ->
  seed_of k lag h' = seed_of k lag h \/ seed_of k lag h' = seed_of k lag (h + lag).
Proof.
  intros Hk Hlag Hh Hh'. unfold seed_of. assert (0 < 2 ^ k) as Hp by (apply Z.pow_pos_nonneg; lia). set (E := 2 ^ k) in *. clearbody E.
  assert (forall x y, 0 <= x <= y -> y <= x + lag -> y / E = x / E \/ y / E = x / E + 1) as Hstep.
  { intros x y Hx Hy. pose proof (Z.div_mod x E ltac:(lia)). pose proof (Z.mod_pos_bound x E Hp). assert (x / E <= y / E) by (apply Z.div_le_mono; lia).
    assert (y / E < x / E + 2) by (apply Z.div_lt_upper_bound; lia). lia. }
  destruct (Z.leb_spec h (E + lag)), (Z.leb_spec h' (E + lag)), (Z.leb_spec (h + lag) (E + lag)); try lia.
  - right. f_equal. assert (1 <= (h' - lag - 1) / E) by (apply Z.div_le_lower_bound; lia).
    assert ((h + lag - lag - 1) / E < 2) by (apply Z.div_lt_upper_bound; lia).
    pose proof (Z.div_le_mono (h' - lag - 1) (h + lag - lag - 1) E Hp ltac:(lia)). lia.
  - destruct (Hstep (h - lag - 1) (h' - lag - 1) ltac:(lia) ltac:(lia)) as [ -> |E1]; [by left|right]. f_equal.
    pose proof (Z.div_le_mono (h' - lag - 1) (h + lag - lag - 1) E Hp ltac:(lia)).
    destruct (Hstep (h - lag - 1) (h + lag - lag - 1) ltac:(lia) ltac:(lia)); lia.
Qed.

(** The seed is below the block, and from the second epoch on not its parent. *)
Lemma seed_below env height :
  0 < height -> height + SEEDHASH_EPOCH_LAG < 2 ^ 64 ->
  0 <= rx_seedheight env height < height /\ (rx_seedheight env height <> 0 -> rx_seedheight env height + 1 < height).
Proof.
  intros Hh Hm. unfold SEEDHASH_EPOCH_LAG in Hm. destruct (rx_seedheight_eq env height ltac:(lia)) as (k & j & Hk & Hj & Ek & Ej & Es).
  assert (2 ^ j <= 2 ^ 6) by (apply Z.pow_le_mono_r; lia). assert (0 < 2 ^ j) by (apply Z.pow_pos_nonneg; lia).
  destruct (seed_of_ok k (2 ^ j) height) as (H1 & H2 & H3 & H4); [lia..|]. rewrite Es. split; [specialize (H3 Hh); lia|]. intros Hs. specialize (H4 Hs). lia.
Qed.

(** The seed of the dataset is settled: its height is a multiple of the epoch's length and below the block's, and from the second
    epoch on by more than the lag, however the environment sets the two lengths.  With a lag of at most an epoch, [rx_seedheights] gives
    every seed that the next blocks, as many as the lag, can have. *)
Theorem seedheight_settled env height h' :
  0 < height -> height + SEEDHASH_EPOCH_LAG < 2 ^ 64 ->
  let s := rx_seedheight env height in
  let blocks := get_seedhash_epoch_blocks (env_blocks env) in let lag := get_seedhash_epoch_lag (env_lag env) in
  0 <= s < height /\ s mod blocks = 0 /\ (s <> 0 -> s + lag < height <= s + lag + blocks) /\
  (lag <= blocks -> height <= h' <= height + lag -> rx_seedheight env h' = (rx_seedheights env height).1 \/ rx_seedheight env h' = (rx_seedheights env height).2).
Proof.
  intros Hh Hm. cbv zeta. unfold SEEDHASH_EPOCH_LAG in Hm. destruct (rx_seedheight_eq env height ltac:(lia)) as (k & j & Hk & Hj & Ek & Ej & Es).
  assert (2 ^ j <= 2 ^ 6) by (apply Z.pow_le_mono_r; lia). assert (0 < 2 ^ j) by (apply Z.pow_pos_nonneg; lia).
  destruct (seed_of_ok k (2 ^ j) height) as (H1 & H2 & H3 & H4); [lia..|]. rewrite Es, Ek, Ej. split; [specialize (H3 Hh); lia|]. do 2 (split; [done|]).
  intros Hlag Hr. unfold rx_seedheights. cbn [fst snd]. rewrite Ej, w64_small, Es by lia.
  assert (forall h, 0 <= h < 2 ^ 64 -> rx_seedheight env h = seed_of k (2 ^ j) h) as He.
  { intros h Hb. destruct (rx_seedheight_eq env h Hb) as (k' & j' & Hk' & Hj' & Ek' & Ej' & ->). rewrite Ek in Ek'. rewrite Ej in Ej'.
    apply Z.pow_inj_r in Ek', Ej'; [by subst|lia..]. }
  rewrite !He by lia. apply seed_of_next; lia.
Qed.

Lemma seedheight_settled_witness :
  let env := mk_environment None (Some 300) in rx_seedheight env 202700 = 200704 /\ 200704 + 64 < 202700 <= 200704 + 64 + 2048.
Proof.
  split; [vm_compute; reflexivity|].
  apply (seedheight_settled (mk_environment None (Some 300)) 202700 202700 ltac:(lia) ltac:(vm_compute; reflexivity)). vm_compute. congruence.
Defined.

(** ** The blob *)

Lemma serialize_uint_nonce n : 0 <= n -> serialize_uint 4 n = nonce_bytes n.
Proof.
  intros Hn. unfold nonce_bytes. change (seqZ 0 4) with [0; 1; 2; 3]. cbn [map serialize_uint]. rewrite !Z.shiftr_shiftr by lia.
  change 0xff with (Z.ones 8). rewrite !Z.land_ones by lia. change (2 ^ 8) with 256. by rewrite Z.shiftr_0_r.
Qed.

Lemma high_bit x : 0 <= x < 128 -> Z.land (x + 128) 0x80 <> 0.
Proof. intros Hx. destruct (byte_bits x Hx) as (_ & _ & _ & E). by apply Z.eqb_neq in E. Qed.

Lemma vbytes_is_varint f : forall n, 0 <= n < 128 ^ Z.of_nat (S f) -> is_varint (vbytes (S f) n) /\ (length (vbytes (S f) n) <= S f)%nat.
Proof.
  induction f as [|f IH]; intros n Hn; rewrite vbytes_S; destruct (Z.leb_spec 128 n) as [Hge|Hlt].
  1: { change (128 ^ Z.of_nat 1) with 128 in Hn. lia. }
  2: { rewrite Nat2Z.inj_succ, Z.pow_succ_r in Hn by lia. destruct (IH (n / 128)) as [(init & last & E & Hi & Hl) Hlen].
    - split; [apply Z.div_pos; lia|apply Z.div_lt_upper_bound; lia].
    - split; [|cbn [length]; lia]. rewrite E. exists ((n mod 128 + 128) :: init), last. split; [done|]. split; [|done].
      apply Forall_cons_2; [|done]. apply high_bit, Z.mod_pos_bound. lia. }
  all: split; [|cbn [length]; lia]; exists [], n; (split; [done|]); (split; [by apply Forall_nil|]); apply byte_bits; lia.
Qed.

Lemma varint_short n k : (k <= 9)%nat -> 0 <= n < 128 ^ Z.of_nat (S k) -> n < 2 ^ 64 ->
  exists v, Cpp.get_varint_data n = Some v /\ is_varint v /\ bytes_ok v /\ (length v <= S k)%nat.
Proof.
  intros Hk Hn H64. exists (vbytes 10 n). split; [apply get_varint_data_vbytes; lia|]. rewrite (vbytes_fuel k 9 n Hn Hk).
  destruct (vbytes_is_varint k n Hn) as [H1 H2]. split; [done|]. split; [apply vbytes_ok; lia|done].
Qed.

Lemma merkle_Forall H (P : bytes -> Prop) hashes r :
  (forall b, P (H b)) -> Forall P hashes -> merkle H hashes = Some r -> P r.
Proof.
  intros HH Hl. unfold merkle. assert (forall l, Forall P (pairs H l)) as Hp by (intros l; apply Forall_fmap, Forall_true; intros k; apply HH).
  set (l := take _ hashes ++ _). assert (Forall P l) as Hl' by (apply Forall_app; split; [by apply Forall_take|apply Hp]). clearbody l.
  intros E. apply (Forall_lookup_1 P (Nat.iter (pred (Nat.log2_up (length hashes))) (pairs H) l) 0); [|done].
  destruct (pred (Nat.log2_up (length hashes))); [done|apply Hp].
Qed.

Section Work.
Context (K : knobs) (HK : 16 <= SCRATCH_WORDS K) (env : environment) (mul : Z -> Z -> Z * Z) `{HM : !WideMul mul}.
Context (cn_fast_hash : bytes -> bytes) (Hkeccak : forall b, bytes_ok (cn_fast_hash b) /\ length (cn_fast_hash b) = 32%nat).
Context {transaction : Type} (get_transaction_hash : transaction -> option bytes).
Context (rx_slow_hash : bytes -> bytes -> bytes) (cn_slow_hash : bytes -> Z -> Z -> bytes).

Definition hash_ok (h : bytes) : Prop := bytes_ok h /\ length h = 32%nat.

(** Blocks as the types have them, with a coinbase that can be hashed. *)
Definition wf_block (b : block (transaction := transaction)) : Prop :=
  0 <= major_version (hdr b) < 2 ^ 8 /\ 0 <= minor_version (hdr b) < 2 ^ 8 /\ 0 <= timestamp (hdr b) < 2 ^ 64 /\
  hash_ok (prev_id (hdr b)) /\ 0 <= nonce (hdr b) < 2 ^ 32 /\ Forall hash_ok (tx_hashes b) /\
  exists h, get_transaction_hash (miner_tx b) = Some h /\ hash_ok h.

Lemma set_nonce_wf b n : wf_block b -> 0 <= n < 2 ^ 32 -> wf_block (set_nonce b n).
Proof. intros (H1 & H2 & H3 & H4 & H5 & H6 & H7) Hn. exact (conj H1 (conj H2 (conj H3 (conj H4 (conj Hn (conj H6 H7)))))). Qed.

Lemma set_nonce_same b : set_nonce b (nonce (hdr (transaction := transaction) b)) = b.
Proof. by destruct b as [[]]. Qed.

Lemma set_nonce_twice (b : block (transaction := transaction)) n m : set_nonce (set_nonce b n) m = set_nonce b m.
Proof. done. Qed.

(** The blob of a block: the nonce is four bytes at the miners' offset, and nothing else depends on it. *)
Lemma hashing_blob b : wf_block b ->
  exists pre post, bytes_ok pre /\ bytes_ok post /\ (length pre + 4 + length post <= 250)%nat /\
    (forall x, nonceOffset (pre ++ x ++ post) = Z.of_nat (length pre)) /\
    forall n, 0 <= n < 2 ^ 32 -> get_block_hashing_blob cn_fast_hash get_transaction_hash (set_nonce b n) = Some (pre ++ nonce_bytes n ++ post).
Proof.
  intros (H1 & H2 & H3 & [H4 L4] & H5 & H6 & h & H7 & H8).
  destruct (varint_short (major_version (hdr b)) 1) as (v1 & E1 & V1 & B1 & S1); [lia|change (128 ^ Z.of_nat 2) with (2 ^ 14); lia|lia|].
  destruct (varint_short (minor_version (hdr b)) 1) as (v2 & E2 & V2 & B2 & S2); [lia|change (128 ^ Z.of_nat 2) with (2 ^ 14); lia|lia|].
  destruct (varint_short (timestamp (hdr b)) 9) as (v3 & E3 & V3 & B3 & S3); [lia|change (128 ^ Z.of_nat 10) with (2 ^ 70); lia|lia|].
  pose proof (w64_ok (Z.of_nat (length (tx_hashes b)) + 1)) as Hw. unfold word_ok in Hw.
  destruct (varint_short (w64 (Z.of_nat (length (tx_hashes b)) + 1)) 9) as (v4 & E4 & V4 & B4 & S4);
    [lia|change (128 ^ Z.of_nat 10) with (2 ^ 70); lia|lia|].
  destruct (tree_hash_root cn_fast_hash (h :: tx_hashes b)) as [Et [root Er]]; [done|].
  assert (hash_ok root) as [Hr Lr] by (rewrite Er in Et; symmetry in Et; by apply (merkle_Forall _ _ _ _ Hkeccak (Forall_cons_2 _ _ _ H8 H6)) in Et).
  exists (v1 ++ v2 ++ v3 ++ prev_id (hdr b)), (root ++ v4). split_and!.
  - repeat (apply Forall_app; split); done.
  - by apply Forall_app.
  - rewrite !length_app. lia.
  - intros x. rewrite <- !app_assoc, nonceOffset_header by done. rewrite !length_app. lia.
  - intros n Hn. unfold get_block_hashing_blob, serialize_header, get_tx_tree_hash. cbn [set_nonce hdr major_version minor_version timestamp prev_id nonce miner_tx tx_hashes].
    rewrite E1, E2, E3, E4, H7. cbn [mbind option_bind]. rewrite Er. cbn [mbind option_bind]. rewrite serialize_uint_nonce by lia. by rewrite <- !app_assoc.
Qed.

(** The same seen from one block's blob. *)
Lemma blob_spliced b : wf_block b ->
  exists blob, get_block_hashing_blob cn_fast_hash get_transaction_hash b = Some blob /\ bytes_ok blob /\ Z.of_nat (length blob) <= 250 /\
    nonceOffset blob + 4 <= Z.of_nat (length blob) /\
    forall n, 0 <= n < 2 ^ 32 -> get_block_hashing_blob cn_fast_hash get_transaction_hash (set_nonce b n) = Some (spliced blob (nonceOffset blob) n).
Proof using Hkeccak.
  intros Hb. destruct (hashing_blob b Hb) as (pre & post & Hp & Hq & Hl & Ho & E). destruct (nonce_bytes_ok (nonce (hdr b))) as [N1 N2].
  exists (pre ++ nonce_bytes (nonce (hdr b)) ++ post). rewrite Ho, !length_app, N2. split_and!; [|repeat (apply Forall_app; split); done|lia|lia|].
  - rewrite <- E, set_nonce_same by apply Hb. done.
  - intros n Hn. rewrite E by done. f_equal. unfold spliced. rewrite Nat2Z.id, take_app_length. f_equal. f_equal.
    rewrite app_assoc, drop_app_length'; [done|]. rewrite length_app. lia.
Qed.

(** ** The verdict *)

(** The hash of the reference with the seed of a dataset. *)
Lemma lattice_hash_seed blob seed ds :
  bytes_ok blob -> Z.of_nat (length blob) < 2 ^ 31 -> words DATASET_WORDS ds ->
  (forall u buf, sized u -> Z.of_nat (length buf) = DATASET_WORDS -> lattice_build_dataset u seed buf = Some ds) ->
  exists h, hash_ok h /\ (forall u, sized u -> lattice_hash_ds K u blob ds = Some h) /\ (forall u, sized u -> lattice_hash K u blob seed = Some h).
Proof using HK.
  intros Hb Hl Hds Hbuild. destruct (hash_value K HK blob ds Hb Hl Hds) as (h & H1 & H2 & H3). exists h. do 2 (split; [done|]).
  intros u Hu. unfold lattice_hash. rewrite (Hbuild u (u "ds"%string DATASET_WORDS) Hu) by (apply Hu; vm_compute; congruence).
  rewrite bind_some. by apply H3.
Qed.

Section Chain.
Context (ids : Z -> bytes) (height : Z) (ds : list Z) (u : string -> Z -> list Z) (Hu : sized u).
Context (Hheight : height <> 202612) (Hds : words DATASET_WORDS ds).
Context (Hbuild : forall u buf, sized u -> Z.of_nat (length buf) = DATASET_WORDS -> lattice_build_dataset u (ids (rx_seedheight env height)) buf = Some ds).

(** Whether a block's hash meets a difficulty, as the miners have it. *)
Definition meets (b : block (transaction := transaction)) (d n : Z) : Prop :=
  exists blob, get_block_hashing_blob cn_fast_hash get_transaction_hash b = Some blob /\ wins K u blob (nonceOffset blob) ds d n.

Lemma longhash_share b blob n :
  wf_block b -> HF_VERSION_LATTICE <= major_version (hdr b) -> get_block_hashing_blob cn_fast_hash get_transaction_hash b = Some blob -> 0 <= n < 2 ^ 32 ->
  hash_ok (share_hash K u blob (nonceOffset blob) ds n) /\
  get_block_longhash K u env cn_fast_hash get_transaction_hash rx_slow_hash cn_slow_hash (Some ids) (set_nonce b n) height None
    = Some (share_hash K u blob (nonceOffset blob) ds n) /\
  get_altblock_longhash K u cn_fast_hash get_transaction_hash rx_slow_hash (set_nonce b n) (ids (rx_seedheight env height))
    = Some (share_hash K u blob (nonceOffset blob) ds n).
Proof using HK Hkeccak Hu Hheight Hds Hbuild.
  intros Hb Hv Hblob Hn. destruct (blob_spliced b Hb) as (blob' & E & Hbb & Hbl & Hoff & Hsp). rewrite Hblob in E. injection E as <-.
  assert (0 <= nonceOffset blob) as Ho by (unfold nonceOffset; lia).
  destruct (spliced_ok blob (nonceOffset blob) n Hbb Ho Hoff) as [Hs Hsl].
  destruct (lattice_hash_seed (spliced blob (nonceOffset blob) n) _ ds Hs ltac:(lia) Hds Hbuild) as (h & [Hh Hhl] & Hd & Hl).
  assert (share_hash K u blob (nonceOffset blob) ds n = h) as -> by (unfold share_hash; rewrite Z.mod_small by done; by rewrite (Hd u Hu)).
  split; [done|]. unfold get_block_longhash, get_altblock_longhash, blob_longhash. rewrite Hsp by done.
  cbn [set_nonce hdr major_version]. unfold HF_VERSION_LATTICE, RX_BLOCK_VERSION in *. rewrite !bind_some.
  destruct (Z.leb_spec 18 (major_version (hdr b))); [|lia]. destruct (Z.leb_spec 12 (major_version (hdr b))); [|lia].
  destruct (Z.eqb_spec height 202612); [done|]. cbn [default]. by rewrite (Hl u Hu).
Qed.

Lemma verdict_meets b d n :
  wf_block b -> HF_VERSION_LATTICE <= major_version (hdr b) -> 0 <= n < 2 ^ 32 -> 0 <= d < 2 ^ 128 ->
  exists ok : bool, (ok = true <-> meets b d n) /\
    main_chain_pow K u env cn_fast_hash get_transaction_hash rx_slow_hash cn_slow_hash mul false None ids (set_nonce b n) height d = Some ok /\
    alternative_pow K u env cn_fast_hash get_transaction_hash rx_slow_hash cn_slow_hash mul [] ids (set_nonce b n) height d = Some ok.
Proof using HK Hkeccak Hu Hheight Hds Hbuild HM.
  intros Hb Hv Hn Hd. destruct (blob_spliced b Hb) as (blob & E & _).
  destruct (longhash_share b blob n Hb Hv E Hn) as ([Hh Hl] & E1 & E2). set (h := share_hash K u blob (nonceOffset blob) ds n) in *.
  exists (bool_decide (value h * d < 2 ^ 256)). split; [|split].
  - rewrite bool_decide_eq_true. unfold meets, wins. split; [by exists blob|]. intros (blob' & E' & Hw). rewrite E in E'. by injection E' as <-.
  - unfold main_chain_pow. rewrite E1, bind_some. by apply check_hash_product.
  - unfold alternative_pow. cbn [set_nonce hdr major_version]. unfold HF_VERSION_LATTICE, RX_BLOCK_VERSION in *.
    destruct (Z.leb_spec 12 (major_version (hdr b))); [|lia]. rewrite E2, bind_some. by apply check_hash_product.
Qed.

(** The search tries the nonces in order up to the last but one, and stops at the first that meets the difficulty. *)
Lemma find_nonce_ok b d : wf_block b -> HF_VERSION_LATTICE <= major_version (hdr b) -> 0 <= d < 2 ^ 128 ->
  forall f n, 0 <= n < 2 ^ 32 -> (Z.to_nat (2 ^ 32 - n) <= f)%nat ->
  exists ok n', find_nonce_for_given_block mul f
      (fun b h s => get_block_longhash K u env cn_fast_hash get_transaction_hash rx_slow_hash cn_slow_hash (Some ids) b h s) (set_nonce b n) d height None
      = Some (ok, set_nonce b n') /\ n <= n' < 2 ^ 32 /\ (forall m, n <= m < n' -> ~ meets b d m) /\ (if ok : bool then meets b d n' else n' = 2 ^ 32 - 1).
Proof using HK Hkeccak Hu Hheight Hds Hbuild HM.
  intros Hb Hv Hd. induction f as [|f IH]; intros n Hn Hf; [lia|]. cbn [find_nonce_for_given_block]. cbn [set_nonce hdr nonce].
  destruct (Z.eqb_spec n (2 ^ 32 - 1)) as [->|Hne].
  { exists false, (2 ^ 32 - 1). split; [done|]. split; [lia|]. split; [lia|done]. }
  destruct (blob_spliced b Hb) as (blob & E & _). destruct (longhash_share b blob n Hb Hv E Hn) as ([Hh Hl] & E1 & _).
  fold (set_nonce b n). rewrite E1, bind_some, check_hash_product by done. rewrite bind_some.
  assert (meets b d n <-> value (share_hash K u blob (nonceOffset blob) ds n) * d < 2 ^ 256) as Hiff.
  { unfold meets, wins. split; [|by exists blob]. intros (blob' & E' & Hw). rewrite E in E'. by injection E' as <-. }
  case_bool_decide as Hc.
  - exists true, n. split; [done|]. split; [lia|]. split; [lia|by apply Hiff].
  - rewrite set_nonce_twice, Z.mod_small by lia. destruct (IH (n + 1) ltac:(lia) ltac:(lia)) as (ok & n' & F1 & F2 & F3 & F4).
    exists ok, n'. split; [done|]. split; [lia|]. split; [|done]. intros m Hm. destruct (Z.eq_dec m n) as [->|]; [by rewrite Hiff|apply F3; lia].
Qed.
End Chain.
End Work.

(** The blocks of an alternative chain with the ids [chain], from the height where it leaves the main chain up to the block before [height], as
    [handle_alternative_block] has them: each with its height and the id of the block before it. *)
Definition alt_blocks (chain : Z -> bytes) (fork height : Z) : list (Z * bytes) := map (fun h => (h, chain (h - 1))) (seqZ fork (height - fork)).

Lemma alt_seed_found chain s : 0 <= s < 2 ^ 64 - 1 -> forall n from, from <= s + 1 < from + n ->
  alt_seed (map (fun h => (h, chain (h - 1))) (seqZ from n)) s = chain s.
Proof.
  intros Hs n. destruct (Z.le_gt_cases 0 n) as [Hn|]; [|intros; lia]. revert n Hn. refine (natlike_ind _ _ _); [intros; lia|]. intros n Hn IH from Hf.
  rewrite seqZ_cons by lia. cbn [map alt_seed]. rewrite w64_small by lia. destruct (Z.eqb_spec from (s + 1)) as [->|].
  - by rewrite Z.add_simpl_r.
  - rewrite Z.pred_succ. apply IH. lia.
Qed.

(** The seed is that of the chain the block is on, also when it is above the fork. *)
Lemma alternative_pow_chain K u env cn_fast_hash {transaction} (get_transaction_hash : transaction -> option bytes) rx_slow_hash cn_slow_hash mul
    chain main fork (b : block) height d :
  RX_BLOCK_VERSION <= major_version (hdr b) -> 0 < fork <= height -> height + SEEDHASH_EPOCH_LAG < 2 ^ 64 -> (forall h, 0 <= h < fork -> main h = chain h) ->
  alternative_pow K u env cn_fast_hash get_transaction_hash rx_slow_hash cn_slow_hash mul (alt_blocks chain fork height) main b height d =
  alternative_pow K u env cn_fast_hash get_transaction_hash rx_slow_hash cn_slow_hash mul [] chain b height d.
Proof.
  intros Hv Hf Hh Hmain. unfold alternative_pow. destruct (Z.leb_spec RX_BLOCK_VERSION (major_version (hdr b))); [|lia]. do 2 f_equal.
  destruct (seed_below env height ltac:(lia) Hh) as [Hs Hlag]. set (s := rx_seedheight env height) in *. unfold alt_blocks.
  destruct (Z.eq_dec fork height) as [->|Hne]; [rewrite Z.sub_diag; apply Hmain; lia|].
  rewrite seqZ_cons by lia. cbn [map].
  destruct (Z.leb_spec fork s) as [Hle|]; [|apply Hmain; lia].
  change ((fork, chain (fork - 1)) :: map (fun h => (h, chain (h - 1))) (seqZ (Z.succ fork) (Z.pred (height - fork))))
    with (map (fun h => (h, chain (h - 1))) (fork :: seqZ (Z.succ fork) (Z.pred (height - fork)))).
  rewrite <- seqZ_cons by lia. unfold SEEDHASH_EPOCH_LAG in Hh. apply alt_seed_found; [lia|]. specialize (Hlag ltac:(lia)). lia.
Qed.

(** C6: the node accepts what the miners find, for blocks of the Lattice version (18 and above) at every height but 202612 and difficulties of
    64 bits: when a miner searches the blob of a block, at the offset it computes itself and with the dataset of the seed of the chain the block
    is on, then the block with any of the nonces of the batch passes the node's check, in a node with other memory: on the main chain; and as an
    alternative block, whatever the main chain is above the height [fork] where the two part, and wherever the fork is, so also when
    the seed itself is a block of the alternative chain. *)
Theorem node_accepts_mined K env mul `{WideMul mul} cn_fast_hash {transaction} (get_transaction_hash : transaction -> option bytes)
    rx_slow_hash cn_slow_hash (b : block) blob chain height ds u um d start count best wbuf n wbuf' lasth best' w :
  16 <= SCRATCH_WORDS K -> (forall x, bytes_ok (cn_fast_hash x) /\ length (cn_fast_hash x) = 32%nat) ->
  wf_block get_transaction_hash b -> HF_VERSION_LATTICE <= major_version (hdr b) -> height <> 202612 -> height + SEEDHASH_EPOCH_LAG < 2 ^ 64 ->
  sized u -> sized um -> hash_ok (chain (rx_seedheight env height)) ->
  lattice_build_dataset um (chain (rx_seedheight env height)) (zeroed DATASET_WORDS) = Some ds ->
  get_block_hashing_blob cn_fast_hash get_transaction_hash b = Some blob -> 0 <= d < 2 ^ 64 -> 0 <= count ->
  hashMulti K um blob (nonceOffset blob) start count d (Some ds) best wbuf = Some (n, wbuf', lasth, best') -> w ∈ take (Z.to_nat n) wbuf' ->
  main_chain_pow K u env cn_fast_hash get_transaction_hash rx_slow_hash cn_slow_hash mul false None chain (set_nonce b (w mod 2 ^ 32)) height d = Some true /\
  forall main fork, 0 < fork <= height -> (forall h, 0 <= h < fork -> main h = chain h) ->
    alternative_pow K u env cn_fast_hash get_transaction_hash rx_slow_hash cn_slow_hash mul (alt_blocks chain fork height) main
      (set_nonce b (w mod 2 ^ 32)) height d = Some true.
Proof.
  intros HK Hk Hb Hv Hh Hmax Hu Hum [Hseed Lseed] Ebuild Eblob Hd Hc Em Hw.
  destruct (build_dataset_defined _ Hseed Lseed) as (ds' & Hds & Hbuild).
  rewrite (Hbuild um _ Hum) in Ebuild by (apply zeroed_ok; vm_compute; congruence). injection Ebuild as <-.
  destruct (blob_spliced cn_fast_hash Hk get_transaction_hash b Hb) as (blob' & E & Hbb & Hbl & Hoff & _). rewrite Eblob in E. injection E as <-.
  assert (0 <= nonceOffset blob) as Ho by (unfold nonceOffset; lia).
  destruct (hashMulti_spec K HK um Hum blob (nonceOffset blob) ds' d Hbb Ho Hoff Hbl Hds Hd start count best wbuf Hc) as (n1 & wb1 & l1 & b1 & E1 & Ht).
  rewrite Em in E1. injection E1 as <- <- <- <-. rewrite Ht in Hw. apply elem_of_take in Hw as (i & Hw & _).
  apply list_elem_of_lookup_2, list_elem_of_filter in Hw as [Hwin _]. assert (0 <= w mod 2 ^ 32 < 2 ^ 32) as Hn by (apply Z.mod_pos_bound; lia).
  destruct (verdict_meets K HK env mul cn_fast_hash Hk get_transaction_hash rx_slow_hash cn_slow_hash chain height ds' u Hu Hh Hds Hbuild b d (w mod 2 ^ 32) Hb Hv Hn ltac:(lia))
    as (ok & Hok & F1 & F2).
  assert (ok = true) as -> by (apply Hok; exists blob; split; [done|]; unfold wins, share_hash in *; rewrite Z.mod_mod by lia;
    destruct (share_hash_ok K HK um Hum blob (nonceOffset blob) ds' Hbb Ho Hoff Hbl Hds w) as (_ & _ & Hall);
    rewrite (Hall u Hu); rewrite (Hall um Hum) in Hwin; exact Hwin).
  split; [done|]. intros main fork Hf Hmain. rewrite alternative_pow_chain; [done| |done..].
  cbn [set_nonce hdr major_version]. unfold HF_VERSION_LATTICE, RX_BLOCK_VERSION in *. lia.
Qed.

(** A block of the Lattice version whose only transaction is the coinbase, and a chain. *)
Definition a_hash (x : Z) : bytes := replicate 32 x.
Definition a_block : block := mk_block (mk_block_header 18 18 1700000000 (a_hash 7) 0) (a_hash 1) [].
Definition a_chain (_ : Z) : bytes := a_hash 3.
Definition a_env : environment := mk_environment None None.

Lemma a_hash_ok x : 0 <= x < 256 -> bytes_ok (a_hash x) /\ length (a_hash x) = 32%nat.
Proof. intros Hx. split; [|done]. by apply Forall_replicate. Qed.

Lemma a_block_wf : wf_block Some a_block.
Proof. split_and!; try (vm_compute; congruence); try apply a_hash_ok; try lia; [constructor|]. exists (a_hash 1). split; [done|]. apply a_hash_ok. lia. Qed.

(** With a difficulty of one every hash wins. *)
Lemma wins_one K u blob off ds n :
  16 <= SCRATCH_WORDS K -> sized u -> bytes_ok blob -> 0 <= off -> off + 4 <= Z.of_nat (length blob) -> Z.of_nat (length blob) <= 250 ->
  words DATASET_WORDS ds -> wins K u blob off ds 1 n.
Proof.
  intros HK Hu Hb Ho Hf Hl Hds. destruct (share_hash_ok K HK u Hu blob off ds Hb Ho Hf Hl Hds n) as (Hh & Hhl & _).
  pose proof (value_bound _ Hh) as Hv. rewrite Hhl in Hv. unfold wins. change (8 * Z.of_nat 32) with 256 in Hv. lia.
Qed.

Lemma a_batch : exists ds blob n wbuf lasth best,
  lattice_build_dataset no_memory (a_hash 3) (zeroed DATASET_WORDS) = Some ds /\ get_block_hashing_blob (fun _ => a_hash 9) Some a_block = Some blob /\
  hashMulti default_knobs no_memory blob (nonceOffset blob) 5 4 1 (Some ds) 0 (replicate 8 0) = Some (n, wbuf, lasth, best) /\ 5 ∈ take (Z.to_nat n) wbuf.
Proof.
  destruct (a_hash_ok 3 ltac:(lia)) as [H3 L3]. destruct (build_dataset_defined _ H3 L3) as (ds & Hds & Hbuild).
  destruct (blob_spliced (fun _ => a_hash 9) (fun _ => a_hash_ok 9 ltac:(lia)) Some a_block a_block_wf) as (blob & E & Hb & Hl & Hf & _).
  assert (0 <= nonceOffset blob) as Ho by (unfold nonceOffset; lia).
  destruct (hashMulti_spec default_knobs ltac:(by vm_compute) no_memory no_memory_sized blob (nonceOffset blob) ds 1 Hb Ho Hf Hl Hds ltac:(lia) 5 4 0 (replicate 8 0) ltac:(lia))
    as (n & wbuf & lasth & best & Em & Ht).
  exists ds, blob, n, wbuf, lasth, best. split; [apply Hbuild; [exact no_memory_sized|apply zeroed_ok; vm_compute; congruence]|]. do 2 (split; [done|]).
  rewrite Ht. unfold found. rewrite filter_all; [left|]. intros w. by apply wins_one; [by vm_compute|apply no_memory_sized|..].
Qed.

(** On the main chain, and as an alternative that left another main chain at height 100, long below the seed at 4096. *)
Lemma node_accepts_mined_witness :
  main_chain_pow default_knobs no_memory a_env (fun _ => a_hash 9) Some (fun _ _ => []) (fun _ _ _ => []) mul128 false None a_chain
    (set_nonce a_block 5) 5000 1 = Some true /\
  alternative_pow default_knobs no_memory a_env (fun _ => a_hash 9) Some (fun _ _ => []) (fun _ _ _ => []) mul128 (alt_blocks a_chain 100 5000)
    (fun h => if h <? 100 then a_chain h else a_hash 4) (set_nonce a_block 5) 5000 1 = Some true.
Proof.
  destruct a_batch as (ds & blob & n & wbuf & lasth & best & E1 & E2 & E3 & E4). destruct (a_hash_ok 3 ltac:(lia)) as [H3 L3].
  destruct (node_accepts_mined default_knobs a_env mul128 (fun _ => a_hash 9) Some (fun _ _ => []) (fun _ _ _ => []) a_block blob a_chain 5000 ds no_memory no_memory
    1 5 4 0 (replicate 8 0) n wbuf lasth best 5 ltac:(by vm_compute) (fun _ => a_hash_ok 9 ltac:(lia)) a_block_wf ltac:(by vm_compute) ltac:(lia) ltac:(by vm_compute)
    no_memory_sized no_memory_sized (conj H3 L3) E1 E2 ltac:(lia) ltac:(lia) E3 E4) as [Hm Ha].
  split; [exact Hm|]. apply Ha; [lia|]. intros h Hh. destruct (Z.ltb_spec h 100); [done|lia].
Defined.

(** The node's own search returns, with fuel for the nonces that are left, and it is exact: it stops at the first nonce for which the
    block passes the node's check, and reports failure only when no nonce from the given one to the last but one does. *)
Theorem find_nonce_exact K env mul `{WideMul mul} cn_fast_hash {transaction} (get_transaction_hash : transaction -> option bytes)
    rx_slow_hash cn_slow_hash (b : block) ids height u d :
  16 <= SCRATCH_WORDS K -> (forall x, bytes_ok (cn_fast_hash x) /\ length (cn_fast_hash x) = 32%nat) ->
  wf_block get_transaction_hash b -> HF_VERSION_LATTICE <= major_version (hdr b) -> height <> 202612 -> sized u ->
  hash_ok (ids (rx_seedheight env height)) -> 0 <= d < 2 ^ 128 ->
  let gbh b h s := get_block_longhash K u env cn_fast_hash get_transaction_hash rx_slow_hash cn_slow_hash (Some ids) b h s in
  let accepted n :=
    main_chain_pow K u env cn_fast_hash get_transaction_hash rx_slow_hash cn_slow_hash mul false None ids (set_nonce b n) height d in
  exists ok n', nonce (hdr b) <= n' < 2 ^ 32 /\
    find_nonce_for_given_block mul (Z.to_nat (2 ^ 32 - nonce (hdr b))) gbh b d height None = Some (ok, set_nonce b n') /\
    (forall n, nonce (hdr b) <= n < n' -> accepted n = Some false) /\ (if ok : bool then accepted n' = Some true else n' = 2 ^ 32 - 1).
Proof.
  intros HK Hk Hb Hv Hh Hu [Hseed Lseed] Hd gbh accepted. destruct (build_dataset_defined _ Hseed Lseed) as (ds & Hds & Hbuild).
  assert (0 <= nonce (hdr b) < 2 ^ 32) as Hn0 by apply Hb.
  assert (forall n, 0 <= n < 2 ^ 32 -> exists ok : bool, (ok = true <-> meets K cn_fast_hash get_transaction_hash ds u b d n) /\ accepted n = Some ok) as Hacc.
  { intros n Hn. destruct (verdict_meets K HK env mul cn_fast_hash Hk get_transaction_hash rx_slow_hash cn_slow_hash ids height ds u Hu Hh Hds Hbuild b d n Hb Hv Hn Hd)
      as (ok & Hok & F & _). by exists ok. }
  destruct (find_nonce_ok K HK env mul cn_fast_hash Hk get_transaction_hash rx_slow_hash cn_slow_hash ids height ds u Hu Hh Hds Hbuild b d Hb Hv Hd
    (Z.to_nat (2 ^ 32 - nonce (hdr b))) (nonce (hdr b)) Hn0 ltac:(lia)) as (ok & n' & F1 & F2 & F3 & F4).
  rewrite set_nonce_same in F1. exists ok, n'. split; [lia|]. split; [exact F1|]. split.
  - intros n Hn. destruct (Hacc n ltac:(lia)) as ([] & Ho & E); [|done]. by destruct (F3 n Hn); apply Ho.
  - destruct ok; [|done]. destruct (Hacc n' ltac:(lia)) as (ok & Ho & E). rewrite E. f_equal. by apply Ho.
Qed.

Lemma find_nonce_exact_witness : exists ok n, 0 <= n < 2 ^ 32 /\
  find_nonce_for_given_block portable_mul (Z.to_nat (2 ^ 32 - 0)) (fun b h s => get_block_longhash default_knobs no_memory a_env (fun _ => a_hash 9) Some
    (fun _ _ => []) (fun _ _ _ => []) (Some a_chain) b h s) a_block 1000 5000 None = Some (ok, set_nonce a_block n).
Proof.
  destruct (find_nonce_exact default_knobs a_env portable_mul (fun _ => a_hash 9) Some (fun _ _ => []) (fun _ _ _ => []) a_block a_chain 5000 no_memory 1000
    ltac:(by vm_compute) (fun _ => a_hash_ok 9 ltac:(lia)) a_block_wf ltac:(by vm_compute) ltac:(lia) no_memory_sized (a_hash_ok 3 ltac:(lia)) ltac:(lia))
    as (ok & n & H1 & H2 & _). exists ok, n. exact (conj H1 H2).
Defined.

(** At height 202612 the work of a block does not count: whatever the block, its nonce, the seed and the version, the main chain
    compares a constant, the hash of a block of another chain, and accepts exactly when the difficulty is at most 1297898660.  Below that
    no work is needed; above it no block of that height can pass. *)
Theorem height_202612_constant K env mul `{WideMul mul} cn_fast_hash {transaction} (get_transaction_hash : transaction -> option bytes)
    rx_slow_hash cn_slow_hash (b : block) ids u d n :
  (forall x, bytes_ok (cn_fast_hash x) /\ length (cn_fast_hash x) = 32%nat) ->
  wf_block get_transaction_hash b -> 0 <= n < 2 ^ 32 -> 0 <= d < 2 ^ 128 ->
  main_chain_pow K u env cn_fast_hash get_transaction_hash rx_slow_hash cn_slow_hash mul false None ids (set_nonce b n) 202612 d
    = Some (bool_decide (d <= 1297898660)).
Proof.
  intros Hk Hb Hn Hd. destruct (blob_spliced cn_fast_hash Hk get_transaction_hash b Hb) as (blob & E & _ & _ & _ & Hsp).
  unfold main_chain_pow, get_block_longhash. rewrite (Hsp n Hn), bind_some. unfold blob_longhash. rewrite Z.eqb_refl, bind_some.
  assert (bytes_ok longhash_202612) as Hc by (apply (bool_decide_unpack _); vm_compute; exact I). rewrite check_hash_product by done.
  change (value longhash_202612) with 89215046411564691193959715452007818512657566517274072819342024111748.
  f_equal. apply bool_decide_ext. lia.
Qed.

Lemma height_202612_constant_witness :
  main_chain_pow default_knobs no_memory a_env (fun _ => a_hash 9) Some (fun _ _ => []) (fun _ _ _ => []) mul128 false None a_chain
    (set_nonce a_block 0) 202612 1000000000 = Some true.
Proof.
  exact (height_202612_constant default_knobs a_env mul128 (fun _ => a_hash 9) Some (fun _ _ => []) (fun _ _ _ => []) a_block a_chain no_memory 1000000000 0
    (fun _ => a_hash_ok 9 ltac:(lia)) a_block_wf ltac:(lia) ltac:(lia)).
Defined.
