(* ===== verification/NodeChain.v ===== *)
(** * NodeChain: the node's chain, its alternatives and the switch between them (src/cryptonote_core/blockchain.cpp)

    The main chain and the table of alternative blocks are the state; a new block goes to the end of the chain
    ([handle_block_to_main_chain]) or among the alternatives ([handle_alternative_block]), and when an alternative chain has more work
    than the main one the node switches ([switch_to_alternative_blockchain]), unless it forked too deep, and goes back when a block of
    it fails ([rollback_blockchain_switching]).  This is where the rules of this chain are: the cap on the depth of a reorganisation and
    the earliest time stamp.

    A block is whatever has an id, the id of its parent and a time stamp.  The checks that are not about the chain's shape, its time or its
    difficulty are parameters: [main_checks], [alt_checks] and [alt_rest] (hard fork version, coinbase, transactions and weights), and the
    comparison of the proof of work, [pow_ok] and [alt_pow_ok], which is [NodeBlock].  They are functions of the chain and the
    block: in the code the checks of transactions also look into the pool of unconfirmed transactions, so that the transactions of a block which
    is put back after a failed switch are found again is taken for granted here (for a block that does not
    fit any more the code stops with an internal error, on the shorter chain).  The difficulty is not fixed, there are no checkpoints
    (checkpoints.cpp has none), the target is constant (it changes at height two, where the difficulty is one for any target), and heights
    are natural numbers.  [None] is an exception, or fuel that runs out. *)
From stdpp Require Import gmap sorting.
From S2P Require Import Prelude Bytes Lattice Miner NodeTree NodeInt NodeWork.
Local Open Scope Z_scope.

Definition CRYPTONOTE_MAX_REORG_DEPTH : nat := 60.
Definition CRYPTONOTE_BLOCK_FUTURE_TIME_LIMIT : Z := 60 * 60 * 2.
Definition GLACIEM_LAUNCH_TIMESTAMP : Z := 1779249600.
Definition BLOCKCHAIN_TIMESTAMP_CHECK_WINDOW : nat := 60.
Definition DIFFICULTY_LAG : nat := 15.
Definition DIFFICULTY_BLOCKS_COUNT : nat := DIFFICULTY_WINDOW + DIFFICULTY_LAG.

(** ** The median (misc_language.h) *)

Definition get_mid (a b : Z) : Z := w64 (a / 2 + b / 2 + (a - 2 * (a / 2) + (b - 2 * (b / 2))) / 2).

Definition median (v : list Z) : Z :=
  match v with
  | [] => 0
  | [x] => x
  | _ =>
      let n := (length v / 2)%nat in
      let v := merge_sort Z.le v in
      if Nat.odd (length v) then default 0 (v !! n) else get_mid (default 0 (v !! (n - 1)%nat)) (default 0 (v !! n))
  end.

Section Chain.
Context {blk : Type} (get_block_hash prev_id : blk -> bytes) (timestamp : blk -> Z).

(** A block of the main chain, with the work up to it. *)
Record info : Type := mk_info { bl : blk; cumulative_difficulty : Z }.

(** An alternative block: in the table with the work in two words, and as [block_extended_info]. *)
Record alt_block_data : Type := mk_alt_block_data {
  alt_block : blk;
  height : nat;
  cumulative_difficulty_low : Z;
  cumulative_difficulty_high : Z
}.
Record block_extended_info : Type := mk_bei { bei_bl : blk; bei_height : nat; bei_cumulative_difficulty : Z }.

Record chain : Type := mk_chain { main : list info; alts : gmap bytes alt_block_data }.

Context (target : Z).
Context (main_checks : list info -> blk -> bool) (pow_ok : list info -> blk -> Z -> bool).
Context (alt_checks : list info -> blk -> bool) (alt_pow_ok : list info -> list block_extended_info -> blk -> Z -> bool).
Context (alt_rest : list info -> list block_extended_info -> blk -> bool).

(** ** The main chain *)

Definition id_of (i : info) : bytes := get_block_hash (bl i).
Definition top_block_hash (main : list info) : bytes := default null_hash (id_of <$> last main).
Definition get_block_height (main : list info) (id : bytes) : option nat := fst <$> list_find (fun i => id_of i = id) main.
Definition block_exists (main : list info) (id : bytes) : bool := bool_decide (is_Some (get_block_height main id)).
Definition timestamps_of (l : list info) : list Z := map (fun i => timestamp (bl i)) l.

Definition check_median (timestamps : list Z) (b : blk) : bool := negb (timestamp b <? median timestamps).

Definition check_block_timestamp (now : Z) (main : list info) (b : blk) : bool :=
  if w64 (now + CRYPTONOTE_BLOCK_FUTURE_TIME_LIMIT) <? timestamp b then false
  else
    let h := length main in
    if (1 <=? h)%nat && (timestamp b <? GLACIEM_LAUNCH_TIMESTAMP) then false
    else if (h <? BLOCKCHAIN_TIMESTAMP_CHECK_WINDOW)%nat then true
    else check_median (timestamps_of (drop (h - BLOCKCHAIN_TIMESTAMP_CHECK_WINDOW) main)) b.

Definition get_difficulty_for_next_block (main : list info) : option Z :=
  let height := length main in
  let offset := (height - Nat.min height DIFFICULTY_BLOCKS_COUNT)%nat in
  let offset := if (offset =? 0)%nat then 1%nat else offset in
  next_difficulty (timestamps_of (drop offset main)) (map cumulative_difficulty (drop offset main)) target.

(** The same with the fields that keep the last result and the window: the window is moved by one block when it can be. *)
Record difficulty_cache : Type := mk_cache {
  m_timestamps : list Z;
  m_difficulties : list Z;
  m_timestamps_and_difficulties_height : nat;
  m_reset_timestamps_and_difficulties_height : bool;
  m_difficulty_for_next_block_top_hash : bytes;
  m_difficulty_for_next_block : Z
}.

Definition cached_difficulty (main : list info) (k : difficulty_cache) : option (Z * difficulty_cache) :=
  let top_hash := top_block_hash main in
  if bool_decide (top_hash = m_difficulty_for_next_block_top_hash k) then Some (m_difficulty_for_next_block k, k)
  else
    let height := length main in
    let last_height := if m_reset_timestamps_and_difficulties_height k then 0%nat else m_timestamps_and_difficulties_height k in
    '(timestamps, difficulties) ←
      (if negb (last_height =? 0)%nat && (height =? last_height + 1)%nat && (DIFFICULTY_BLOCKS_COUNT <=? length (m_timestamps k))%nat then
         i ← main !! (height - 1)%nat;
         let timestamps := m_timestamps k ++ [timestamp (bl i)] in
         let difficulties := m_difficulties k ++ [cumulative_difficulty i] in
         Some (drop (length timestamps - DIFFICULTY_BLOCKS_COUNT) timestamps, drop (length difficulties - DIFFICULTY_BLOCKS_COUNT) difficulties)
       else
         let offset := (height - Nat.min height DIFFICULTY_BLOCKS_COUNT)%nat in
         let offset := if (offset =? 0)%nat then 1%nat else offset in
         Some (timestamps_of (drop offset main), map cumulative_difficulty (drop offset main)));
    diff ← next_difficulty timestamps difficulties target;
    Some (diff, mk_cache timestamps difficulties height (m_reset_timestamps_and_difficulties_height k) top_hash diff).

(** What popping a block, and the end of a batch of blocks, do to these fields. *)
Definition reset_cache (k : difficulty_cache) : difficulty_cache :=
  mk_cache (m_timestamps k) (m_difficulties k) 0 true (m_difficulty_for_next_block_top_hash k) (m_difficulty_for_next_block k).
Definition cleanup_cache (k : difficulty_cache) : difficulty_cache :=
  if m_reset_timestamps_and_difficulties_height k
  then mk_cache (m_timestamps k) (m_difficulties k) 0 false (m_difficulty_for_next_block_top_hash k) (m_difficulty_for_next_block k)
  else k.
Definition initial_cache : difficulty_cache := mk_cache [] [] 0 true null_hash 1.

(** The longer chain; [Some None] when the block is refused. *)
Definition handle_block_to_main_chain (now : Z) (main : list info) (b : blk) : option (option (list info)) :=
  if negb (bool_decide (prev_id b = top_block_hash main)) then Some None
  else if negb (check_block_timestamp now main b) then Some None
  else
    current_diffic ← get_difficulty_for_next_block main;
    if current_diffic =? 0 then Some None
    else if negb (pow_ok main b current_diffic) then Some None
    else if negb (main_checks main b) then Some None
    else
      let cumulative_difficulty := match last main with Some i => w128 (current_diffic + cumulative_difficulty i) | None => current_diffic end in
      Some (Some (main ++ [mk_info b cumulative_difficulty])).

(** The chain without its last block, and that block; the genesis block cannot be popped. *)
Definition pop_block_from_blockchain (main : list info) : option (list info * blk) :=
  if (1 <? length main)%nat then i ← last main; Some (take (length main - 1) main, bl i) else None.

(** ** The switch *)

(** [while (m_db->top_block_hash() != alt_chain.front().bl.prev_id)]. *)
Fixpoint pop_until (fuel : nat) (id : bytes) (main : list info) (disconnected_chain : list blk) : option (list info * list blk) :=
  match fuel with
  | O => None
  | S f =>
      if bool_decide (top_block_hash main = id) then Some (main, disconnected_chain)
      else '(main, b) ← pop_block_from_blockchain main; pop_until f id main (b :: disconnected_chain)
  end.

(** Adding blocks until one fails: the chain, and the blocks from the failed one on. *)
Fixpoint connect (now : Z) (main : list info) (bs : list blk) : option (list info * list blk) :=
  match bs with
  | [] => Some (main, [])
  | b :: rest =>
      r ← handle_block_to_main_chain now main b;
      match r with
      | Some main => connect now main rest
      | None => Some (main, bs)
      end
  end.

(** [while (m_db->height() != rollback_height)]. *)
Fixpoint pop_to (fuel : nat) (rollback_height : nat) (main : list info) : option (list info) :=
  match fuel with
  | O => None
  | S f =>
      if (length main =? rollback_height)%nat then Some main
      else '(main, _) ← pop_block_from_blockchain main; pop_to f rollback_height main
  end.

Definition rollback_blockchain_switching (now : Z) (main : list info) (original_chain : list blk) (rollback_height : nat)
  : option (bool * list info) :=
  if (length main <? rollback_height)%nat then Some (true, main)
  else
    main ← pop_to (S (length main)) rollback_height main;
    '(main, failed) ← connect now main original_chain;
    Some (match failed with [] => true | _ => false end, main).

Definition remove_alt_blocks (alts : gmap bytes alt_block_data) (bs : list blk) : gmap bytes alt_block_data :=
  fold_left (fun alts b => delete (get_block_hash b) alts) bs alts.

(** [push] is [handle_alternative_block], for the blocks that leave the main chain. *)
Definition switch_to_alternative_blockchain (now : Z) (push : chain -> blk -> option (bool * chain)) (st : chain)
    (alt_chain : list block_extended_info) : option (bool * chain) :=
  match alt_chain with
  | [] => Some (false, st)
  | front :: _ =>
      let cur_height := length (main st) in
      let fork_height := bei_height front in
      if (fork_height <? cur_height)%nat && (CRYPTONOTE_MAX_REORG_DEPTH <? cur_height - fork_height)%nat then Some (false, st)
      else if negb (block_exists (main st) (prev_id (bei_bl front))) then Some (false, st)
      else
        '(m, disconnected_chain) ← pop_until (S (length (main st))) (prev_id (bei_bl front)) (main st) [];
        let split_height := length m in
        '(m, failed) ← connect now m (map bei_bl alt_chain);
        match failed with
        | _ :: _ =>
            '(_, m) ← rollback_blockchain_switching now m disconnected_chain split_height;
            Some (false, mk_chain m (remove_alt_blocks (alts st) failed))
        | [] =>
            st ← foldl (fun st b => st ← st; snd <$> push st b) (Some (mk_chain m (alts st))) disconnected_chain;
            Some (true, mk_chain (main st) (remove_alt_blocks (alts st) (map bei_bl alt_chain)))
        end
  end.

(** ** Alternative blocks *)

(** [while (start_top_height != stop_offset)], appending. *)
Definition complete_timestamps_vector (main : list info) (start_top_height : nat) (timestamps : list Z) : list Z :=
  if (BLOCKCHAIN_TIMESTAMP_CHECK_WINDOW <=? length timestamps)%nat then timestamps
  else
    let need_elements := (BLOCKCHAIN_TIMESTAMP_CHECK_WINDOW - length timestamps)%nat in
    if (length main <=? start_top_height)%nat then timestamps
    else
      let stop_offset := (if need_elements <? start_top_height then start_top_height - need_elements else 0)%nat in
      timestamps ++ timestamps_of (rev (drop (S stop_offset) (take (S start_top_height) main))).

Definition bei_of (d : alt_block_data) : block_extended_info :=
  mk_bei (alt_block d) (height d) (w128 (Z.shiftl (cumulative_difficulty_high d) 64 + cumulative_difficulty_low d)).

(** [while (found)]: from the given id towards the main chain. *)
Fixpoint collect (fuel : nat) (alts : gmap bytes alt_block_data) (id : bytes) (alt_chain : list block_extended_info) (timestamps : list Z)
  : option (list block_extended_info * list Z) :=
  match fuel with
  | O => None
  | S f =>
      match alts !! id with
      | None => Some (alt_chain, timestamps)
      | Some data => collect f alts (prev_id (alt_block data)) (bei_of data :: alt_chain) (timestamps ++ [timestamp (alt_block data)])
      end
  end.

(** [Some None] when it returns false.  Each block is one higher than its parent, so the height is fuel enough. *)
Definition build_alt_chain (st : chain) (prev : bytes) : option (option (list block_extended_info * list Z)) :=
  '(alt_chain, timestamps) ← collect (match alts st !! prev with Some data => S (S (height data)) | None => 1 end) (alts st) prev [] [];
  match alt_chain with
  | front :: _ =>
      let parent := prev_id (bei_bl front) in
      if (length (main st) <=? bei_height front)%nat then Some None
      else if negb (block_exists (main st) parent) then Some None
      else
        below ← main st !! (bei_height front - 1)%nat;
        if negb (bool_decide (id_of below = parent)) then Some None
        else h ← get_block_height (main st) parent; Some (Some (alt_chain, complete_timestamps_vector (main st) h timestamps))
  | [] =>
      if negb (block_exists (main st) prev) then Some None
      else h ← get_block_height (main st) prev; Some (Some (alt_chain, complete_timestamps_vector (main st) h timestamps))
  end.

Definition get_next_difficulty_for_alternative_chain (main : list info) (alt_chain : list block_extended_info) (next_height : nat) : option Z :=
  let alt_timestamps := map (fun e => timestamp (bei_bl e)) alt_chain in
  let alt_difficulties := map bei_cumulative_difficulty alt_chain in
  if (length alt_chain <? DIFFICULTY_BLOCKS_COUNT)%nat then
    let main_chain_stop_offset := match alt_chain with front :: _ => bei_height front | [] => next_height end in
    let main_chain_count := (DIFFICULTY_BLOCKS_COUNT - Nat.min DIFFICULTY_BLOCKS_COUNT (length alt_chain))%nat in
    let main_chain_count := Nat.min main_chain_count main_chain_stop_offset in
    let main_chain_start_offset := (main_chain_stop_offset - main_chain_count)%nat in
    let main_chain_start_offset := if (main_chain_start_offset =? 0)%nat then 1%nat else main_chain_start_offset in
    let part := drop main_chain_start_offset (take main_chain_stop_offset main) in
    next_difficulty (timestamps_of part ++ alt_timestamps) (map cumulative_difficulty part ++ alt_difficulties) target
  else
    next_difficulty (drop (length alt_chain - DIFFICULTY_BLOCKS_COUNT) alt_timestamps)
      (drop (length alt_chain - DIFFICULTY_BLOCKS_COUNT) alt_difficulties) target.

Fixpoint handle_alternative_block (fuel : nat) (now : Z) (st : chain) (b : blk) : option (bool * chain) :=
  match fuel with
  | O => None
  | S f =>
      let id := get_block_hash b in
      if negb (alt_checks (main st) b) then Some (false, st)
      else
        let parent_in_alt := alts st !! prev_id b in
        let parent_in_main := block_exists (main st) (prev_id b) in
        match parent_in_alt, parent_in_main with
        | None, false => Some (true, st)
        | prev_data, _ =>
            r ← build_alt_chain st (prev_id b);
            match r with
            | None => Some (false, st)
            | Some (alt_chain, timestamps) =>
                prev_height ← (match alt_chain, prev_data with _ :: _, Some d => Some (height d) | _, _ => get_block_height (main st) (prev_id b) end);
                let bei_h := S prev_height in
                if negb (check_median timestamps b) then Some (false, st)
                else
                  current_diff ← get_next_difficulty_for_alternative_chain (main st) alt_chain bei_h;
                  if current_diff =? 0 then Some (false, st)
                  else if negb (alt_pow_ok (main st) alt_chain b current_diff) then Some (false, st)
                  else if negb (alt_rest (main st) alt_chain b) then Some (false, st)
                  else
                    top ← last (main st);
                    below ← (match alt_chain, prev_data with
                             | _ :: _, Some d => Some (bei_cumulative_difficulty (bei_of d))
                             | _, _ => h ← get_block_height (main st) (prev_id b); i ← main st !! h; Some (cumulative_difficulty i)
                             end);
                    let work := w128 (below + current_diff) in
                    match alts st !! id with
                    | Some _ => Some (false, st)
                    | None =>
                        let st := mk_chain (main st) (<[id := mk_alt_block_data b bei_h (Z.land work (2 ^ 64 - 1)) (Z.land (Z.shiftr work 64) (2 ^ 64 - 1))]> (alts st)) in
                        let alt_chain := alt_chain ++ [mk_bei b bei_h work] in
                        if cumulative_difficulty top <? work
                        then switch_to_alternative_blockchain now (handle_alternative_block f now) st alt_chain
                        else Some (true, st)
                    end
            end
        end
  end.

(** ** A new block *)

(** The set of invalid blocks is never filled. *)
Definition have_block (st : chain) (id : bytes) : bool := block_exists (main st) id || bool_decide (is_Some (alts st !! id)).

Definition add_new_block (fuel : nat) (now : Z) (st : chain) (b : blk) : option (bool * chain) :=
  if have_block st (get_block_hash b) then Some (false, st)
  else if negb (bool_decide (prev_id b = top_block_hash (main st))) then handle_alternative_block fuel now st b
  else
    r ← handle_block_to_main_chain now (main st) b;
    Some (match r with Some m => (true, mk_chain m (alts st)) | None => (false, st) end).
End Chain.
