(* ===== verification/NodeChainSafety.v ===== *)
(** * NodeChainSafety: what a node's chain can do

    A chain is [valid] when every block names its parent and the work is the sum of the difficulties; it is determined by its last block,
    given that ids are.  [node_ok] says that the main chain grew block by block and that every alternative block ends a valid chain.
    Every new block keeps that ([new_block_ok]): the chain stays, is longer by the block, or is another chain with more work that keeps
    all but the last sixty blocks. *)
From stdpp Require Import gmap sorting.
From S2P Require Import Prelude Bytes Lattice LatticeSafety Miner NodeTree NodeInt NodeWork NodeChain.
Local Open Scope Z_scope.

(** ** Lists *)

Lemma last_take_lookup {A} (l : list A) n : (n < length l)%nat -> last (take (S n) l) = l !! n.
Proof. intros Hn. rewrite last_lookup, length_take, Nat.min_l by lia. cbn [pred]. apply lookup_take_lt. lia. Qed.

Lemma next_difficulty_total ts cds target :
  length ts = length cds -> Forall word_ok ts -> 0 <= target -> exists d, next_difficulty ts cds target = Some d /\ 0 <= d.
Proof.
  intros Hl Hts Ht. destruct (decide (2 <= length ts)%nat) as [H2|H2].
  - destruct (next_window mul128 ts cds target Hl H2 Hts) as (i & j & t0 & t1 & c0 & c1 & _ & _ & _ & _ & _ & Hs & _ & _ & -> & _). eexists. split; [done|].
    set (span := if t1 - t0 =? 0 then 1 else t1 - t0). assert (0 < span) by (subst span; destruct (Z.eqb_spec (t1 - t0) 0); lia). clearbody span.
    cbv zeta. case_match; [lia|]. apply Z.div_pos; [|done]. apply Z.mod_pos_bound. lia.
  - unfold next_difficulty. exists 1. assert (length (take DIFFICULTY_WINDOW ts) <= 1)%nat as Hle by (rewrite length_take; lia).
    apply Nat.leb_le in Hle. by rewrite Hle.
Qed.

Section Safety.
Context {blk : Type} (get_block_hash prev_id : blk -> bytes) (timestamp : blk -> Z) (target : Z).
Context (main_checks : list (info (blk := blk)) -> blk -> bool) (pow_ok : list (info (blk := blk)) -> blk -> Z -> bool).
Context (alt_checks : list (info (blk := blk)) -> blk -> bool).
Context (alt_pow_ok : list (info (blk := blk)) -> list (block_extended_info (blk := blk)) -> blk -> Z -> bool).
Context (alt_rest : list (info (blk := blk)) -> list (block_extended_info (blk := blk)) -> blk -> bool).

(** An id determines its block, and no block is the parent of the genesis block. *)
Context (Hid : forall b b', get_block_hash b = get_block_hash b' -> b = b').
Context (genesis : blk) (genesis_work : Z) (Hgenesis : forall b, get_block_hash b <> prev_id genesis).
Context (Htime : forall b, word_ok (timestamp b)) (Htarget : 0 <= target).

Abbreviation id_of := (id_of get_block_hash).
Abbreviation top := (top_block_hash get_block_hash).
Abbreviation difficulty := (get_difficulty_for_next_block timestamp target).
Abbreviation chain_info := (list (info (blk := blk))).

Definition work_of (c : chain_info) : Z := default 0 (cumulative_difficulty <$> last c).

Inductive valid : chain_info -> Prop :=
| valid_genesis : valid [mk_info genesis genesis_work]
| valid_snoc c b d : valid c -> prev_id b = top c -> difficulty c = Some d -> 0 < d -> d + work_of c < 2 ^ 128 ->
    valid (c ++ [mk_info b (d + work_of c)]).

Lemma valid_nonempty c : valid c -> (1 <= length c)%nat.
Proof. destruct 1; [done|]. rewrite length_app. cbn. lia. Qed.

Lemma top_snoc (c : chain_info) b w : top (c ++ [mk_info b w]) = get_block_hash b.
Proof. unfold top_block_hash. by rewrite last_snoc. Qed.

Lemma top_last (c : chain_info) i : top (c ++ [i]) = id_of i.
Proof. unfold top_block_hash. by rewrite last_snoc. Qed.

Lemma work_snoc (c : chain_info) b w : work_of (c ++ [mk_info b w]) = w.
Proof. unfold work_of. by rewrite last_snoc. Qed.

Lemma valid_top c : valid c -> exists b, top c = get_block_hash b.
Proof. destruct 1; [by exists genesis|]. rewrite top_snoc. by eexists. Qed.

(** A chain is determined by the id of its last block. *)
Lemma valid_unique c : valid c -> forall c', valid c' -> top c = top c' -> c = c'.
Proof using Hid Hgenesis.
  induction 1 as [|c b d Hc IH Hp Hd Hpos Hfit]; intros c' Hc' Ht; destruct Hc' as [|c' b' d' Hc' Hp' Hd' Hpos' Hfit']; [done|..].
  - rewrite top_snoc in Ht. apply Hid in Ht. subst b'. destruct (valid_top c' Hc') as [x Hx]. rewrite Hx in Hp'. by destruct (Hgenesis x).
  - rewrite top_snoc in Ht. apply Hid in Ht. subst b. destruct (valid_top c Hc) as [x Hx]. rewrite Hx in Hp. by destruct (Hgenesis x).
  - rewrite !top_snoc in Ht. apply Hid in Ht. subst b'. assert (c = c') as -> by (apply IH; [done|congruence]). rewrite Hd in Hd'. by injection Hd' as <-.
Qed.

(** Its beginnings are chains, with less work. *)
Lemma valid_take c n : valid c -> (1 <= n <= length c)%nat -> valid (take n c).
Proof.
  induction 1 as [|c b d Hc IH Hp Hd Hpos Hfit]; intros Hn; [destruct n as [|[|n]]; cbn in Hn; [lia|constructor|lia]|].
  rewrite length_app in Hn. cbn [length] in Hn. destruct (decide (n = length c + 1)%nat) as [->|Hne].
  - rewrite take_ge by (rewrite length_app; cbn; lia). by constructor.
  - rewrite take_app_le by lia. apply IH. lia.
Qed.

Lemma work_take c n : valid c -> (1 <= n <= length c)%nat -> work_of (take n c) <= work_of c.
Proof.
  induction 1 as [|c b d Hc IH Hp Hd Hpos Hfit]; intros Hn; [destruct n as [|[|n]]; cbn in Hn; [lia|done|lia]|].
  rewrite length_app in Hn. cbn [length] in Hn. destruct (decide (n = length c + 1)%nat) as [->|Hne].
  - rewrite take_ge by (rewrite length_app; cbn; lia). done.
  - rewrite take_app_le by lia. rewrite work_snoc. specialize (IH ltac:(lia)). lia.
Qed.

Lemma top_take (c : chain_info) n i : c !! n = Some i -> top (take (S n) c) = id_of i.
Proof.
  intros Hi. unfold top_block_hash. rewrite last_take_lookup by (by apply lookup_lt_Some in Hi). by rewrite Hi.
Qed.

(** Every block is where its id says. *)
Lemma valid_index c n i m j : valid c -> c !! n = Some i -> c !! m = Some j -> id_of i = id_of j -> n = m.
Proof using Hid Hgenesis.
  intros Hc Hi Hj E. pose proof (lookup_lt_Some _ _ _ Hi). pose proof (lookup_lt_Some _ _ _ Hj).
  assert (take (S n) c = take (S m) c) as Et.
  { apply valid_unique; [apply valid_take; [done|lia]..|]. by rewrite (top_take _ _ _ Hi), (top_take _ _ _ Hj). }
  apply (f_equal length) in Et. rewrite !length_take in Et. lia.
Qed.

Lemma get_block_height_at c n i : valid c -> c !! n = Some i -> get_block_height get_block_hash c (id_of i) = Some n.
Proof using Hid Hgenesis.
  intros Hc Hi. unfold get_block_height. destruct (list_find_elem_of (fun x => id_of x = id_of i) c i) as [[m j] E]; [by eapply list_elem_of_lookup_2|done|].
  rewrite E. cbn [fmap option_fmap option_map fst]. f_equal. apply list_find_Some in E as (Hj & Ej & _). by apply (valid_index c m j n i).
Qed.

Lemma get_block_height_some (c : chain_info) id n : get_block_height get_block_hash c id = Some n -> exists i, c !! n = Some i /\ id_of i = id.
Proof.
  unfold get_block_height. intros E. apply fmap_Some in E as ([m i] & E & ->). apply list_find_Some in E as (Hi & Ei & _). by exists i.
Qed.

Lemma block_exists_true (c : chain_info) id : block_exists get_block_hash c id = true -> exists n i, get_block_height get_block_hash c id = Some n /\ c !! n = Some i /\ id_of i = id.
Proof.
  unfold block_exists. rewrite bool_decide_eq_true. intros [n E]. destruct (get_block_height_some _ _ _ E) as (i & Hi & Ei). by exists n, i.
Qed.

Lemma difficulty_total c : exists d, difficulty c = Some d /\ 0 <= d.
Proof using Htime Htarget.
  unfold get_difficulty_for_next_block, timestamps_of. apply next_difficulty_total; [by rewrite !length_map| |done].
  apply Forall_map, Forall_true. intros i. apply Htime.
Qed.
(** ** Alternative chains *)

Definition info_of (e : block_extended_info (blk := blk)) : info := mk_info (bei_bl e) (bei_cumulative_difficulty e).
Abbreviation alt_table := (gmap bytes (alt_block_data (blk := blk))).

(** The difficulty of a block on an alternative chain is the one it has when that chain is the main one. *)
Lemma alternative_difficulty main k path :
  (1 <= k <= length main)%nat -> (forall e, head path = Some e -> bei_height e = k) ->
  get_next_difficulty_for_alternative_chain timestamp target main path (k + length path) = difficulty (take k main ++ map info_of path).
Proof.
  intros Hk Hf. unfold get_next_difficulty_for_alternative_chain, get_difficulty_for_next_block, timestamps_of.
  assert (match path with front :: _ => bei_height front | [] => (k + length path)%nat end = k) as -> by (destruct path; [cbn; lia|by apply Hf]).
  rewrite length_app, length_map, length_take, (Nat.min_l k) by lia.
  assert (forall l, map timestamp (map bl (map info_of l)) = map (fun e => timestamp (bei_bl e)) l) as Et by (intros l; by rewrite !map_map).
  assert (forall l, map cumulative_difficulty (map info_of l) = map bei_cumulative_difficulty l) as Ec by (intros l; by rewrite map_map).
  destruct (Nat.ltb_spec (length path) DIFFICULTY_BLOCKS_COUNT) as [Hn|Hn].
  - rewrite (Nat.min_r DIFFICULTY_BLOCKS_COUNT (length path)) by lia.
    replace (k - Nat.min (DIFFICULTY_BLOCKS_COUNT - length path) k)%nat with (k + length path - Nat.min (k + length path) DIFFICULTY_BLOCKS_COUNT)%nat by lia.
    set (o := if (_ =? 0)%nat then 1%nat else _). assert (o <= k)%nat by (subst o; destruct (Nat.eqb_spec (k + length path - Nat.min (k + length path) DIFFICULTY_BLOCKS_COUNT) 0); lia).
    rewrite drop_app_le by (rewrite length_take; lia). rewrite !map_app, Ec, map_map. done.
  - rewrite (Nat.min_r (k + length path)) by lia. destruct (Nat.eqb_spec (k + length path - DIFFICULTY_BLOCKS_COUNT) 0) as [|_]; [lia|].
    rewrite drop_app_ge by (rewrite length_take; lia). rewrite length_take, Nat.min_l by lia.
    replace (k + length path - DIFFICULTY_BLOCKS_COUNT - k)%nat with (length path - DIFFICULTY_BLOCKS_COUNT)%nat by lia.
    rewrite !skipn_map, map_map. by rewrite !map_map.
Qed.

(** Every alternative block ends a valid chain of its height. *)
Definition alts_ok (alts : alt_table) : Prop :=
  forall id d, alts !! id = Some d -> get_block_hash (alt_block d) = id /\
    exists c, valid c /\ valid (c ++ [info_of (bei_of d)]) /\ length c = height d.

Lemma valid_prev c i : valid c -> valid (c ++ [i]) -> prev_id (bl i) = top c.
Proof.
  intros Hc Hv. inversion Hv as [E|c' b d Hc' Hp _ _ _ E].
  - destruct c as [|x c]; [by apply valid_nonempty in Hc; cbn in Hc; lia|]. destruct c; discriminate.
  - apply app_inj_tail in E as [-> <-]. done.
Qed.

(** What [collect] finds from an id: nothing, or the end of a valid chain. *)
Definition collected (alts : alt_table) (id : bytes) (path : list block_extended_info) : Prop :=
  (path = [] /\ alts !! id = None) \/
  exists c, is_Some (alts !! id) /\ valid c /\ valid (c ++ map info_of path) /\ top (c ++ map info_of path) = id /\
    exists front, head path = Some front /\ prev_id (bei_bl front) = top c /\ bei_height front = length c.

Lemma collect_ok alts : alts_ok alts -> forall fuel id acc ts,
  (match alts !! id with Some d => S (height d) < fuel | None => 0 < fuel end)%nat ->
  exists path ts', collect prev_id timestamp fuel alts id acc ts = Some (path ++ acc, ts') /\ collected alts id path.
Proof using Hid Hgenesis.
  intros Hok. induction fuel as [|f IH]; intros id acc ts Hf; [destruct (alts !! id); lia|]. cbn [collect].
  destruct (alts !! id) as [d|] eqn:E; [|exists [], ts; split; [done|by left]].
  destruct (Hok id d E) as (Hd & c & Hc & Hv & Hl). pose proof (valid_prev _ _ Hc Hv) as Hp. cbn [bl info_of bei_of bei_bl] in Hp. rewrite Hp.
  destruct (IH (top c) (bei_of d :: acc) (ts ++ [timestamp (alt_block d)])) as (path & ts' & Ec & Hcol).
  { destruct (alts !! top c) as [d'|] eqn:E'; [|lia]. destruct (Hok _ _ E') as (Hd' & c' & Hc' & Hv' & Hl').
    assert (c = c' ++ [info_of (bei_of d')]) as -> by (apply valid_unique; [done|done|]; by rewrite top_last, <- Hd').
    rewrite length_app in Hl. cbn [length] in Hl. lia. }
  exists (path ++ [bei_of d]), ts'. split; [by rewrite <- app_assoc|]. right. destruct Hcol as [[-> Hn]|(c' & _ & Hc' & Hv' & Ht & front & Hh & Hpf & Hhf)].
  - exists c. cbn [app map]. split_and!; [by rewrite E|done|done|by rewrite top_last|]. by exists (bei_of d).
  - assert (c = c' ++ map info_of path) as -> by (by apply valid_unique). exists c'. rewrite map_app, app_assoc. cbn [map].
    split_and!; [by rewrite E|done|done|by rewrite top_last|]. exists front. split; [by destruct path|done].
Qed.

(** A path on the main chain: the branch point and the chain it makes. *)
Definition branch (main : chain_info) (id : bytes) (k : nat) (path : list block_extended_info) : Prop :=
  (1 <= k <= length main)%nat /\ valid (take k main ++ map info_of path) /\ top (take k main ++ map info_of path) = id /\
  (forall e, head path = Some e -> prev_id (bei_bl e) = top (take k main) /\ bei_height e = k /\ (k < length main)%nat).

Lemma build_ok main alts id :
  valid main -> alts_ok alts ->
  build_alt_chain get_block_hash prev_id timestamp (mk_chain main alts) id = Some None \/
  exists path ts k, build_alt_chain get_block_hash prev_id timestamp (mk_chain main alts) id = Some (Some (path, ts)) /\ branch main id k path /\
    (path = [] <-> alts !! id = None).
Proof using Hid Hgenesis.
  intros Hm Hok. unfold build_alt_chain. cbn [NodeChain.main NodeChain.alts].
  destruct (collect_ok alts Hok (match alts !! id with Some data => S (S (height data)) | None => 1 end) id [] []) as (path & ts & -> & Hcol).
  { destruct (alts !! id); lia. }
  rewrite app_nil_r. cbn [mbind option_bind]. destruct Hcol as [[-> Hn]|(c & [d Ed] & Hc & Hv & Ht & front & Hh & Hpf & Hhf)].
  - destruct (block_exists get_block_hash main id) eqn:Ex; [|by left]. destruct (block_exists_true _ _ Ex) as (n & i & E & Hi & Ei). right. rewrite E. cbn [negb mbind option_bind].
    pose proof (lookup_lt_Some _ _ _ Hi). do 2 eexists. exists (S n). split; [done|]. cbn [map]. split; [|done]. unfold branch. rewrite app_nil_r.
    split; [lia|]. split; [apply valid_take; [done|lia]|]. split; [by rewrite (top_take _ _ _ Hi)|done].
  - destruct path as [|f path]; [done|]. injection Hh as ->. pose proof (valid_nonempty c Hc).
    destruct (Nat.leb_spec (length main) (bei_height front)) as [|Hlt]; [by left|].
    destruct (block_exists get_block_hash main (prev_id (bei_bl front))) eqn:Ex; [|by left]. cbn [negb].
    destruct (lookup_lt_is_Some_2 main (bei_height front - 1)) as [below Eb]; [lia|]. rewrite Eb. cbn [mbind option_bind].
    case_bool_decide as Hb; [|by left]. cbn [negb]. destruct (block_exists_true _ _ Ex) as (n & i & E & _). rewrite E. cbn [mbind option_bind]. right.
    do 2 eexists. exists (length c). split; [done|]. split; [|by rewrite Ed].
    assert (take (length c) main = c) as Etc.
    { apply valid_unique; [apply valid_take; [done|lia]|done|]. replace (length c) with (S (bei_height front - 1)) by lia. rewrite (top_take _ _ _ Eb). by rewrite Hb. }
    unfold branch. rewrite Etc. split; [lia|]. do 2 (split; [done|]). intros e [= <-]. split; [done|]. split; [done|lia].
Qed.

(** ** Growing *)

Abbreviation extend := (handle_block_to_main_chain get_block_hash prev_id timestamp target main_checks pow_ok).

Lemma last_work (c : chain_info) : valid c -> exists i, last c = Some i /\ cumulative_difficulty i = work_of c.
Proof. intros Hc. unfold work_of. destruct Hc; [by eexists|]. rewrite last_snoc. by eexists. Qed.

Lemma work_nonneg c : 0 <= genesis_work < 2 ^ 128 -> valid c -> 0 <= work_of c < 2 ^ 128.
Proof. intros Hg. induction 1 as [|c b d Hc IH Hp Hd Hpos Hfit]; [done|]. rewrite work_snoc. lia. Qed.

(** A block that is taken makes the chain longer by it, with the difficulty added. *)
Lemma extend_shape now c b r :
  valid c -> extend now c b = Some r ->
  r = None \/ exists d, difficulty c = Some d /\ 0 < d /\ prev_id b = top c /\ check_block_timestamp timestamp now c b = true /\
    r = Some (c ++ [mk_info b (w128 (d + work_of c))]).
Proof using Htime Htarget.
  intros Hc. unfold handle_block_to_main_chain. case_bool_decide as Hp; cbn [negb]; [|intros [= <-]; by left].
  destruct (check_block_timestamp timestamp now c b) eqn:Et; cbn [negb]; [|intros [= <-]; by left].
  destruct (difficulty_total c) as (d & Ed & Hd). rewrite Ed. cbn [mbind option_bind]. destruct (Z.eqb_spec d 0); [intros [= <-]; by left|].
  destruct (pow_ok c b d); cbn [negb]; [|intros [= <-]; by left]. destruct (main_checks c b); cbn [negb]; [|intros [= <-]; by left].
  destruct (last_work c Hc) as (i & Hi & Hw). rewrite Hi, Hw. intros [= <-]. right. exists d. split_and!; [done|lia|done..].
Qed.

Lemma extend_total now c b : exists r, extend now c b = Some r.
Proof using Htime Htarget.
  unfold handle_block_to_main_chain. destruct (difficulty_total c) as (d & Ed & _). rewrite Ed. cbn [mbind option_bind].
  repeat (case_match; [by eexists|]). by eexists.
Qed.

Lemma extend_valid now c b d :
  valid c -> difficulty c = Some d -> d + work_of c < 2 ^ 128 -> 0 <= genesis_work < 2 ^ 128 ->
  extend now c b = Some None \/ (extend now c b = Some (Some (c ++ [mk_info b (d + work_of c)])) /\ valid (c ++ [mk_info b (d + work_of c)])).
Proof using Htime Htarget.
  intros Hc Ed Hfit Hg. destruct (extend_total now c b) as [r E]. destruct (extend_shape now c b r Hc E) as [->|(d' & Ed' & Hd' & Hp & _ & ->)]; [by left|right].
  rewrite Ed in Ed'. injection Ed' as <-. pose proof (work_nonneg c Hg Hc). unfold w128 in E. rewrite Z.mod_small in E by lia. split; [done|by constructor].
Qed.

(** The time stamps of blocks that were taken stay acceptable. *)
Lemma extend_later t t' c b c' : 0 <= t <= t' -> t' + CRYPTONOTE_BLOCK_FUTURE_TIME_LIMIT < 2 ^ 64 ->
  extend t c b = Some (Some c') -> extend t' c b = Some (Some c').
Proof.
  intros Ht Hm. unfold handle_block_to_main_chain. case_bool_decide; cbn [negb]; [|done]. unfold check_block_timestamp, CRYPTONOTE_BLOCK_FUTURE_TIME_LIMIT in *.
  rewrite !w64_small by lia. destruct (Z.ltb_spec (t + 60 * 60 * 2) (timestamp b)); [done|]. by destruct (Z.ltb_spec (t' + 60 * 60 * 2) (timestamp b)); [lia|].
Qed.

(** A chain that grew block by block, each taken at some time up to now. *)
Inductive grown (now : Z) : chain_info -> Prop :=
| grown_genesis : grown now [mk_info genesis genesis_work]
| grown_snoc c i t : grown now c -> 0 <= t <= now -> valid (c ++ [i]) -> extend t c (bl i) = Some (Some (c ++ [i])) -> grown now (c ++ [i]).

Lemma grown_valid now c : grown now c -> valid c.
Proof. destruct 1; [constructor|done]. Qed.

Lemma grown_later now now' c : now <= now' -> grown now c -> grown now' c.
Proof. intros Hn. induction 1 as [|c i t Hc IH Ht Hv He]; [constructor|]. by apply (grown_snoc _ _ _ t); [|lia|..]. Qed.

Lemma grown_take now c n : grown now c -> (1 <= n <= length c)%nat -> grown now (take n c).
Proof.
  induction 1 as [|c i t Hc IH Ht Hv He]; intros Hn; [destruct n as [|[|n]]; cbn in Hn; [lia|constructor|lia]|].
  rewrite length_app in Hn. cbn [length] in Hn. destruct (decide (n = length c + 1)%nat) as [->|Hne].
  - rewrite take_ge by (rewrite length_app; cbn; lia). by apply (grown_snoc _ _ _ t).
  - rewrite take_app_le by lia. apply IH. lia.
Qed.

(** The blocks of such a chain can be added again. *)
Lemma connect_app now c bs bs' c' : connect get_block_hash prev_id timestamp target main_checks pow_ok now c bs = Some (c', []) ->
  connect get_block_hash prev_id timestamp target main_checks pow_ok now c (bs ++ bs') = connect get_block_hash prev_id timestamp target main_checks pow_ok now c' bs'.
Proof.
  revert c. induction bs as [|b bs IH]; intros c E; cbn [connect app] in *; [by injection E as ->|].
  destruct (extend now c b) as [[m|]|]; cbn [mbind option_bind] in *; [by apply IH|done|done].
Qed.

Lemma connect_again now c k : 0 <= now -> now + CRYPTONOTE_BLOCK_FUTURE_TIME_LIMIT < 2 ^ 64 -> grown now c -> (1 <= k <= length c)%nat ->
  connect get_block_hash prev_id timestamp target main_checks pow_ok now (take k c) (map bl (drop k c)) = Some (c, []).
Proof.
  intros H0 Hm. induction 1 as [|c i t Hc IH Ht Hv He]; intros Hk; [destruct k as [|[|k]]; cbn in Hk; [lia|done|lia]|].
  rewrite length_app in Hk. cbn [length] in Hk. destruct (decide (k = length c + 1)%nat) as [->|Hne].
  - by rewrite take_ge, drop_ge by (rewrite length_app; cbn; lia).
  - rewrite take_app_le, drop_app_le, map_app by lia. rewrite (connect_app _ _ _ _ c) by (apply IH; lia). cbn [map connect].
    by rewrite (extend_later t now _ _ _ ltac:(lia) Hm He).
Qed.

(** Adding the blocks of a valid chain gives a beginning of that chain. *)
Lemma connect_path now path : 0 <= now -> 0 <= genesis_work < 2 ^ 128 -> forall c, grown now c -> valid (c ++ map info_of path) ->
  exists p1 p2, path = p1 ++ p2 /\ connect get_block_hash prev_id timestamp target main_checks pow_ok now c (map bei_bl path)
    = Some (c ++ map info_of p1, map bei_bl p2) /\ grown now (c ++ map info_of p1).
Proof using Htime Htarget.
  intros H0 Hg. induction path as [|e path IH]; intros c Hc Hv.
  { exists [], []. cbn [map connect]. by rewrite (app_nil_r c). }
  cbn [map connect]. cbn [map] in Hv. change (info_of e :: map info_of path) with ([info_of e] ++ map info_of path) in Hv. rewrite app_assoc in Hv.
  assert (valid (c ++ [info_of e])) as He.
  { pose proof (valid_take _ (length (c ++ [info_of e])) Hv) as H. rewrite take_app_length in H. apply H. rewrite !length_app. cbn [length]. lia. }
  pose proof (grown_valid _ _ Hc) as Hcv. pose proof (valid_prev c (info_of e) Hcv He) as Hp.
  assert (exists d, difficulty c = Some d /\ d + work_of c < 2 ^ 128 /\ info_of e = mk_info (bei_bl e) (d + work_of c)) as (d & Ed & Hfit & Ei).
  { inversion He as [E|c' b d Hc' _ Hd _ Hf E]; [destruct c as [|x [|y c]]; [by apply valid_nonempty in Hcv; cbn in Hcv; lia|done..]|].
    apply app_inj_tail in E as [-> E]. exists d. split_and!; [done|done|]. rewrite <- E. f_equal. by injection E. }
  destruct (extend_valid now c (bei_bl e) d Hcv Ed Hfit Hg) as [->|[Ex _]].
  - exists [], (e :: path). cbn [mbind option_bind map]. by rewrite (app_nil_r c).
  - rewrite Ex. cbn [mbind option_bind]. rewrite <- Ei in *.
    destruct (IH (c ++ [info_of e])) as (p1 & p2 & -> & Ec & Hgr); [by apply (grown_snoc _ _ _ now); [|lia|..]|done|].
    exists (e :: p1), p2. split; [done|]. rewrite Ec. cbn [map]. by rewrite <- !app_assoc in *.
Qed.

(** ** Popping *)

Lemma pop_last (c : chain_info) m i : (1 <= m)%nat -> c !! m = Some i -> pop_block_from_blockchain (take (S m) c) = Some (take m c, bl i).
Proof.
  intros Hm Hi. pose proof (lookup_lt_Some _ _ _ Hi). unfold pop_block_from_blockchain. rewrite last_take_lookup, Hi by done.
  rewrite length_take, Nat.min_l by lia. destruct (Nat.ltb_spec 1 (S m)); [|lia]. cbn [mbind option_bind]. rewrite take_take. do 3 f_equal. lia.
Qed.

Lemma pop_until_ok c k : valid c -> (1 <= k <= length c)%nat -> forall fuel m acc, (k <= m <= length c)%nat -> (m - k < fuel)%nat ->
  pop_until get_block_hash fuel (top (take k c)) (take m c) acc = Some (take k c, map bl (drop k (take m c)) ++ acc).
Proof using Hid Hgenesis.
  intros Hc Hk. induction fuel as [|f IH]; intros m acc Hm Hf; [lia|]. cbn [pop_until]. destruct (decide (m = k)) as [->|Hne].
  - rewrite bool_decide_true, drop_ge by (done || rewrite length_take; lia). done.
  - rewrite bool_decide_false.
    2: { intros E. apply valid_unique in E; [|apply valid_take; [done|lia]..]. apply (f_equal length) in E. rewrite !length_take in E. lia. }
    destruct m as [|m]; [lia|]. destruct (lookup_lt_is_Some_2 c m) as [i Hi]; [lia|]. rewrite (pop_last c m i) by (done || lia). cbn [mbind option_bind].
    rewrite IH by lia. rewrite (take_S_r _ _ _ Hi), drop_app_le by (rewrite length_take; lia). rewrite map_app, <- app_assoc. done.
Qed.

Lemma pop_to_ok (c : chain_info) k : (1 <= k <= length c)%nat -> forall fuel m, (k <= m <= length c)%nat -> (m - k < fuel)%nat -> pop_to fuel k (take m c) = Some (take k c).
Proof.
  intros Hk. induction fuel as [|f IH]; intros m Hm Hf; [lia|]. cbn [pop_to]. rewrite length_take, Nat.min_l by lia.
  destruct (Nat.eqb_spec m k) as [->|Hne]; [done|]. destruct m as [|m]; [lia|]. destruct (lookup_lt_is_Some_2 c m) as [i Hi]; [lia|].
  rewrite (pop_last c m i) by (done || lia). cbn [mbind option_bind]. apply IH; lia.
Qed.

Lemma rollback_ok now c m k : 0 <= now -> now + CRYPTONOTE_BLOCK_FUTURE_TIME_LIMIT < 2 ^ 64 -> grown now c -> (1 <= k <= length c)%nat ->
  (k <= length m)%nat -> take k m = take k c ->
  rollback_blockchain_switching get_block_hash prev_id timestamp target main_checks pow_ok now m (map bl (drop k c)) k = Some (true, c).
Proof.
  intros H0 Hm Hc Hk Hl E. unfold rollback_blockchain_switching. destruct (Nat.ltb_spec (length m) k); [lia|].
  pose proof (pop_to_ok m k ltac:(lia) (S (length m)) (length m) ltac:(lia) ltac:(lia)) as Ep. rewrite (take_ge m (length m)) in Ep by lia. rewrite Ep, E.
  cbn [mbind option_bind]. by rewrite connect_again.
Qed.

Lemma remove_alts_ok bs : forall alts, alts_ok alts -> alts_ok (remove_alt_blocks get_block_hash alts bs).
Proof.
  induction bs as [|b bs IH]; intros alts Hok; [done|]. cbn [remove_alt_blocks fold_left]. apply IH.
  intros id d [_ E]%lookup_delete_Some. by apply Hok.
Qed.

(** ** The switch *)

(** An alternative chain that forks at height [k]. *)
Definition forks (main : chain_info) (k : nat) (alt_chain : list block_extended_info) : Prop :=
  (1 <= k <= length main)%nat /\ valid (take k main ++ map info_of alt_chain) /\
  exists front, head alt_chain = Some front /\ prev_id (bei_bl front) = top (take k main) /\ bei_height front = k.

(** The blocks of the old chain go to the table without touching the new chain. *)
Definition pushes (push : chain -> blk -> option (bool * chain)) (m : chain_info) (bs : list blk) : Prop :=
  forall al b, alts_ok al -> b ∈ bs -> exists r al', push (mk_chain m al) b = Some (r, mk_chain m al') /\ alts_ok al'.

Lemma push_all push m bs : pushes push m bs -> forall al, alts_ok al ->
  exists al', foldl (fun st b => st ← st; snd <$> push st b) (Some (mk_chain m al)) bs = Some (mk_chain m al') /\ alts_ok al'.
Proof.
  induction bs as [|b bs IH]; intros Hp al Hok; [by exists al|]. cbn [foldl]. destruct (Hp al b Hok) as (r & al' & E & Hok'); [left|].
  cbn [mbind option_bind]. rewrite E. cbn [fmap option_fmap option_map snd]. apply IH; [|done]. intros al2 b2 H2 Hb2. apply Hp; [done|by right].
Qed.

Lemma switch_ok now push main alts k alt_chain :
  0 <= now -> now + CRYPTONOTE_BLOCK_FUTURE_TIME_LIMIT < 2 ^ 64 -> 0 <= genesis_work < 2 ^ 128 -> grown now main -> alts_ok alts -> forks main k alt_chain ->
  pushes push (take k main ++ map info_of alt_chain) (map bl (drop k main)) ->
  exists r st', switch_to_alternative_blockchain get_block_hash prev_id timestamp target main_checks pow_ok now push (mk_chain main alts) alt_chain = Some (r, st') /\
    grown now (NodeChain.main st') /\ alts_ok (NodeChain.alts st') /\
    (if r : bool then NodeChain.main st' = take k main ++ map info_of alt_chain /\ (length main - k <= CRYPTONOTE_MAX_REORG_DEPTH)%nat else NodeChain.main st' = main).
Proof using Hid Hgenesis Htime Htarget.
  intros H0 Hn Hg Hm Ha (Hk & Hv & front & Hh & Hp & Hf) Hpush. pose proof (grown_valid _ _ Hm) as Hmv.
  unfold switch_to_alternative_blockchain. destruct alt_chain as [|f ac]; [done|]. injection Hh as ->. cbn [NodeChain.main NodeChain.alts]. rewrite Hf, Hp.
  destruct (Nat.ltb_spec k (length main)), (Nat.ltb_spec CRYPTONOTE_MAX_REORG_DEPTH (length main - k)); cbn [andb];
    try (by exists false, (mk_chain main alts)); try lia.
  all: destruct (block_exists get_block_hash main (top (take k main))) eqn:Ex; cbn [negb]; [|by exists false, (mk_chain main alts)].
  all: pose proof (pop_until_ok main k Hmv Hk (S (length main)) (length main) [] ltac:(lia) ltac:(lia)) as Ep.
  all: rewrite (take_ge main (length main)), app_nil_r in Ep by lia; rewrite Ep; cbn [mbind option_bind]; rewrite length_take, Nat.min_l by lia.
  all: destruct (connect_path now (front :: ac) H0 Hg (take k main) (grown_take _ _ _ Hm Hk) Hv) as (p1 & p2 & E & -> & Hgr); cbn [mbind option_bind].
  all: destruct p2 as [|e p2]; [cbn [map]|].
  1,3: rewrite app_nil_r in E; subst p1; destruct (push_all _ _ _ Hpush alts Ha) as (al & -> & Hal); cbn [mbind option_bind NodeChain.main NodeChain.alts].
  1,2: eexists true, _; (split; [done|]); cbn [NodeChain.main NodeChain.alts]; (split; [done|]); (split; [by apply remove_alts_ok|]); (split; [done|lia]).
  all: assert (k <= length (take k main ++ map info_of p1))%nat by (rewrite length_app, length_take; lia).
  all: assert (take k (take k main ++ map info_of p1) = take k main) by (apply take_app_length'; rewrite length_take; lia).
  all: rewrite (rollback_ok now main) by done.
  all: cbn [mbind option_bind map]; eexists false, _; (split; [done|]); cbn [NodeChain.main NodeChain.alts]; (split; [done|]); (split; [by apply remove_alts_ok|done]).
Qed.

(** ** Alternative blocks *)

Abbreviation alternative := (handle_alternative_block get_block_hash prev_id timestamp target main_checks pow_ok alt_checks alt_pow_ok alt_rest).

Lemma land_word x : Z.land x (2 ^ 64 - 1) = x mod 2 ^ 64.
Proof. change (2 ^ 64 - 1) with (Z.ones 64). apply Z.land_ones. lia. Qed.

(** The work is put together again from its two words. *)
Lemma bei_of_data b h work : 0 <= work < 2 ^ 128 ->
  bei_of (mk_alt_block_data b h (Z.land work (2 ^ 64 - 1)) (Z.land (Z.shiftr work 64) (2 ^ 64 - 1))) = mk_bei (blk := blk) b h work.
Proof.
  intros Hw. unfold bei_of. cbn [alt_block height cumulative_difficulty_low cumulative_difficulty_high]. f_equal. rewrite !land_word, Z.shiftr_div_pow2 by lia.
  assert (0 <= work / 2 ^ 64 < 2 ^ 64) by (split; [apply Z.div_pos; lia|apply Z.div_lt_upper_bound; lia]).
  rewrite (Z.mod_small (work / 2 ^ 64)), Z.shiftl_mul_pow2 by lia. unfold w128. pose proof (Z.div_mod work (2 ^ 64) ltac:(lia)). rewrite Z.mod_small by lia. lia.
Qed.

Lemma branch_height main alts id k path : valid main -> alts_ok alts -> branch main id k path -> (path = [] <-> alts !! id = None) ->
  (match path, alts !! id with _ :: _, Some d => Some (height d) | _, _ => get_block_height get_block_hash main id end) = Some (k + length path - 1)%nat /\
  (match path, alts !! id with
   | _ :: _, Some d => Some (bei_cumulative_difficulty (bei_of d))
   | _, _ => h ← get_block_height get_block_hash main id; i ← main !! h; Some (cumulative_difficulty i)
   end) = Some (work_of (take k main ++ map info_of path)).
Proof using Hid Hgenesis.
  intros Hm Ha (Hk & Hv & Ht & _) Hiff. destruct path as [|e path].
  - rewrite app_nil_r in *. destruct (lookup_lt_is_Some_2 main (k - 1)) as [i Hi]; [lia|].
    assert (take k main = take (S (k - 1)) main) as Ek by (f_equal; lia). rewrite Ek, (top_take _ _ _ Hi) in Ht. subst id.
    rewrite (get_block_height_at _ _ _ Hm Hi). cbn [mbind option_bind]. rewrite Hi. cbn [mbind option_bind length]. rewrite Nat.add_0_r. split; [done|].
    rewrite Ek. unfold work_of. rewrite last_take_lookup, Hi by lia. done.
  - destruct (alts !! id) as [d|] eqn:Ed; [|by destruct Hiff as [_ Hiff]; specialize (Hiff eq_refl)].
    destruct (Ha id d Ed) as (Hd & c & Hc & Hcv & Hl).
    assert (c ++ [info_of (bei_of d)] = take k main ++ map info_of (e :: path)) as E by (apply valid_unique; [done|done|]; by rewrite Ht, top_last, <- Hd).
    rewrite <- E. split.
    + apply (f_equal length) in E. rewrite !length_app, length_map, length_take, Nat.min_l in E by lia. cbn [length] in E |- *. f_equal. lia.
    + unfold work_of. rewrite last_snoc. done.
Qed.

(** The chain a block would end has an acceptable amount of work. *)
Definition fits (b : blk) : Prop := forall c d, valid c -> prev_id b = top c -> difficulty c = Some d -> d + work_of c < 2 ^ 128.

(** What happens to an alternative block: nothing, it is kept, or its chain has more work. *)
Lemma alternative_cases f now main alts b :
  valid main -> alts_ok alts -> fits b -> 0 <= genesis_work < 2 ^ 128 ->
  (exists r, alternative (S f) now (mk_chain main alts) b = Some (r, mk_chain main alts)) \/
  exists path k d, let c := take k main ++ map info_of path in let e := mk_bei b (k + length path) (d + work_of c) in
    branch main (prev_id b) k path /\ difficulty c = Some d /\ valid (c ++ [info_of e]) /\
    exists alts', alts_ok alts' /\
      alternative (S f) now (mk_chain main alts) b =
        if work_of main <? d + work_of c
        then switch_to_alternative_blockchain get_block_hash prev_id timestamp target main_checks pow_ok now (alternative f now) (mk_chain main alts') (path ++ [e])
        else Some (true, mk_chain main alts').
Proof using Hid Hgenesis Htime Htarget.
  intros Hm Ha Hb Hg. cbn [handle_alternative_block]. destruct (alt_checks main b) eqn:Eac; cbn [NodeChain.main NodeChain.alts]; rewrite Eac; cbn [negb]; [|left; by eexists].
  destruct (build_ok main alts (prev_id b) Hm Ha) as [E|(path & ts & k & E & Hbr & Hiff)].
  { left. rewrite E. cbn [mbind option_bind]. destruct (alts !! prev_id b); [by eexists|]. destruct (block_exists get_block_hash main (prev_id b)); by eexists. }
  destruct (branch_height main alts (prev_id b) k path Hm Ha Hbr Hiff) as [E1 E2]. pose proof Hbr as (Hk & Hv & Ht & Hhd). rewrite E.
  destruct (alts !! prev_id b) as [pd|] eqn:Epd; [|destruct (block_exists get_block_hash main (prev_id b)) eqn:Eex; [|left; by eexists]].
  all: cbn [mbind option_bind] in *; rewrite E1; cbn [mbind option_bind]; destruct (check_median timestamp ts b); cbn [negb]; [|left; by eexists].
  all: replace (S (k + length path - 1)) with (k + length path)%nat by lia; rewrite alternative_difficulty by (done || (intros e He; by apply Hhd)).
  all: destruct (difficulty_total (take k main ++ map info_of path)) as (d & Ed & Hd); rewrite Ed; cbn [mbind option_bind].
  all: destruct (Z.eqb_spec d 0); [left; by eexists|]. all: destruct (alt_pow_ok main path b d); cbn [negb]; [|left; by eexists].
  all: destruct (alt_rest main path b); cbn [negb]; [|left; by eexists]. all: destruct (last_work main Hm) as (i & Hi & Hw); rewrite Hi; cbn [mbind option_bind]; rewrite E2; cbn [mbind option_bind].
  all: destruct (alts !! get_block_hash b) eqn:Eb; [left; by eexists|right]; exists path, k, d; cbv zeta.
  all: pose proof (Hb _ _ Hv (eq_sym Ht) Ed) as Hfit; pose proof (work_nonneg _ Hg Hv) as Hpos.
  all: rewrite (Z.add_comm _ d); unfold w128; rewrite (Z.mod_small (d + work_of _)) by lia; rewrite Hw.
  all: assert (valid ((take k main ++ map info_of path) ++ [mk_info b (d + work_of (take k main ++ map info_of path))])) as Hnew by (constructor; (done || lia)).
  all: do 3 (split; [done|]); eexists; split; [|done].
  all: intros id dd [(<- & <-)|(_ & El)]%lookup_insert_Some; [|by apply Ha].
  all: cbn [alt_block]; split; [done|]; exists (take k main ++ map info_of path); rewrite bei_of_data by lia; split; [done|]; split; [done|].
  all: cbn [height]; rewrite length_app, length_map, length_take; lia.
Qed.

(** A block of a valid chain: what a chain that ends with its parent is, and the work. *)
Lemma known_block M j i c d : valid M -> (1 <= j)%nat -> M !! j = Some i -> valid c -> prev_id (bl i) = top c -> difficulty c = Some d ->
  d + work_of c = work_of (take (S j) M) /\ d + work_of c < 2 ^ 128.
Proof using Hid Hgenesis.
  intros HM Hj Hi Hc Hp Hd. pose proof (lookup_lt_Some _ _ _ Hi). pose proof (valid_take M (S j) HM ltac:(lia)) as H1.
  pose proof (valid_take M j HM ltac:(lia)) as H2. rewrite (take_S_r _ _ _ Hi) in *.
  assert (c = take j M) as -> by (apply valid_unique; [done|done|]; rewrite <- Hp; by apply valid_prev).
  inversion H1 as [E|c' b d' Hc' _ Hd' _ Hf E].
  - apply (f_equal length) in E. rewrite length_app, length_take in E. cbn [length] in E. lia.
  - apply app_inj_tail in E as [-> <-]. rewrite Hd in Hd'. injection Hd' as <-. by rewrite work_snoc.
Qed.

(** The blocks of the old chain are kept as alternatives, and none of them makes the node switch back. *)
Lemma push_old now M k N : valid M -> valid N -> work_of M < work_of N -> (1 <= k)%nat -> 0 <= genesis_work < 2 ^ 128 ->
  pushes (alternative 1 now) N (map bl (drop k M)).
Proof using Hid Hgenesis Htime Htarget.
  intros HM HN Hw Hk Hg al b Hal Hb. apply list_elem_of_fmap in Hb as (i & -> & Hi). apply list_elem_of_lookup_1 in Hi as [j Hi]. rewrite lookup_drop in Hi.
  pose proof (lookup_lt_Some _ _ _ Hi). pose proof (work_take M (S (k + j)) HM ltac:(lia)).
  assert (fits (bl i)) as Hfit by (intros c d Hc Hp Hd; by apply (known_block M (k + j) i c d HM ltac:(lia) Hi)).
  destruct (alternative_cases 0 now N al (bl i) HN Hal Hfit Hg) as [[r E]|(path & k' & d & Hbr & Hd & Hv & al' & Hal' & E)]; [by exists r, al|].
  destruct Hbr as (_ & Hc & Ht & _). cbv zeta in *. destruct (known_block M (k + j) i _ d HM ltac:(lia) Hi Hc (eq_sym Ht) Hd) as [Ew _].
  exists true, al'. rewrite E, Ew. by destruct (Z.ltb_spec (work_of N) (work_of (take (S (k + j)) M))); [lia|].
Qed.

Definition node_ok (now : Z) (st : chain (blk := blk)) : Prop := grown now (NodeChain.main st) /\ alts_ok (NodeChain.alts st).

(** What a new block can do to the chain. *)
Definition replaced (M M' : chain_info) (b : blk) : Prop :=
  exists k, (k <= length M)%nat /\ (length M - k <= CRYPTONOTE_MAX_REORG_DEPTH)%nat /\ take k M' = take k M /\ work_of M < work_of M' /\ top M' = get_block_hash b.

Lemma alternative_ok now st b : 0 <= now -> now + CRYPTONOTE_BLOCK_FUTURE_TIME_LIMIT < 2 ^ 64 -> 0 <= genesis_work < 2 ^ 128 -> node_ok now st -> fits b ->
  exists r st', alternative 2 now st b = Some (r, st') /\ node_ok now st' /\ (NodeChain.main st' = NodeChain.main st \/ replaced (NodeChain.main st) (NodeChain.main st') b).
Proof using Hid Hgenesis Htime Htarget.
  intros H0 Hn Hg [Hm Ha] Hb. destruct st as [M al]. cbn [NodeChain.main NodeChain.alts] in *. pose proof (grown_valid _ _ Hm) as HM.
  destruct (alternative_cases 1 now M al b HM Ha Hb Hg) as [[r E]|(path & k & d & Hbr & Hd & Hv & al' & Hal' & E)].
  { exists r, (mk_chain M al). split; [done|]. split; [done|by left]. }
  cbv zeta in *. set (c := take k M ++ map info_of path) in *. set (e := mk_bei b (k + length path) (d + work_of c)) in *.
  destruct (Z.ltb_spec (work_of M) (d + work_of c)) as [Hlt|Hge]; [|exists true, (mk_chain M al'); split; [done|]; split; [done|by left]].
  assert (take k M ++ map info_of (path ++ [e]) = c ++ [info_of e]) as EN by (by rewrite map_app, app_assoc). pose proof Hbr as (Hk & Hcv & Ht & Hhd).
  destruct (switch_ok now (alternative 1 now) M al' k (path ++ [e]) H0 Hn Hg Hm Hal') as (r & st' & Es & Hgr & Hal2 & Hr).
  - split; [lia|]. rewrite EN. split; [done|]. destruct path as [|x path].
    + exists e. split; [done|]. split; [|cbn; lia]. transitivity (top c); [exact (eq_sym Ht)|]. unfold c. by rewrite app_nil_r.
    + exists x. split; [done|]. destruct (Hhd x eq_refl) as (H1 & H2 & _). done.
  - rewrite EN. apply push_old; [done|done| |lia|done]. unfold work_of at 2. rewrite last_snoc. done.
  - exists r, st'. rewrite E, Es. split; [done|]. split; [done|]. destruct r; [right|by left]. destruct Hr as [-> Hcap]. rewrite EN. exists k.
    split; [lia|]. split; [done|]. split; [|split].
    + unfold c. rewrite <- app_assoc. rewrite take_app_length'; [done|]. rewrite length_take. lia.
    + unfold work_of at 2. rewrite last_snoc. done.
    + by rewrite top_last.
Qed.

Lemma new_block_ok t now st b : 0 <= t <= now -> now + CRYPTONOTE_BLOCK_FUTURE_TIME_LIMIT < 2 ^ 64 -> 0 <= genesis_work < 2 ^ 128 -> node_ok t st -> fits b ->
  exists r st', add_new_block get_block_hash prev_id timestamp target main_checks pow_ok alt_checks alt_pow_ok alt_rest 2 now st b = Some (r, st') /\
    node_ok now st' /\ (NodeChain.main st' = NodeChain.main st \/ replaced (NodeChain.main st) (NodeChain.main st') b).
Proof using Hid Hgenesis Htime Htarget.
  intros Ht Hn Hg [Hm Ha] Hb. assert (node_ok now st) as Hok by (split; [by apply (grown_later t); [lia|]|done]). unfold add_new_block.
  destruct (have_block get_block_hash st (get_block_hash b)); [exists false, st; split; [done|]; split; [done|by left]|].
  case_bool_decide as Hp; cbn [negb]; [|by apply alternative_ok; [lia|..]]. destruct st as [M al]. cbn [NodeChain.main NodeChain.alts] in *.
  pose proof (grown_valid _ _ Hm) as HM. destruct (difficulty_total M) as (d & Ed & _). pose proof (Hb M d HM Hp Ed) as Hfit.
  destruct (extend_total now M b) as [r E]. rewrite E. cbn [mbind option_bind]. destruct (extend_shape now M b r HM E) as [->|(d' & Ed' & Hd' & _ & _ & ->)].
  { exists false, (mk_chain M al). split; [done|]. split; [done|by left]. }
  rewrite Ed in Ed'. injection Ed' as <-. pose proof (work_nonneg M Hg HM). unfold w128 in *. rewrite Z.mod_small in * by lia.
  eexists true, _. split; [done|]. cbn [NodeChain.main NodeChain.alts]. split.
  - split; [|done]. apply (grown_snoc _ _ _ now); [apply Hok|lia|by constructor|done].
  - right. exists (length M). rewrite take_app_length, take_ge, work_snoc, top_snoc by done. split_and!; [done|lia|done|lia|done].
Qed.

(** ** Reachable states *)

Inductive reaches : Z -> chain (blk := blk) -> Prop :=
| reaches_genesis now : 0 <= now -> reaches now (mk_chain [mk_info genesis genesis_work] ∅)
| reaches_block t now st b r st' : reaches t st -> t <= now -> now + CRYPTONOTE_BLOCK_FUTURE_TIME_LIMIT < 2 ^ 64 -> fits b ->
    add_new_block get_block_hash prev_id timestamp target main_checks pow_ok alt_checks alt_pow_ok alt_rest 2 now st b = Some (r, st') -> reaches now st'.

Lemma reaches_ok now st : 0 <= genesis_work < 2 ^ 128 -> reaches now st -> 0 <= now /\ node_ok now st.
Proof using Hid Hgenesis Htime Htarget.
  intros Hg. induction 1 as [now H0|t now st b r st' Hr [H0 IH] Ht Hn Hb E]; [split; [done|split; [constructor|done]]|]. split; [lia|].
  destruct (new_block_ok t now st b ltac:(lia) Hn Hg IH Hb) as (r2 & st2 & E2 & Hok & _). rewrite E in E2. by injection E2 as <- <-.
Qed.

Lemma grown_launch now c n i : grown now c -> (1 <= n)%nat -> c !! n = Some i -> GLACIEM_LAUNCH_TIMESTAMP <= timestamp (bl i).
Proof using Htime Htarget.
  intros Hc. induction Hc as [|c j t Hc IH Ht Hv He]; intros Hn Hi; [destruct n as [|[|n]]; cbn in Hi; [lia|done..]|].
  apply lookup_app_Some in Hi as [Hi|[Hge Hi]]; [by apply IH|]. apply list_lookup_singleton_Some in Hi as [_ ->]. pose proof (grown_valid _ _ Hc) as Hcv.
  destruct (extend_shape t c (bl i) _ Hcv He) as [|(d & _ & _ & _ & Hts & _)]; [done|]. unfold check_block_timestamp in Hts. pose proof (valid_nonempty c Hcv).
  destruct (_ <? timestamp (bl i)); [done|]. destruct (Nat.leb_spec 1 (length c)); [|lia]. cbn [andb] in Hts. by destruct (Z.ltb_spec (timestamp (bl i)) GLACIEM_LAUNCH_TIMESTAMP).
Qed.

(** ** The kept difficulty *)

Context (Hnull : forall b, get_block_hash b <> null_hash).

(** The part of a chain the difficulty of the next block is computed from. *)
Definition window (c : chain_info) : chain_info :=
  let offset := (length c - Nat.min (length c) DIFFICULTY_BLOCKS_COUNT)%nat in drop (if (offset =? 0)%nat then 1%nat else offset) c.

Definition cache_ok (c : chain_info) (k : difficulty_cache) : Prop :=
  (let h := m_timestamps_and_difficulties_height k in
   m_reset_timestamps_and_difficulties_height k = false -> h <> 0%nat ->
   (h <= length c)%nat /\ m_timestamps k = timestamps_of timestamp (window (take h c)) /\ m_difficulties k = map cumulative_difficulty (window (take h c))) /\
  (forall c', valid c' -> top c' = m_difficulty_for_next_block_top_hash k -> difficulty c' = Some (m_difficulty_for_next_block k)).

(** A full window moves by one block. *)
Lemma window_moves (c : chain_info) h i : (DIFFICULTY_BLOCKS_COUNT <= length (window (take h c)))%nat -> length c = (h + 1)%nat -> c !! h = Some i ->
  length (window (take h c)) = DIFFICULTY_BLOCKS_COUNT /\ window c = drop 1 (window (take h c) ++ [i]).
Proof using.
  intros Hw Hl Hi. unfold window in *. rewrite length_take, Nat.min_l in * by lia. rewrite length_drop, length_take, (Nat.min_l h (length c)) in * by lia.
  destruct (Nat.eqb_spec (h - Nat.min h DIFFICULTY_BLOCKS_COUNT) 0) as [|Hne]; [unfold DIFFICULTY_BLOCKS_COUNT, DIFFICULTY_WINDOW, DIFFICULTY_LAG in *; lia|].
  split; [lia|]. rewrite Hl. destruct (Nat.eqb_spec (h + 1 - Nat.min (h + 1) DIFFICULTY_BLOCKS_COUNT) 0) as [|_]; [lia|].
  rewrite <- (drop_app_le (take h c)), drop_drop by (rewrite length_take; lia). rewrite <- (take_S_r _ _ _ Hi), (take_ge c) by lia. f_equal. lia.
Qed.

Lemma cached_ok c k : valid c -> cache_ok c k -> exists d k', cached_difficulty get_block_hash timestamp target c k = Some (d, k') /\ difficulty c = Some d /\ cache_ok c k'.
Proof using Hid Hgenesis Htime Htarget.
  intros Hc [Hw Ht]. unfold cached_difficulty. case_bool_decide as Etop; [by exists (m_difficulty_for_next_block k), k; split; [|split; [apply Ht|]]|].
  set (h := if m_reset_timestamps_and_difficulties_height k then 0%nat else m_timestamps_and_difficulties_height k).
  match goal with |- context [mbind _ ?x] => assert (x = Some (timestamps_of timestamp (window c), map cumulative_difficulty (window c))) as -> end.
  - destruct (Nat.eqb_spec h 0) as [|Hh]; [done|]. destruct (Nat.eqb_spec (length c) (h + 1)) as [Hl|]; [|done].
    destruct (Nat.leb_spec DIFFICULTY_BLOCKS_COUNT (length (m_timestamps k))) as [Hn|]; [|done]. cbn [negb andb]. unfold h in *.
    destruct (m_reset_timestamps_and_difficulties_height k); [done|]. destruct (Hw eq_refl Hh) as (Hle & Ets & Ecd). fold h in Hl, Hle, Ets, Ecd |- *.
    destruct (lookup_lt_is_Some_2 c h) as [i Hi]; [lia|]. rewrite Hl, Nat.add_sub, Hi. cbn [mbind option_bind].
    assert (length (m_timestamps k) = length (window (take h c))) as El by (rewrite Ets; apply length_map).
    destruct (window_moves c h i ltac:(lia) Hl Hi) as [E1 E2]. rewrite !length_app, Ets, Ecd, E2. unfold timestamps_of. rewrite !length_map, E1. cbn [length].
    replace (DIFFICULTY_BLOCKS_COUNT + 1 - DIFFICULTY_BLOCKS_COUNT)%nat with 1%nat by lia. by rewrite <- !skipn_map, !map_app.
  - cbn [mbind option_bind]. destruct (difficulty_total c) as (d & Ed & _). pose proof Ed as Ed'. unfold get_difficulty_for_next_block in Ed'. fold (window c) in Ed'. rewrite Ed'. cbn [mbind option_bind].
    eexists _, _. split; [done|]. split; [done|]. split; cbn.
    + intros _ _. by rewrite take_ge by done.
    + intros c' Hc' E. apply valid_unique in E; [by subst|done|done].
Qed.

(** The other blocks, pops and the end of a batch keep it. *)
Lemma cache_ok_extend c i k : cache_ok c k -> cache_ok (c ++ [i]) k.
Proof using.
  intros [Hw Ht]. split; [|done]. intros h Hr Hh. destruct (Hw Hr Hh) as (Hle & E1 & E2). rewrite length_app, take_app_le by done. by split; [lia|].
Qed.

Lemma cache_ok_reset c c' k : cache_ok c k -> cache_ok c' (reset_cache k) /\ cache_ok c (cleanup_cache k).
Proof using.
  intros [Hw Ht]. split; [split; [intros h Hr; discriminate Hr|done]|]. unfold cleanup_cache. destruct (m_reset_timestamps_and_difficulties_height k) eqn:E.
  - split; [intros h _ Hh; by destruct Hh|done].
  - exact (conj (fun _ => Hw eq_refl) Ht).
Qed.

Lemma cache_ok_initial c : cache_ok c initial_cache.
Proof using Hnull. split; [intros h Hr; discriminate Hr|]. intros c' Hc' E. destruct (valid_top c' Hc') as [b Hb]. cbn in E. rewrite Hb in E. by destruct (Hnull b). Qed.

(** What the fields that keep the difficulty go through. *)
Inductive cached : chain_info -> difficulty_cache -> Prop :=
| cached_initial c : valid c -> cached c initial_cache
| cached_extend c i k : cached c k -> valid (c ++ [i]) -> cached (c ++ [i]) k
| cached_pop c n k : cached c k -> (1 <= n <= length c)%nat -> cached (take n c) (reset_cache k)
| cached_cleanup c k : cached c k -> cached c (cleanup_cache k)
| cached_ask c k d k' : cached c k -> cached_difficulty get_block_hash timestamp target c k = Some (d, k') -> cached c k'.

Lemma cached_inv c k : cached c k -> valid c /\ cache_ok c k.
Proof using Hid Hgenesis Htime Htarget Hnull.
  induction 1 as [c Hc|c i k _ [_ IH] Hv|c n k _ [Hc IH] Hn|c k _ [Hc IH]|c k d k' _ [Hc IH] E].
  - split; [done|apply cache_ok_initial].
  - split; [done|by apply cache_ok_extend].
  - split; [by apply valid_take|by apply (cache_ok_reset c)].
  - split; [done|by apply (cache_ok_reset c c)].
  - split; [done|]. destruct (cached_ok c k Hc IH) as (d2 & k2 & E2 & _ & Hk). rewrite E in E2. by injection E2 as <- <-.
Qed.

(** C15: keeping the difficulty of the next block, and moving the window by one block instead of reading it again, changes nothing: after
    any growth, pops and ends of batches, the answer is what reading the chain gives. *)
Theorem cached_difficulty_exact c k : cached c k ->
  exists d k', cached_difficulty get_block_hash timestamp target c k = Some (d, k') /\ difficulty c = Some d.
Proof using Hid Hgenesis Htime Htarget Hnull.
  intros H. destruct (cached_inv c k H) as [Hc Hk]. destruct (cached_ok c k Hc Hk) as (d & k' & E & Ed & _). by exists d, k'.
Qed.

(** C5: a new block is handled to the end, with fuel for one switch, whatever the other checks say, and no block replaces more than the
    last sixty: the chain keeps all blocks below that depth, and it changes only for a chain with more work.  A switch that fails
    leaves the chain as it was. *)
Theorem reorg_capped t now st b :
  0 <= genesis_work < 2 ^ 128 -> reaches t st -> t <= now -> now + CRYPTONOTE_BLOCK_FUTURE_TIME_LIMIT < 2 ^ 64 -> fits b ->
  exists r st', add_new_block get_block_hash prev_id timestamp target main_checks pow_ok alt_checks alt_pow_ok alt_rest 2 now st b = Some (r, st') /\
    reaches now st' /\ valid (NodeChain.main st') /\
    (let keep := (length (NodeChain.main st) - CRYPTONOTE_MAX_REORG_DEPTH)%nat in take keep (NodeChain.main st') = take keep (NodeChain.main st)) /\
    (NodeChain.main st' = NodeChain.main st \/ work_of (NodeChain.main st) < work_of (NodeChain.main st')).
Proof using Hid Hgenesis Htime Htarget.
  intros Hg Hr Ht Hn Hb. destruct (reaches_ok t st Hg Hr) as [H0 Hok].
  destruct (new_block_ok t now st b ltac:(lia) Hn Hg Hok Hb) as (r & st' & E & [Hgr Ha] & Hch). exists r, st'. split; [done|].
  split; [by apply (reaches_block t now st b r)|]. split; [by apply (grown_valid now)|]. cbv zeta. destruct Hch as [->|(k & Hk & Hcap & Htk & Hw & _)]; [by split; [|left]|].
  split; [|by right]. apply (f_equal (take (length (NodeChain.main st) - CRYPTONOTE_MAX_REORG_DEPTH))) in Htk. rewrite !take_take in Htk. by rewrite !Nat.min_l in Htk by lia.
Qed.

(** C17: the fair launch holds on every chain a node can come to have: every block but the genesis block is dated at or after the launch,
    also when it came in as an alternative block. *)
Theorem launch_respected now st n i :
  0 <= genesis_work < 2 ^ 128 -> reaches now st -> (1 <= n)%nat -> NodeChain.main st !! n = Some i -> GLACIEM_LAUNCH_TIMESTAMP <= timestamp (bl i).
Proof using Hid Hgenesis Htime Htarget.
  intros Hg Hr Hn Hi. destruct (reaches_ok now st Hg Hr) as [_ [Hgr _]]. by apply (grown_launch now (NodeChain.main st) n i).
Qed.
End Safety.

(** ** An example *)

(** A block is the list of the time stamps from it down to the genesis block, which is the empty list. *)
Definition demo_hash (b : list Z) : bytes := 1 :: b.
Definition demo_prev (b : list Z) : bytes := match b with [] => [] | _ :: p => 1 :: p end.
Definition demo_time (b : list Z) : Z := hd 0 b mod 2 ^ 64.
Definition demo_now : Z := GLACIEM_LAUNCH_TIMESTAMP + 100000.
Definition demo_genesis : chain := mk_chain [mk_info (blk := list Z) [] 1] ∅.
Definition demo_add (st : chain) (b : list Z) : option (bool * chain) :=
  add_new_block demo_hash demo_prev demo_time 120 (fun _ _ => true) (fun _ _ _ => true) (fun _ _ => true) (fun _ _ _ _ => true) (fun _ _ _ => true) 2 demo_now st b.
Definition demo_run (bs : list (list Z)) (st : option chain) : option chain := foldl (fun st b => st ← st; snd <$> demo_add st b) st bs.

Lemma demo_laws :
  (forall b b', demo_hash b = demo_hash b' -> b = b') /\ (forall b, demo_hash b <> demo_prev []) /\ (forall b, word_ok (demo_time b)) /\ (forall b, demo_hash b <> null_hash).
Proof. split_and!; [by intros b b' [= ->]|done|intros b; apply Z.mod_pos_bound; lia|done]. Qed.

Lemma demo_fits : fits demo_hash demo_prev demo_time 120 [] 1 [GLACIEM_LAUNCH_TIMESTAMP].
Proof.
  intros c d Hc Hp Hd. destruct demo_laws as (H1 & H2 & _). assert (c = [mk_info [] 1]) as ->.
  { symmetry. by apply (valid_unique demo_hash demo_prev demo_time 120 H1 [] 1 H2); [constructor|..]. }
  vm_compute in Hd. injection Hd as <-. vm_compute. reflexivity.
Qed.

Lemma demo_reaches : reaches demo_hash demo_prev demo_time 120 (fun _ _ => true) (fun _ _ _ => true) (fun _ _ => true) (fun _ _ _ _ => true) (fun _ _ _ => true) [] 1 0 demo_genesis.
Proof. apply reaches_genesis. lia. Qed.

Lemma reorg_capped_witness : exists r st', demo_add demo_genesis [GLACIEM_LAUNCH_TIMESTAMP] = Some (r, st') /\ take 0 (main st') = [].
Proof.
  destruct demo_laws as (H1 & H2 & H3 & _).
  destruct (reorg_capped demo_hash demo_prev demo_time 120 (fun _ _ => true) (fun _ _ _ => true) (fun _ _ => true) (fun _ _ _ _ => true) (fun _ _ _ => true)
    H1 [] 1 H2 H3 ltac:(lia) 0 demo_now demo_genesis [GLACIEM_LAUNCH_TIMESTAMP] ltac:(lia) demo_reaches ltac:(vm_compute; congruence) ltac:(vm_compute; reflexivity) demo_fits)
    as (r & st' & E & _ & _ & Hk & _). exists r, st'. exact (conj E Hk).
Defined.

Lemma demo_step : exists st, reaches demo_hash demo_prev demo_time 120 (fun _ _ => true) (fun _ _ _ => true) (fun _ _ => true) (fun _ _ _ _ => true) (fun _ _ _ => true) [] 1 demo_now st /\
  main st !! 1%nat = Some (mk_info [GLACIEM_LAUNCH_TIMESTAMP] 2).
Proof.
  eexists. split; [apply (reaches_block _ _ _ _ _ _ _ _ _ _ _ 0 demo_now demo_genesis [GLACIEM_LAUNCH_TIMESTAMP] true)|].
  - apply demo_reaches.
  - vm_compute. congruence.
  - vm_compute. reflexivity.
  - apply demo_fits.
  - vm_compute. reflexivity.
  - vm_compute. reflexivity.
Qed.

Lemma launch_respected_witness : GLACIEM_LAUNCH_TIMESTAMP <= demo_time [GLACIEM_LAUNCH_TIMESTAMP].
Proof.
  destruct demo_laws as (H1 & H2 & H3 & _). destruct demo_step as (st & Hr & Hi).
  exact (launch_respected demo_hash demo_prev demo_time 120 (fun _ _ => true) (fun _ _ _ => true) (fun _ _ => true) (fun _ _ _ _ => true) (fun _ _ _ => true)
    H1 [] 1 H2 H3 ltac:(lia) demo_now st 1 _ ltac:(lia) Hr ltac:(lia) Hi).
Defined.

Lemma cached_difficulty_exact_witness : exists d k, cached_difficulty demo_hash demo_time 120 [mk_info [] 1] initial_cache = Some (d, k).
Proof.
  destruct demo_laws as (H1 & H2 & H3 & H4).
  destruct (cached_difficulty_exact demo_hash demo_prev demo_time 120 H1 [] 1 H2 H3 ltac:(lia) H4 [mk_info [] 1] initial_cache) as (d & k & E & _).
  - apply cached_initial. constructor.
  - exists d, k. exact E.
Defined.

(** A slow chain of 63 blocks; a shorter and heavier one that forks sixty blocks below its top; and one that forks at the genesis block. *)
Fixpoint on_top (n : nat) (step : Z) (b : list Z) : list (list Z) :=
  match n with
  | O => []
  | S k => let b' := (hd GLACIEM_LAUNCH_TIMESTAMP b + step) :: b in b' :: on_top k step b'
  end.
Definition slow_chain : list (list Z) := on_top 62 120 [].
Definition heavy_fork : list (list Z) := on_top 6 0 (nth 1 slow_chain []).
Definition deep_fork : list (list Z) := on_top 3 0 [].

(** The cap does not make old blocks final: with enough work a node is taken, in two switches of at most sixty blocks each, to a
    chain in which the first blocks are others, although they were more than sixty blocks deep.  The first switch is to a chain with more
    work and fewer blocks, so that the depth of the second one, counted from the new top, is allowed. *)
Theorem reorg_digs_deeper :
  let after bs := demo_run bs (Some demo_genesis) in
  let height bs := (fun st => length (main st)) <$> after bs in
  let block_at n bs := (fun st => bl <$> main st !! n) <$> after bs in
  height slow_chain = Some 63%nat /\ height (slow_chain ++ heavy_fork) = Some 9%nat /\ height (slow_chain ++ heavy_fork ++ deep_fork) = Some 4%nat /\
  block_at 1%nat (slow_chain ++ heavy_fork) = block_at 1%nat slow_chain /\
  block_at 1%nat (slow_chain ++ heavy_fork ++ deep_fork) <> block_at 1%nat slow_chain.
Proof. cbv zeta. split_and!; [vm_compute; reflexivity..|]. vm_compute. congruence. Qed.
