(* ===== verification/NodeReward.v ===== *)
(** * NodeReward: what a block pays (get_block_reward of src/cryptonote_basic/cryptonote_basic_impl.cpp and the checks of the coinbase in
    src/cryptonote_core/blockchain.cpp)

    The reward falls with the coins already generated, never below a fixed one, and a block above the median weight pays a penalty,
    computed with the 128-bit helpers of [NodeInt].  [reward_exact] gives its value; [supply_grows] follows the coins of a chain. *)
From S2P Require Import Prelude Bytes Lattice LatticeSafety NodeInt NodeWork.
Local Open Scope Z_scope.

Definition MONEY_SUPPLY : Z := 2 ^ 64 - 1.
Definition EMISSION_SPEED_FACTOR_PER_MINUTE : Z := 20.
Definition FINAL_SUBSIDY_PER_MINUTE : Z := 300000000000.
Definition CRYPTONOTE_BLOCK_GRANTED_FULL_REWARD_ZONE_V1 : Z := 20000.
Definition CRYPTONOTE_BLOCK_GRANTED_FULL_REWARD_ZONE_V2 : Z := 60000.
Definition CRYPTONOTE_BLOCK_GRANTED_FULL_REWARD_ZONE_V5 : Z := 300000.
Definition DIFFICULTY_TARGET_V1 : Z := 60.
Definition DIFFICULTY_TARGET_V2 : Z := 120.
Definition HF_VERSION_EXACT_COINBASE : Z := 13.

Definition get_min_block_weight (version : Z) : Z :=
  if version <? 2 then CRYPTONOTE_BLOCK_GRANTED_FULL_REWARD_ZONE_V1
  else if version <? 5 then CRYPTONOTE_BLOCK_GRANTED_FULL_REWARD_ZONE_V2
  else CRYPTONOTE_BLOCK_GRANTED_FULL_REWARD_ZONE_V5.

(** The reward before the penalty. *)
Definition base_block_reward (already_generated_coins version : Z) : Z :=
  let target := if version <? 2 then DIFFICULTY_TARGET_V1 else DIFFICULTY_TARGET_V2 in
  let target_minutes := target / 60 in
  let emission_speed_factor := EMISSION_SPEED_FACTOR_PER_MINUTE - (target_minutes - 1) in
  let base_reward := Z.shiftr (w64 (MONEY_SUPPLY - already_generated_coins)) emission_speed_factor in
  if base_reward <? FINAL_SUBSIDY_PER_MINUTE * target_minutes then FINAL_SUBSIDY_PER_MINUTE * target_minutes else base_reward.

(** [Some None] when the block is too big; [None] would be a division by zero. *)
Definition get_block_reward (median_weight current_block_weight already_generated_coins version : Z) : option (option Z) :=
  let base_reward := base_block_reward already_generated_coins version in
  let full_reward_zone := get_min_block_weight version in
  let median_weight := if median_weight <? full_reward_zone then full_reward_zone else median_weight in
  if current_block_weight <=? median_weight then Some (Some base_reward)
  else if w64 (2 * median_weight) <? current_block_weight then Some None
  else
    let multiplicand := w64 (2 * median_weight - current_block_weight) in
    let multiplicand := w64 (multiplicand * current_block_weight) in
    let '(product_lo, product_hi) := mul128 base_reward multiplicand in
    '(reward_hi, reward_lo, _) ← div128_64 product_hi product_lo median_weight;
    '(_, reward_lo, _) ← div128_64 reward_hi reward_lo median_weight;
    Some (Some reward_lo).

(** ** The coinbase (blockchain.cpp) *)

(** [check_outs_overflow], as [prevalidate_miner_transaction] calls it. *)
Fixpoint outs_overflow_from (money : Z) (vout : list Z) : bool :=
  match vout with
  | [] => true
  | amount :: rest => if w64 (amount + money) <? money then false else outs_overflow_from (w64 (money + amount)) rest
  end.
Definition check_outs_overflow (vout : list Z) : bool := outs_overflow_from 0 vout.

Definition get_outs_money_amount (vout : list Z) : Z := fold_left (fun money amount => w64 (money + amount)) vout 0.

(** The amounts of the outputs, the fees, and the median the caller has; [valid_decomposed] is [is_valid_decomposed_amount].  The result is
    the coins generated and whether they are less than allowed; [Some None] when the coinbase is refused. *)
Definition validate_miner_transaction (valid_decomposed : Z -> bool) (vout : list Z) (median_weight cumulative_block_weight fee already_generated_coins version : Z)
  : option (option (Z * bool)) :=
  let money_in_use := get_outs_money_amount vout in
  if (version =? 3) && negb (forallb valid_decomposed vout) then Some None
  else
    r ← get_block_reward median_weight cumulative_block_weight already_generated_coins version;
    match r with
    | None => Some None
    | Some base_reward =>
        let allowed := w64 (base_reward + fee) in
        if allowed <? money_in_use then Some None
        else if (version <? 2) || (HF_VERSION_EXACT_COINBASE <=? version) then
          if negb (allowed =? money_in_use) then Some None else Some (Some (base_reward, false))
        else if base_reward <? w64 (money_in_use - fee) then Some None
        else Some (Some (w64 (money_in_use - fee), negb (allowed =? money_in_use)))
    end.

(** The coins generated up to and with a block that generates [base_reward]. *)
Definition add_generated_coins (already_generated_coins base_reward : Z) : Z :=
  if base_reward <? w64 (MONEY_SUPPLY - already_generated_coins) then w64 (already_generated_coins + base_reward) else MONEY_SUPPLY.

(** ** The value of the reward *)

Definition minutes (version : Z) : Z := if version <? 2 then 1 else 2.

Lemma base_reward_eq coins version : 0 <= coins <= MONEY_SUPPLY ->
  base_block_reward coins version = Z.max (FINAL_SUBSIDY_PER_MINUTE * minutes version) ((MONEY_SUPPLY - coins) / 2 ^ (21 - minutes version)).
Proof.
  unfold MONEY_SUPPLY. intros Hc. unfold base_block_reward, minutes, MONEY_SUPPLY, EMISSION_SPEED_FACTOR_PER_MINUTE, DIFFICULTY_TARGET_V1, DIFFICULTY_TARGET_V2, FINAL_SUBSIDY_PER_MINUTE.
  rewrite w64_small by lia. destruct (version <? 2).
  - change (20 - (60 / 60 - 1)) with 20. change (60 / 60) with 1. change (21 - 1) with 20. rewrite Z.shiftr_div_pow2 by lia. destruct (Z.ltb_spec ((2 ^ 64 - 1 - coins) / 2 ^ 20) (300000000000 * 1)); lia.
  - change (20 - (120 / 60 - 1)) with 19. change (120 / 60) with 2. change (21 - 2) with 19. rewrite Z.shiftr_div_pow2 by lia. destruct (Z.ltb_spec ((2 ^ 64 - 1 - coins) / 2 ^ 19) (300000000000 * 2)); lia.
Qed.

Lemma base_reward_bounds coins version : 0 <= coins <= MONEY_SUPPLY ->
  FINAL_SUBSIDY_PER_MINUTE * minutes version <= base_block_reward coins version < 2 ^ 46.
Proof.
  intros Hc. rewrite base_reward_eq by done. split; [lia|]. apply Z.max_lub_lt; [unfold minutes, FINAL_SUBSIDY_PER_MINUTE; destruct (version <? 2); lia|].
  unfold MONEY_SUPPLY in *. apply Z.div_lt_upper_bound; [unfold minutes; destruct (version <? 2); lia|]. unfold minutes. destruct (version <? 2); cbn -[Z.sub]; lia.
Qed.

Lemma min_weight_pos version : 0 < get_min_block_weight version <= 300000.
Proof.
  unfold get_min_block_weight, CRYPTONOTE_BLOCK_GRANTED_FULL_REWARD_ZONE_V1, CRYPTONOTE_BLOCK_GRANTED_FULL_REWARD_ZONE_V2, CRYPTONOTE_BLOCK_GRANTED_FULL_REWARD_ZONE_V5.
  destruct (version <? 2), (version <? 5); lia.
Qed.

(** The penalty: the square of the excess over the median. *)
Lemma penalty_eq base m w : 0 <= base < 2 ^ 64 -> 0 < m < 2 ^ 32 -> m < w <= 2 * m ->
  (let '(product_lo, product_hi) := mul128 base (w64 (w64 (2 * m - w) * w)) in
   '(reward_hi, reward_lo, _) ← div128_64 product_hi product_lo m; '(_, reward_lo, _) ← div128_64 reward_hi reward_lo m; Some (Some reward_lo))
  = Some (Some (base * ((2 * m - w) * w) / (m * m))) /\ (0 < base -> base * ((2 * m - w) * w) / (m * m) < base).
Proof.
  intros Hb Hm Hw. assert (0 <= (2 * m - w) * w < m * m) as Hq by nia. rewrite (w64_small (2 * m - w)) by lia. rewrite (w64_small ((2 * m - w) * w)) by nia.
  destruct (wide_mul_words mul128 base ((2 * m - w) * w)) as (lo & hi & -> & E & Hlo & Hhi); [unfold word_ok; nia..|].
  destruct (div128_64_exact hi lo m Hhi Hlo ltac:(lia)) as (qh & ql & r & -> & Eq & Hqh & Hql). cbn [mbind option_bind].
  destruct (div128_64_exact qh ql m Hqh Hql ltac:(lia)) as (rh & rl & r' & -> & Er & Hrh & Hrl). cbn [mbind option_bind].
  assert (rh * 2 ^ 64 + rl = base * ((2 * m - w) * w) / (m * m)) as Ev by (rewrite Er, Eq, Z.div_div by lia; f_equal; lia).
  assert (0 < base -> base * ((2 * m - w) * w) / (m * m) < base) as Hlt by (intros; apply Z.div_lt_upper_bound; nia).
  split; [|done]. do 2 f_equal. rewrite <- Ev. destruct (Z.eq_dec base 0) as [->|Hne].
  - rewrite Z.mul_0_l, Z.div_0_l in Ev by nia. unfold word_ok in *. lia.
  - specialize (Hlt ltac:(lia)). unfold word_ok in *. lia.
Qed.

Lemma reward_value median w coins version : 0 <= coins <= MONEY_SUPPLY -> 0 <= median < 2 ^ 32 -> 0 <= w < 2 ^ 64 ->
  let m := Z.max median (get_min_block_weight version) in let base := base_block_reward coins version in
  get_block_reward median w coins version =
    Some (if w <=? m then Some base else if w <=? 2 * m then Some (base * ((2 * m - w) * w) / (m * m)) else None) /\
  (m < w <= 2 * m -> base * ((2 * m - w) * w) / (m * m) < base).
Proof.
  intros Hc Hm Hw. cbv zeta. unfold get_block_reward. pose proof (min_weight_pos version) as Hz. set (m := Z.max median (get_min_block_weight version)).
  assert ((if median <? get_min_block_weight version then get_min_block_weight version else median) = m) as ->.
  { unfold m. destruct (Z.ltb_spec median (get_min_block_weight version)); lia. }
  assert (0 < m < 2 ^ 32) as Hm' by lia. clearbody m. pose proof (base_reward_bounds coins version Hc) as Hb.
  assert (0 < base_block_reward coins version) as Hpos by (unfold FINAL_SUBSIDY_PER_MINUTE, minutes in Hb; destruct (version <? 2); lia).
  destruct (Z.leb_spec w m); [split; [done|lia]|]. rewrite (w64_small (2 * m)) by lia.
  destruct (Z.ltb_spec (2 * m) w), (Z.leb_spec w (2 * m)); try lia; [split; [done|lia]|].
  destruct (penalty_eq (base_block_reward coins version) m w ltac:(lia) Hm' ltac:(lia)) as [-> Hlt]. split; [done|]. intros _. by apply Hlt.
Qed.

(** C30: the reward of a block is exact: the base reward up to the median weight, less by the square of the relative excess up to twice the
    median, rounded down after both divisions as in one, and none above.  The base is what is left of the supply shifted by the emission
    speed, and never below the final subsidy. *)
Theorem reward_exact median w coins version : 0 <= coins <= MONEY_SUPPLY -> 0 <= median < 2 ^ 32 -> 0 <= w < 2 ^ 64 ->
  let m := Z.max median (get_min_block_weight version) in
  let base := Z.max (FINAL_SUBSIDY_PER_MINUTE * minutes version) ((MONEY_SUPPLY - coins) / 2 ^ (21 - minutes version)) in
  get_block_reward median w coins version =
    Some (if w <=? m then Some base else if w <=? 2 * m then Some (base * ((2 * m - w) * w) / (m * m)) else None) /\
  (m < w <= 2 * m -> base * ((2 * m - w) * w) / (m * m) < base).
Proof. intros Hc Hm Hw. cbv zeta. rewrite <- base_reward_eq by done. by apply reward_value. Qed.

Lemma reward_exact_witness : get_block_reward 0 450000 (2 ^ 63) 18 = Some (Some 13194139533311).
Proof. rewrite (proj1 (reward_exact 0 450000 (2 ^ 63) 18 ltac:(vm_compute; split; congruence) ltac:(lia) ltac:(lia))). vm_compute. reflexivity. Defined.

(** ** The coinbase *)

Definition total (vout : list Z) : Z := foldr Z.add 0 vout.

Lemma outs_total vout : forall money, word_ok money -> Forall word_ok vout ->
  if outs_overflow_from money vout then fold_left (fun money amount => w64 (money + amount)) vout money = money + total vout /\ money + total vout < 2 ^ 64
  else 2 ^ 64 <= money + total vout.
Proof.
  induction vout as [|a vout IH]; intros money Hm Hv; cbn [outs_overflow_from fold_left total foldr]; [unfold word_ok in Hm; lia|].
  apply Forall_cons in Hv as [Ha Hv]. fold (total vout). assert (0 <= total vout) by (clear - Hv; induction Hv as [|x l Hx _ IH]; cbn; [lia|unfold word_ok in Hx; fold (total l) in *; lia]).
  pose proof (w64_carry money a Hm Ha) as Hc. rewrite (Z.add_comm a money). unfold word_ok in Ha, Hm.
  destruct (Z.ltb_spec (w64 (money + a)) money).
  - pose proof (w64_ok (money + a)) as Hw. unfold word_ok in Hw. lia.
  - assert (w64 (money + a) = money + a) as E by lia. specialize (IH (w64 (money + a)) (w64_ok _) Hv). rewrite E in *. destruct (outs_overflow_from _ vout); lia.
Qed.

(** C31: from version 13 on a coinbase is accepted exactly when its outputs add up to the reward and the fees, as numbers, not modulo the
    word size: the sum cannot have wrapped, by the check made before, and what is recorded as generated is the reward. *)
Theorem coinbase_exact valid_decomposed vout median w fee coins version reward :
  HF_VERSION_EXACT_COINBASE <= version -> Forall word_ok vout -> check_outs_overflow vout = true -> 0 <= coins <= MONEY_SUPPLY ->
  0 <= median < 2 ^ 32 -> 0 <= w < 2 ^ 64 -> 0 <= fee < 2 ^ 64 - 2 ^ 46 -> get_block_reward median w coins version = Some (Some reward) ->
  validate_miner_transaction valid_decomposed vout median w fee coins version =
    Some (if total vout =? reward + fee then Some (reward, false) else None).
Proof.
  unfold HF_VERSION_EXACT_COINBASE. intros Hv Ho Hc Hcoins Hm Hw Hf Hr. unfold validate_miner_transaction, get_outs_money_amount, HF_VERSION_EXACT_COINBASE.
  pose proof (outs_total vout 0 ltac:(unfold word_ok; lia) Ho) as Ht. unfold check_outs_overflow in Hc. rewrite Hc in Ht. destruct Ht as [-> Hlt]. rewrite Z.add_0_l in *.
  destruct (Z.eqb_spec version 3); [lia|]. cbn [andb]. rewrite Hr. cbn [mbind option_bind].
  assert (0 <= reward < 2 ^ 46) as Hb.
  { destruct (reward_value median w coins version Hcoins Hm Hw) as [E Hp]. rewrite E in Hr. pose proof (base_reward_bounds coins version Hcoins) as Hbb.
    assert (0 < base_block_reward coins version) by (unfold FINAL_SUBSIDY_PER_MINUTE, minutes in Hbb; destruct (version <? 2); lia). pose proof (min_weight_pos version).
    destruct (Z.leb_spec w (Z.max median (get_min_block_weight version))); [injection Hr as <-; lia|].
    destruct (Z.leb_spec w (2 * Z.max median (get_min_block_weight version))); [|done]. specialize (Hp ltac:(lia)). injection Hr as <-. split; [apply Z.div_pos; nia|lia]. }
  rewrite w64_small by lia. destruct (Z.ltb_spec version 2); [lia|]. destruct (Z.leb_spec 13 version); [|lia]. cbn [orb].
  destruct (Z.ltb_spec (reward + fee) (total vout)), (Z.eqb_spec (total vout) (reward + fee)), (Z.eqb_spec (reward + fee) (total vout)); cbn [negb]; (lia || done).
Qed.

Lemma coinbase_exact_witness :
  validate_miner_transaction (fun _ => true) [17592186044415; 5] 0 1000 5 (2 ^ 63) 18 = Some (Some (17592186044415, false)).
Proof.
  rewrite (coinbase_exact (fun _ => true) [17592186044415; 5] 0 1000 5 (2 ^ 63) 18 17592186044415); [vm_compute; reflexivity|vm_compute; congruence| |vm_compute; reflexivity|
    vm_compute; split; congruence|lia|lia|lia|vm_compute; reflexivity].
  repeat apply Forall_cons_2; try apply Forall_nil_2; unfold word_ok; lia.
Defined.

(** The coins generated never exceed the supply, never fall, and add up until the supply is reached; the base reward never rises. *)
Lemma supply_grows coins g version : 0 <= coins <= MONEY_SUPPLY -> 0 <= g <= base_block_reward coins version ->
  let coins' := add_generated_coins coins g in
  coins <= coins' <= MONEY_SUPPLY /\ coins' = Z.min (coins + g) MONEY_SUPPLY /\ base_block_reward coins' version <= base_block_reward coins version.
Proof.
  intros Hc Hg. cbv zeta. unfold add_generated_coins. assert (0 <= MONEY_SUPPLY < 2 ^ 64) as Hs by (vm_compute; split; congruence). rewrite (w64_small (MONEY_SUPPLY - coins)) by lia.
  set (c' := if g <? MONEY_SUPPLY - coins then w64 (coins + g) else MONEY_SUPPLY). assert (c' = Z.min (coins + g) MONEY_SUPPLY) as E by (unfold c'; destruct (Z.ltb_spec g (MONEY_SUPPLY - coins)); rewrite ?w64_small; lia).
  clearbody c'. split; [lia|]. split; [done|]. rewrite !base_reward_eq by lia. apply Z.max_le_compat_l, Z.div_le_mono; [|lia].
  apply Z.pow_pos_nonneg; [lia|]. unfold minutes. destruct (version <? 2); lia.
Qed.
