(* ===== verification/PeerCache.v ===== *)
(** * PeerCache: the list of endpoints of the miner apps (pow/wallet/peer_cache.c)

    An array of at most 64 endpoints, seeds and discovered ones, which the apps try in order, and its hand-written JSON.  A C string is the
    list of its characters; a pointer into one is what is left of it, so that [p < q] compares lengths.  The buffer of [serialize] is the
    text written so far and its size.  [None] is undefined behaviour: a write outside of an array, a string without its end, or a sum of
    ints that overflows.  Every function holds the lock from its first access to its last, so each is one step; the callbacks are what they
    are given and give.  The sort of the C library is a parameter: its order of equal elements is not specified. *)
From stdpp Require Import sorting.
From S2P Require Import Prelude JsCore.
Local Open Scope Z_scope.

Definition MAX_PEERS : nat := 64.
Definition DISCOVERY_INTERVAL : Z := 5.
Definition DROP_FAILURE_THRESHOLD : Z := 5.
Definition STALE_LAST_OK_SECONDS : Z := 7 * 24 * 3600.
Definition HOST_SIZE : nat := 128.
Definition BUF_SIZE : nat := Z.to_nat 16384.

Record PeerEntry : Type := mk_peer {
  host : list ascii;
  port : Z;
  use_ssl : Z;
  is_seed : Z;
  last_ok : Z;
  consec_failures : Z;
  avg_latency_ms : Z
}.

(** [save] is whether there is a callback. *)
Record PeerCache : Type := mk_peer_cache { peers : list PeerEntry; rpc_since_discovery : Z; save : bool }.

(** A 32-bit int: the value of a conversion, and of arithmetic that must not overflow. *)
Definition to_int (z : Z) : Z := (z + 2 ^ 31) mod 2 ^ 32 - 2 ^ 31.
Definition int_sum (z : Z) : option Z := if (- 2 ^ 31 <=? z) && (z <? 2 ^ 31) then Some z else None.
Definition llong_sum (z : Z) : option Z := if (- 2 ^ 63 <=? z) && (z <? 2 ^ 63) then Some z else None.

(** ** JSON out *)

(** [*p++ = c] without a guard, with [if (p < end)], and a loop over a literal. *)
Definition put_char (cap : nat) (t : list ascii) (c : ascii) : option (list ascii) := if (length t <? cap)%nat then Some (t ++ [c]) else None.
Definition emit_char (cap : nat) (t : list ascii) (c : ascii) : list ascii := if (length t <? cap)%nat then t ++ [c] else t.
Fixpoint emit_lit (cap : nat) (t : list ascii) (k : list ascii) : list ascii :=
  match k with
  | [] => t
  | c :: rest => if (length t <? cap)%nat then emit_lit cap (t ++ [c]) rest else t
  end.

Definition quote : ascii := ascii_of_nat 34.
Definition backslash : ascii := ascii_of_nat 92.

Fixpoint emit_str_loop (cap : nat) (t s : list ascii) : option (list ascii) :=
  match s with
  | [] => Some t
  | c :: rest =>
      if (length t <? cap - 1)%nat then
        let t := if bool_decide (c = quote \/ c = backslash) then (if (length t <? cap - 1)%nat then t ++ [backslash] else t) else t in
        t ← put_char cap t c;
        emit_str_loop cap t rest
      else Some t
  end.

Definition emit_str (cap : nat) (t s : list ascii) : option (list ascii) :=
  t ← emit_str_loop cap (emit_char cap t quote) s;
  Some (emit_char cap t quote).

Definition emit_int (cap : nat) (t : list ascii) (v : Z) : list ascii := emit_lit cap t (chars (string_of_Z v)).

(** A key with its quotes, as the literals of the source have it. *)
Definition quoted (k : string) : list ascii := quote :: chars k ++ [quote].

Definition emit_peer (cap : nat) (first : bool) (t : list ascii) (e : PeerEntry) : option (list ascii) :=
  let t := if first then t else emit_char cap t ","%char in
  let t := emit_char cap t "{"%char in
  let t := emit_lit cap t (quoted "host" ++ [":"%char]) in
  t ← emit_str cap t (host e);
  let t := emit_int cap (emit_lit cap t (","%char :: quoted "port" ++ [":"%char])) (port e) in
  let t := emit_int cap (emit_lit cap t (","%char :: quoted "use_ssl" ++ [":"%char])) (use_ssl e) in
  let t := emit_int cap (emit_lit cap t (","%char :: quoted "is_seed" ++ [":"%char])) (is_seed e) in
  let t := emit_int cap (emit_lit cap t (","%char :: quoted "last_ok" ++ [":"%char])) (last_ok e) in
  let t := emit_int cap (emit_lit cap t (","%char :: quoted "consec_failures" ++ [":"%char])) (consec_failures e) in
  let t := emit_int cap (emit_lit cap t (","%char :: quoted "avg_latency_ms" ++ [":"%char])) (avg_latency_ms e) in
  Some (emit_char cap t "}"%char).

Fixpoint emit_peers (cap : nat) (first : bool) (t : list ascii) (l : list PeerEntry) : option (list ascii) :=
  match l with
  | [] => Some t
  | e :: rest => t ← emit_peer cap first t e; emit_peers cap false t rest
  end.

(** The text in the buffer, and whether the zero that ends it was written. *)
Definition serialize (l : list PeerEntry) (cap : nat) : option (list ascii * bool) :=
  t ← put_char cap [] "{"%char;
  let t := emit_lit cap t (quoted "version" ++ chars ":1,") in
  let t := emit_lit cap t (quoted "peers" ++ chars ":[") in
  t ← emit_peers cap true t l;
  let t := emit_char cap t "]"%char in
  let t := emit_char cap t "}"%char in
  Some (t, (length t <? cap)%nat).

(** ** JSON in *)

(** The characters before the first zero are all a C function sees. *)
Fixpoint strstr (s needle : list ascii) : option (list ascii) :=
  if bool_decide (needle = take (length needle) s) then Some s
  else match s with [] => None | _ :: rest => strstr rest needle end.
Fixpoint strchr (s : list ascii) (c : ascii) : option (list ascii) :=
  match s with
  | [] => None
  | x :: rest => if bool_decide (x = c) then Some s else strchr rest c
  end.

Definition is_ws (c : ascii) : bool := bool_decide (c = " "%char \/ c = ascii_of_nat 9 \/ c = ascii_of_nat 10 \/ c = ascii_of_nat 13).
Fixpoint skip_ws (s : list ascii) : list ascii :=
  match s with
  | c :: rest => if is_ws c then skip_ws rest else s
  | [] => []
  end.

(** Where the value of a key starts; [None] when [find_field] returns NULL before looking at it. *)
Definition find_value (obj_start obj_end : list ascii) (key : string) : option (list ascii) :=
  p ← strstr obj_start (quoted key);
  if (length p <=? length obj_end)%nat then None
  else
    match skip_ws (drop (length (quoted key)) p) with
    | c :: rest => if bool_decide (c = ":"%char) then Some (skip_ws rest) else None
    | [] => None
    end.

(** The loop that copies the characters up to the next quote. *)
Fixpoint read_str (room : nat) (s : list ascii) : list ascii :=
  match room, s with
  | S r, c :: rest => if bool_decide (c = quote) then [] else c :: read_str r rest
  | _, _ => []
  end.

Definition find_str (obj_start obj_end : list ascii) (key : string) (outcap : nat) : option (list ascii) :=
  p ← find_value obj_start obj_end key;
  match p with
  | c :: rest => if bool_decide (c = quote) then Some (read_str (outcap - 1) rest) else None
  | [] => None
  end.

Fixpoint read_digits (v : Z) (s : list ascii) : option Z :=
  match s with
  | c :: rest => if is_digit c then v ← llong_sum (v * 10 + (code c - 48)); read_digits v rest else Some v
  | [] => Some v
  end.

(** [Some None] when it returns NULL. *)
Definition find_int (obj_start obj_end : list ascii) (key : string) : option (option Z) :=
  match find_value obj_start obj_end key with
  | Some (c :: rest) =>
      if bool_decide (c = "-"%char) then v ← read_digits 0 rest; v ← llong_sum (v * -1); Some (Some v)
      else if is_digit c then v ← read_digits 0 (c :: rest); Some (Some v)
      else Some None
  | _ => Some None
  end.

Definition int_field (obj_start obj_end : list ascii) (key : string) : option Z :=
  v ← find_int obj_start obj_end key; Some (to_int (default 0 v)).

Definition read_peer (p obj_end : list ascii) : option PeerEntry :=
  let h := default [] (find_str p obj_end "host" HOST_SIZE) in
  prt ← int_field p obj_end "port";
  ssl ← int_field p obj_end "use_ssl";
  seed ← int_field p obj_end "is_seed";
  ok ← find_int p obj_end "last_ok";
  failures ← int_field p obj_end "consec_failures";
  latency ← int_field p obj_end "avg_latency_ms";
  Some (mk_peer h prt ssl seed (default 0 ok) failures latency).

(** [while (p < end && pc->count < MAX_PEERS)]; every turn moves [p]. *)
Fixpoint read_peers (fuel : nat) (p arr_end : list ascii) (l : list PeerEntry) : option (list PeerEntry) :=
  match fuel with
  | O => None
  | S f =>
      if (length arr_end <? length p)%nat && (length l <? MAX_PEERS)%nat then
        let p := skip_ws p in
        match p with
        | c :: _ =>
            if bool_decide (c = "{"%char) then
              match strchr p "}"%char with
              | None => Some l
              | Some obj_end =>
                  if (length obj_end <? length arr_end)%nat then Some l
                  else
                    e ← read_peer p obj_end;
                    let l := if negb (bool_decide (host e = [])) && (0 <? port e) && (is_seed e =? 0) then l ++ [e] else l in
                    let p := skip_ws (drop 1 obj_end) in
                    let p := match p with c :: rest => if bool_decide (c = ","%char) then rest else p | [] => p end in
                    read_peers f p arr_end l
              end
            else Some l
        | [] => Some l
        end
      else Some l
  end.

Definition deserialize (l : list PeerEntry) (json : list ascii) : option (list PeerEntry) :=
  match strstr json (quoted "peers") with
  | None => Some l
  | Some arr =>
      match strchr arr "["%char with
      | None => Some l
      | Some arr =>
          match strchr arr "]"%char with
          | None => Some l
          | Some arr_end => read_peers (length arr) (drop 1 arr) arr_end l
          end
      end
  end.

(** ** The functions of the header *)

(** [loaded]: what the callback put into the buffer, when there is one and it did. *)
Definition peer_cache_new (loaded : option (list ascii)) (has_save : bool) : option PeerCache :=
  l ← (match loaded with Some json => deserialize [] json | None => Some [] end);
  Some (mk_peer_cache l 0 has_save).

(** [strcmp] of the stored host with the given one. *)
Definition find_idx (l : list PeerEntry) (h : list ascii) (p : Z) : option nat :=
  fst <$> list_find (fun e => port e = p /\ host e = h) l.

(** The text given to the callback, when there is one. *)
Definition persist_unlocked (pc : PeerCache) : option (option (list ascii)) :=
  if save pc then '(t, ended) ← serialize (peers pc) BUF_SIZE; if ended : bool then Some (Some t) else None
  else Some None.

Definition with_peers (pc : PeerCache) (l : list PeerEntry) : PeerCache := mk_peer_cache l (rpc_since_discovery pc) (save pc).
Definition new_entry (h : list ascii) (p ssl seed : Z) : PeerEntry := mk_peer (take (HOST_SIZE - 1) h) p ssl seed 0 0 0.

Definition peer_cache_add_seed (pc : PeerCache) (h : list ascii) (p ssl : Z) : PeerCache :=
  if bool_decide (h = []) || (p <=? 0) then pc
  else
    match find_idx (peers pc) h p with
    | None => if (length (peers pc) <? MAX_PEERS)%nat then with_peers pc (peers pc ++ [new_entry h p ssl 1]) else pc
    | Some idx =>
        with_peers pc (alter (fun e => mk_peer (host e) (port e) ssl 1 (last_ok e) (consec_failures e) (avg_latency_ms e)) idx (peers pc))
    end.

Definition peer_cache_add_discovered (pc : PeerCache) (h : list ascii) (p : Z) : option (PeerCache * option (list ascii)) :=
  if bool_decide (h = []) || (p <=? 0) then Some (pc, None)
  else
    match find_idx (peers pc) h p with
    | None =>
        if (length (peers pc) <? MAX_PEERS)%nat then
          let pc := with_peers pc (peers pc ++ [new_entry h p 0 0]) in
          t ← persist_unlocked pc;
          Some (pc, t)
        else Some (pc, None)
    | Some _ => Some (pc, None)
    end.

Definition peer_cache_mark_success (now : Z) (pc : PeerCache) (h : list ascii) (p latency_ms : Z) : option (PeerCache * option (list ascii)) :=
  match find_idx (peers pc) h p with
  | None => Some (pc, None)
  | Some idx =>
      e ← peers pc !! idx;
      avg ← (if avg_latency_ms e =? 0 then Some latency_ms
             else a ← int_sum (avg_latency_ms e * 7); b ← int_sum (latency_ms * 3); s ← int_sum (a + b); Some (Z.quot s 10));
      rpcs ← int_sum (rpc_since_discovery pc + 1);
      let pc := mk_peer_cache (<[idx := mk_peer (host e) (port e) (use_ssl e) (is_seed e) now 0 avg]> (peers pc)) rpcs (save pc) in
      t ← persist_unlocked pc;
      Some (pc, t)
  end.

Definition peer_cache_mark_failure (now : Z) (pc : PeerCache) (h : list ascii) (p : Z) : option (PeerCache * option (list ascii)) :=
  match find_idx (peers pc) h p with
  | None => Some (pc, None)
  | Some idx =>
      e ← peers pc !! idx;
      failures ← int_sum (consec_failures e + 1);
      let l := <[idx := mk_peer (host e) (port e) (use_ssl e) (is_seed e) (last_ok e) failures (avg_latency_ms e)]> (peers pc) in
      stale ← (if (is_seed e =? 0) && (0 <? last_ok e) then d ← llong_sum (to_int now - last_ok e); Some (STALE_LAST_OK_SECONDS <? d)
               else Some false);
      let dead := (is_seed e =? 0) && (DROP_FAILURE_THRESHOLD <=? failures) in
      let pc := with_peers pc (if stale || dead then delete idx l else l) in
      t ← persist_unlocked pc;
      Some (pc, t)
  end.

Definition score_cmp (a b : PeerEntry) : option Z :=
  if negb (is_seed a =? is_seed b) then int_sum (is_seed b - is_seed a)
  else if negb (is_seed a =? 0) && negb (is_seed b =? 0) then Some 0
  else if negb (consec_failures a =? consec_failures b) then int_sum (consec_failures a - consec_failures b)
  else if negb (last_ok a =? last_ok b) then Some (if last_ok a <? last_ok b then 1 else -1)
  else int_sum (avg_latency_ms a - avg_latency_ms b).

(** What is written to [out]; [cap] is not negative. *)
Definition peer_cache_snapshot (qsort : (PeerEntry -> PeerEntry -> option Z) -> list PeerEntry -> option (list PeerEntry))
    (pc : PeerCache) (cap : nat) : option (list PeerEntry) :=
  let seeds := filter (fun e => is_seed e <> 0) (peers pc) in
  let disc := filter (fun e => is_seed e = 0) (peers pc) in
  disc ← qsort score_cmp disc;
  let out := take cap seeds in
  Some (out ++ take (cap - length out) disc).

Definition peer_cache_should_discover (pc : PeerCache) : bool := DISCOVERY_INTERVAL <=? rpc_since_discovery pc.
Definition peer_cache_reset_discovery_counter (pc : PeerCache) : PeerCache := mk_peer_cache (peers pc) 0 (save pc).

(** ** The calls of an app *)

Inductive call : Type :=
| AddSeed (h : list ascii) (p ssl : Z)
| AddDiscovered (h : list ascii) (p : Z)
| MarkSuccess (now : Z) (h : list ascii) (p latency_ms : Z)
| MarkFailure (now : Z) (h : list ascii) (p : Z)
| ResetDiscovery.

(** The cache after a call, and the text it saves. *)
Definition do_call (pc : PeerCache) (c : call) : option (PeerCache * option (list ascii)) :=
  match c with
  | AddSeed h p ssl => Some (peer_cache_add_seed pc h p ssl, None)
  | AddDiscovered h p => peer_cache_add_discovered pc h p
  | MarkSuccess now h p latency_ms => peer_cache_mark_success now pc h p latency_ms
  | MarkFailure now h p => peer_cache_mark_failure now pc h p
  | ResetDiscovery => Some (peer_cache_reset_discovery_counter pc, None)
  end.

Fixpoint do_calls (pc : PeerCache) (cs : list call) : option PeerCache :=
  match cs with
  | [] => Some pc
  | c :: rest => '(pc, _) ← do_call pc c; do_calls pc rest
  end.
