(* ===== verification/PeerCacheText.v ===== *)
(** * PeerCacheText: the JSON of the peer cache, written and read back

    [render] is the text of an entry, [text_of] that of a list.  [serialize] never writes outside of its buffer, and writes [text_of] when
    it fits; [deserialize] reads every entry of [text_of] back, when the hosts have none of the characters the scanner takes for structure. *)
From stdpp Require Import sorting.
From S2P Require Import Prelude JsCore PeerCache.
Local Open Scope Z_scope.

(** ** What is written *)

Definition num (v : Z) : list ascii := chars (string_of_Z v).
Definition field (kv : string * Z) : list ascii := ","%char :: quoted (fst kv) ++ ":"%char :: num (snd kv).
Definition fields (e : PeerEntry) : list (string * Z) :=
  [("port", port e); ("use_ssl", use_ssl e); ("is_seed", is_seed e); ("last_ok", last_ok e);
   ("consec_failures", consec_failures e); ("avg_latency_ms", avg_latency_ms e)]%string.
Definition body (fs : list (string * Z)) : list ascii := mjoin (map field fs).
Definition render (e : PeerEntry) : list ascii :=
  "{"%char :: quoted "host" ++ ":"%char :: quote :: host e ++ quote :: body (fields e) ++ ["}"%char].

Fixpoint rest_of (l : list PeerEntry) : list ascii :=
  match l with [] => [] | e :: r => ","%char :: render e ++ rest_of r end.
Definition objects (l : list PeerEntry) : list ascii :=
  match l with [] => [] | e :: r => render e ++ rest_of r end.
Definition head_text : list ascii := "{"%char :: quoted "version" ++ chars ":1," ++ quoted "peers" ++ chars ":[".
Definition text_of (l : list PeerEntry) : list ascii := head_text ++ objects l ++ chars "]}".

Definition int_keys : list string := ["port"; "use_ssl"; "is_seed"; "last_ok"; "consec_failures"; "avg_latency_ms"]%string.

(** A host the scanner reads back: none of the characters it takes for structure, and not one of the other keys. *)
Definition plain_char (c : ascii) : Prop := c <> quote /\ c <> backslash /\ c <> "]"%char /\ c <> "}"%char.
Definition plain_host (h : list ascii) : Prop :=
  h <> [] /\ (length h <= 127)%nat /\ Forall plain_char h /\
  Forall (fun k => h <> chars k) int_keys.

#[export] Instance plain_char_dec c : Decision (plain_char c).
Proof. unfold plain_char. apply _. Defined.
#[export] Instance plain_host_dec h : Decision (plain_host h).
Proof. unfold plain_host. apply _. Defined.

(** Seeds have 1; a latency of at most two days can be averaged in an int, and a time before the year 2286 has ten digits. *)
Definition MAX_LATENCY : Z := 214748364.
Definition peer_ok (e : PeerEntry) : Prop :=
  plain_host (host e) /\ 0 < port e < 65536 /\ 0 <= use_ssl e <= 1 /\ 0 <= is_seed e <= 1 /\ 0 <= last_ok e < 10 ^ 10 /\
  0 <= consec_failures e < 2 ^ 31 /\ 0 <= avg_latency_ms e <= MAX_LATENCY.

#[export] Instance peer_ok_dec e : Decision (peer_ok e).
Proof. unfold peer_ok. apply _. Defined.

(** ** Numbers *)

Lemma num_digits v :
  0 <= v -> exists d ds, digits_ok 10 (d :: ds) /\ num v = map dec_char (d :: ds) /\ from_be 10 (d :: ds) = v.
Proof.
  intros Hv. unfold num, string_of_Z. rewrite (proj2 (Z.ltb_ge v 0)), chars_of_chars by lia.
  apply dec_digits_spec; [|lia]. rewrite Nat2Z.inj_succ, Z2Nat.id by apply Z.log2_nonneg. split; [lia|].
  destruct (Z.eq_dec v 0) as [->|]; [done|]. apply Z.log2_spec. lia.
Qed.

Lemma dec_char_digit d : 0 <= d < 10 -> is_digit (dec_char d) = true /\ code (dec_char d) - 48 = d.
Proof.
  intros H. unfold is_digit, in_range, dec_char. rewrite code_chr by lia. change (code "0") with 48. change (code "9") with 57.
  split; [apply andb_true_iff; lia|lia].
Qed.

Lemma num_all_digits v : 0 <= v -> Forall (fun c => is_digit c = true) (num v).
Proof.
  intros Hv. destruct (num_digits v Hv) as (d & ds & Hok & -> & _). apply Forall_fmap.
  eapply Forall_impl; [exact Hok|]. intros x Hx. by apply dec_char_digit.
Qed.

Lemma num_misses v c : 0 <= v -> is_digit c = false -> c ∉ num v.
Proof.
  intros Hv Hc Hin. pose proof (proj1 (Forall_forall _ _) (num_all_digits v Hv) c Hin) as H. cbn in H. congruence.
Qed.

Lemma dec_digits_length fuel : forall n k, 0 <= n < 10 ^ Z.of_nat k -> (0 < k)%nat -> (length (dec_digits fuel n) <= k)%nat.
Proof.
  induction fuel as [|f IH]; intros n k Hn Hk; cbn [dec_digits]; [cbn; lia|]. rewrite length_app. cbn [length].
  case_test; [cbn; lia|]. destruct k as [|[|k]]; [lia|cbn in Hn; lia|].
  assert (length (dec_digits f (n / 10)) <= S k)%nat; [|lia]. apply IH; [|lia].
  rewrite (Nat2Z.inj_succ (S k)), Z.pow_succ_r in Hn by lia.
  split; [apply Z.div_pos; lia|apply Z.div_lt_upper_bound; lia].
Qed.

Lemma num_length v k : 0 <= v < 10 ^ Z.of_nat k -> (0 < k)%nat -> (length (num v) <= k)%nat.
Proof.
  intros Hv Hk. unfold num, string_of_Z. rewrite (proj2 (Z.ltb_ge v 0)), chars_of_chars by lia. by apply dec_digits_length.
Qed.

(** The text after a number does not start with a digit. *)
Definition no_digit (s : list ascii) : Prop := match s with c :: _ => is_digit c = false | [] => True end.

Lemma read_digits_dec ds : forall acc more,
  digits_ok 10 ds -> 0 <= acc -> acc * 10 ^ Z.of_nat (length ds) + from_be 10 ds < 2 ^ 63 -> no_digit more ->
  read_digits acc (map dec_char ds ++ more) = Some (acc * 10 ^ Z.of_nat (length ds) + from_be 10 ds).
Proof.
  induction ds as [|d ds IH]; intros acc more Hok Hacc Hlt Hmore.
  - cbn in *. rewrite Z.mul_1_r, Z.add_0_r. destruct more as [|c more]; [done|]. cbn in *. by rewrite Hmore.
  - apply Forall_cons in Hok as [Hd Hok]. pose proof (from_be_bound 10 ltac:(lia) ds Hok) as Hb.
    rewrite from_be_cons in * by lia. cbn [length] in *. rewrite Nat2Z.inj_succ, Z.pow_succ_r in * by lia.
    set (P := 10 ^ Z.of_nat (length ds)) in *. assert (0 < P) by (apply Z.pow_pos_nonneg; lia).
    destruct (dec_char_digit d Hd) as [H1 H2]. cbn [map app read_digits]. rewrite H1, H2. unfold llong_sum.
    replace ((- 2 ^ 63 <=? acc * 10 + d) && (acc * 10 + d <? 2 ^ 63)) with true by (symmetry; apply andb_true_iff; nia).
    cbn [mbind option_bind]. rewrite IH by (done || nia). f_equal. ring.
Qed.

Lemma read_digits_num v more : 0 <= v < 2 ^ 63 -> no_digit more -> read_digits 0 (num v ++ more) = Some v.
Proof.
  intros Hv Hmore. destruct (num_digits v) as (d & ds & Hok & -> & Hval); [lia|].
  rewrite read_digits_dec by (done || lia). f_equal. lia.
Qed.

(** ** Finding a key *)

Lemma strstr_skip seg s k : quote ∉ seg -> strstr (seg ++ s) (quoted k) = strstr s (quoted k).
Proof.
  induction seg as [|c seg IH]; intros Hq; [done|]. apply not_elem_of_cons in Hq as [Hc Hq].
  cbn [app strstr]. rewrite bool_decide_false; [by apply IH|]. unfold quoted. cbn [length take]. congruence.
Qed.

Lemma quote_split (a b r s : list ascii) : quote ∉ a -> quote ∉ b -> a ++ quote :: r = b ++ quote :: s -> a = b.
Proof.
  revert b. induction a as [|x a IH]; intros [|y b] Ha Hb Heq; cbn in Heq; [done| | |].
  - injection Heq as <- _. set_solver.
  - injection Heq as -> _. set_solver.
  - injection Heq as -> Heq. f_equal. apply IH; [set_solver|set_solver|done].
Qed.

Lemma strstr_other w r k :
  quote ∉ w -> quote ∉ chars k -> w <> chars k -> strstr (quote :: w ++ quote :: r) (quoted k) = strstr (quote :: r) (quoted k).
Proof.
  intros Hw Hk Hne. cbn [strstr]. rewrite bool_decide_false; [by apply strstr_skip|].
  intros Heq. unfold quoted in Heq. cbn [length take] in Heq. injection Heq as Heq. apply Hne. symmetry.
  apply (quote_split _ _ (drop (length (chars k ++ [quote])) (w ++ quote :: r)) r); [done..|].
  rewrite cons_middle, app_assoc. rewrite Heq at 1. by rewrite take_drop.
Qed.

Lemma strstr_here r k : strstr (quoted k ++ r) (quoted k) = Some (quoted k ++ r).
Proof.
  assert (quoted k = take (length (quoted k)) (quoted k ++ r)) as H by (by rewrite take_app_length).
  destruct (quoted k ++ r) eqn:E; cbn [strstr]; by rewrite bool_decide_true.
Qed.

Lemma strchr_here a c r : c ∉ a -> strchr (a ++ c :: r) c = Some (c :: r).
Proof.
  induction a as [|x a IH]; intros Hc; cbn [app strchr]; [by rewrite bool_decide_true|].
  apply not_elem_of_cons in Hc as [Hx Hc]. rewrite bool_decide_false by congruence. by apply IH.
Qed.

(** The first occurrence of the key [k] in [s] is followed by a colon and [v]. *)
Definition field_at (s : list ascii) (k : string) (v : list ascii) : Prop :=
  strstr s (quoted k) = Some (quoted k ++ ":"%char :: v).

Lemma field_at_other w r k v :
  quote ∉ w -> quote ∉ chars k -> w <> chars k -> field_at (quote :: r) k v -> field_at (quote :: w ++ quote :: r) k v.
Proof. intros Hw Hk Hne H. unfold field_at. by rewrite strstr_other. Qed.

Lemma field_at_body k v fs : forall seg more,
  quote ∉ chars k -> ","%char ∉ chars k -> quote ∉ seg ->
  Forall (fun kv => (quote ∉ chars (fst kv)) /\ 0 <= snd kv) fs -> (list_to_map fs : gmap string Z) !! k = Some v ->
  exists fs', fs' `suffix_of` fs /\ field_at (quote :: seg ++ body fs ++ more) k (num v ++ body fs' ++ more).
Proof.
  induction fs as [|[k0 v0] fs IH]; intros seg more Hk Hcomma Hseg Hall Hlook; [done|].
  apply Forall_cons in Hall as [[Hk0 Hv0] Hall]. rewrite list_to_map_cons in Hlook. cbn [fst snd] in *.
  replace (quote :: seg ++ body ((k0, v0) :: fs) ++ more)
    with (quote :: (seg ++ [","%char]) ++ quote :: chars k0 ++ quote :: (":"%char :: num v0) ++ body fs ++ more)
    by (unfold body, field, quoted; cbn; repeat (rewrite <- ?app_assoc; cbn); done).
  assert (quote ∉ seg ++ [","%char]) by (rewrite elem_of_app, list_elem_of_singleton; by intros [?|?]).
  assert (seg ++ [","%char] <> chars k) by (intros Hsame; apply Hcomma; rewrite <- Hsame, elem_of_app, list_elem_of_singleton; by right).
  destruct (decide (k0 = k)) as [-> |Hne].
  - rewrite lookup_insert_eq in Hlook. injection Hlook as ->. exists fs. split; [by apply suffix_cons_r|].
    apply field_at_other; [done..|]. unfold field_at.
    pose proof (strstr_here (":"%char :: num v ++ body fs ++ more) k) as Hhere. unfold quoted in *. cbn in *.
    repeat (rewrite <- app_assoc in Hhere; cbn in Hhere). rewrite Hhere. cbn. by rewrite <- app_assoc.
  - rewrite lookup_insert_ne in Hlook by done.
    destruct (IH (":"%char :: num v0) more) as (fs' & Hs & Hf); [done..| |done|done|].
    { apply not_elem_of_cons. split; [done|]. by apply num_misses. }
    exists fs'. split; [by apply suffix_cons_r|]. apply field_at_other; [done..|].
    apply field_at_other; [done..| |done]. intros Heq. by apply chars_inj in Heq.
Qed.

(** ** Reading an entry back *)

Lemma field_value s obj_end k v more :
  field_at s k (v ++ more) -> (length obj_end <= length more)%nat -> match v with c :: _ => is_ws c = false | [] => False end ->
  find_value s obj_end k = Some (v ++ more).
Proof.
  intros Hf Hlen Hv. unfold find_value. rewrite Hf. cbn [mbind option_bind].
  rewrite (proj2 (Nat.leb_gt _ _)) by (rewrite length_app; cbn [length]; rewrite length_app; lia).
  rewrite drop_app_length. destruct v as [|c v]; [done|].
  replace (skip_ws (":"%char :: (c :: v) ++ more)) with (":"%char :: (c :: v) ++ more) by done.
  rewrite bool_decide_true by done. cbn. by rewrite Hv.
Qed.

Lemma digit_not c : is_digit c = true -> is_ws c = false /\ c <> "-"%char.
Proof.
  revert c. assert (forall c, (negb (is_digit c) || (negb (is_ws c) && negb (bool_decide (c = "-"%char)))) = true) as H.
  { apply ascii_forall. vm_compute. reflexivity. }
  intros c Hc. specialize (H c). rewrite Hc in H. cbn in H. apply andb_true_iff in H as [H1 H2].
  apply negb_true_iff in H1. split; [done|]. by apply negb_true_iff, bool_decide_eq_false in H2.
Qed.

Lemma find_int_field s obj_end k v more :
  field_at s k (num v ++ more) -> 0 <= v < 2 ^ 63 -> (length obj_end <= length more)%nat -> no_digit more ->
  find_int s obj_end k = Some (Some v).
Proof.
  intros Hf Hv Hlen Hmore. unfold find_int. destruct (num_digits v) as (d & ds & Hok & Hnum & Hval); [lia|].
  pose proof (num_all_digits v ltac:(lia)) as Hall. pose proof (read_digits_num v more Hv Hmore) as Hread.
  rewrite Hnum in *. cbn [map] in *. apply Forall_cons in Hall as [Hd _]. destruct (digit_not _ Hd) as [Hws Hminus].
  rewrite (field_value _ _ _ _ _ Hf) by done. cbn [app] in *. rewrite bool_decide_false, Hd by done.
  rewrite Hread. done.
Qed.

Lemma int_keys_plain k :
  k ∈ int_keys -> (quote ∉ chars k) /\ (","%char ∉ chars k) /\ [":"%char] <> chars k /\ chars "host" <> chars k.
Proof. intros Hk. repeat (apply elem_of_cons in Hk as [->|Hk]; [split_and!; by vm_compute; set_solver|]). by apply not_elem_of_nil in Hk. Qed.

Lemma plain_no_quote h : Forall plain_char h -> quote ∉ h.
Proof. intros H Hin. by destruct (proj1 (Forall_forall _ _) H _ Hin). Qed.

Lemma render_split e more :
  render e ++ more = ["{"%char] ++ quote :: chars "host" ++ quote :: [":"%char] ++ quote :: host e ++ quote :: [] ++ body (fields e) ++ "}"%char :: more.
Proof. unfold render, quoted. cbn. repeat (rewrite <- ?app_assoc; cbn). done. Qed.

Lemma fields_plain e : peer_ok e -> Forall (fun kv => (quote ∉ chars (fst kv)) /\ 0 <= snd kv) (fields e).
Proof.
  intros (_ & ? & ? & ? & ? & ? & ?).
  repeat (apply Forall_cons; split; [split; [by apply int_keys_plain; vm_compute; set_solver|cbn; lia]|]). by apply Forall_nil.
Qed.

Lemma render_field e more k v :
  peer_ok e -> k ∈ int_keys -> (list_to_map (fields e) : gmap string Z) !! k = Some v ->
  exists tail, field_at (render e ++ more) k (num v ++ tail) /\ (length ("}"%char :: more) <= length tail)%nat /\ no_digit tail.
Proof.
  intros Hok Hk Hlook. destruct (int_keys_plain k Hk) as (Hq & Hc & Hcolon & Hhost).
  destruct (field_at_body k v (fields e) [] ("}"%char :: more)) as (fs & _ & Hf); [done..|set_solver|by apply fields_plain|done|].
  destruct Hok as ((_ & _ & Hplain & Hkeys) & _). exists (body fs ++ "}"%char :: more). split_and!.
  - rewrite render_split. unfold field_at. rewrite strstr_skip by set_solver.
    rewrite strstr_other by (done || set_solver). rewrite strstr_other by (done || set_solver).
    rewrite strstr_other; [exact Hf|by apply plain_no_quote|done|].
    by apply (proj1 (Forall_forall _ _) Hkeys k).
  - rewrite length_app. lia.
  - by destruct fs as [|[]].
Qed.

Lemma read_str_quote h r n : quote ∉ h -> (length h <= n)%nat -> read_str n (h ++ quote :: r) = h.
Proof.
  revert n. induction h as [|c h IH]; intros n Hq Hn.
  - destruct n; [done|]. cbn. by rewrite bool_decide_true.
  - apply not_elem_of_cons in Hq as [Hc Hq]. destruct n; [cbn in Hn; lia|]. cbn in *.
    rewrite bool_decide_false by congruence. f_equal. apply IH; [done|lia].
Qed.

Lemma render_host e more : peer_ok e -> find_str (render e ++ more) ("}"%char :: more) "host" HOST_SIZE = Some (host e).
Proof.
  intros ((_ & Hlen & Hplain & _) & _). rewrite render_split. unfold find_str.
  rewrite (field_value _ _ _ [quote] (host e ++ quote :: body (fields e) ++ "}"%char :: more)).
  - cbn [app mbind option_bind]. rewrite bool_decide_true by done. f_equal.
    apply read_str_quote; [by apply plain_no_quote|unfold HOST_SIZE; lia].
  - unfold field_at. rewrite strstr_skip by set_solver.
    exact (strstr_here (":"%char :: quote :: host e ++ quote :: body (fields e) ++ "}"%char :: more) "host").
  - rewrite length_app. cbn [length]. rewrite length_app. cbn [length]. lia.
  - done.
Qed.

Lemma to_int_small v : 0 <= v < 2 ^ 31 -> to_int v = v.
Proof. intros H. unfold to_int. rewrite Z.mod_small; lia. Qed.

Lemma render_int e more k v :
  peer_ok e -> k ∈ int_keys -> (list_to_map (fields e) : gmap string Z) !! k = Some v -> 0 <= v < 2 ^ 63 ->
  find_int (render e ++ more) ("}"%char :: more) k = Some (Some v).
Proof. intros Hok Hk Hl Hv. destruct (render_field e more k v) as (tail & ? & ? & ?); [done..|]. by eapply find_int_field. Qed.

Lemma render_int_field e more k v :
  peer_ok e -> k ∈ int_keys -> (list_to_map (fields e) : gmap string Z) !! k = Some v -> 0 <= v < 2 ^ 31 ->
  int_field (render e ++ more) ("}"%char :: more) k = Some v.
Proof.
  intros Hok Hk Hl Hv. unfold int_field. rewrite (render_int e more k v) by (done || lia). cbn. by rewrite to_int_small.
Qed.

Lemma read_peer_render e more : peer_ok e -> read_peer (render e ++ more) ("}"%char :: more) = Some e.
Proof.
  intros Hok. unfold read_peer. rewrite render_host by done. pose proof Hok as (_ & ? & ? & ? & ? & ? & ?). unfold MAX_LATENCY in *.
  rewrite (render_int_field e more "port" (port e)) by (done || lia || set_solver).
  rewrite (render_int_field e more "use_ssl" (use_ssl e)) by (done || lia || set_solver).
  rewrite (render_int_field e more "is_seed" (is_seed e)) by (done || lia || set_solver).
  rewrite (render_int e more "last_ok" (last_ok e)) by (done || lia || set_solver).
  rewrite (render_int_field e more "consec_failures" (consec_failures e)) by (done || lia || set_solver).
  rewrite (render_int_field e more "avg_latency_ms" (avg_latency_ms e)) by (done || lia || set_solver).
  by destruct e.
Qed.

(** ** Reading a list back *)

Lemma field_misses c kv : c ∉ quoted (fst kv) -> c <> ","%char -> c <> ":"%char -> is_digit c = false -> 0 <= snd kv -> c ∉ field kv.
Proof.
  intros Hk Hc1 Hc2 Hd Hv. unfold field. rewrite not_elem_of_cons, not_elem_of_app, not_elem_of_cons.
  split_and!; [done..|]. by apply num_misses.
Qed.

Lemma body_misses c e : peer_ok e -> c = "]"%char \/ c = "}"%char -> c ∉ body (fields e).
Proof.
  intros (_ & ? & ? & ? & ? & ? & ?) Hc. unfold body, fields. cbn [map mjoin list_join].
  repeat (rewrite not_elem_of_app; split; [apply field_misses; [destruct Hc as [-> | ->]; by vm_compute; set_solver|
    by destruct Hc as [-> | ->]|by destruct Hc as [-> | ->]|by destruct Hc as [-> | ->]|cbn; lia]|]). by apply not_elem_of_nil.
Qed.

Definition inside (e : PeerEntry) : list ascii := "{"%char :: quoted "host" ++ ":"%char :: quote :: host e ++ quote :: body (fields e).

Lemma render_inside e more : render e ++ more = inside e ++ "}"%char :: more.
Proof. unfold render, inside. cbn. repeat (rewrite <- ?app_assoc; cbn). done. Qed.

Lemma inside_misses c e : peer_ok e -> c = "]"%char \/ c = "}"%char -> c ∉ inside e.
Proof.
  intros Hok Hc. pose proof (body_misses c e Hok Hc) as Hb. destruct Hok as ((_ & _ & Hplain & _) & _).
  assert (c ∉ host e) as Hh.
  { intros Hin. destruct (proj1 (Forall_forall _ _) Hplain _ Hin) as (_ & _ & ? & ?). by destruct Hc. }
  assert (c ∉ quoted "host") as Hk by (destruct Hc as [-> | ->]; vm_compute; set_solver).
  unfold inside. rewrite not_elem_of_cons, not_elem_of_app, !not_elem_of_cons, not_elem_of_app, not_elem_of_cons.
  split_and!; (done || by destruct Hc as [-> | ->]).
Qed.

Lemma rest_misses l : Forall peer_ok l -> "]"%char ∉ rest_of l.
Proof.
  induction 1 as [|e l He Hl IH]; cbn [rest_of]; [by apply not_elem_of_nil|].
  rewrite render_inside, not_elem_of_cons, not_elem_of_app, not_elem_of_cons. split_and!; [done| |done|done].
  apply inside_misses; [done|by left].
Qed.

Lemma objects_misses l : Forall peer_ok l -> "]"%char ∉ objects l.
Proof.
  destruct 1 as [|e l He Hl]; [by apply not_elem_of_nil|]. cbn [objects].
  rewrite render_inside, not_elem_of_app, not_elem_of_cons. split_and!; [|done|by apply rest_misses].
  apply inside_misses; [done|by left].
Qed.

(** What the scanner keeps of the entries it reads. *)
Definition kept (l : list PeerEntry) : list PeerEntry := filter (fun e => is_seed e = 0) l.

Lemma read_peers_objects l : forall fuel acc,
  Forall peer_ok l -> (length l < fuel)%nat -> (length acc + length l <= MAX_PEERS)%nat ->
  read_peers fuel (objects l ++ chars "]}") (chars "]}") acc = Some (acc ++ kept l).
Proof.
  induction l as [|e l IH]; intros fuel acc Hall Hfuel Hmax; (destruct fuel as [|f]; [cbn in Hfuel; lia|]); cbn [read_peers].
  - rewrite (proj2 (Nat.ltb_ge _ _)) by done. cbn. by rewrite app_nil_r.
  - apply Forall_cons in Hall as [He Hall]. cbn [length objects] in *. rewrite <- app_assoc.
    set (more := rest_of l ++ chars "]}").
    rewrite (proj2 (Nat.ltb_lt _ (length (render e ++ more)))) by (unfold more; rewrite !length_app; cbn; lia).
    rewrite (proj2 (Nat.ltb_lt (length acc) _)) by lia. cbn [andb].
    pose proof (read_peer_render e more He) as Hread. rewrite render_inside in *.
    replace (skip_ws (inside e ++ "}"%char :: more)) with (inside e ++ "}"%char :: more) by done.
    rewrite strchr_here by (apply inside_misses; [done|by right]).
    rewrite (proj2 (Nat.ltb_ge _ _)) by (unfold more; cbn [length]; rewrite length_app; lia).
    rewrite Hread. cbn [mbind option_bind]. unfold inside at 1. cbn [app]. rewrite bool_decide_true by done.
    destruct He as ((Hne & _) & Hport & _ & Hseed & _). rewrite bool_decide_false by done.
    rewrite (proj2 (Z.ltb_lt 0 (port e))) by lia. cbn [negb andb drop].
    replace (match skip_ws more with c :: rest => if bool_decide (c = ","%char) then rest else skip_ws more | [] => skip_ws more end)
      with (objects l ++ chars "]}") by (unfold more; destruct l; [done|cbn; by rewrite <- app_assoc]).
    assert (kept (e :: l) = (if is_seed e =? 0 then [e] else []) ++ kept l) as ->.
    { unfold kept. rewrite filter_cons. by destruct (Z.eqb_spec (is_seed e) 0); case_decide. }
    rewrite app_assoc. rewrite IH; [by destruct (is_seed e =? 0); rewrite ?app_nil_r|done|lia|].
    destruct (is_seed e =? 0); [rewrite length_app; cbn; lia|lia].
Qed.

Lemma rest_length l : (length l <= length (rest_of l))%nat.
Proof. induction l as [|e l IH]; cbn; [done|]. rewrite length_app. lia. Qed.

(** Every list of entries is read back, but for the seeds. *)
Lemma deserialize_text l : Forall peer_ok l -> (length l <= MAX_PEERS)%nat -> deserialize [] (text_of l) = Some (kept l).
Proof.
  intros Hall Hmax. unfold deserialize, text_of.
  replace (strstr (head_text ++ objects l ++ chars "]}") (quoted "peers"))
    with (Some (quoted "peers" ++ chars ":[" ++ objects l ++ chars "]}")) by done.
  replace (strchr (quoted "peers" ++ chars ":[" ++ objects l ++ chars "]}") "["%char)
    with (Some ("["%char :: objects l ++ chars "]}")) by done.
  change (chars "]}") with ("]"%char :: ["}"%char]). rewrite app_comm_cons.
  rewrite strchr_here by (rewrite not_elem_of_cons; split; [done|by apply objects_misses]).
  cbn [app drop length]. change ("]"%char :: ["}"%char]) with (chars "]}").
  rewrite drop_0, read_peers_objects; [done|done| |done].
  rewrite length_app. destruct l as [|e l]; [cbn; lia|]. cbn. rewrite length_app. pose proof (rest_length l). lia.
Qed.

(** ** Writing *)

Lemma emit_char_fits cap t c : (length t + 1 <= cap)%nat -> emit_char cap t c = t ++ [c].
Proof. intros H. unfold emit_char. by rewrite (proj2 (Nat.ltb_lt _ _)) by lia. Qed.

Lemma emit_lit_fits cap k : forall t, (length t + length k <= cap)%nat -> emit_lit cap t k = t ++ k.
Proof.
  induction k as [|c k IH]; intros t H; cbn [emit_lit length] in *; [by rewrite app_nil_r|].
  rewrite (proj2 (Nat.ltb_lt _ _)) by lia. rewrite IH by (rewrite length_app; cbn; lia). by rewrite <- app_assoc.
Qed.

Lemma emit_str_loop_fits cap s : forall t,
  Forall plain_char s -> (length t + length s + 1 <= cap)%nat -> emit_str_loop cap t s = Some (t ++ s).
Proof.
  induction s as [|c s IH]; intros t Hp H; cbn [emit_str_loop length] in *; [by rewrite app_nil_r|].
  apply Forall_cons in Hp as [(Hq & Hb & _) Hp]. rewrite (proj2 (Nat.ltb_lt _ _)) by lia.
  rewrite bool_decide_false by (by intros [? | ?]). unfold put_char. rewrite (proj2 (Nat.ltb_lt _ _)) by lia. cbn [mbind option_bind].
  rewrite IH by (rewrite ?length_app; cbn; done || lia). by rewrite <- app_assoc.
Qed.

Lemma render_length e : length (render e) = (10 + length (host e) + length (body (fields e)) + 1)%nat.
Proof. unfold render. cbn. repeat (rewrite ?length_app; cbn). lia. Qed.

Lemma emit_field_fits cap t k v :
  (length t + length (field (k, v)) <= cap)%nat ->
  emit_int cap (emit_lit cap t (","%char :: quoted k ++ [":"%char])) v = t ++ field (k, v).
Proof.
  intros H. assert (field (k, v) = (","%char :: quoted k ++ [":"%char]) ++ num v) as Heq.
  { unfold field. cbn [fst snd app]. by rewrite <- app_assoc. }
  rewrite Heq, length_app in H. rewrite Heq. unfold emit_int. fold (num v).
  rewrite (emit_lit_fits cap (","%char :: _)) by lia. rewrite emit_lit_fits by (rewrite length_app; lia). by rewrite <- app_assoc.
Qed.

Lemma emit_peer_fits cap (first : bool) t e :
  Forall plain_char (host e) -> (length t + length (if first then [] else [","%char]) + length (render e) <= cap)%nat ->
  emit_peer cap first t e = Some (t ++ (if first then [] else [","%char]) ++ render e).
Proof.
  intros Hp H. rewrite render_length in H. unfold body, fields in H. cbn [map mjoin list_join] in H. rewrite !length_app in H.
  set (comma := if first then [] else [","%char]) in *.
  unfold emit_peer, emit_str. replace (if first then t else emit_char cap t ","%char) with (t ++ comma)
    by (unfold comma in *; destruct first; [by rewrite app_nil_r|]; rewrite emit_char_fits; cbn in *; lia || done).
  rewrite (emit_char_fits cap (_ ++ _)) by (rewrite length_app; lia). rewrite (emit_lit_fits cap _ (_ ++ _)) by (rewrite !length_app; cbn; lia).
  rewrite (emit_char_fits cap (_ ++ _)) by (rewrite !length_app; cbn; lia). rewrite emit_str_loop_fits by (done || rewrite !length_app; cbn; lia).
  cbn [mbind option_bind]. rewrite (emit_char_fits cap (_ ++ _)) by (rewrite !length_app; cbn; lia).
  do 6 rewrite (emit_field_fits cap (_ ++ _)) by (rewrite !length_app; cbn [length]; rewrite ?length_app; cbn [length app quoted chars] in *; cbn in *; lia).
  rewrite (emit_char_fits cap (_ ++ _)) by (rewrite !length_app; cbn in *; lia).
  f_equal. unfold render, body, fields. cbn [map mjoin list_join]. repeat (rewrite <- ?app_assoc; cbn [app]). done.
Qed.

Lemma field_length k v n : 0 <= v < 10 ^ Z.of_nat n -> (0 < n)%nat -> (length (field (k, v)) <= 4 + length (chars k) + n)%nat.
Proof.
  intros Hv Hn. pose proof (num_length v n Hv Hn). unfold field, quoted. cbn [fst snd length].
  rewrite length_app. cbn [length]. rewrite length_app. cbn [length]. lia.
Qed.

(** An entry and its comma take less than 254 characters: 64 of them fit into the 16384 of the buffer. *)
Lemma entry_length e : peer_ok e -> (length (render e) <= 252)%nat.
Proof.
  intros ((_ & Hh & _) & ? & ? & ? & ? & ? & ?). unfold MAX_LATENCY in *. rewrite render_length.
  pose proof (field_length "port" (port e) 5 ltac:(lia) ltac:(lia)). pose proof (field_length "use_ssl" (use_ssl e) 1 ltac:(lia) ltac:(lia)).
  pose proof (field_length "is_seed" (is_seed e) 1 ltac:(lia) ltac:(lia)). pose proof (field_length "last_ok" (last_ok e) 10 ltac:(lia) ltac:(lia)).
  pose proof (field_length "consec_failures" (consec_failures e) 10 ltac:(lia) ltac:(lia)).
  pose proof (field_length "avg_latency_ms" (avg_latency_ms e) 9 ltac:(lia) ltac:(lia)).
  unfold body, fields. cbn [map mjoin list_join]. rewrite !length_app.
  change (length []) with 0%nat. cbn [chars String.list_ascii_of_string length] in *. lia.
Qed.

Lemma rest_of_length l : Forall peer_ok l -> (length (rest_of l) <= 253 * length l)%nat.
Proof.
  induction 1 as [|e l He Hl IH]; [done|]. cbn [rest_of length]. rewrite length_app. pose proof (entry_length e He). lia.
Qed.

Lemma objects_length l : Forall peer_ok l -> (length (objects l) <= 253 * length l)%nat.
Proof.
  destruct 1 as [|e l He Hl]; [done|]. cbn [objects length]. rewrite length_app.
  pose proof (entry_length e He). pose proof (rest_of_length l Hl). lia.
Qed.

Lemma emit_rest_fits cap l : forall t,
  Forall peer_ok l -> (length t + length (rest_of l) <= cap)%nat -> emit_peers cap false t l = Some (t ++ rest_of l).
Proof.
  induction l as [|e l IH]; intros t Hall H; cbn [emit_peers rest_of] in *; [by rewrite app_nil_r|].
  apply Forall_cons in Hall as [He Hall]. cbn [length] in H. rewrite length_app in H.
  rewrite emit_peer_fits by (apply He || cbn [length]; lia). cbn [mbind option_bind].
  rewrite IH by (done || rewrite !length_app; cbn [length]; lia). f_equal. rewrite <- !app_assoc. done.
Qed.

Lemma emit_peers_fits cap l t :
  Forall peer_ok l -> (length t + length (objects l) <= cap)%nat -> emit_peers cap true t l = Some (t ++ objects l).
Proof.
  destruct 1 as [|e l He Hl]; intros H; cbn [emit_peers objects] in *; [by rewrite app_nil_r|].
  rewrite length_app in H. rewrite emit_peer_fits by (apply He || cbn [length]; lia). cbn [mbind option_bind app].
  rewrite emit_rest_fits by (done || rewrite length_app; lia). by rewrite <- app_assoc.
Qed.

(** The text of 64 entries fits, with the zero that ends it. *)
Lemma serialize_fits l : Forall peer_ok l -> (length l <= MAX_PEERS)%nat -> serialize l BUF_SIZE = Some (text_of l, true).
Proof.
  intros Hall Hmax. unfold MAX_PEERS in Hmax. pose proof (objects_length l Hall) as Hlen.
  unfold serialize, put_char. cbn [length]. assert (length (text_of l) < BUF_SIZE)%nat as Hfit.
  { unfold text_of, BUF_SIZE. rewrite !length_app. change (length head_text) with 22%nat. change (length (chars "]}")) with 2%nat. lia. }
  unfold text_of in *. rewrite !length_app in Hfit. change (length head_text) with 22%nat in Hfit. change (length (chars "]}")) with 2%nat in Hfit.
  generalize dependent BUF_SIZE. intros cap Hfit. rewrite (proj2 (Nat.ltb_lt _ _)) by lia. cbn [mbind option_bind].
  rewrite (emit_lit_fits cap _ ([] ++ _)) by (cbn; lia). rewrite (emit_lit_fits cap _ (_ ++ _)) by (cbn; lia).
  replace ((([] ++ ["{"%char]) ++ quoted "version" ++ chars ":1,") ++ quoted "peers" ++ chars ":[") with head_text by done.
  rewrite emit_peers_fits by (done || change (length head_text) with 22%nat; lia). cbn [mbind option_bind].
  rewrite (emit_char_fits cap (_ ++ objects l)) by (rewrite length_app; change (length head_text) with 22%nat; lia).
  rewrite emit_char_fits by (rewrite !length_app; change (length head_text) with 22%nat; cbn [length]; lia).
  replace (((head_text ++ objects l) ++ ["]"%char]) ++ ["}"%char]) with (head_text ++ objects l ++ chars "]}") by (by rewrite <- !app_assoc).
  rewrite !length_app. change (length head_text) with 22%nat. change (length (chars "]}")) with 2%nat.
  by rewrite (proj2 (Nat.ltb_lt _ _)) by lia.
Qed.

(** ** How much is written *)

Definition escaped (h : list ascii) : nat := length (mjoin (map (fun c => if bool_decide (c = quote \/ c = backslash) then [backslash; c] else [c]) h)).
Definition entry_size (e : PeerEntry) : nat := 11 + escaped (host e) + length (body (fields e)).
(** The length of the whole text. *)
Definition text_size (l : list PeerEntry) : nat := 24 + sum_list (map entry_size l) + (length l - 1).

(** The text ends at the end of the buffer or at the [n]-th character. *)
Definition at_pos (cap n : nat) (t : list ascii) : Prop := length t = Nat.min cap n.

Lemma emit_char_size cap n t c : at_pos cap n t -> at_pos cap (n + 1) (emit_char cap t c).
Proof. unfold at_pos. intros H. unfold emit_char. destruct (Nat.ltb_spec (length t) cap); [rewrite length_app; cbn|]; lia. Qed.

Lemma emit_lit_size cap k : forall n t, at_pos cap n t -> at_pos cap (n + length k) (emit_lit cap t k).
Proof.
  unfold at_pos. induction k as [|c k IH]; intros n t H; cbn [emit_lit length]; [lia|].
  destruct (Nat.ltb_spec (length t) cap); [|lia]. rewrite (IH (n + 1)%nat); [lia|]. rewrite length_app. cbn. lia.
Qed.

Lemma emit_str_loop_size cap s : forall t,
  (length t <= cap)%nat -> exists t', emit_str_loop cap t s = Some t' /\ (length t' <= cap)%nat /\
    Nat.min cap (length t' + 1) = Nat.min cap (length t + escaped s + 1).
Proof.
  induction s as [|c s IH]; intros t H; cbn [emit_str_loop]; [exists t; cbn; split_and!; (done || lia)|].
  assert (escaped (c :: s) = (if bool_decide (c = quote \/ c = backslash) then 2 else 1) + escaped s)%nat as ->.
  { unfold escaped. cbn [map mjoin list_join]. rewrite length_app. by case_bool_decide. }
  destruct (Nat.ltb_spec (length t) (cap - 1)) as [Hlt|]; [|exists t; case_bool_decide; split_and!; (done || lia)].
  set (t1 := if bool_decide _ then _ else t).
  assert (length t1 < cap /\ length t1 + 1 = length t + if bool_decide (c = quote \/ c = backslash) then 2 else 1)%nat as [H1 H2].
  { unfold t1. case_bool_decide; [rewrite length_app; cbn|]; lia. }
  unfold put_char. rewrite (proj2 (Nat.ltb_lt _ _)) by done. cbn [mbind option_bind].
  destruct (IH (t1 ++ [c])) as (t' & -> & Hb & Hs); rewrite length_app in *; cbn [length] in *; [lia|].
  exists t'. split_and!; (done || lia).
Qed.

Lemma emit_str_size cap n t s :
  at_pos cap n t -> exists t', emit_str cap t s = Some t' /\ at_pos cap (n + escaped s + 2) t'.
Proof.
  intros H. unfold emit_str. pose proof (emit_char_size cap n t quote H) as H1. unfold at_pos in H1.
  destruct (emit_str_loop_size cap s (emit_char cap t quote)) as (t' & -> & Hb & Hs); [lia|].
  cbn [mbind option_bind]. eexists. split; [reflexivity|].
  pose proof (emit_char_size cap (length t') t' quote ltac:(unfold at_pos; lia)) as H2. unfold at_pos in *. lia.
Qed.

Lemma emit_field_size cap n t k v :
  at_pos cap n t -> at_pos cap (n + length (field (k, v))) (emit_int cap (emit_lit cap t (","%char :: quoted k ++ [":"%char])) v).
Proof.
  intros H. unfold emit_int. apply (emit_lit_size cap (","%char :: quoted k ++ [":"%char])), (emit_lit_size cap (num v)) in H.
  fold (num v). unfold at_pos in *. rewrite H. unfold field. cbn [fst snd length]. rewrite !length_app. cbn [length]. lia.
Qed.

Lemma emit_peer_size cap (first : bool) n t e :
  at_pos cap n t -> exists t', emit_peer cap first t e = Some t' /\ at_pos cap (n + (if first then 0 else 1) + entry_size e) t'.
Proof.
  intros H. unfold emit_peer. set (t0 := if first then t else _).
  assert (at_pos cap (n + (if first then 0 else 1)) t0) as H0.
  { unfold t0. destruct first; [by rewrite Nat.add_0_r|]. by apply emit_char_size. }
  apply (emit_char_size _ _ _ "{"%char), (emit_lit_size _ (quoted "host" ++ [":"%char])), (emit_str_size _ _ _ (host e)) in H0 as (t1 & -> & H1).
  cbn [mbind option_bind]. eexists. split; [reflexivity|].
  eapply (emit_field_size _ _ _ "port" (port e)), (emit_field_size _ _ _ "use_ssl" (use_ssl e)), (emit_field_size _ _ _ "is_seed" (is_seed e)),
    (emit_field_size _ _ _ "last_ok" (last_ok e)), (emit_field_size _ _ _ "consec_failures" (consec_failures e)),
    (emit_field_size _ _ _ "avg_latency_ms" (avg_latency_ms e)), (emit_char_size _ _ _ "}"%char) in H1.
  unfold at_pos in *. rewrite H1. unfold entry_size, body, fields. cbn [map mjoin list_join]. rewrite !length_app.
  change (length (quoted "host")) with 6%nat. change (length [":"%char]) with 1%nat. change (length []) with 0%nat. lia.
Qed.

Lemma emit_peers_size cap l : forall (first : bool) n t,
  at_pos cap n t ->
  exists t', emit_peers cap first t l = Some t' /\ at_pos cap (n + sum_list (map entry_size l) + (length l - if first then 1 else 0)) t'.
Proof.
  induction l as [|e l IH]; intros first n t H; cbn [emit_peers map length].
  { exists t. split; [done|]. destruct first; cbn; by rewrite !Nat.add_0_r. }
  destruct (emit_peer_size cap first n t e H) as (t1 & -> & H1). cbn [mbind option_bind].
  destruct (IH false _ _ H1) as (t2 & -> & H2). exists t2. split; [done|]. unfold at_pos in *. rewrite H2.
  change (sum_list (entry_size e :: map entry_size l)) with (entry_size e + sum_list (map entry_size l))%nat. destruct first; lia.
Qed.

(** Nothing is written outside of the buffer, whatever the entries are, and the text is ended when there is room for it. *)
Lemma serialize_size l cap :
  (0 < cap)%nat -> exists t, serialize l cap = Some (t, (text_size l <? cap)%nat) /\ length t = Nat.min cap (text_size l).
Proof.
  intros H. unfold serialize, put_char. cbn [length]. rewrite (proj2 (Nat.ltb_lt _ _)) by done. cbn [mbind option_bind app].
  assert (at_pos cap 1 ["{"%char]) as H0 by (unfold at_pos; cbn; lia).
  apply (emit_lit_size _ (quoted "version" ++ chars ":1,")), (emit_lit_size _ (quoted "peers" ++ chars ":[")), (emit_peers_size _ l true) in H0
    as (t & -> & H1).
  cbn [mbind option_bind]. apply (emit_char_size _ _ _ "]"%char), (emit_char_size _ _ _ "}"%char) in H1. unfold at_pos in H1.
  eexists. split.
  - f_equal. f_equal. rewrite H1. unfold text_size. cbn [length quoted chars app String.list_ascii_of_string].
    apply eq_true_iff_eq. rewrite !Nat.ltb_lt. lia.
  - rewrite H1. unfold text_size. cbn [length quoted chars app String.list_ascii_of_string]. lia.
Qed.

(** ** The scanner ends *)

Lemma skip_ws_length s : (length (skip_ws s) <= length s)%nat.
Proof. induction s as [|c s IH]; cbn; [done|]. destruct (is_ws c); cbn; lia. Qed.

Lemma strchr_length s c r : strchr s c = Some r -> (0 < length r <= length s)%nat.
Proof.
  induction s as [|x s IH]; cbn [strchr]; [done|]. case_bool_decide; intros Heq; [injection Heq as <-; cbn; lia|].
  apply IH in Heq. cbn. lia.
Qed.

(** Every turn moves on by at least a character: more fuel than the text is long changes nothing. *)
Lemma read_peers_fuel f1 : forall f2 p arr_end l,
  (length p < f1)%nat -> (length p < f2)%nat -> read_peers f1 p arr_end l = read_peers f2 p arr_end l.
Proof.
  induction f1 as [|f1 IH]; intros [|f2] p arr_end l H1 H2; [lia..|]. cbn [read_peers].
  destruct ((length arr_end <? length p)%nat && (length l <? MAX_PEERS)%nat); [|done].
  pose proof (skip_ws_length p) as Hs. destruct (skip_ws p) as [|c r] eqn:E; [done|]. case_bool_decide; [|done].
  destruct (strchr (c :: r) "}"%char) as [obj_end|] eqn:Ec; [|done]. apply strchr_length in Ec.
  destruct (length obj_end <? length arr_end)%nat; [done|]. destruct (read_peer (c :: r) obj_end) as [e|]; [|done]. cbn [mbind option_bind].
  pose proof (skip_ws_length (drop 1 obj_end)) as Hd. rewrite length_drop in Hd.
  apply IH; destruct (skip_ws (drop 1 obj_end)) as [|d q]; cbn [length] in *; try case_bool_decide; cbn [length]; lia.
Qed.
