(* ===== verification/PeerCacheSafety.v ===== *)
(** * PeerCacheSafety: what the peer cache promises

    No call writes outside of an array or overflows an int; at most 64 endpoints, none twice; seeds stay, in their order; the saved text is
    read back; and the endpoints are given in the order peer_cache.h promises, for seeds that were not discovered before. *)
From stdpp Require Import sorting.
From S2P Require Import Prelude JsCore PeerCache PeerCacheText.
Local Open Scope Z_scope.

Definition key (e : PeerEntry) : list ascii * Z := (host e, port e).

(** [n] bounds the counters: a failure or a success adds one. *)
Record cache_ok (n : Z) (pc : PeerCache) : Prop := {
  ok_count : (length (peers pc) <= MAX_PEERS)%nat;
  ok_peers : Forall peer_ok (peers pc);
  ok_distinct : NoDup (key <$> peers pc);
  ok_rpcs : 0 <= rpc_since_discovery pc <= n;
  ok_failures : Forall (fun e => consec_failures e <= n) (peers pc)
}.

(** Hosts may be empty and ports zero or less: such calls do nothing. *)
Definition call_ok (c : call) : Prop :=
  match c with
  | AddSeed h p ssl => (h = [] \/ plain_host h) /\ p < 65536 /\ 0 <= ssl <= 1
  | AddDiscovered h p => (h = [] \/ plain_host h) /\ p < 65536
  | MarkSuccess now h p latency_ms => 0 <= now < 10 ^ 10 /\ 0 <= latency_ms <= MAX_LATENCY
  | MarkFailure now h p => True
  | ResetDiscovery => True
  end.

Definition seed_keys (pc : PeerCache) : list (list ascii * Z) := key <$> filter (fun e => is_seed e <> 0) (peers pc).

(** What a call does for the theorems below: the invariant, the seeds, and the text it saves. *)
Definition good_step (n : Z) (pc pc' : PeerCache) (t : option (list ascii)) : Prop :=
  cache_ok n pc' /\ seed_keys pc `sublist_of` seed_keys pc' /\ save pc' = save pc /\
  (t = None \/ t = Some (text_of (peers pc'))).

(** ** Lemmas on the list *)

Lemma find_idx_some l h p i :
  find_idx l h p = Some i -> exists e, l !! i = Some e /\ key e = (h, p).
Proof.
  unfold find_idx. destruct (list_find _ l) as [[j e]|] eqn:E; [|done]. intros Heq. injection Heq as <-.
  apply list_find_Some in E as (Hl & [<- <-] & _). by exists e.
Qed.

Lemma find_idx_none l h p : find_idx l h p = None -> (h, p) ∉ (key <$> l).
Proof.
  unfold find_idx. destruct (list_find _ l) eqn:E; [done|]. intros _ Hin. apply list_elem_of_fmap in Hin as (e & Heq & Hin).
  apply list_find_None in E. apply (proj1 (Forall_forall _ _) E) in Hin. apply Hin. by injection Heq as -> ->.
Qed.

Lemma persist_ok n pc : cache_ok n pc -> exists t, persist_unlocked pc = Some t /\ (t = None \/ t = Some (text_of (peers pc))).
Proof.
  intros H. unfold persist_unlocked. destruct (save pc); [|exists None; by split; [|left]].
  rewrite serialize_fits by (apply H). cbn [mbind option_bind]. eexists. split; [done|by right].
Qed.

Lemma entry_ok n pc i e : cache_ok n pc -> peers pc !! i = Some e -> peer_ok e /\ consec_failures e <= n.
Proof.
  intros H Hl. split; [exact (Forall_lookup_1 _ _ _ _ (ok_peers _ _ H) Hl)|exact (Forall_lookup_1 _ _ _ _ (ok_failures _ _ H) Hl)].
Qed.

Lemma alter_insert {A} (f : A -> A) (l : list A) i e : l !! i = Some e -> alter f i l = <[i := f e]> l.
Proof. revert i. induction l as [|x l IH]; intros [|i] Hl; cbn in *; [done|done|congruence|f_equal; by apply IH]. Qed.

Lemma cache_ok_mono n m pc : n <= m -> cache_ok n pc -> cache_ok m pc.
Proof. intros Hle []. split; [done..|lia|]. eapply Forall_impl; [done|]. cbn. lia. Qed.

Lemma insert_seeds (l : list PeerEntry) i e e' :
  l !! i = Some e -> key e' = key e -> (is_seed e <> 0 -> is_seed e' <> 0) ->
  (key <$> filter (fun e => is_seed e <> 0) l) `sublist_of` (key <$> filter (fun e => is_seed e <> 0) (<[i := e']> l)).
Proof.
  intros Hl Hk Hs. rewrite <- (take_drop_middle l i e) at 1 by done. rewrite insert_take_drop by (by eapply lookup_lt_Some).
  rewrite !filter_app, !filter_cons, !fmap_app. apply sublist_app; [done|].
  repeat case_decide; cbn [fmap list_fmap]; rewrite ?Hk; try done; [tauto|by constructor].
Qed.

(** Replacing an entry by one with the same key. *)
Lemma insert_ok n pc i e e' rpcs :
  cache_ok n pc -> peers pc !! i = Some e -> key e' = key e -> peer_ok e' -> consec_failures e' <= n -> 0 <= rpcs <= n ->
  (is_seed e <> 0 -> is_seed e' <> 0) ->
  let pc' := mk_peer_cache (<[i := e']> (peers pc)) rpcs (save pc) in cache_ok n pc' /\ seed_keys pc `sublist_of` seed_keys pc'.
Proof.
  intros [] Hl Hk Hok Hf Hr Hs pc'. split; [|by eapply insert_seeds]. split; cbn.
  - by rewrite length_insert.
  - by apply Forall_insert.
  - rewrite list_fmap_insert, Hk, list_insert_id; [done|]. by rewrite list_lookup_fmap, Hl.
  - done.
  - by apply Forall_insert.
Qed.

Lemma snoc_ok n pc h p ssl seed :
  cache_ok n pc -> find_idx (peers pc) h p = None -> (length (peers pc) < MAX_PEERS)%nat -> plain_host h -> 0 < p < 65536 ->
  0 <= ssl <= 1 -> 0 <= seed <= 1 ->
  let pc' := with_peers pc (peers pc ++ [new_entry h p ssl seed]) in cache_ok n pc' /\ seed_keys pc `sublist_of` seed_keys pc'.
Proof.
  intros [] Hfind Hlen Hh Hp Hssl Hseed pc'. pose proof Hh as (_ & H127 & _).
  assert (take (HOST_SIZE - 1) h = h) as Htake by (apply take_ge; unfold HOST_SIZE; lia).
  assert (peer_ok (new_entry h p ssl seed)) as Hnew.
  { unfold peer_ok, new_entry. rewrite Htake. cbn -[Z.pow]. unfold MAX_LATENCY. split_and!; (done || lia). }
  split; [split; cbn|].
  - rewrite length_app. cbn. lia.
  - apply Forall_app. split; [done|]. by apply Forall_singleton.
  - rewrite fmap_app. apply NoDup_app. split_and!; [done| |by apply NoDup_singleton].
    intros k Hk Hin. apply list_elem_of_singleton in Hin as ->. revert Hk. unfold key at 1, new_entry. cbn [host port]. rewrite Htake.
    by apply find_idx_none.
  - done.
  - apply Forall_app. split; [done|]. apply Forall_singleton. cbn. lia.
  - unfold seed_keys, pc'. cbn. rewrite filter_app, fmap_app. by apply sublist_inserts_r.
Qed.

Lemma delete_ok n pc i e :
  cache_ok n pc -> peers pc !! i = Some e -> is_seed e = 0 ->
  let pc' := with_peers pc (delete i (peers pc)) in cache_ok n pc' /\ seed_keys pc `sublist_of` seed_keys pc'.
Proof.
  intros [] Hl Hs pc'. pose proof (lookup_lt_Some _ _ _ Hl) as Hlt. split; [split; cbn|].
  - rewrite length_delete by (by eexists). lia.
  - by apply Forall_delete.
  - eapply sublist_NoDup; [done|]. apply fmap_sublist, sublist_delete.
  - done.
  - by apply Forall_delete.
  - unfold seed_keys, pc'. cbn. rewrite <- (take_drop_middle (peers pc) i e) at 1 by done. rewrite delete_take_drop.
    rewrite !filter_app, filter_cons, decide_False by lia. done.
Qed.

(** ** Each call *)

Lemma int_sum_ok z : - 2 ^ 31 <= z < 2 ^ 31 -> int_sum z = Some z.
Proof. intros H. unfold int_sum. by rewrite (proj2 (andb_true_iff _ _)) by lia. Qed.
Lemma llong_sum_ok z : - 2 ^ 63 <= z < 2 ^ 63 -> llong_sum z = Some z.
Proof. intros H. unfold llong_sum. by rewrite (proj2 (andb_true_iff _ _)) by lia. Qed.

(** A call that persists gives a good step. *)
Lemma persist_step n pc pc' :
  cache_ok n pc' -> seed_keys pc `sublist_of` seed_keys pc' -> save pc' = save pc ->
  exists t, persist_unlocked pc' = Some t /\ good_step n pc pc' t.
Proof. intros H Hs Hv. destruct (persist_ok n pc' H) as (t & -> & Ht). by exists t. Qed.

Lemma same_step n pc : cache_ok n pc -> good_step n pc pc None.
Proof. intros H. split_and!; [done..|by left]. Qed.

Lemma add_seed_step n pc h p ssl : cache_ok n pc -> call_ok (AddSeed h p ssl) -> good_step n pc (peer_cache_add_seed pc h p ssl) None.
Proof.
  intros H (Hh & Hp & Hssl). unfold peer_cache_add_seed. case_bool_decide; [by apply same_step|]. destruct Hh as [Hh|Hh]; [done|].
  cbn [orb]. case_test; [by apply same_step|]. destruct (find_idx (peers pc) h p) as [i|] eqn:E.
  - apply find_idx_some in E as (e & Hl & Hk). set (f := fun e => mk_peer _ _ ssl 1 _ _ _).
    assert (alter f i (peers pc) = <[i := f e]> (peers pc)) as -> by (by apply alter_insert).
    destruct (entry_ok n pc i e H Hl) as [He Hf].
    destruct (insert_ok n pc i e (f e) (rpc_since_discovery pc)) as [Hc1 Hc2]; [done..| |done|apply H|done|].
    { destruct He as (? & ? & ? & ? & ?). unfold peer_ok. cbn -[Z.pow]. split_and!; (done || lia). }
    split_and!; [done..|by left].
  - destruct (Nat.ltb_spec (length (peers pc)) MAX_PEERS); [|by apply same_step].
    destruct (snoc_ok n pc h p ssl 1) as [Hc1 Hc2]; [done..|lia|done|lia|]. split_and!; [done..|by left].
Qed.

Lemma add_discovered_step n pc h p :
  cache_ok n pc -> call_ok (AddDiscovered h p) ->
  exists pc' t, peer_cache_add_discovered pc h p = Some (pc', t) /\ good_step n pc pc' t.
Proof.
  intros H (Hh & Hp). unfold peer_cache_add_discovered.
  assert (exists pc' t, Some (pc, None) = Some (pc', t) /\ good_step n pc pc' t) as Hsame by (exists pc, None; split; [done|by apply same_step]).
  case_bool_decide; [done|]. destruct Hh as [Hh|Hh]; [done|]. cbn [orb]. case_test; [done|].
  destruct (find_idx (peers pc) h p) eqn:E; [done|]. destruct (Nat.ltb_spec (length (peers pc)) MAX_PEERS); [|done].
  destruct (snoc_ok n pc h p 0 0) as [Hc1 Hc2]; [done..|lia|lia|lia|].
  destruct (persist_step n pc _ Hc1 Hc2 eq_refl) as (t & -> & Ht). by eexists _, t.
Qed.

Lemma average_ok a b : 0 < a <= MAX_LATENCY -> 0 <= b <= MAX_LATENCY -> 0 <= Z.quot (a * 7 + b * 3) 10 <= MAX_LATENCY.
Proof.
  unfold MAX_LATENCY. intros Ha Hb. rewrite Z.quot_div_nonneg by lia.
  split; [apply Z.div_pos; lia|apply Z.div_le_upper_bound; lia].
Qed.

Lemma mark_success_step n pc now h p latency :
  cache_ok n pc -> n + 1 < 2 ^ 31 -> call_ok (MarkSuccess now h p latency) ->
  exists pc' t, peer_cache_mark_success now pc h p latency = Some (pc', t) /\ good_step (n + 1) pc pc' t.
Proof.
  intros H Hn (Hnow & Hlat). apply (cache_ok_mono n (n + 1)) in H as H'; [|lia]. unfold peer_cache_mark_success.
  destruct (find_idx (peers pc) h p) as [i|] eqn:E; [|exists pc, None; split; [done|by apply same_step]].
  apply find_idx_some in E as (e & Hl & Hk). rewrite Hl. cbn [mbind option_bind].
  destruct (entry_ok n pc i e H Hl) as [He Hf].
  pose proof (ok_rpcs _ _ H) as Hr. set (avg := if avg_latency_ms e =? 0 then _ else _).
  assert (exists v, avg = Some v /\ 0 <= v <= MAX_LATENCY) as (v & -> & Hv).
  { unfold avg. destruct He as (_ & _ & _ & _ & _ & _ & Ha). case_test; [by exists latency|]. unfold MAX_LATENCY in *.
    rewrite !int_sum_ok by lia. cbn [mbind option_bind]. rewrite int_sum_ok by lia. eexists. split; [done|]. apply average_ok; unfold MAX_LATENCY; lia. }
  cbn [mbind option_bind]. rewrite int_sum_ok by lia. cbn [mbind option_bind].
  destruct (insert_ok (n + 1) pc i e (mk_peer (host e) (port e) (use_ssl e) (is_seed e) now 0 v) (rpc_since_discovery pc + 1))
    as [Hc1 Hc2]; [done..| |cbn; lia|lia|done|].
  { destruct He as (? & ? & ? & ? & ?). unfold peer_ok. cbn -[Z.pow]. split_and!; (done || lia). }
  destruct (persist_step (n + 1) pc _ Hc1 Hc2 eq_refl) as (t & -> & Ht). by eexists _, t.
Qed.

Lemma to_int_range z : - 2 ^ 31 <= to_int z < 2 ^ 31.
Proof. unfold to_int. pose proof (Z.mod_pos_bound (z + 2 ^ 31) (2 ^ 32)). lia. Qed.

(** Whether the entry is dropped, of an entry whose failures have been counted. *)
Definition dropped (now : Z) (e : PeerEntry) : bool :=
  (is_seed e =? 0) && (((0 <? last_ok e) && (STALE_LAST_OK_SECONDS <? to_int now - last_ok e)) || (DROP_FAILURE_THRESHOLD <=? consec_failures e)).
Definition failed (e : PeerEntry) : PeerEntry :=
  mk_peer (host e) (port e) (use_ssl e) (is_seed e) (last_ok e) (consec_failures e + 1) (avg_latency_ms e).

Lemma mark_failure_exact now pc h p i e :
  find_idx (peers pc) h p = Some i -> peers pc !! i = Some e -> 0 <= last_ok e < 10 ^ 10 -> 0 <= consec_failures e < 2 ^ 31 - 1 ->
  peer_cache_mark_failure now pc h p =
    (let pc' := with_peers pc (if dropped now (failed e) then delete i (peers pc) else <[i := failed e]> (peers pc)) in
     t ← persist_unlocked pc'; Some (pc', t)).
Proof.
  intros Hfind Hl Hok Hf. unfold peer_cache_mark_failure. rewrite Hfind, Hl. cbn [mbind option_bind].
  rewrite int_sum_ok by lia. cbn [mbind option_bind]. pose proof (to_int_range now).
  assert ((if (is_seed e =? 0) && (0 <? last_ok e) then d ← llong_sum (to_int now - last_ok e); Some (STALE_LAST_OK_SECONDS <? d) else Some false)
    = Some ((is_seed e =? 0) && (0 <? last_ok e) && (STALE_LAST_OK_SECONDS <? to_int now - last_ok e))) as ->.
  { rewrite llong_sum_ok by lia. by destruct (is_seed e =? 0), (0 <? last_ok e). }
  cbn [mbind option_bind]. unfold dropped. cbn [is_seed last_ok consec_failures failed].
  replace (delete i (<[i := _]> (peers pc))) with (delete i (peers pc)).
  2: { rewrite !delete_take_drop, take_insert_ge, drop_insert_lt by lia. done. }
  fold (failed e). by destruct (is_seed e =? 0), (0 <? last_ok e), (STALE_LAST_OK_SECONDS <? _).
Qed.

Lemma mark_failure_step n pc now h p :
  cache_ok n pc -> n + 1 < 2 ^ 31 ->
  exists pc' t, peer_cache_mark_failure now pc h p = Some (pc', t) /\ good_step (n + 1) pc pc' t.
Proof.
  intros H Hn. apply (cache_ok_mono n (n + 1)) in H as H'; [|lia].
  destruct (find_idx (peers pc) h p) as [i|] eqn:E.
  2: { exists pc, None. unfold peer_cache_mark_failure. rewrite E. split; [done|by apply same_step]. }
  pose proof (find_idx_some _ _ _ _ E) as (e & Hl & Hk).
  destruct (entry_ok n pc i e H Hl) as [He Hf].
  pose proof He as (? & ? & ? & ? & ? & ? & ?). rewrite (mark_failure_exact now pc h p i e E Hl) by lia. cbv zeta.
  set (pc' := with_peers pc _). assert (cache_ok (n + 1) pc' /\ seed_keys pc `sublist_of` seed_keys pc') as [Hc1 Hc2].
  { unfold pc'. destruct (dropped now (failed e)) eqn:Hd.
    - unfold dropped in Hd. apply andb_true_iff in Hd as [Hs _]. apply Z.eqb_eq in Hs. by eapply delete_ok.
    - apply (insert_ok (n + 1) pc i e (failed e) (rpc_since_discovery pc)); [done..| |cbn; lia|apply H'|done].
      unfold peer_ok. cbn -[Z.pow]. split_and!; (done || lia). }
  destruct (persist_step (n + 1) pc pc' Hc1 Hc2 eq_refl) as (t & -> & Ht). by exists pc', t.
Qed.

Lemma call_step n pc c :
  cache_ok n pc -> n + 1 < 2 ^ 31 -> call_ok c -> exists pc' t, do_call pc c = Some (pc', t) /\ good_step (n + 1) pc pc' t.
Proof.
  intros H Hn Hc. pose proof (cache_ok_mono n (n + 1) pc ltac:(lia) H) as H'. destruct c; cbn [do_call].
  - eexists _, _. split; [done|]. by apply add_seed_step.
  - by apply add_discovered_step.
  - by apply mark_success_step.
  - by apply mark_failure_step.
  - eexists _, _. split; [done|]. destruct H' as [? ? ? ? ?]. split_and!; [split; (done || cbn; lia)|done|done|by left].
Qed.

(** ** Sequences of calls *)

Lemma calls_step cs : forall n pc,
  cache_ok n pc -> n + Z.of_nat (length cs) < 2 ^ 31 -> Forall call_ok cs ->
  exists pc', do_calls pc cs = Some pc' /\ cache_ok (n + Z.of_nat (length cs)) pc' /\ seed_keys pc `sublist_of` seed_keys pc'.
Proof.
  induction cs as [|c cs IH]; intros n pc H Hn Hall; cbn [do_calls length] in *.
  { exists pc. split; [done|]. split; [by eapply cache_ok_mono; [|exact H]; lia|done]. }
  apply Forall_cons in Hall as [Hc Hall]. destruct (call_step n pc c H ltac:(lia) Hc) as (pc1 & t & -> & H1 & Hs1 & _).
  cbn [mbind option_bind]. destruct (IH (n + 1) pc1) as (pc2 & -> & H2 & Hs2); [done|lia|done|].
  exists pc2. split; [done|]. split; [by eapply cache_ok_mono; [|exact H2]; lia|by etrans].
Qed.

Definition empty_cache (has_save : bool) : PeerCache := mk_peer_cache [] 0 has_save.

Lemma empty_ok has_save : cache_ok 0 (empty_cache has_save).
Proof. split; cbn; [lia|by apply Forall_nil|by apply NoDup_nil|lia|by apply Forall_nil]. Qed.

(** ** The order of the attempts *)

(** What the C library promises of [qsort]: a sorted permutation, for a comparison that orders the elements. *)
Definition cmp_le (cmp : PeerEntry -> PeerEntry -> option Z) (a b : PeerEntry) : Prop := exists z, cmp a b = Some z /\ z <= 0.
Definition orders (cmp : PeerEntry -> PeerEntry -> option Z) (l : list PeerEntry) : Prop :=
  (forall a b, a ∈ l -> b ∈ l -> exists x y, cmp a b = Some x /\ cmp b a = Some y /\ Z.sgn y = - Z.sgn x) /\
  (forall a b c, a ∈ l -> b ∈ l -> c ∈ l -> cmp_le cmp a b -> cmp_le cmp b c -> cmp_le cmp a c).
Class Sorts (qsort : (PeerEntry -> PeerEntry -> option Z) -> list PeerEntry -> option (list PeerEntry)) : Prop :=
  qsort_sorts cmp l : orders cmp l -> exists l', qsort cmp l = Some l' /\ l' ≡ₚ l /\ StronglySorted (cmp_le cmp) l'.

(** "fewer failures first, then most recent last_ok, then lower latency". *)
Definition sooner (a b : PeerEntry) : Prop :=
  consec_failures a < consec_failures b \/
  consec_failures a = consec_failures b /\
    (last_ok b < last_ok a \/ last_ok a = last_ok b /\ avg_latency_ms a <= avg_latency_ms b).

Lemma score_cmp_sooner a b :
  peer_ok a -> peer_ok b -> is_seed a = 0 -> is_seed b = 0 ->
  exists z, score_cmp a b = Some z /\ (z <= 0 <-> sooner a b) /\ (z < 0 <-> ~ sooner b a).
Proof.
  intros (_ & _ & _ & _ & ? & ? & ?) (_ & _ & _ & _ & ? & ? & ?) Ha Hb. unfold MAX_LATENCY in *. unfold score_cmp, sooner. rewrite Ha, Hb. cbn.
  destruct (Z.eqb_spec (consec_failures a) (consec_failures b)); cbn; [|rewrite int_sum_ok by lia; eexists; split; [done|lia]].
  destruct (Z.eqb_spec (last_ok a) (last_ok b)); cbn; [rewrite int_sum_ok by lia; eexists; split; [done|lia]|].
  eexists. split; [done|]. destruct (Z.ltb_spec (last_ok a) (last_ok b)); lia.
Qed.

Lemma score_cmp_le a b : peer_ok a -> peer_ok b -> is_seed a = 0 -> is_seed b = 0 -> cmp_le score_cmp a b <-> sooner a b.
Proof.
  intros Ha Hb Hsa Hsb. destruct (score_cmp_sooner a b Ha Hb Hsa Hsb) as (z & Hz & Hle & _). unfold cmp_le. split.
  - intros (z' & Hz' & Hle'). apply Hle. congruence.
  - intros H. exists z. split; [done|by apply Hle].
Qed.

Lemma score_cmp_orders l : Forall peer_ok l -> orders score_cmp (kept l).
Proof.
  intros Hall. assert (forall a, a ∈ kept l -> peer_ok a /\ is_seed a = 0) as Hin.
  { intros a Ha. apply list_elem_of_filter in Ha as [Hs Ha]. by split; [apply (proj1 (Forall_forall _ _) Hall)|]. }
  split.
  - intros a b Ha Hb. destruct (Hin a Ha), (Hin b Hb).
    destruct (score_cmp_sooner a b) as (x & Hx & Hx1 & Hx2); [done..|]. destruct (score_cmp_sooner b a) as (y & Hy & Hy1 & Hy2); [done..|].
    exists x, y. split_and!; [done..|]. unfold sooner in *. lia.
  - intros a b c Ha Hb Hc. destruct (Hin a Ha), (Hin b Hb), (Hin c Hc). rewrite !score_cmp_le by done. unfold sooner. lia.
Qed.

(** Insertion sort, one sort that keeps the promise. *)
Fixpoint sort_insert (cmp : PeerEntry -> PeerEntry -> option Z) (x : PeerEntry) (l : list PeerEntry) : option (list PeerEntry) :=
  match l with
  | [] => Some [x]
  | y :: r => z ← cmp x y; if z <=? 0 then Some (x :: y :: r) else r' ← sort_insert cmp x r; Some (y :: r')
  end.
Fixpoint insertion_sort (cmp : PeerEntry -> PeerEntry -> option Z) (l : list PeerEntry) : option (list PeerEntry) :=
  match l with
  | [] => Some []
  | x :: r => r' ← insertion_sort cmp r; sort_insert cmp x r'
  end.

Lemma orders_sub cmp l l' : (forall a, a ∈ l' -> a ∈ l) -> orders cmp l -> orders cmp l'.
Proof. intros Hsub [H1 H2]. split; [intros a b ? ?; apply H1; auto|intros a b c ? ? ?; apply H2; auto]. Qed.

Lemma sort_insert_sorts cmp x l :
  orders cmp (x :: l) -> StronglySorted (cmp_le cmp) l ->
  exists l', sort_insert cmp x l = Some l' /\ l' ≡ₚ x :: l /\ StronglySorted (cmp_le cmp) l'.
Proof.
  intros Hord Hsort. induction l as [|y r IH]; cbn [sort_insert].
  { exists [x]. split_and!; [done..|]. by repeat constructor. }
  apply StronglySorted_inv in Hsort as [Hr Hy]. pose proof Hord as [Hcmp Htrans].
  destruct (Hcmp x y) as (z & z' & Hz & Hz' & Hsgn); [set_solver..|]. rewrite Hz. cbn [mbind option_bind]. case_test.
  - eexists. split_and!; [done..|]. constructor; [by constructor|]. constructor; [by exists z|].
    apply Forall_forall. intros c Hc. apply (Htrans x y c); [set_solver..|by exists z|]. by apply (proj1 (Forall_forall _ _) Hy).
  - destruct IH as (r' & -> & Hperm & Hr'); [by eapply orders_sub; [|exact Hord]; set_solver|done|].
    eexists. split_and!; [done|rewrite Hperm; apply Permutation_swap|]. constructor; [done|].
    rewrite Hperm. constructor; [|done]. exists z'. split; [done|lia].
Qed.

#[export] Instance insertion_sort_sorts : Sorts insertion_sort.
Proof.
  intros cmp l. induction l as [|x r IH]; intros Hord; cbn [insertion_sort].
  { exists []. split_and!; [done..|constructor]. }
  destruct IH as (r' & -> & Hperm & Hr'); [by eapply orders_sub; [|exact Hord]; set_solver|].
  cbn [mbind option_bind]. destruct (sort_insert_sorts cmp x r') as (l' & -> & Hp & Hl'); [|done|].
  - eapply orders_sub; [|exact Hord]. intros a. by rewrite Hperm.
  - exists l'. split_and!; [done|by rewrite Hp, Hperm|done].
Qed.

(** ** A peer that keeps failing *)

Lemma find_idx_keys l h p : find_idx l h p = fst <$> list_find (eq (h, p)) (key <$> l).
Proof.
  unfold find_idx. induction l as [|e l IH]; [done|]. cbn [list_find fmap list_fmap].
  assert (port e = p /\ host e = h <-> (h, p) = key e) as Hiff by (unfold key; split; [by intros [-> ->]|by injection 1]).
  destruct (decide (port e = p /\ host e = h)), (decide ((h, p) = key e)); try tauto.
  revert IH. destruct (list_find _ l) as [[]|], (list_find _ (key <$> l)) as [[]|]; cbn; congruence.
Qed.

Lemma find_idx_insert l h p i e e' : l !! i = Some e -> key e' = key e -> find_idx (<[i := e']> l) h p = find_idx l h p.
Proof.
  intros Hl Hk. rewrite !find_idx_keys. rewrite list_fmap_insert, Hk, list_insert_id; [done|]. by rewrite list_lookup_fmap, Hl.
Qed.

Definition with_failures (e : PeerEntry) (k : Z) : PeerEntry :=
  mk_peer (host e) (port e) (use_ssl e) (is_seed e) (last_ok e) k (avg_latency_ms e).

Lemma failures_counted now h p k : forall n pc i e,
  cache_ok n pc -> n + Z.of_nat k < 2 ^ 31 -> find_idx (peers pc) h p = Some i -> peers pc !! i = Some e -> is_seed e = 0 ->
  last_ok e = 0 \/ to_int now - last_ok e <= STALE_LAST_OK_SECONDS -> consec_failures e < 5 -> consec_failures e + Z.of_nat k <= 5 ->
  do_calls pc (replicate k (MarkFailure now h p)) =
    Some (with_peers pc (if consec_failures e + Z.of_nat k <? 5 then <[i := with_failures e (consec_failures e + Z.of_nat k)]> (peers pc)
                         else delete i (peers pc))).
Proof.
  induction k as [|k IH]; intros n pc i e H Hn Hfind Hl Hs Hfresh Hlt Hk; cbn [replicate do_calls].
  - rewrite (proj2 (Z.ltb_lt _ 5)) by lia. rewrite Z.add_0_r. unfold with_failures. rewrite list_insert_id by (by destruct e). by destruct pc.
  - destruct (call_step n pc (MarkFailure now h p) H ltac:(lia) I) as (pc' & t & Heq & Hok & _). rewrite Heq. cbn [mbind option_bind].
    destruct (entry_ok n pc i e H Hl) as [(_ & _ & _ & _ & Hlast & Hf & _) Hfn].
    cbn [do_call] in Heq. rewrite (mark_failure_exact now pc h p i e Hfind Hl) in Heq by lia. cbv zeta in Heq.
    destruct (persist_unlocked _); [|done]. cbn [mbind option_bind] in Heq. injection Heq as <- _.
    assert (dropped now (failed e) = (5 <=? consec_failures e + 1)) as Hd.
    { unfold dropped, DROP_FAILURE_THRESHOLD. cbn [is_seed last_ok consec_failures failed]. rewrite Hs. cbn [andb Z.eqb].
      destruct (Z.ltb_spec 0 (last_ok e)); [|done]. rewrite (proj2 (Z.ltb_ge _ (to_int now - last_ok e))) by lia. done. }
    rewrite Hd in *. destruct (Z.leb_spec 5 (consec_failures e + 1)).
    + replace k with 0%nat by lia. cbn [replicate do_calls]. by rewrite (proj2 (Z.ltb_ge _ 5)) by lia.
    + pose proof (lookup_lt_Some _ _ _ Hl) as Hlen.
      rewrite (IH (n + 1) _ i (failed e)); [|done|lia|cbn [with_peers peers]; by rewrite (find_idx_insert _ _ _ _ e)|cbn [with_peers peers]; by apply list_lookup_insert_eq|
        done|done|cbn; lia|cbn; lia].
      cbn [failed consec_failures with_peers peers rpc_since_discovery save].
      replace (consec_failures e + 1 + Z.of_nat k) with (consec_failures e + Z.of_nat (S k)) by lia. unfold with_peers. cbn.
      case_test; f_equal; f_equal; [by rewrite list_insert_insert_eq|].
      by rewrite !delete_take_drop, take_insert_ge, drop_insert_lt by lia.
Qed.

Lemma kept_forall (P : PeerEntry -> Prop) l : Forall P l -> Forall P (kept l).
Proof. rewrite !Forall_forall. intros H a Ha. apply list_elem_of_filter in Ha as [_ Ha]. by apply H. Qed.

(** ** The order of the seeds *)

(** The seeds calls add, each at its first call. *)
Fixpoint new_seeds (known : list (list ascii * Z)) (cs : list call) : list (list ascii * Z) :=
  match cs with
  | [] => []
  | AddSeed h p _ :: rest =>
      if bool_decide (h = []) || (p <=? 0) || bool_decide ((h, p) ∈ known) then new_seeds known rest else (h, p) :: new_seeds (known ++ [(h, p)]) rest
  | _ :: rest => new_seeds known rest
  end.

(** The endpoints calls name as seeds and as discovered, and how many entries they may add. *)
Definition named_seeds (cs : list call) : list (list ascii * Z) := omap (fun c => match c with AddSeed h p _ => Some (h, p) | _ => None end) cs.
Definition named_discovered (cs : list call) : list (list ascii * Z) := omap (fun c => match c with AddDiscovered h p => Some (h, p) | _ => None end) cs.
Definition additions (cs : list call) : nat := length (named_seeds cs) + length (named_discovered cs).

Lemma insert_keys (l : list PeerEntry) i e e' :
  l !! i = Some e -> key e' = key e -> (is_seed e' = 0 <-> is_seed e = 0) ->
  key <$> filter (fun e => is_seed e <> 0) (<[i := e']> l) = key <$> filter (fun e => is_seed e <> 0) l /\
  key <$> kept (<[i := e']> l) = key <$> kept l.
Proof.
  intros Hl Hk Hs. rewrite <- (take_drop_middle l i e) at 2 4 by done. rewrite insert_take_drop by (by eapply lookup_lt_Some).
  unfold kept. rewrite !filter_app, !filter_cons, !fmap_app. split; f_equal; repeat case_decide; cbn [fmap list_fmap]; rewrite ?Hk; tauto.
Qed.

(** What a call does to the keys of the seeds and of the discovered endpoints, when it names no discovered endpoint as a seed and there is room. *)
Definition keys_step (pc pc' : PeerCache) (c : call) : Prop :=
  seed_keys pc' = seed_keys pc ++ new_seeds (seed_keys pc) [c] /\
  (key <$> kept (peers pc')) ⊆ (key <$> kept (peers pc)) ++ named_discovered [c] /\
  (length (peers pc') <= length (peers pc) + additions [c])%nat.

Lemma keys_same pc c : new_seeds (seed_keys pc) [c] = [] -> keys_step pc pc c.
Proof. intros E. unfold keys_step. rewrite E, app_nil_r. split_and!; [done|set_solver|lia]. Qed.

Lemma keys_insert pc c i e e' rpcs :
  new_seeds (seed_keys pc) [c] = [] -> peers pc !! i = Some e -> key e' = key e -> (is_seed e' = 0 <-> is_seed e = 0) ->
  keys_step pc (mk_peer_cache (<[i := e']> (peers pc)) rpcs (save pc)) c.
Proof.
  intros E Hl Hk Hs. destruct (insert_keys (peers pc) i e e' Hl Hk Hs) as [E1 E2]. unfold keys_step, seed_keys in *. cbn [peers].
  rewrite E, E1, E2, app_nil_r, length_insert. split_and!; [done|set_solver|lia].
Qed.

Lemma seed_keys_elem n pc i e : cache_ok n pc -> peers pc !! i = Some e -> (key e ∈ seed_keys pc <-> is_seed e <> 0) /\ (key e ∈ key <$> kept (peers pc) <-> is_seed e = 0).
Proof.
  intros H Hl. assert (forall e', e' ∈ peers pc -> key e' = key e -> e' = e) as Huniq.
  { intros e' [j Hj]%list_elem_of_lookup_1 Hk. pose proof (NoDup_lookup _ j i (key e) (ok_distinct _ _ H)) as Hji.
    rewrite !list_lookup_fmap, Hj, Hl in Hji. cbn in Hji. rewrite Hk in Hji. rewrite Hji in Hj by done. congruence. }
  apply list_elem_of_lookup_2 in Hl as Hin. unfold seed_keys, kept. rewrite !list_elem_of_fmap. split; split.
  - intros (e' & Hk & [Hs He']%list_elem_of_filter). by rewrite <- (Huniq e' He' (eq_sym Hk)).
  - intros Hs. exists e. split; [done|]. by apply list_elem_of_filter.
  - intros (e' & Hk & [Hs He']%list_elem_of_filter). by rewrite <- (Huniq e' He' (eq_sym Hk)).
  - intros Hs. exists e. split; [done|]. by apply list_elem_of_filter.
Qed.

Lemma take_host (h : list ascii) : (length h <= 127)%nat -> take (HOST_SIZE - 1) h = h.
Proof. intros Hh. apply take_ge. unfold HOST_SIZE. lia. Qed.

Lemma call_keys n pc c pc' t :
  cache_ok n pc -> n + 1 < 2 ^ 31 -> call_ok c -> (length (peers pc) + additions [c] <= MAX_PEERS)%nat ->
  (forall k, k ∈ named_seeds [c] -> k ∉ key <$> kept (peers pc)) -> do_call pc c = Some (pc', t) -> keys_step pc pc' c.
Proof.
  intros H Hn Hok Hroom Hfresh Hdo. destruct c as [h p ssl|h p|now h p lat|now h p|]; cbn [do_call] in Hdo.
  - injection Hdo as <- <-. destruct Hok as [Hh _]. unfold peer_cache_add_seed. destruct (bool_decide (h = []) || (p <=? 0)) eqn:Ebad.
    { apply keys_same. cbn [new_seeds]. by rewrite Ebad. }
    destruct (find_idx (peers pc) h p) as [i|] eqn:E.
    + apply find_idx_some in E as (e & Hl & Hk). destruct (seed_keys_elem n pc i e H Hl) as [Hs Hd].
      assert (is_seed e <> 0) as Hse by (intros E0; apply (Hfresh (h, p)); [by left|]; rewrite <- Hk; by apply Hd).
      rewrite (alter_insert _ _ _ e Hl). apply (keys_insert pc _ i e); [|done|done|cbn; lia]. cbn [new_seeds].
      rewrite (bool_decide_true ((h, p) ∈ _)) by (rewrite <- Hk; by apply Hs). by rewrite orb_true_r.
    + assert ((h, p) ∉ seed_keys pc) as Hnew.
      { intros (e & Hk & [_ Hin]%list_elem_of_filter)%list_elem_of_fmap. apply (find_idx_none _ _ _ E). rewrite Hk. by apply list_elem_of_fmap_2. }
      destruct (Nat.ltb_spec (length (peers pc)) MAX_PEERS); [|cbn in Hroom; lia]. apply orb_false_iff in Ebad as [Eh%bool_decide_eq_false Ep].
      destruct Hh as [|(_ & Hlen & _)]; [done|]. unfold keys_step, seed_keys, kept. cbn [with_peers peers new_seeds].
      rewrite bool_decide_false, Ep, (bool_decide_false ((h, p) ∈ _)) by done. cbn [orb].
      rewrite !filter_app, !filter_cons, !fmap_app, length_app. cbn [is_seed new_entry]. rewrite decide_True, decide_False by lia.
      cbn [fmap list_fmap filter list_filter]. unfold key at 2. cbn [host port new_entry]. rewrite take_host by done. rewrite app_nil_r.
      split_and!; [done|set_solver|cbn; lia].
  - destruct Hok as [Hh _]. unfold peer_cache_add_discovered in Hdo. destruct (bool_decide (h = []) || (p <=? 0)) eqn:Ebad.
    { injection Hdo as <- <-. by apply keys_same. }
    destruct (find_idx (peers pc) h p) as [i|] eqn:E; [injection Hdo as <- <-; by apply keys_same|].
    destruct (Nat.ltb_spec (length (peers pc)) MAX_PEERS); [|injection Hdo as <- <-; by apply keys_same].
    destruct (persist_unlocked _); [|done]. cbn [mbind option_bind] in Hdo. injection Hdo as <- <-.
    apply orb_false_iff in Ebad as [Eh%bool_decide_eq_false _]. destruct Hh as [|(_ & Hlen & _)]; [done|].
    unfold keys_step, seed_keys, kept. cbn [with_peers peers new_seeds]. rewrite !filter_app, !filter_cons, !fmap_app, length_app. cbn [is_seed new_entry].
    rewrite decide_False, decide_True by lia. cbn [fmap list_fmap filter list_filter]. unfold key at 4. cbn [host port new_entry]. rewrite take_host by done.
    split_and!; [done|done|cbn; lia].
  - unfold peer_cache_mark_success in Hdo. destruct (find_idx (peers pc) h p) as [i|]; [|injection Hdo as <- <-; by apply keys_same].
    destruct (peers pc !! i) as [e|] eqn:Hl; [|done]. cbn [mbind option_bind] in Hdo. destruct (if avg_latency_ms e =? 0 then _ else _) as [avg|]; [|done].
    cbn [mbind option_bind] in Hdo. destruct (int_sum _) as [rpcs|]; [|done]. cbn [mbind option_bind] in Hdo. destruct (persist_unlocked _); [|done].
    injection Hdo as <- <-. by apply (keys_insert pc _ i e).
  - destruct (find_idx (peers pc) h p) as [i|] eqn:E; [|unfold peer_cache_mark_failure in Hdo; rewrite E in Hdo; injection Hdo as <- <-; by apply keys_same].
    pose proof (find_idx_some _ _ _ _ E) as (e & Hl & _). destruct (entry_ok n pc i e H Hl) as [(_ & _ & _ & _ & Hlast & Hf & _) Hfn].
    rewrite (mark_failure_exact now pc h p i e E Hl) in Hdo by lia. cbv zeta in Hdo. destruct (persist_unlocked _); [|done]. injection Hdo as <- <-.
    destruct (dropped now (failed e)) eqn:Ed; [|by apply (keys_insert pc _ i e)]. apply andb_true_iff in Ed as [Es%Z.eqb_eq _]. cbn in Es.
    unfold keys_step, seed_keys. cbn [with_peers peers new_seeds]. rewrite app_nil_r. split_and!.
    + rewrite <- (take_drop_middle (peers pc) i e) at 2 by done. rewrite delete_take_drop, !filter_app, filter_cons, decide_False by lia. done.
    + rewrite app_nil_r. intros k (e' & -> & [Hs' He']%list_elem_of_filter)%list_elem_of_fmap. apply list_elem_of_fmap_2, list_elem_of_filter. split; [done|].
      by apply list_elem_of_delete_inv in He'.
    + rewrite length_delete by (by eexists). lia.
  - injection Hdo as <- <-. exact (keys_same pc ResetDiscovery eq_refl).
Qed.

Lemma new_seeds_cons known c cs : new_seeds known (c :: cs) = new_seeds known [c] ++ new_seeds (known ++ new_seeds known [c]) cs.
Proof. destruct c; cbn [new_seeds]; try (by rewrite app_nil_r). case_match; [by rewrite app_nil_r|done]. Qed.

Lemma calls_keys cs : forall n pc,
  cache_ok n pc -> n + Z.of_nat (length cs) < 2 ^ 31 -> Forall call_ok cs -> (length (peers pc) + additions cs <= MAX_PEERS)%nat ->
  (forall k, k ∈ named_seeds cs -> (k ∉ key <$> kept (peers pc)) /\ k ∉ named_discovered cs) ->
  exists pc', do_calls pc cs = Some pc' /\ cache_ok (n + Z.of_nat (length cs)) pc' /\ seed_keys pc' = seed_keys pc ++ new_seeds (seed_keys pc) cs.
Proof.
  induction cs as [|c cs IH]; intros n pc H Hn Hall Hroom Hfresh; cbn [do_calls length] in *.
  { exists pc. split; [done|]. split; [by eapply cache_ok_mono; [|exact H]; lia|by rewrite app_nil_r]. }
  apply Forall_cons in Hall as [Hc Hall]. destruct (call_step n pc c H ltac:(lia) Hc) as (pc1 & t & Hdo & H1 & _).
  assert (forall l, named_seeds (c :: l) = named_seeds [c] ++ named_seeds l /\ named_discovered (c :: l) = named_discovered [c] ++ named_discovered l) as Hsplit.
  { intros l. unfold named_seeds, named_discovered. change (c :: l) with ([c] ++ l). by rewrite !omap_app. }
  destruct (Hsplit cs) as [Es Ed]. unfold additions in *. rewrite Es, Ed in *. rewrite !length_app in Hroom.
  destruct (call_keys n pc c pc1 t H ltac:(lia) Hc) as (K1 & K2 & K3); [unfold additions; lia| |done|].
  { intros k Hk. apply Hfresh. set_solver. }
  unfold additions in K3. rewrite Hdo. cbn [mbind option_bind]. destruct (IH (n + 1) pc1 H1 ltac:(lia) Hall) as (pc2 & E2 & H2 & K4); [lia| |].
  { intros k Hk. destruct (Hfresh k ltac:(set_solver)) as [F1 F2]. split; [|set_solver]. intros Hin%K2. set_solver. }
  exists pc2. split; [done|]. split; [by eapply cache_ok_mono; [|exact H2]; lia|]. rewrite K4, K1, (new_seeds_cons _ c cs). by rewrite app_assoc.
Qed.

Lemma snapshot_order qsort n pc cap :
  Sorts qsort -> cache_ok n pc ->
  exists disc, peer_cache_snapshot qsort pc cap = Some (take cap (filter (fun e => is_seed e <> 0) (peers pc) ++ disc)) /\
    disc ≡ₚ kept (peers pc) /\ StronglySorted sooner disc.
Proof.
  intros Hq H. destruct (Hq score_cmp (kept (peers pc))) as (disc & Heq & Hperm & Hsort); [apply score_cmp_orders, H|].
  exists disc. unfold peer_cache_snapshot. fold (kept (peers pc)). rewrite Heq. cbn [mbind option_bind]. split_and!; [|done|].
  - f_equal. rewrite take_app, length_take. f_equal. f_equal. lia.
  - assert (Forall (fun a => peer_ok a /\ is_seed a = 0) disc) as Hall.
    { rewrite Hperm. apply Forall_forall. intros a Ha. apply list_elem_of_filter in Ha as [Hs Ha].
      split; [by apply (proj1 (Forall_forall _ _) (ok_peers _ _ H))|done]. }
    clear Heq Hperm. induction Hsort as [|a l Hl IH Ha]; [constructor|]. apply Forall_cons in Hall as [[Ha1 Ha2] Hall].
    constructor; [by apply IH|]. apply Forall_forall. intros b Hb. destruct (proj1 (Forall_forall _ _) Hall b Hb).
    apply score_cmp_le; [done..|]. by apply (proj1 (Forall_forall _ _) Ha).
Qed.

(** ** Theorems *)

(** C19: On a sound cache any sequence of calls, fewer than 2^31, with sound arguments returns.  Sound arguments are hosts of at most 127
    plain characters (no quotes, backslashes, closing brackets or braces, and no name of a field), ports below 65536, times before
    2286 and latencies up to 214748364 ms ([call_ok]; [cache_ok] asks the same of the entries).  No entry is written past the 64 of the array, no character past the
    16384 of the buffer, and no counter or average overflows its int.  Afterwards there are at
    most 64 endpoints, no host and port is there twice, and every seed is still there, in the same order, whatever failed. *)
Theorem calls_keep_cache n pc cs :
  cache_ok n pc -> n + Z.of_nat (length cs) < 2 ^ 31 -> Forall call_ok cs ->
  exists pc', do_calls pc cs = Some pc' /\ (length (peers pc') <= MAX_PEERS)%nat /\ NoDup (key <$> peers pc') /\
    cache_ok (n + Z.of_nat (length cs)) pc' /\ seed_keys pc `sublist_of` seed_keys pc'.
Proof.
  intros H Hn Hall. destruct (calls_step cs n pc H Hn Hall) as (pc' & Heq & Hok & Hs). exists pc'. split_and!; (done || apply Hok).
Qed.

Definition demo_calls : list call :=
  [AddSeed (chars "glaciem.example") 443 1; AddDiscovered (chars "10.0.0.7") 18081; AddDiscovered (chars "10.0.0.8") 18081;
   MarkSuccess 1700000000 (chars "10.0.0.8") 18081 120; MarkFailure 1700000060 (chars "10.0.0.7") 18081; ResetDiscovery].

Lemma calls_keep_cache_witness :
  exists pc', do_calls (empty_cache true) demo_calls = Some pc' /\ (length (peers pc') <= MAX_PEERS)%nat /\ NoDup (key <$> peers pc') /\
    cache_ok (0 + Z.of_nat (length demo_calls)) pc' /\ seed_keys (empty_cache true) `sublist_of` seed_keys pc'.
Proof.
  apply (calls_keep_cache 0 (empty_cache true) demo_calls); [apply empty_ok|done|].
  repeat (apply Forall_cons; split; [cbn; unfold MAX_LATENCY; repeat split; (lia || (right; apply (bool_decide_unpack _); vm_compute; exact I))|]).
  by apply Forall_nil.
Defined.

(** C20: For hosts of at most 127 plain characters and the other bounds of [cache_ok] and [call_ok], the text a call saves is read back when
    the app starts again: [peer_cache_new] with it gives every discovered endpoint of the cache,
    with its counters, in the same order, and none of the seeds, which the app adds again; the new cache is sound. *)
Theorem saved_peers_reload n pc c pc' t :
  cache_ok n pc -> n + 1 < 2 ^ 31 -> call_ok c -> do_call pc c = Some (pc', Some t) ->
  peer_cache_new (Some t) true = Some (mk_peer_cache (kept (peers pc')) 0 true) /\
  cache_ok (n + 1) (mk_peer_cache (kept (peers pc')) 0 true).
Proof.
  intros H Hn Hc Heq. destruct (call_step n pc c H Hn Hc) as (pc1 & t1 & Heq1 & Hok & _ & _ & Ht).
  rewrite Heq in Heq1. injection Heq1 as <- <-. destruct Ht as [Ht|Ht]; [done|]. injection Ht as ->.
  pose proof (ok_rpcs _ _ Hok) as Hr. destruct Hok as [H1 H2 H3 _ H5]. unfold peer_cache_new. rewrite deserialize_text by done. split; [done|].
  assert (kept (peers pc') `sublist_of` peers pc') as Hsub by apply sublist_filter. split; cbn [peers rpc_since_discovery].
  - pose proof (sublist_length _ _ Hsub). lia.
  - by apply kept_forall.
  - eapply sublist_NoDup; [done|]. by apply fmap_sublist.
  - lia.
  - by apply kept_forall.
Qed.

Lemma saved_peers_reload_witness :
  exists pc' t, do_call (empty_cache true) (AddDiscovered (chars "10.0.0.7") 18081) = Some (pc', Some t) /\
    peer_cache_new (Some t) true = Some (mk_peer_cache (kept (peers pc')) 0 true) /\
    cache_ok (0 + 1) (mk_peer_cache (kept (peers pc')) 0 true).
Proof.
  eexists _, _. split; [vm_compute; reflexivity|].
  eapply (saved_peers_reload 0 (empty_cache true) (AddDiscovered (chars "10.0.0.7") 18081)); [apply empty_ok|done| |vm_compute; reflexivity].
  split; [right; apply (bool_decide_unpack _); vm_compute; exact I|lia].
Defined.

(** C32: The endpoints are tried seeds first, in the order in which they were added, and then the discovered ones, those with fewer failures
    first, then those reached last, then the faster, for any sort of the C library; [out] gets the start of that list.  This is for seeds that were
    not discovered endpoints before: the calls [cs] name no endpoint as a seed that they also name as discovered or that was in the
    cache as discovered, and add no more than there is room for (calls as in [call_ok]).  Calls that add a seed again do not move it. *)
Theorem attempt_order qsort n pc cs cap :
  Sorts qsort -> cache_ok n pc -> n + Z.of_nat (length cs) < 2 ^ 31 -> Forall call_ok cs -> (length (peers pc) + additions cs <= MAX_PEERS)%nat ->
  (forall k, k ∈ named_seeds cs -> (k ∉ key <$> kept (peers pc)) /\ k ∉ named_discovered cs) ->
  exists pc' seeds disc, do_calls pc cs = Some pc' /\ peer_cache_snapshot qsort pc' cap = Some (take cap (seeds ++ disc)) /\
    key <$> seeds = seed_keys pc ++ new_seeds (seed_keys pc) cs /\ seeds ++ disc ≡ₚ peers pc' /\
    disc ≡ₚ kept (peers pc') /\ StronglySorted sooner disc.
Proof.
  intros Hq H Hn Hall Hroom Hfresh. destruct (calls_keys cs n pc H Hn Hall Hroom Hfresh) as (pc' & Hdo & H' & Hk).
  destruct (snapshot_order qsort _ pc' cap Hq H') as (disc & Hs & Hp & Hsort). exists pc', (filter (fun e => is_seed e <> 0) (peers pc')), disc.
  split_and!; [done|done|done| |done|done]. rewrite Hp. unfold kept. clear.
  induction (peers pc') as [|e l IH]; [done|]. rewrite !filter_cons. repeat case_decide; try tauto; [cbn [app]; by rewrite IH|].
  rewrite <- Permutation_middle. by rewrite IH.
Qed.

(** A seed that failed, and three discovered endpoints. *)
Definition demo_cache : PeerCache :=
  mk_peer_cache [mk_peer (chars "10.0.0.7") 18081 0 0 1700000000 2 90; mk_peer (chars "glaciem.example") 443 1 1 0 7 0;
                 mk_peer (chars "10.0.0.8") 18081 0 0 1700000000 0 80; mk_peer (chars "10.0.0.9") 18081 0 0 1700000000 0 40] 3 true.

Lemma demo_cache_ok : cache_ok 7 demo_cache.
Proof.
  split; [vm_compute; lia| |apply (bool_decide_unpack _); vm_compute; exact I|cbn; lia|apply (bool_decide_unpack _); vm_compute; exact I].
  apply (bool_decide_unpack _). vm_compute. exact I.
Qed.

(** Two more seeds, one of them twice, and a discovered endpoint in between. *)
Definition seed_calls : list call :=
  [AddSeed (chars "second.example") 443 1; AddDiscovered (chars "10.0.0.9") 18081; AddSeed (chars "third.example") 443 1;
   MarkFailure 1700000060 (chars "third.example") 443; AddSeed (chars "second.example") 443 1].

Lemma attempt_order_witness :
  exists pc' seeds disc, do_calls demo_cache seed_calls = Some pc' /\ peer_cache_snapshot insertion_sort pc' 64 = Some (take 64 (seeds ++ disc)) /\
    key <$> seeds = seed_keys demo_cache ++ [(chars "second.example", 443); (chars "third.example", 443)] /\ StronglySorted sooner disc.
Proof.
  destruct (attempt_order insertion_sort 7 demo_cache seed_calls 64) as (pc' & seeds & disc & H1 & H2 & H3 & _ & _ & H4).
  - apply _.
  - apply demo_cache_ok.
  - cbn. lia.
  - repeat (apply Forall_cons; split; [cbn; unfold MAX_LATENCY; repeat split; (lia || (right; apply (bool_decide_unpack _); vm_compute; exact I))|]). by apply Forall_nil.
  - vm_compute. lia.
  - intros k Hk. assert (Forall (fun k => (k ∉ key <$> kept (peers demo_cache)) /\ k ∉ named_discovered seed_calls) (named_seeds seed_calls)) as Hall.
    { apply (bool_decide_unpack _). vm_compute. exact I. }
    by apply (proj1 (Forall_forall _ _) Hall).
  - exists pc', seeds, disc. split; [exact H1|]. split; [exact H2|]. split; [rewrite H3; vm_compute; reflexivity|exact H4].
Defined.

(** A discovered endpoint that was reached within a week, or never, survives four failures in a row and is dropped at the fifth: the
    calls count its failures and change nothing else of the cache, and the fifth removes it. *)
Theorem fifth_failure_drops now h p n pc i e (k : nat) :
  cache_ok n pc -> n + 5 < 2 ^ 31 -> find_idx (peers pc) h p = Some i -> peers pc !! i = Some e -> is_seed e = 0 -> consec_failures e = 0 ->
  last_ok e = 0 \/ to_int now - last_ok e <= STALE_LAST_OK_SECONDS -> (k <= 5)%nat ->
  do_calls pc (replicate k (MarkFailure now h p)) =
    Some (with_peers pc (if (k <? 5)%nat then <[i := with_failures e (Z.of_nat k)]> (peers pc) else delete i (peers pc))).
Proof.
  intros H Hn Hfind Hl Hs Hf Hfresh Hk. rewrite (failures_counted now h p k n pc i e) by (done || lia). rewrite Hf, Z.add_0_l.
  replace (Z.of_nat k <? 5) with (k <? 5)%nat; [done|]. apply eq_true_iff_eq. rewrite Nat.ltb_lt, Z.ltb_lt. lia.
Qed.

Lemma fifth_failure_drops_witness :
  do_calls demo_cache (replicate 5 (MarkFailure 1700000060 (chars "10.0.0.8") 18081)) =
    Some (with_peers demo_cache (delete 2%nat (peers demo_cache))).
Proof.
  apply (fifth_failure_drops 1700000060 (chars "10.0.0.8") 18081 7 demo_cache 2 (mk_peer (chars "10.0.0.8") 18081 0 0 1700000000 0 80) 5);
    [apply demo_cache_ok|done|vm_compute; reflexivity|reflexivity..|right; vm_compute; discriminate|lia].
Defined.

(** The text that is saved is ended by its zero exactly when the whole text is shorter than the buffer: [persist_unlocked] then gives
    all of it to the callback; otherwise the buffer is full to its last character, none of them written outside of it, and the callback is
    given a string without an end. *)
Theorem saved_text_ended pc :
  save pc = true ->
  ((text_size (peers pc) < BUF_SIZE)%nat -> exists t, persist_unlocked pc = Some (Some t) /\ length t = text_size (peers pc)) /\
  ((BUF_SIZE <= text_size (peers pc))%nat ->
   persist_unlocked pc = None /\ exists t, serialize (peers pc) BUF_SIZE = Some (t, false) /\ length t = BUF_SIZE).
Proof.
  intros Hs. unfold persist_unlocked. rewrite Hs. destruct (serialize_size (peers pc) BUF_SIZE) as (t & -> & Ht); [unfold BUF_SIZE; lia|].
  cbn [mbind option_bind]. split; intros H.
  - rewrite (proj2 (Nat.ltb_lt _ _)) by done. exists t. split; [done|lia].
  - rewrite (proj2 (Nat.ltb_ge _ _)) by done. split; [done|]. exists t. split; [done|lia].
Qed.

(** Fifty endpoints whose hosts are made of quotes, which take two characters each. *)
Definition quote_peers : list PeerEntry := map (fun i => new_entry (replicate 127 quote) (18000 + Z.of_nat i) 0 0) (seq 0 50).

Lemma saved_text_ended_witness :
  save demo_cache = true /\
  ((text_size (peers demo_cache) < BUF_SIZE)%nat ->
   exists t, persist_unlocked demo_cache = Some (Some t) /\ length t = text_size (peers demo_cache)) /\
  ((BUF_SIZE <= text_size (peers demo_cache))%nat ->
   persist_unlocked demo_cache = None /\ exists t, serialize (peers demo_cache) BUF_SIZE = Some (t, false) /\ length t = BUF_SIZE).
Proof. split; [reflexivity|]. apply (saved_text_ended demo_cache). reflexivity. Defined.

(** ** What the JSON does not keep *)

Lemma text_unended pc : save pc = true -> (BUF_SIZE <= text_size (peers pc))%nat -> persist_unlocked pc = None.
Proof.
  intros Hs H. unfold persist_unlocked. rewrite Hs. destruct (serialize_size (peers pc) BUF_SIZE) as (t & -> & Ht); [unfold BUF_SIZE; lia|].
  cbn [mbind option_bind]. by rewrite (proj2 (Nat.ltb_ge _ _)).
Qed.

(** The text of fifty hosts made of quotes fills the buffer: one more is saved as a string without an end. *)
Example escaped_hosts_unended : peer_cache_add_discovered (mk_peer_cache quote_peers 0 true) (replicate 127 quote) 1 = None.
Proof.
  assert (find_idx quote_peers (replicate 127 quote) 1 = None) as Hfind by (vm_compute; reflexivity).
  assert ((length quote_peers <? MAX_PEERS)%nat = true) as Hlen by (vm_compute; reflexivity).
  unfold peer_cache_add_discovered. cbn [peers]. rewrite bool_decide_false, Hfind, Hlen by done. cbn [orb Z.leb Z.compare].
  rewrite text_unended; [done|done|]. apply Nat.leb_le. vm_compute. reflexivity.
Qed.

(** An address in brackets ends the list for the scanner: neither it nor the endpoint after it is read back. *)
Example bracketed_host_lost :
  (t ← persist_unlocked (mk_peer_cache [new_entry (chars "[2001:db8::1]") 18081 0 0; new_entry (chars "10.0.0.7") 18081 0 0] 0 true);
   peer_cache_new t true) = Some (mk_peer_cache [] 0 true).
Proof. vm_compute. reflexivity. Qed.

(** Seeds are given in the order of the array, not of the calls that add them: one that was discovered before comes first. *)
Example promoted_seed_first :
  (pc ← do_calls (mk_peer_cache [new_entry (chars "10.0.0.7") 18081 0 0] 0 false) [AddSeed (chars "first") 443 1; AddSeed (chars "10.0.0.7") 18081 0];
   peer_cache_snapshot insertion_sort pc 2) = Some [mk_peer (chars "10.0.0.7") 18081 0 1 0 0 0; mk_peer (chars "first") 443 1 1 0 0 0].
Proof. vm_compute. reflexivity. Qed.
