(* ===== verification/NodeWords.v ===== *)
(** * NodeWords: the seed words of the node (src/mnemonics)

    [bytes_to_words] writes a secret key as words of a language, and [words_to_bytes] finds the language of a seed, checks its checksum word and
    restores the key.  Words are compared after [utf8canonical]; the tables of a language are indexed by it and keep the word they were
    filled with.  A string is the list of its bytes.  [None] is an exception, a division by zero or an access outside of an array;
    [Some None] is the return of false.  The conversion to lower case and the checksum are the C library's and Boost's: parameters.  The
    other languages are arguments, the English list is [WORDS_EN]. *)
From S2P Require Import Prelude JsCore Bytes Crc32 Wordlist Mnemonic.
Local Open Scope Z_scope.

Abbreviation text := (list ascii).

(** ** Characters (common/utf8.h, language_base.h, wipeable_string.cpp) *)

(** [std::isspace] in the C locale. *)
Definition isspace (c : ascii) : bool := (code c =? 32) || ((9 <=? code c) && (code c <=? 13)).

(** [space] is whether the last character was one; the last field is where characters go. *)
Fixpoint split_loop (s : text) (space : bool) (fields : list text) : list text :=
  match s with
  | [] => fields
  | c :: r =>
      if isspace c then split_loop r true fields
      else if space then split_loop r false (fields ++ [[c]])
      else split_loop r false (alter (fun f => f ++ [c]) (length fields - 1)%nat fields)
  end.
Definition split (s : text) : list text := split_loop s true [].

Definition is_cont (c : ascii) : bool := Z.land (code c) 0xc0 =? 0x80.

(** [while (avail && (( *ptr) & 0xc0) == 0x80)]: the bytes taken and the rest. *)
Fixpoint take_cont (s : text) : text * text :=
  match s with
  | c :: r => if is_cont c then let '(k, rest) := take_cont r in (c :: k, rest) else ([], s)
  | [] => ([], [])
  end.

Fixpoint utf8prefix (s : text) (count : nat) : text :=
  match count, s with
  | S n, c :: r => let '(k, rest) := take_cont r in c :: k ++ utf8prefix rest n
  | _, _ => []
  end.

Section Words.
Context (towlower : Z -> Z) (crc_32 : text -> Z).

(** The bytes of a code point. *)
Definition utf8_bytes (cp : Z) : option text :=
  if cp <=? 0x7f then Some [chr cp]
  else if cp <=? 0x7ff then Some [chr (Z.lor 0xc0 (Z.shiftr cp 6)); chr (Z.lor 0x80 (Z.land cp 0x3f))]
  else if cp <=? 0xffff then
    Some [chr (Z.lor 0xe0 (Z.shiftr cp 12)); chr (Z.lor 0x80 (Z.land (Z.shiftr cp 6) 0x3f)); chr (Z.lor 0x80 (Z.land cp 0x3f))]
  else if cp <=? 0x10ffff then
    Some [chr (Z.lor 0xf0 (Z.shiftr cp 18)); chr (Z.lor 0x80 (Z.land (Z.shiftr cp 12) 0x3f)); chr (Z.lor 0x80 (Z.land (Z.shiftr cp 6) 0x3f));
          chr (Z.lor 0x80 (Z.land cp 0x3f))]
  else None.

Fixpoint utf8canonical (s : text) : option text :=
  match s with
  | [] => Some []
  | a :: r =>
      if Z.land (code a) 0x80 =? 0 then
        w ← utf8_bytes (towlower (code a)); sc ← utf8canonical r; Some (w ++ sc)
      else if Z.land (code a) 0xe0 =? 0xc0 then
        match r with
        | b :: r =>
            w ← utf8_bytes (towlower (Z.lor (Z.shiftl (Z.land (code a) 0x1f) 6) (Z.land (code b) 0x3f)));
            sc ← utf8canonical r; Some (w ++ sc)
        | _ => None
        end
      else if Z.land (code a) 0xf0 =? 0xe0 then
        match r with
        | b :: c :: r =>
            w ← utf8_bytes (towlower (Z.lor (Z.lor (Z.shiftl (Z.land (code a) 0xf) 12) (Z.shiftl (Z.land (code b) 0x3f) 6)) (Z.land (code c) 0x3f)));
            sc ← utf8canonical r; Some (w ++ sc)
        | _ => None
        end
      else if Z.land (code a) 0xf8 =? 0xf0 then
        match r with
        | b :: c :: d :: r =>
            w ← utf8_bytes (towlower (Z.lor (Z.lor (Z.lor (Z.shiftl (Z.land (code a) 0x7) 18) (Z.shiftl (Z.land (code b) 0x3f) 12))
                                            (Z.shiftl (Z.land (code c) 0x3f) 6)) (Z.land (code d) 0x3f)));
            sc ← utf8canonical r; Some (w ++ sc)
        | _ => None
        end
      else None
  end.

Definition WordEqual (s0 s1 : text) : option bool :=
  s0c ← utf8canonical s0; s1c ← utf8canonical s1; Some (bool_decide (s0c = s1c)).

(** ** Languages (language_base.h) *)

(** A table of words: the word an entry was made with, and its index. *)
Abbreviation word_table := (gmap text (text * Z)).
Definition find_word (m : word_table) (w : text) : option (option (text * Z)) := k ← utf8canonical w; Some (m !! k).
(** [m[w] = i]: an entry that is there keeps its word. *)
Definition set_word (m : word_table) (w : text) (i : Z) : option word_table :=
  k ← utf8canonical w; Some (<[k := (match m !! k with Some (w0, _) => w0 | None => w end, i)]> m).

Record language : Type := mk_language {
  language_name : text;
  english_language_name : text;
  word_list : list text;
  unique_prefix_length : nat;
  word_map : word_table;
  trimmed_word_map : word_table
}.

Definition NWORDS : nat := 1626.

Definition trim_word (w : text) (len : nat) : text := if (len <? length w)%nat then utf8prefix w len else w.

Fixpoint populate_loop (short_ok dup_ok : bool) (len : nat) (ws : list text) (ii : Z) (wm tm : word_table) : option (word_table * word_table) :=
  match ws with
  | [] => Some (wm, tm)
  | w :: rest =>
      wm ← set_word wm w ii;
      if (length w <? len)%nat && negb short_ok then None
      else
        let trimmed := trim_word w len in
        found ← find_word tm trimmed;
        if bool_decide (is_Some found) && negb dup_ok then None
        else tm ← set_word tm trimmed ii; populate_loop short_ok dup_ok len rest (ii + 1) wm tm
  end.

(** [populate_maps]: the language with its tables. *)
Definition make_language (name english : text) (ws : list text) (len : nat) (short_ok dup_ok : bool) : option language :=
  if negb (length ws =? NWORDS)%nat then None
  else
    '(wm, tm) ← populate_loop short_ok dup_ok len ws 0 ∅ ∅;
    Some (mk_language name english ws len wm tm).

Definition English : option language := make_language (chars "English") (chars "English") (map chars WORDS_EN) 3 false false.

(** ** Finding the language (electrum-words.cpp) *)

Fixpoint trimmed_words (lang : language) (ws : list text) : option text :=
  match ws with
  | [] => Some []
  | w :: rest =>
      found ← find_word (trimmed_word_map lang) (utf8prefix w (unique_prefix_length lang));
      '(key, _) ← found;
      r ← trimmed_words lang rest;
      Some (key ++ r)
  end.

Definition create_checksum_index (ws : list text) (lang : language) : option Z :=
  t ← trimmed_words lang ws;
  if (length ws =? 0)%nat then None else Some (crc_32 t mod Z.of_nat (length ws)).

Definition checksum_test (seed : list text) (lang : language) : option bool :=
  match last seed with
  | None => Some false
  | Some last_word =>
      let seed := take (length seed - 1) seed in
      idx ← create_checksum_index seed lang;
      checksum ← seed !! Z.to_nat idx;
      WordEqual (trim_word checksum (unique_prefix_length lang)) (trim_word last_word (unique_prefix_length lang))
  end.

(** The indices of the words, or [Some None] when one is not in the language. *)
Fixpoint match_words (has_checksum : bool) (lang : language) (seed : list text) : option (option (list Z)) :=
  match seed with
  | [] => Some (Some [])
  | w :: rest =>
      found ← (if has_checksum then find_word (trimmed_word_map lang) (utf8prefix w (unique_prefix_length lang)) else find_word (word_map lang) w);
      match found with
      | None => Some None
      | Some (_, i) => r ← match_words has_checksum lang rest; Some (option_map (cons i) r)
      end
  end.

Fixpoint find_seed_language (language_instances : list language) (fallback : option language) (seed : list text) (has_checksum : bool)
  : option (option (list Z * language)) :=
  match language_instances with
  | [] => Some (match fallback with Some lang => Some ([], lang) | None => None end)
  | lang :: rest =>
      m ← match_words has_checksum lang seed;
      match m with
      | Some matched_indices =>
          ok ← (if has_checksum then checksum_test seed lang else Some true);
          if ok : bool then Some (Some (matched_indices, lang)) else find_seed_language rest (Some lang) seed has_checksum
      | None => find_seed_language rest fallback seed has_checksum
      end
  end.

(** ** Seeds to bytes *)

(** [for (unsigned int i=0; i < seed.size() / 3; i++)]. *)
Fixpoint triples_loop (rounds i : nat) (n : Z) (matched_indices : list Z) : option (option bytes) :=
  match rounds with
  | O => Some (Some [])
  | S k =>
      w1 ← matched_indices !! (i * 3)%nat;
      w2 ← matched_indices !! (i * 3 + 1)%nat;
      w3 ← matched_indices !! (i * 3 + 2)%nat;
      match Cpp.words_value n w1 w2 w3 with
      | None => Some None
      | Some w0 => r ← triples_loop k (S i) n matched_indices; Some (option_map (app (le32_bytes w0)) r)
      end
  end.

(** The bytes and the language's name. *)
Definition words_to_bytes (language_instances : list language) (words : text) (len : nat) (duplicate : bool) : option (option (bytes * text)) :=
  let seed := split words in
  if negb (len mod 4 =? 0)%nat then Some None
  else
    let expected := (len * 8 * 3 / 32)%nat in
    if negb (len =? 0)%nat && negb ((length seed =? expected / 2)%nat || (length seed =? expected)%nat || (length seed =? expected + 1)%nat)
    then Some None
    else
      let has_checksum := if (len =? 0)%nat then true else (length seed =? expected + 1)%nat in
      found ← find_seed_language language_instances None seed has_checksum;
      match found with
      | None => Some None
      | Some (matched_indices, lang) =>
          let word_list_length := Z.of_nat (length (word_list lang)) in
          ok ← (if has_checksum then checksum_test seed lang else Some true);
          if negb ok then Some None
          else
            let seed := if has_checksum then take (length seed - 1) seed else seed in
            r ← triples_loop (length seed / 3) 0 word_list_length matched_indices;
            match r with
            | None => Some None
            | Some dst =>
                let dst := if (0 <? len)%nat && duplicate && (length seed =? (len * 3 / 32) / 2)%nat then dst ++ dst else dst in
                Some (Some (dst, language_name lang))
            end
      end.

(** The overload for a secret key. *)
Definition words_to_key (language_instances : list language) (words : text) : option (option (bytes * text)) :=
  r ← words_to_bytes language_instances words 32 true;
  Some (match r with
        | Some (s, name) => if (length s =? 32)%nat then Some (s, name) else None
        | None => None
        end).

(** ** Bytes to seeds *)

(** [for (unsigned int i=0; i < len/4; i++, words.push_back(' '))]: the text and the words stored. *)
Fixpoint words_loop (rounds i : nat) (src : bytes) (word_list : list text) (words : text) (store : list text) : option (text * list text) :=
  match rounds with
  | O => Some (words, store)
  | S k =>
      let '(w1, w2, w3) := word_indices (Z.of_nat (length word_list)) (le32 src (i * 4)) in
      a ← word_list !! Z.to_nat w1;
      b ← word_list !! Z.to_nat w2;
      c ← word_list !! Z.to_nat w3;
      words_loop k (S i) src word_list (words ++ a ++ " "%char :: b ++ " "%char :: c ++ [" "%char]) (store ++ [a; b; c])
  end.

Definition named (name : text) (l : language) : bool := bool_decide (name = language_name l \/ name = english_language_name l).

Definition bytes_to_words (language_list : list language) (src : bytes) (name : text) : option (option text) :=
  let len := length src in
  if negb (len mod 4 =? 0)%nat || (len =? 0)%nat then Some None
  else
    match last (filter (fun l => named name l = true) language_list) with
    | None => Some None
    | Some lang =>
        '(words, store) ← words_loop (len / 4) 0 src (word_list lang) [] [];
        idx ← create_checksum_index store lang;
        w ← store !! Z.to_nat idx;
        Some (Some (words ++ w))
    end.

Definition get_is_old_style_seed (seed : text) : bool := negb (length (split seed) =? 25)%nat.
End Words.
