(* ===== verification/NodeWordsSafety.v ===== *)
(** * NodeWordsSafety: seeds of the browser wallet and of the node

    On the English words, which are lower-case letters with different first three, the node's tables are the dictionary; the node
    writes the same seed as wallet.js and restores its key from the text; and seeds of twelve words are never restored. *)
From S2P Require Import Prelude JsCore Bytes Crc32 Wordlist Mnemonic NodeWords.
Local Open Scope Z_scope.

(** The words of a seed with spaces between them. *)
Fixpoint unwords (ws : list string) : text :=
  match ws with
  | [] => []
  | [w] => chars w
  | w :: rest => chars w ++ " "%char :: unwords rest
  end.

Definition lower (c : ascii) : bool := (97 <=? code c) && (code c <=? 122).
Definition lower_word (w : text) : Prop := Forall (fun c => lower c = true) w /\ (3 < length w)%nat.

(** ** The English words *)

Lemma english_words : Forall (fun w => forallb lower (chars w) && (3 <? length (chars w))%nat = true) WORDS_EN.
Proof. apply Forall_forall. intros w Hw. apply list_elem_of_In in Hw. revert w Hw. apply forallb_forall. vm_compute. reflexivity. Qed.

Lemma english_word w : w ∈ WORDS_EN -> lower_word (chars w).
Proof.
  intros Hw. pose proof (proj1 (Forall_forall _ _) english_words w Hw) as H. cbn in H. apply andb_true_iff in H as [H1 H2].
  split; [|by apply Nat.ltb_lt]. apply Forall_forall. intros c Hc. apply (proj1 (forallb_forall _ _) H1). by apply list_elem_of_In.
Qed.

(** The list is in alphabetical order, so its first three letters, as a number, increase. *)
Fixpoint ascending (x : Z) (l : list Z) : bool :=
  match l with
  | [] => true
  | y :: r => (x <? y) && ascending y r
  end.

Lemma ascending_above l : forall x, ascending x l = true -> NoDup l /\ Forall (fun y => x < y) l.
Proof.
  induction l as [|y l IH]; intros x H; [by split; constructor|]. cbn in H. apply andb_true_iff in H as [Hxy H]. apply Z.ltb_lt in Hxy.
  destruct (IH y H) as [Hnd Hall]. split.
  - constructor; [|done]. intros Hin. pose proof (proj1 (Forall_forall _ _) Hall y Hin) as Hy. cbn in Hy. lia.
  - constructor; [done|]. eapply Forall_impl; [exact Hall|]. cbn. lia.
Qed.

Lemma english_prefixes : NoDup (map (fun w => take 3 (chars w)) WORDS_EN).
Proof.
  assert (ascending 0 (map (fun w => from_be 256 (map code (take 3 (chars w)))) WORDS_EN) = true) as H by (vm_compute; reflexivity).
  apply ascending_above in H as [H _]. apply (NoDup_fmap_1 (fun t => from_be 256 (map code t))).
  by rewrite <- list_fmap_compose.
Qed.

(** ** Characters *)

Lemma lower_plain c : lower c = true -> isspace c = false /\ is_cont c = false /\ (Z.land (code c) 0x80 =? 0) = true /\ code c <= 0x7f.
Proof.
  revert c. assert (forall c, (negb (lower c) ||
    (negb (isspace c) && negb (is_cont c) && (Z.land (code c) 0x80 =? 0) && (code c <=? 0x7f))) = true) as H by (apply ascii_forall; vm_compute; reflexivity).
  intros c Hc. specialize (H c). rewrite Hc in H. cbn [negb orb] in H. rewrite !andb_true_iff, !negb_true_iff in H.
  destruct H as [[[H1 H2] H3] H4]. apply Z.leb_le in H4. done.
Qed.

Lemma take_cont_lower w r : Forall (fun c => lower c = true) w -> w <> [] -> take_cont (w ++ r) = ([], w ++ r).
Proof. destruct 1 as [|c w Hc Hw]; [done|]. intros _. cbn [app take_cont]. by rewrite (proj1 (proj2 (lower_plain c Hc))). Qed.

Lemma utf8prefix_lower n : forall w, Forall (fun c => lower c = true) w -> utf8prefix w n = take n w.
Proof.
  induction n as [|n IH]; intros w Hw; [by destruct w|]. destruct Hw as [|c w Hc Hw]; [done|]. cbn [utf8prefix take].
  assert (take_cont w = ([], w)) as -> by (destruct Hw as [|d w Hd Hw]; [done|]; cbn [take_cont]; by rewrite (proj1 (proj2 (lower_plain d Hd)))).
  cbn [app]. f_equal. by apply IH.
Qed.

Lemma trim_word_lower w : lower_word w -> trim_word w 3 = take 3 w.
Proof. intros [H1 H2]. unfold trim_word. rewrite (proj2 (Nat.ltb_lt _ _)) by done. by apply utf8prefix_lower. Qed.

(** Fields of a text. *)
Lemma split_inside w : forall r x fields,
  Forall (fun c => lower c = true) w -> split_loop (w ++ r) false (fields ++ [x]) = split_loop r false (fields ++ [x ++ w]).
Proof.
  induction w as [|c w IH]; intros r x fields Hw; [by rewrite app_nil_r|]. apply Forall_cons in Hw as [Hc Hw].
  cbn [app split_loop]. rewrite (proj1 (lower_plain c Hc)). rewrite length_app. cbn [length].
  replace (length fields + 1 - 1)%nat with (length fields + 0)%nat by lia. rewrite alter_app_r. cbn [alter list_alter].
  rewrite IH by done. by rewrite <- app_assoc.
Qed.

Lemma split_word w r fields : Forall (fun c => lower c = true) w -> w <> [] -> split_loop (w ++ r) true fields = split_loop r false (fields ++ [w]).
Proof.
  destruct 1 as [|c w Hc Hw]; intros Hne; [done|]. cbn [app split_loop]. rewrite (proj1 (lower_plain c Hc)).
  by rewrite split_inside.
Qed.

Lemma split_unwords ws : forall fields,
  Forall (fun w => w ∈ WORDS_EN) ws -> split_loop (unwords ws) true fields = fields ++ map chars ws.
Proof.
  induction ws as [|w ws IH]; intros fields Hws; [by rewrite app_nil_r|]. apply Forall_cons in Hws as [Hw Hws].
  destruct (english_word w Hw) as [Hl Hlen]. assert (chars w <> []) as Hne by (intros E; rewrite E in Hlen; cbn in Hlen; lia).
  destruct ws as [|v ws].
  - cbn [unwords map]. rewrite <- (app_nil_r (chars w)) at 1. by rewrite split_word.
  - change (unwords (w :: v :: ws)) with (chars w ++ " "%char :: unwords (v :: ws)). rewrite split_word by done.
    change (split_loop (" "%char :: ?r) false ?f) with (split_loop r true f). cbn [split_loop]. rewrite IH by done. by rewrite <- app_assoc.
Qed.

Lemma unwords_snoc ws w : unwords (ws ++ [w]) = mjoin (map (fun v => chars v ++ [" "%char]) ws) ++ chars w.
Proof.
  induction ws as [|v ws IH]; [done|]. cbn [map]. rewrite mjoin_cons, <- !app_assoc, <- IH. by destruct ws.
Qed.

Section Node.
Context (towlower : Z -> Z) (towlower_lower : forall c, 97 <= c <= 122 -> towlower c = c).

Lemma canonical_lower w : Forall (fun c => lower c = true) w -> utf8canonical towlower w = Some w.
Proof.
  induction 1 as [|c w Hc Hw IH]; [done|]. cbn [utf8canonical]. destruct (lower_plain c Hc) as (_ & _ & -> & Hle).
  unfold lower in Hc. apply andb_true_iff in Hc as [H1 H2]. rewrite towlower_lower by lia.
  unfold utf8_bytes. rewrite (proj2 (Z.leb_le _ _)) by done. rewrite IH. cbn [mbind option_bind]. by rewrite chr_code.
Qed.

Lemma lower_take n w : Forall (fun c => lower c = true) w -> Forall (fun c => lower c = true) (take n w).
Proof. apply Forall_take. Qed.

(** ** The tables of the language *)

Lemma populate_lower ws : forall ii wm tm,
  Forall lower_word ws -> NoDup (map (take 3) ws) -> (forall w, w ∈ ws -> tm !! take 3 w = None) ->
  exists wm' tm', populate_loop towlower false false 3 ws ii wm tm = Some (wm', tm') /\
    (forall j w, ws !! j = Some w -> tm' !! take 3 w = Some (take 3 w, ii + Z.of_nat j)) /\
    (forall k, k ∉ map (take 3) ws -> tm' !! k = tm !! k).
Proof.
  induction ws as [|w ws IH]; intros ii wm tm Hws Hnd Hnone; cbn [populate_loop]; [by exists wm, tm|].
  apply Forall_cons in Hws as [Hw Hws]. pose proof Hw as [Hl Hlen]. cbn [map] in Hnd. apply NoDup_cons in Hnd as [Hnin Hnd].
  assert (exists wm1, set_word towlower wm w ii = Some wm1) as (wm1 & ->) by (unfold set_word; rewrite canonical_lower by done; by eexists).
  cbn [mbind option_bind]. rewrite (proj2 (Nat.ltb_ge _ _)) by lia. cbn [andb]. rewrite trim_word_lower by done.
  unfold find_word, set_word. rewrite !canonical_lower by (by apply lower_take). cbn [mbind option_bind].
  rewrite Hnone by set_solver. rewrite bool_decide_false by (by intros []). cbn [andb].
  destruct (IH (ii + 1) wm1 (<[take 3 w := (take 3 w, ii)]> tm)) as (wm' & tm' & Heq & Hin & Hout); [done|done| |].
  { intros v Hv. rewrite lookup_insert_ne; [apply Hnone; set_solver|]. intros E. apply Hnin. rewrite E. by apply (list_elem_of_fmap_2 (take 3)). }
  exists wm', tm'. split_and!; [done| |].
  - intros [|j] v Hv; cbn in Hv.
    + injection Hv as ->. rewrite Hout by done. rewrite lookup_insert_eq. do 2 f_equal. lia.
    + rewrite (Hin j v Hv). do 2 f_equal. lia.
  - intros k Hk. apply not_elem_of_cons in Hk as [Hk1 Hk2]. rewrite Hout by done. by apply lookup_insert_ne.
Qed.

(** What the node's English is. *)
Record is_english (L : language) : Prop := {
  en_name : language_name L = chars "English";
  en_words : word_list L = map chars WORDS_EN;
  en_prefix : unique_prefix_length L = 3%nat;
  en_trimmed : forall j w, WORDS_EN !! j = Some w -> trimmed_word_map L !! take 3 (chars w) = Some (take 3 (chars w), Z.of_nat j)
}.

Lemma english_made : exists L, English towlower = Some L /\ is_english L.
Proof.
  unfold English, make_language. rewrite length_map, length_WORDS_EN. change (1626 =? NWORDS)%nat with true. cbn [negb].
  destruct (populate_lower (map chars WORDS_EN) 0 ∅ ∅) as (wm & tm & -> & Hin & _).
  - apply Forall_map, Forall_forall. apply english_word.
  - rewrite map_map. apply english_prefixes.
  - intros w _. apply lookup_empty.
  - cbn [mbind option_bind]. eexists. split; [done|]. split; [done..|]. intros j w Hj. cbn [trimmed_word_map].
    rewrite (Hin j (chars w)); [done|]. change (map chars WORDS_EN) with (chars <$> WORDS_EN). by rewrite list_lookup_fmap, Hj.
Qed.

(** ** A seed of English words *)

Lemma english_find L k :
  is_english L -> 0 <= k < 1626 ->
  find_word towlower (trimmed_word_map L) (utf8prefix (chars (word_at WORDS_EN k)) (unique_prefix_length L)) =
    Some (Some (take 3 (chars (word_at WORDS_EN k)), k)).
Proof.
  intros HL Hk. assert (WORDS_EN !! Z.to_nat k = Some (word_at WORDS_EN k)) as Hj.
  { unfold word_at. rewrite nth_lookup. destruct (lookup_lt_is_Some_2 WORDS_EN (Z.to_nat k)) as [w Hw]; [rewrite length_WORDS_EN; lia|]. by rewrite Hw. }
  destruct (english_word (word_at WORDS_EN k)) as [Hl _]; [by eapply list_elem_of_lookup_2|].
  rewrite (en_prefix _ HL), utf8prefix_lower by done. unfold find_word. rewrite canonical_lower by (by apply lower_take).
  cbn [mbind option_bind]. rewrite (en_trimmed _ HL _ _ Hj). do 3 f_equal. lia.
Qed.

Definition in_range (k : Z) : Prop := 0 <= k < 1626.
Definition words_of (ks : list Z) : list string := map (word_at WORDS_EN) ks.

Lemma words_of_in ks : Forall in_range ks -> Forall (fun w => w ∈ WORDS_EN) (words_of ks).
Proof.
  intros H. apply Forall_map. eapply Forall_impl; [exact H|]. intros k Hk. apply list_elem_of_In, nth_In. rewrite length_WORDS_EN. unfold in_range in Hk. lia.
Qed.

Lemma words_of_lookup ks i k : ks !! i = Some k -> words_of ks !! i = Some (word_at WORDS_EN k).
Proof. intros H. change (words_of ks) with (word_at WORDS_EN <$> ks). by rewrite list_lookup_fmap, H. Qed.

Lemma english_match L ks : is_english L -> Forall in_range ks -> match_words towlower true L (map chars (words_of ks)) = Some (Some ks).
Proof.
  intros HL. induction 1 as [|k ks Hk Hks IH]; [done|]. cbn [words_of map match_words]. rewrite english_find by done. cbn [mbind option_bind].
  fold (words_of ks). by rewrite IH.
Qed.

Lemma english_trimmed L ks :
  is_english L -> Forall in_range ks -> trimmed_words towlower L (map chars (words_of ks)) = Some (mjoin (map (fun w => take 3 (chars w)) (words_of ks))).
Proof.
  intros HL. induction 1 as [|k ks Hk Hks IH]; [done|]. cbn [words_of map trimmed_words]. rewrite english_find by done. cbn [mbind option_bind].
  fold (words_of ks). rewrite IH. cbn [mbind option_bind]. by rewrite mjoin_cons.
Qed.

Context (crc_32 : text -> Z) (crc_32_crc : forall t, crc_32 t = crc32_ref (map code t)).

Lemma english_checksum L ks :
  is_english L -> Forall in_range ks -> ks <> [] ->
  create_checksum_index towlower crc_32 (map chars (words_of ks)) L = Some (checksum_index (words_of ks) PREFIX_LEN_EN).
Proof.
  intros HL Hks Hne. unfold create_checksum_index. rewrite english_trimmed by done. cbn [mbind option_bind]. rewrite length_map.
  destruct (Nat.eqb_spec (length (words_of ks)) 0) as [E|]; [unfold words_of in E; rewrite length_map in E; by destruct ks|].
  unfold checksum_index. rewrite crc_32_crc, crc32String_correct, chars_of_chars. do 5 f_equal.
  apply map_ext. intros w. unfold slice_to. by rewrite chars_of_chars.
Qed.

(** A word of the seed is its own checksum word. *)
Lemma english_checksum_test L ks c :
  is_english L -> Forall in_range ks -> ks <> [] -> words_of ks !! Z.to_nat (checksum_index (words_of ks) PREFIX_LEN_EN) = Some c ->
  checksum_test towlower crc_32 (map chars (words_of ks ++ [c])) L = Some true.
Proof.
  intros HL Hks Hne Hc. unfold checksum_test. rewrite map_app. cbn [map]. rewrite last_snoc, length_app. cbn [length].
  replace (length (map chars (words_of ks)) + 1 - 1)%nat with (length (map chars (words_of ks))) by lia.
  rewrite take_app_length, english_checksum by done. cbn [mbind option_bind].
  change (map chars (words_of ks)) with (chars <$> words_of ks). rewrite list_lookup_fmap, Hc. cbn [fmap option_fmap option_map mbind option_bind].
  destruct (english_word c) as [Hl Hlen].
  { apply (proj1 (Forall_forall _ _) (words_of_in ks Hks)). by eapply list_elem_of_lookup_2. }
  rewrite (en_prefix _ HL), trim_word_lower by done. unfold WordEqual. rewrite canonical_lower by (by apply lower_take).
  cbn [mbind option_bind]. by rewrite bool_decide_true.
Qed.

(** ** Writing and restoring *)

Definition indices (x : Z) : list Z := let '(w1, w2, w3) := word_indices 1626 x in [w1; w2; w3].

Lemma indices_ok x : 0 <= x < 2 ^ 32 -> Forall in_range (indices x) /\ triple WORDS_EN x = words_of (indices x) /\ length (indices x) = 3%nat.
Proof.
  intros Hx. pose proof (indices_roundtrip 1626 x ltac:(lia) ltac:(lia)) as H. unfold indices, triple. rewrite length_WORDS_EN.
  change (Z.of_nat 1626) with 1626. destruct (word_indices 1626 x) as [[w1 w2] w3]. destruct H as (_ & H1 & H2 & H3).
  split_and!; [repeat constructor; unfold in_range; lia|done|done].
Qed.

Lemma all_indices_ok xs :
  Forall (fun x => 0 <= x < 2 ^ 32) xs ->
  Forall in_range (mjoin (map indices xs)) /\ mjoin (map (triple WORDS_EN) xs) = words_of (mjoin (map indices xs)) /\
  length (mjoin (map indices xs)) = (3 * length xs)%nat.
Proof.
  induction 1 as [|x xs Hx Hxs (IH1 & IH2 & IH3)]; [done|]. destruct (indices_ok x Hx) as (H1 & H2 & H3).
  cbn [map]. rewrite !mjoin_cons, H2, IH2, length_app, H3, IH3. unfold words_of. rewrite map_app.
  split_and!; [by apply Forall_app|done|cbn [length]; lia].
Qed.

Lemma triples_loop_indices xs : forall i pre more,
  length pre = (i * 3)%nat -> Forall (fun x => 0 <= x < 2 ^ 32) xs ->
  triples_loop (length xs) i 1626 (pre ++ mjoin (map indices xs) ++ more) = Some (Some (mjoin (map le32_bytes xs))).
Proof.
  induction xs as [|x xs IH]; intros i pre more Hpre Hxs; [done|]. apply Forall_cons in Hxs as [Hx Hxs].
  pose proof (indices_roundtrip 1626 x ltac:(lia) ltac:(lia)) as Hr. cbn [length triples_loop map]. rewrite !mjoin_cons.
  destruct (word_indices 1626 x) as [[w1 w2] w3] eqn:E. destruct Hr as (Hv & H1 & H2 & H3).
  assert (indices x = [w1; w2; w3]) as -> by (unfold indices; by rewrite E). cbn [app].
  rewrite !lookup_app_r by lia. rewrite Hpre.
  replace (i * 3 - i * 3)%nat with 0%nat by lia. replace (i * 3 + 1 - i * 3)%nat with 1%nat by lia. replace (i * 3 + 2 - i * 3)%nat with 2%nat by lia.
  cbn [lookup list_lookup mbind option_bind]. rewrite node_words_value by done. cbv zeta. rewrite Hv, (proj2 (Z.ltb_lt x _)) by lia.
  pose proof (IH (S i) (pre ++ [w1; w2; w3]) more) as IH'. rewrite <- app_assoc in IH'. cbn [app] in IH'.
  rewrite IH' by (done || rewrite length_app; cbn [length]; lia). done.
Qed.

Lemma mjoin_app {A} (l k : list (list A)) : mjoin (l ++ k) = mjoin l ++ mjoin k.
Proof. induction l as [|x l IH]; [done|]. rewrite <- app_comm_cons, !mjoin_cons, IH. by rewrite app_assoc. Qed.

Lemma words_loop_triples r : forall i src words t st,
  0 < Z.of_nat (length words) ->
  words_loop r i src (map chars words) t st =
    let ws := mjoin (map (triple words) (le32s r (i * 4) src)) in
    Some (t ++ mjoin (map (fun v => chars v ++ [" "%char]) ws), st ++ map chars ws).
Proof.
  induction r as [|r IH]; intros i src words t st Hn; cbn [words_loop le32s map]; [by rewrite !app_nil_r|].
  rewrite length_map. unfold word_indices. set (n := Z.of_nat (length words)) in *. set (x := le32 src (i * 4)).
  assert (forall y, map chars words !! Z.to_nat (y mod n) = Some (chars (word_at words (y mod n)))) as Hat.
  { intros y. pose proof (Z.mod_pos_bound y n Hn). change (map chars words) with (chars <$> words). rewrite list_lookup_fmap. unfold word_at.
    rewrite nth_lookup. destruct (lookup_lt_is_Some_2 words (Z.to_nat (y mod n))) as [w Hw]; [unfold n in *; lia|]. by rewrite Hw. }
  rewrite !Hat. cbn [mbind option_bind]. rewrite IH by done. cbv zeta. replace (S i * 4)%nat with (i * 4 + 4)%nat by lia.
  rewrite mjoin_cons. unfold triple at 3 4, word_indices. fold n. fold x. rewrite !map_app. cbn [map]. rewrite !mjoin_app.
  f_equal. f_equal; [|by rewrite <- app_assoc]. rewrite <- !app_assoc. cbn. f_equal. repeat (rewrite <- ?app_assoc; cbn). done.
Qed.

(** A language that knows none of the English words by their first letters. *)
Definition foreign (l : language) : Prop :=
  forall w, w ∈ WORDS_EN -> find_word towlower (trimmed_word_map l) (utf8prefix (chars w) (unique_prefix_length l)) = Some None.

Lemma find_english before L after ks seed :
  Forall foreign before -> is_english L -> Forall in_range ks -> ks <> [] -> seed = map chars (words_of ks) ->
  checksum_test towlower crc_32 seed L = Some true ->
  find_seed_language towlower crc_32 (before ++ L :: after) None seed true = Some (Some (ks, L)).
Proof.
  intros Hb HL Hks Hne -> Hc. induction Hb as [|l before Hl Hb IH]; cbn [app find_seed_language].
  - rewrite english_match by done. cbn [mbind option_bind]. by rewrite Hc.
  - destruct ks as [|k ks]; [done|]. assert (match_words towlower true l (map chars (words_of (k :: ks))) = Some None) as ->; [|done].
    cbn [words_of map match_words]. rewrite Hl; [done|]. pose proof (words_of_in (k :: ks) Hks) as Hin. by apply Forall_cons in Hin as [Hin _].
Qed.

(** The English seed of a key, as both sides write it: indices of 24 words, and the index of the checksum word. *)
Lemma english_seed b :
  bytes_ok b -> length b = 32%nat ->
  exists ks c, Forall in_range (ks ++ [c]) /\ length ks = 24%nat /\ bytesToMnemonic b WORDS_EN PREFIX_LEN_EN = Ok (words_of (ks ++ [c])) /\
    mjoin (map (triple WORDS_EN) (le32s 8 0 b)) = words_of ks /\
    words_of ks !! Z.to_nat (checksum_index (words_of ks) PREFIX_LEN_EN) = Some (word_at WORDS_EN c) /\
    ks = mjoin (map indices (le32s 8 0 b)) /\ mjoin (map le32_bytes (le32s 8 0 b)) = b /\ Forall (fun x => 0 <= x < 2 ^ 32) (le32s 8 0 b).
Proof.
  intros Hb Hlen. destruct (le32s_spec 8 0 b Hb ltac:(lia)) as (Hl & Hf & Hj). destruct (all_indices_ok _ Hf) as (H1 & H2 & H3).
  rewrite drop_0, take_ge in Hj by lia. set (ks := mjoin (map indices (le32s 8 0 b))) in *. rewrite Hl in H3.
  assert (0 <= checksum_index (words_of ks) PREFIX_LEN_EN < 24) as Hci.
  { assert (length (words_of ks) = 24%nat) as Hw by (unfold words_of; rewrite length_map; lia).
    pose proof (checksum_index_range (words_of ks) PREFIX_LEN_EN) as H. rewrite Hw in H. apply H. intros E. by rewrite E in Hw. }
  destruct (lookup_lt_is_Some_2 ks (Z.to_nat (checksum_index (words_of ks) PREFIX_LEN_EN))) as [c Hc]; [lia|].
  assert (words_of ks !! Z.to_nat (checksum_index (words_of ks) PREFIX_LEN_EN) = Some (word_at WORDS_EN c)) as Hcw.
  { by apply words_of_lookup. }
  exists ks, c. split_and!; [|lia| |done|done|done|done|done].
  - apply Forall_app. split; [done|]. apply Forall_singleton. by eapply Forall_lookup_1.
  - unfold bytesToMnemonic. rewrite Hlen, length_WORDS_EN. cbn [Nat.eqb negb]. rewrite bytesToMnemonic_loop_triples, H2. cbn [app].
    rewrite nth_lookup, Hcw. unfold words_of at 2. by rewrite map_app.
Qed.
End Node.

Lemma triples_loop_length rounds : forall i n ks dst, triples_loop rounds i n ks = Some (Some dst) -> length dst = (4 * rounds)%nat.
Proof.
  induction rounds as [|k IH]; intros i n ks dst; cbn [triples_loop]; [by intros [= <-]|].
  destruct (ks !! (i * 3)%nat), (ks !! (i * 3 + 1)%nat), (ks !! (i * 3 + 2)%nat); cbn [mbind option_bind]; try done.
  destruct (Cpp.words_value _ _ _ _); [|done]. destruct (triples_loop k _ _ _) as [[d|]|] eqn:E; cbn [mbind option_bind option_map]; try done.
  intros [= <-]. apply IH in E. cbn [length le32_bytes app]. lia.
Qed.

(** ** Theorems *)

(** C29: the node and the browser wallet write and read the same seeds.  For every 32-byte key, [bytes_to_words] of the node gives the words of
    wallet.js with spaces between them; and from that text [words_to_bytes] finds English, accepts the checksum and restores the key, whatever
    languages are tried after English, when those before know none of its words. *)
Theorem node_seeds_same towlower crc_32 (out before after : list language) L b :
  (forall c, 97 <= c <= 122 -> towlower c = c) -> (forall t, crc_32 t = crc32_ref (map code t)) ->
  English towlower = Some L -> last (filter (fun l => named (chars "English") l = true) out) = Some L -> Forall (foreign towlower) before ->
  bytes_ok b -> length b = 32%nat ->
  exists m, bytesToMnemonic b WORDS_EN PREFIX_LEN_EN = Ok m /\
    bytes_to_words towlower crc_32 out b (chars "English") = Some (Some (unwords m)) /\
    words_to_key towlower crc_32 (before ++ L :: after) (unwords m) = Some (Some (b, chars "English")).
Proof.
  intros Hlow Hcrc HE Hout Hbefore Hb Hlen. destruct (english_made towlower Hlow) as (L' & HL' & HL). rewrite HE in HL'. injection HL' as <-.
  destruct (english_seed b Hb Hlen) as (ks & c & Hin & H24 & Hm & Htri & Hc & Hks & Hbytes & Hf). exists (words_of (ks ++ [c])).
  pose proof (proj1 (proj1 (Forall_app _ _ _) Hin)) as Hin24. assert (ks <> []) as Hne by (intros E; by rewrite E in H24).
  assert (words_of (ks ++ [c]) = words_of ks ++ [word_at WORDS_EN c]) as Hsnoc by (unfold words_of; by rewrite map_app).
  split; [done|]. split.
  - unfold bytes_to_words. rewrite Hlen. cbn [Nat.modulo Nat.eqb negb orb]. change (32 mod 4 =? 0)%nat with true. cbn [negb orb].
    rewrite Hout, (en_words _ HL). change (32 / 4)%nat with 8%nat.
    rewrite words_loop_triples by (rewrite length_WORDS_EN; lia). cbv zeta. change (0 * 4)%nat with 0%nat. rewrite Htri. cbn [app mbind option_bind].
    rewrite (english_checksum towlower Hlow crc_32 Hcrc) by done. cbn [mbind option_bind].
    change (map chars (words_of ks)) with (chars <$> words_of ks). rewrite list_lookup_fmap, Hc. cbn [fmap option_fmap option_map mbind option_bind].
    by rewrite Hsnoc, unwords_snoc.
  - assert (split (unwords (words_of (ks ++ [c]))) = map chars (words_of (ks ++ [c]))) as Hsplit.
    { unfold split. rewrite split_unwords; [done|]. by apply words_of_in. }
    assert (checksum_test towlower crc_32 (map chars (words_of (ks ++ [c]))) L = Some true) as Htest.
    { rewrite Hsnoc. by apply english_checksum_test. }
    assert (length (map chars (words_of (ks ++ [c]))) = 25%nat) as H25 by (unfold words_of; rewrite !length_map, length_app, H24; done).
    unfold words_to_key, words_to_bytes. rewrite Hsplit, H25.
    change (32 mod 4 =? 0)%nat with true. change (32 * 8 * 3 / 32)%nat with 24%nat. cbn [Nat.add Nat.eqb Nat.div Nat.divmod fst snd Nat.sub negb andb orb].
    rewrite (find_english towlower Hlow crc_32 before L after (ks ++ [c])); [|done|done|done|by destruct ks|done|done].
    cbn [mbind option_bind]. rewrite Htest. cbn [mbind option_bind negb]. rewrite length_take, H25, (en_words _ HL), length_map, length_WORDS_EN.
    change (Nat.divmod (24 `min` 25) 2 0 2).1 with (length (le32s 8 0 b)).
    pose proof (triples_loop_indices (le32s 8 0 b) 0 [] [c] eq_refl Hf) as Hloop. cbn [app] in Hloop. rewrite <- Hks in Hloop.
    change (Z.of_nat 1626) with 1626. rewrite Hloop, Hbytes. cbn [mbind option_bind]. rewrite (en_name _ HL). cbn. by rewrite Hlen.
Qed.

(** Seeds of twelve words are never restored: the documentation promises that half the data is accepted and duplicated, but the number of
    words is compared with an eighth of the right one, so sixteen bytes come out and are refused as too few. *)
Theorem twelve_words_refused towlower crc_32 languages words r :
  length (split words) = 12%nat -> words_to_key towlower crc_32 languages words <> Some (Some r).
Proof.
  intros H12. unfold words_to_key, words_to_bytes. rewrite H12.
  change (32 mod 4 =? 0)%nat with true. change (32 * 8 * 3 / 32)%nat with 24%nat. change (32 * 3 / 32 / 2)%nat with 1%nat.
  cbn [Nat.add Nat.eqb Nat.div Nat.divmod fst snd Nat.sub negb andb orb].
  destruct (find_seed_language _ _ _ _ _ _) as [[[ks lang]|]|]; cbn [mbind option_bind]; [|done|done].
  destruct (triples_loop _ _ _ _) as [[dst|]|] eqn:E; cbn [mbind option_bind]; [|done|done].
  apply triples_loop_length in E. rewrite H12 in E |- *. cbn. by rewrite E.
Qed.

(** ** Concrete instances *)

(** Lower case in the C locale, and the checksum itself. *)
Definition ascii_lower (c : Z) : Z := if (65 <=? c) && (c <=? 90) then c + 32 else c.
Definition crc_text (t : text) : Z := crc32_ref (map code t).
(** A language without words. *)
Definition no_words : language := mk_language (chars "none") (chars "none") [] 1 ∅ ∅.

Lemma ascii_lower_lower c : 97 <= c <= 122 -> ascii_lower c = c.
Proof. intros H. unfold ascii_lower. destruct (Z.leb_spec 65 c), (Z.leb_spec c 90); (done || lia). Qed.

Lemma no_words_foreign : foreign ascii_lower no_words.
Proof.
  intros w Hw. destruct (english_word w Hw) as [Hl _]. cbn [no_words unique_prefix_length trimmed_word_map].
  rewrite utf8prefix_lower by done. unfold find_word. by rewrite (canonical_lower _ ascii_lower_lower) by (by apply lower_take).
Qed.

Lemma node_seeds_same_witness :
  exists L m, English ascii_lower = Some L /\ bytesToMnemonic (map Z.of_nat (seq 1 32)) WORDS_EN PREFIX_LEN_EN = Ok m /\
    bytes_to_words ascii_lower crc_text [no_words; L] (map Z.of_nat (seq 1 32)) (chars "English") = Some (Some (unwords m)) /\
    words_to_key ascii_lower crc_text ([no_words] ++ L :: [no_words]) (unwords m) = Some (Some (map Z.of_nat (seq 1 32), chars "English")).
Proof.
  destruct (english_made ascii_lower ascii_lower_lower) as (L & HL & HE).
  destruct (node_seeds_same ascii_lower crc_text [no_words; L] [no_words] [no_words] L (map Z.of_nat (seq 1 32))) as (m & H1 & H2 & H3);
    [apply ascii_lower_lower|intros t; reflexivity|exact HL| |apply Forall_singleton, no_words_foreign|apply (bool_decide_unpack _); vm_compute; exact I|reflexivity|].
  - assert (named (chars "English") L = true) as Hn by (unfold named; rewrite (en_name _ HE); vm_compute; reflexivity).
    rewrite filter_cons, decide_False by (vm_compute; discriminate). rewrite filter_cons, decide_True by exact Hn. reflexivity.
  - exists L, m. exact (conj HL (conj H1 (conj H2 H3))).
Defined.

Lemma twelve_words_refused_witness :
  let words := unwords (take 12 WORDS_EN) in
  length (split words) = 12%nat /\ words_to_key ascii_lower crc_text [no_words] words <> Some (Some (replicate 32 0, chars "English")).
Proof.
  assert (length (split (unwords (take 12 WORDS_EN))) = 12%nat) as H by (vm_compute; reflexivity).
  split; [exact H|]. apply (twelve_words_refused ascii_lower crc_text [no_words] (unwords (take 12 WORDS_EN)) _ H).
Defined.
