(* ===== verification/MinerData.v ===== *)
(** * MinerData: the dataset on both sides

    [setEpochSeed] of the Android miner (lattice_jni.c) fills the array all its threads read; [pool_build_dataset] (pool_verify.c) makes one
    for the pool server.  Bytes from Java are taken modulo 256; [alloc] is the memory [malloc] returns, [None] for NULL.  Both give the
    same dataset for the same seed, whatever the memory held and however often the seed was changed before. *)
From S2P Require Import Prelude Bytes Lattice LatticeSafety LatticeHash.
Local Open Scope Z_scope.

Section Dataset.
Context (uninit : string -> Z -> list Z).

(** The array [s], zeroed, with at most 32 bytes copied. *)
Definition epoch_bytes (seed : bytes) : bytes :=
  let n := Nat.min (length seed) 32 in
  map (fun x => x mod 256) (take n seed) ++ replicate (32 - n) 0.

(** The array after the call; [None] outside is an access out of bounds. *)
Definition setEpochSeed (alloc : option (list Z)) (g_dataset : option (list Z)) (seed : bytes) : option (option (list Z)) :=
  let s := epoch_bytes seed in
  let g_dataset := match g_dataset with None => alloc | Some ds => Some ds end in
  match g_dataset with
  | None => Some None
  | Some ds => ds ← lattice_build_dataset uninit s ds; Some (Some ds)
  end.

Definition pool_build_dataset (alloc : option (list Z)) (seed : bytes) : option (option (list Z)) :=
  match alloc with
  | None => Some None
  | Some ds => ds ← lattice_build_dataset uninit seed ds; Some (Some ds)
  end.

Fixpoint set_seeds (alloc : option (list Z)) (g_dataset : option (list Z)) (seeds : list bytes) : option (option (list Z)) :=
  match seeds with
  | [] => Some g_dataset
  | s :: rest => g ← setEpochSeed alloc g_dataset s; set_seeds alloc g rest
  end.
End Dataset.

Lemma epoch_bytes_ok seed : bytes_ok (epoch_bytes seed) /\ length (epoch_bytes seed) = 32%nat.
Proof.
  unfold epoch_bytes. split; [|rewrite length_app, length_map, length_take, length_replicate; lia].
  apply Forall_app. split; [apply Forall_map, Forall_true; intros x; apply Z.mod_pos_bound; lia|]. apply Forall_replicate. lia.
Qed.

Lemma epoch_bytes_id seed : bytes_ok seed -> length seed = 32%nat -> epoch_bytes seed = seed.
Proof.
  intros Hb Hl. unfold epoch_bytes. rewrite Hl, Nat.min_id, take_ge by lia. cbn [Nat.sub replicate]. rewrite app_nil_r.
  etransitivity; [|apply map_id]. apply map_ext_in. intros x Hx. apply list_elem_of_In in Hx.
  apply Z.mod_small. by apply (proj1 (Forall_forall _ _) Hb).
Qed.

Lemma set_seeds_length uninit alloc seeds : forall g g',
  sized uninit -> (forall ds, alloc = Some ds -> Z.of_nat (length ds) = DATASET_WORDS) -> (forall ds, g = Some ds -> Z.of_nat (length ds) = DATASET_WORDS) ->
  set_seeds uninit alloc g seeds = Some g' -> forall ds, g' = Some ds -> Z.of_nat (length ds) = DATASET_WORDS.
Proof.
  induction seeds as [|s seeds IH]; intros g g' Hu Ha Hg; cbn [set_seeds]; [intros [= <-]; exact Hg|].
  destruct (epoch_bytes_ok s) as [Hb Hl]. destruct (build_dataset_defined (epoch_bytes s) Hb Hl) as (d & [Hd _] & Hbuild).
  unfold setEpochSeed. set (start := match g with None => alloc | Some ds => Some ds end).
  assert (forall ds, start = Some ds -> Z.of_nat (length ds) = DATASET_WORDS) as Hs by (unfold start; destruct g; [exact Hg|exact Ha]).
  destruct start as [ds|]; cbn [mbind option_bind].
  - rewrite (Hbuild uninit ds Hu (Hs ds eq_refl)). cbn [mbind option_bind]. apply IH; [done|done|]. intros ds' Heq. injection Heq as <-. exact Hd.
  - apply IH; [done|done|]. intros ds Heq. discriminate Heq.
Qed.

(** The miner and the pool hash with the same dataset: after any seeds before, setting a 32-byte seed gives the miner exactly what the
    pool builds from it, in processes with different memory. *)
Theorem datasets_agree um up mem_m mem_p seeds seed g :
  sized um -> sized up -> Z.of_nat (length mem_m) = DATASET_WORDS -> Z.of_nat (length mem_p) = DATASET_WORDS ->
  bytes_ok seed -> length seed = 32%nat -> set_seeds um (Some mem_m) None seeds = Some g ->
  exists ds, words DATASET_WORDS ds /\ setEpochSeed um (Some mem_m) g seed = Some (Some ds) /\ pool_build_dataset up (Some mem_p) seed = Some (Some ds).
Proof.
  intros Hum Hup Hm Hp Hb Hl Hg. destruct (build_dataset_defined seed Hb Hl) as (ds & Hds & Hbuild). exists ds. split; [done|].
  assert (forall x, g = Some x -> Z.of_nat (length x) = DATASET_WORDS) as Hlen.
  { eapply (set_seeds_length um (Some mem_m) seeds None g); [done|intros x Heq; injection Heq as <-; exact Hm|intros x Heq; discriminate Heq|exact Hg]. }
  unfold setEpochSeed, pool_build_dataset. rewrite epoch_bytes_id by done. split.
  - destruct g as [x|]; cbn [mbind option_bind]; [rewrite (Hbuild um x Hum (Hlen x eq_refl))|rewrite (Hbuild um mem_m Hum Hm)]; reflexivity.
  - rewrite (Hbuild up mem_p Hup Hp). reflexivity.
Qed.
