(* ===== verification/Faucet.v ===== *)
(** * Faucet: the script that splits the faucet's balance (wordmine/payout/faucet_split.py)

    The script waits until enough is unlocked, creates five subaddresses and sends sixty coins to each in one transfer.  A call of the wallet
    answers any JSON value or raises; what is printed is left out, except that formatting a value of the wrong type raises.  [rounds]
    bounds the wait; [Ret false] is a run that still waits.  The theorem is about all answers: the script sends at most once, to the addresses
    it was given, and less than it saw unlocked. *)
From S2P Require Import Prelude JsCore Number Bytes Python Effects.
Local Open Scope Z_scope.
Local Open Scope glaciem_scope.

Definition N : nat := 5.
Definition CHUNK_GLAC : Z := 60.
Definition THRESHOLD : Z := Z.of_nat N * CHUNK_GLAC + 5.
Definition ATOMIC : Z := 10 ^ 12.

Inductive op : Type :=
| Post (method : string) (params : pyval)          (** the JSON of the answer; a refused connection or a text that is no JSON raises *)
| Sleep (seconds : Z).

Definition ret (o : op) : Type := match o with Post _ _ => pyval | Sleep _ => unit end.
Definition await (o : op) : prog ret (ret o) := call o.

Definition wallet (method : string) (params : pyval) : prog ret pyval :=
  let! j := await (Post method params) in
  let! failed := lift (py_in "error" j) in
  if failed : bool then Throw "RuntimeError: wallet error" else lift (py_get j "result" (PDict [])).

(** [v / ATOMIC] *)
Definition in_coins (v : pyval) : res number :=
  match v with
  | PInt z => py_truediv z ATOMIC
  | PBool b => py_truediv (if b then 1 else 0) ATOMIC
  | PFloat x => Ok (num_div x (num_of_Z ATOMIC))
  | _ => Err "TypeError: unsupported operand type(s) for /"
  end.

(** [v[:k]] for printing. *)
Definition py_slice (v : pyval) : res unit :=
  match v with
  | PStr _ | PList _ => Ok tt
  | _ => Err "TypeError: object is not subscriptable"
  end.

(** [while True], [true] when enough is unlocked. *)
Fixpoint wait_unlocked (rounds : nat) : prog ret bool :=
  match rounds with
  | O => Ret false
  | S r =>
      let! b := catch (let! b := wallet "get_balance" (PDict [("account_index"%string, PInt 0)]) in Ret (Some b)) (fun _ => Ret None) in
      match b with
      | None => do! await (Sleep 30) in wait_unlocked r
      | Some b =>
          let! total := lift (py_get b "balance" (PInt 0)) in
          let! _ := lift (in_coins total) in
          let! unlocked := lift (py_get b "unlocked_balance" (PInt 0)) in
          let! unlocked := lift (in_coins unlocked) in
          let! _ := lift (py_get b "blocks_to_unlock" (PInt 0)) in
          if num_leb (num_of_Z THRESHOLD) unlocked then Ret true
          else do! await (Sleep 30) in wait_unlocked r
      end
  end.

Definition label (i : nat) : string := "faucet-split-" +:+ string_of_Z (Z.of_nat i + 1).

(** [for i in range(N)], from [i] on. *)
Fixpoint create_subs (n i : nat) (subs : list pyval) : prog ret (list pyval) :=
  match n with
  | O => Ret subs
  | S m =>
      let! a := wallet "create_address" (PDict [("account_index"%string, PInt 0); ("label"%string, PStr (label i))]) in
      let! addr := lift (py_item a "address") in
      let! _ := lift (py_slice addr) in
      let! _ := lift (py_get a "address_index" PNone) in
      create_subs m (S i) (subs ++ [addr])
  end.

Definition destinations (subs : list pyval) : list pyval :=
  map (fun s => PDict [("address"%string, s); ("amount"%string, PInt (CHUNK_GLAC * ATOMIC))]) subs.

Definition split_params (subs : list pyval) : pyval :=
  PDict [("destinations"%string, PList (destinations subs)); ("account_index"%string, PInt 0);
         ("subaddr_indices"%string, PList [PInt 0]); ("priority"%string, PInt 1); ("get_tx_keys"%string, PBool false)].

(** The lines that print the transactions. *)
Fixpoint print_txs (hashes fees : list pyval) : res unit :=
  match hashes, fees with
  | h :: hs, f :: fs => let* _ := py_slice h in let* _ := in_coins f in print_txs hs fs
  | _, _ => Ok tt
  end.

Definition main (rounds : nat) : prog ret bool :=
  let! enough := wait_unlocked rounds in
  if negb enough then Ret false
  else
    let! subs := create_subs N 0 [] in
    let! tx := wallet "transfer_split" (split_params subs) in
    let! hashes := lift (py_get tx "tx_hash_list" (PList [])) in
    let! fees := lift (py_get tx "fee_list" (PList [])) in
    let! _ := lift (py_len hashes) in
    let! hashes := lift (py_iter hashes) in
    let! fees := lift (py_iter fees) in
    let! _ := lift (print_txs hashes fees) in
    Ret true.

(** ** All runs *)

(** The calls of a run with their answers. *)
Definition event : Type := {o : op & res (ret o)}.
Definition logging (log : list event) (o : op) (r : res (ret o)) (log' : list event) : Prop := log' = log ++ [existT o r].

Definition is_send (ev : event) : bool := match projT1 ev with Post m _ => String.eqb m "transfer_split" | Sleep _ => false end.
Definition silent (log : list event) : Prop := Forall (fun ev => is_send ev = false) log.

(** What [wallet] makes of an answer. *)
Definition answer_of (r : res pyval) : res pyval :=
  let* j := r in
  let* failed := py_in "error" j in
  if failed : bool then Err "RuntimeError: wallet error" else py_get j "result" (PDict []).

(** An answer that shows enough coins. *)
Definition enough_unlocked (ev : event) : Prop :=
  exists p r b v x, ev = existT (Post "get_balance" p) r /\ answer_of r = Ok b /\ py_get b "unlocked_balance" (PInt 0) = Ok v /\
    in_coins v = Ok x /\ num_leb (num_of_Z THRESHOLD) x = true.

(** An answer that gives an address. *)
Definition gives_address (s : pyval) (ev : event) : Prop :=
  exists p r a, ev = existT (Post "create_address" p) r /\ answer_of r = Ok a /\ py_item a "address" = Ok s.

Lemma wallet_wp {m p} (Q : res pyval -> list op -> list event -> Prop) tr log :
  (forall r, Q (answer_of r) (tr ++ [Post m p]) (log ++ [existT (Post m p) r])) -> wp logging Q (wallet m p) tr log.
Proof.
  intros H. unfold wallet. apply wp_bind, wp_call. intros r log' ->. specialize (H r). destruct r as [j|e]; cbn in *; [|done].
  apply wp_bind, wp_lift. destruct (py_in "error" j) as [[]|]; cbn in *; [done| |done]. by apply wp_lift.
Qed.

Lemma wp_try {A} (Q : res A -> list op -> list event -> Prop) (p : prog ret A) h : forall tr log,
  wp logging (fun r tr log => match r with Ok a => Q (Ok a) tr log | Err e => wp logging Q (h e) tr log end) p tr log ->
  wp logging Q (catch p h) tr log.
Proof. induction p as [a|e|o k IH]; intros tr log; cbn [wp catch]; [done|done|]. intros H r log' Hr. by apply IH, H. Qed.

Lemma silent_snoc log ev : silent log -> is_send ev = false -> silent (log ++ [ev]).
Proof. intros H1 H2. apply Forall_app. split; [done|by apply Forall_singleton]. Qed.

Lemma wait_silent rounds : forall tr log,
  silent log ->
  wp logging (fun out _ log' => silent log' /\ (out = Ok true -> exists pre ev, log' = pre ++ [ev] /\ enough_unlocked ev)) (wait_unlocked rounds) tr log.
Proof.
  induction rounds as [|r IH]; intros tr log Hs; cbn [wait_unlocked]; [by split|].
  assert (forall tr log, silent log ->
    wp logging (fun out _ log' => silent log' /\ (out = Ok true -> exists pre ev, log' = pre ++ [ev] /\ enough_unlocked ev))
      (do! await (Sleep 30) in wait_unlocked r) tr log) as Hsleep.
  { intros tr1 log1 H1. apply wp_bind, wp_call. intros a log2 ->. assert (silent (log1 ++ [existT (Sleep 30) a])) as H2 by (by apply silent_snoc).
    destruct a; [by apply IH|by split]. }
  apply wp_bind, wp_try. apply wp_bind, wallet_wp. intros a. set (p := PDict _). set (ev := existT (Post "get_balance" p) a).
  assert (silent (log ++ [ev])) as H1 by (by apply silent_snoc). destruct (answer_of a) as [b|e] eqn:Ea; cbn [wp]; [|by apply Hsleep].
  apply wp_bind, wp_lift. destruct (py_get b "balance" (PInt 0)) as [tot|]; [|by split].
  apply wp_bind, wp_lift. destruct (in_coins tot); [|by split].
  apply wp_bind, wp_lift. destruct (py_get b "unlocked_balance" (PInt 0)) as [v|] eqn:Ev; [|by split].
  apply wp_bind, wp_lift. destruct (in_coins v) as [x|] eqn:Ex; [|by split].
  apply wp_bind, wp_lift. destruct (py_get b "blocks_to_unlock" (PInt 0)); [|by split].
  destruct (num_leb (num_of_Z THRESHOLD) x) eqn:El; [|by apply Hsleep].
  split; [done|]. intros _. exists log, ev. split; [done|]. by exists p, a, b, v, x.
Qed.

Lemma create_silent n : forall i subs tr log,
  wp logging (fun out _ log' => exists evs, log' = log ++ evs /\ silent evs /\
    forall s, out = Ok s -> exists new, s = subs ++ new /\ length new = n /\ Forall2 gives_address new evs) (create_subs n i subs) tr log.
Proof.
  induction n as [|n IH]; intros i subs tr log; cbn [create_subs].
  { exists []. rewrite app_nil_r. split_and!; [done|by apply Forall_nil|]. intros s [= <-]. exists []. by rewrite app_nil_r. }
  apply wp_bind, wallet_wp. intros a. set (p := PDict _). set (ev := existT (Post "create_address" p) a).
  assert (silent [ev]) as H1 by (by apply Forall_singleton).
  assert (forall (e : string) (log' : list event), log' = log ++ [ev] -> exists evs, log' = log ++ evs /\ silent evs /\
    forall s, Err e = Ok s -> exists new, s = subs ++ new /\ length new = S n /\ Forall2 gives_address new evs) as Herr by (intros e log' ->; by exists [ev]).
  destruct (answer_of a) as [b|e] eqn:Ea; [|by apply Herr].
  apply wp_bind, wp_lift. destruct (py_item b "address") as [addr|] eqn:Eb; [|by apply Herr].
  apply wp_bind, wp_lift. destruct (py_slice addr); [|by apply Herr].
  apply wp_bind, wp_lift. destruct (py_get b "address_index" PNone); [|by apply Herr].
  eapply wp_mono; [|apply IH]. cbn. intros out _ log' (evs & -> & Hs & Hout). exists (ev :: evs). split_and!.
  - by rewrite <- app_assoc.
  - by apply Forall_cons.
  - intros s Heq. destruct (Hout s Heq) as (new & -> & Hl & Hf). exists (addr :: new). rewrite <- app_assoc. split_and!; [done|cbn; lia|].
    constructor; [|done]. by exists p, a, b.
Qed.

(** A run that sends: its last call is the transfer, the balance read last was enough, and the addresses were given since. *)
Definition sent_once (log : list event) : Prop :=
  exists pre balance given subs r, log = pre ++ [balance] ++ given ++ [existT (Post "transfer_split" (split_params subs)) r] /\
    silent (pre ++ [balance] ++ given) /\ enough_unlocked balance /\ Forall2 gives_address subs given /\ length subs = N.

Lemma main_sends rounds : wp logging (fun _ _ log => silent log \/ sent_once log) (main rounds) [] [].
Proof.
  unfold main. apply wp_bind. eapply wp_mono; [|apply wait_silent; by apply Forall_nil]. cbv beta. intros [ok|e] tr log [Hs Hok]; [|by left].
  destruct ok; cbn [negb]; [|by left]. destruct (Hok eq_refl) as (pre & ev & -> & Hev).
  apply wp_bind. eapply wp_mono; [|apply create_silent]. cbv beta. intros [subs|e] tr1 log1 (evs & -> & Hse & Hsubs); [|left; by apply Forall_app].
  destruct (Hsubs subs eq_refl) as (new & -> & Hlen & Hf). cbn [app].
  apply wp_bind, wallet_wp. intros r. set (last_call := existT (Post "transfer_split" (split_params new)) r : event).
  assert (sent_once (((pre ++ [ev]) ++ evs) ++ [last_call])) as Hsent.
  { exists pre, ev, evs, new, r. split_and!; [by rewrite <- !app_assoc| |done|done|done]. rewrite app_assoc. by apply Forall_app. }
  destruct (answer_of r) as [tx|]; [|by right].
  apply wp_bind, wp_lift. destruct (py_get tx "tx_hash_list" (PList [])) as [hashes|]; [|by right].
  apply wp_bind, wp_lift. destruct (py_get tx "fee_list" (PList [])) as [fees|]; [|by right].
  apply wp_bind, wp_lift. destruct (py_len hashes); [|by right].
  apply wp_bind, wp_lift. destruct (py_iter hashes) as [hs|]; [|by right].
  apply wp_bind, wp_lift. destruct (py_iter fees) as [fs|]; [|by right].
  apply wp_bind, wp_lift. destruct (print_txs hs fs); by right.
Qed.

(** The script sends at most once, and as its last call, whatever the wallet answers: then the balance read last had at least 305 coins
    unlocked, five addresses were given since, and sixty coins go to each of exactly these. *)
Theorem sends_once rounds tr log out : exec logging (main rounds) [] tr log out -> silent log \/ sent_once log.
Proof. intros Hexec. exact (wp_exec logging (fun _ _ log => silent log \/ sent_once log) _ _ _ _ _ Hexec [] (main_sends rounds)). Qed.
